(* ===== verification/_CoqProject ===== *)
-Q . S2P
Prelude.v
Monad.v
Json.v
Board.v
Models.v
Wellformed.v
Consumers.v
Preservation.v
Protocol.v
MoveSpec.v
Views.v
Otp.v
Gateway.v
Sessions.v
Routing.v
Schema.v
Replay.v
Workers.v
Rooms.v
Faults.v
Tasks.v
Async.v
Progress.v
Frames.v
