(* ===== verification/Prelude.v ===== *)
(** * Verification of the tic-tac-toe backend: overview and prelude

    The program is a Django/Channels server for two-player tic-tac-toe.
    A match is a row of the [Game] table (src/game/models.py); the two
    players talk to it over a websocket handled by [TicTacToeConsumer]
    (src/game/consumers.py).  Its handlers [connect], [receive],
    [disconnect] and [game_message] talk to the sockets and to the
    channel layer; its three database methods [get_game_state],
    [add_player_to_game] and [make_move] are the only code that changes
    a match once it exists.  The REST view set [GameViewSet]
    (src/game/views.py) creates matches ([create_game]), tells a user
    whether a match can be joined ([join_game]) and lists the matches
    of a user ([game_history]).  Around the game: the Celery tasks
    that mail one-time passwords and store them on the [User]
    (src/authenticate/task.py, src/authenticate/models.py), the table
    of the REST paths of the accounts (src/authenticate/urls.py) and
    the ASGI application that routes a websocket to the consumer of
    its room (src/tictactoe/routing.py).

    ** Files, in dependency order

    - [Prelude] (this file): Python exceptions as the type [exn], the
      pure error monad [Result] with the short-circuit [or] of Python
      conditions, subscripting and item assignment on lists, the list
      facts and the proof automation the other files use.
    - [Monad]: the state-and-exception monad [ST] of a handler, with
      [try_except] and the embedding of a computation over a part of
      the store.
    - [Json]: the values [json.loads] produces and [json.dumps]
      consumes, dictionaries as association lists, and the places
      where the code inspects an untyped value: the chained comparison
      [0 <= position <= 8], the use of [position] as an index,
      [data.get] and [event['message']].
    - [Board]: the nine-character board string of [Game.board]: the
      conversion [list(game.board)] / [''.join(board_list)], the table
      [winning_combinations], the test
      [all(board_list[i] == symbol for i in combo)] with the exceptions
      Python raises on a short list, and the scan for the first winning
      combination.
    - [Models]: the rows [User], [Game], [GameMove], the database
      [World] (tables as finite maps, the move log as a list, the error
      log), and the ORM calls the handlers make ([Game.objects.get],
      [User.objects.get], foreign-key access, [save], [create]).
    - [Wellformed]: the invariant of a match ([game_ok]) and of the
      database ([world_ok]: every row well formed, every foreign key of
      a row and of a recorded move with its target), as decidable
      predicates.
    - [Consumers]: [get_game_state], [add_player_to_game] and
      [make_move] transcribed statement by statement, with their
      [try]/[except] blocks; the guard and the result of a move as pure
      functions ([accepts], [played], [move_message], [record_move]);
      the exact result and world of each method on every branch.
    - [Preservation]: every call of a method keeps the invariant; along
      any sequence of calls a match only moves forward.
    - [Protocol]: the rules of the game as the players meet them: when
      a move is answered, how turns alternate, how a game ends.
    - [MoveSpec]: the match, the Move Validator and the Room
      Coordinator of the written specification as an abstract state
      machine (Module [Spec]), the abstraction function from a row and
      its recorded moves, and the refinement theorems.
    - [Views]: [create_game] with the loop that draws a room code no
      game has, [join_game] and [game_history], each with its
      [try]/[except]; the answer of each view as a function of the
      database.
    - [Otp]: the four tasks [sendEmailTask], [sendForgotEmailTask],
      [sendScheduleEmailTask] and [invalidateOTP] over the office of a
      worker (database, mail sent, periodic tasks, output), the lookup
      of a user by address, [UserProfile], and the invariant of the
      accounts.
    - [Gateway]: [connect], [receive], [disconnect], [game_message],
      the query-string parsing with the query strings it reads back,
      the channel layer (groups as sets of
      channel names) and the server as a transition system over the
      events [Connect], [Receive], [Disconnect]; the invariant of the
      server and the exact server each handler leaves.
    - [Sessions]: what each socket receives: after a join, an accepted
      or rejected move, a malformed frame, a disconnection; that rooms
      do not interfere and that a closed socket receives nothing.
    - [Routing]: routes as literal text and captures with the match
      of the regular expression they compile to, [path], the resolver,
      [static] and [urlpatterns] of the accounts; [ProtocolTypeRouter],
      [AuthMiddlewareStack], [URLRouter] and [application], whose
      result for a connection is the [Connect] event of the gateway.
    - [Schema]: types for JSON values, the types of the dictionaries
      the consumer sends and the types the specification documents.
    - [Replay]: the tie between the two places a move is written to,
      the [GameMove] rows and the board: the board of a game is the
      replay of its rows, and every handler keeps it so.
    - [Workers]: [add_player_to_game] and [make_move] cut between
      their reads and their writes, and several workers that advance
      their calls on one database by any schedule.
    - [Rooms]: the footprint of a database method as a judgement
      ([Rooms.local]: it reads the users and the row of one room and
      writes that row, moves of that room and the log), with a rule
      for each construct of the monad and each ORM call; databases up
      to the order of independent insertions ([≡]).
    - [Faults]: [make_move] over a database whose writes may raise,
      which is what its [except Exception] clause is for.
    - [Tasks]: the handlers as coroutines, cut at their [await]s, the
      [except] clauses included, and the lemmas that tie them to
      [Gateway]: a coroutine run without giving way is the handler.
    - [Async]: the consumers side by side: the server together with
      what is left of the handler each consumer runs, the actions of
      the event loop, and schedules as lists of actions.
    - [Progress]: the calls that play a game to its end, and the
      state of rest of the interleaved system.
    - [Frames]: the types of [Schema] for the interleaved system: the
      invariant on the sockets, on the events the channel layer holds
      and on what is left of every handler.

    ** How the model corresponds to the code

    - A model instance is a record; a foreign key is the primary key of
      the row it points to ([Z]); reading [game.player1] is a lookup in
      the user table that raises [ObjectDoesNotExist] when the row is
      missing.  Equality of model instances is equality of primary
      keys, as Django defines it.
    - [room_code] is declared unique, so the game table is a finite map
      keyed by it and [GameMove.game] is recorded by room code.
    - [User] sets [username = None] (src/authenticate/models.py:11), so
      every [x.username] the consumer sends is Python's [None]; the
      model keeps this ([username]) and the theorems state its
      consequences.
    - Every database method runs without a transaction: a write that
      happened before an exception stays.  The monad therefore returns
      the store also when it raises.  An ORM call of [Models] raises
      only [ObjectDoesNotExist]; [Faults] lets the writes of
      [make_move] raise any exception.
    - [position] arrives as an arbitrary JSON value.  Booleans are
      integers in Python, strings and [None] make the comparison raise
      [TypeError], floats pass the comparison and make the indexing
      raise; all of that is in [Json] and [Consumers.make_move].
    - A consumer instance is a record of its attributes and of its
      socket: accepted, closed, the frames sent so far.  A frame sent
      with [self.send(text_data=json.dumps(v))] is recorded as [v].
    - [jwt.decode] and [json.loads] are the interface
      [Gateway.Libraries]: the handlers are defined and their theorems
      proved for every implementation that raises only the exceptions
      the [except] clauses name.  The [user_id] claim of a token that
      verifies is taken to be an integer.
    - The channel layer is a map from group names to sets of channel
      names and a queue of events for the channels; [group_send] puts
      the event in the queue for every member, and a consumer runs
      [game_message] on an event of its channel when it is not running
      a handler.  In [Gateway] a handler runs to its end and the
      events it sent are handled before the next event of the server
      is.
    - In [Async] a handler gives way at every [await]: a step of a
      handler is what it does up to and including the operation it
      awaits, and between two steps any other consumer may start a
      handler, take an event of its channel or go on with its own
      handler.  A step that raises ends there, and the [except]
      clause, with the [close] or [send] it awaits, is the next step
      of the handler.  A consumer handles one message at a time.  The
      operation awaited is atomic: the database methods run one at a
      time in the one thread [database_sync_to_async] gives them, and
      the operations of the channel layer and of the socket are taken
      as one step each.  The schedules of [Async] are all the orders
      of the steps.  The event loop of asyncio resumes the handlers
      in the order in which what they wait for is done, and a handler
      whose synchronous statement raises enters its [except] clause
      at once: the schedules of the code are among those of the
      model, and some schedules of the model are not schedules of the
      code.  The theorems of [Async], [Frames] and [Progress] on
      every schedule therefore hold of the code; none of them states
      that a given schedule can happen.
    - In [Workers] the one thread is given up: a worker is a server
      process of its own on the same database.  A method is cut once,
      where it stops reading and starts writing; each part runs inside
      the [except] clauses of the method, and the locals of the first
      part (the copy of the row, the users) are what the second part
      writes.  The code makes every ORM call an access of its own, so
      every schedule of the model is one of the code.
    - A view runs for the authenticated user of the request and
      returns a [Views.Response], a JSON body with a status code.  The
      codes [random.choices] draws are an argument of [create_game]: a
      list of draws, each the six indices picked in the alphabet.
      [str(e)] and [GameMoveSerializer], which is not among the
      sources, are parameters.  [room_code] of a request is a string or
      absent.  [game_history] has no [order_by]: the model lists the
      rows by room code.
    - The timestamps [created_at], [updated_at] of [Game] and
      [created_at] of [GameMove] are not modelled: the database sets
      them and no handler reads them.  The key [id] of a [GameMove]
      is its place in the table.  [Game.status] is one of the three
      choices of [GAME_STATUS], the only values the code stores.
    - A task runs over [Otp.Office].  The integer [random.randint]
      draws is an argument of the task ([Otp.random_randint] maps any
      integer into the range); the templates and the SMTP server are the
      interface [Otp.Mailer]; [send_mail] raises when the server
      refuses the message, as [fail_silently=False] makes it.
      [user_obj.otp = otp] stores the text [str(otp)], which is what
      the [CharField] holds.  The periodic tasks are a map from their
      unique name to their [enabled] flag.
    - A route is a list of literal pieces and captures.  The converter
      [str] of [path] takes one or more characters other than a slash;
      the route of the consumer takes word characters; a capture is
      greedy and gives back characters while the rest does not match,
      and a route matches a whole path.  Strings are sequences of
      ASCII characters.  [static] is the function of Django:
      [ImproperlyConfigured] for an empty prefix, no pattern outside
      [DEBUG] or for a prefix with a host, and otherwise the pattern
      of the prefix followed by [.*], whose dot takes no newline;
      [urlpatterns] is therefore a [Result].  The host of a prefix,
      [urlsplit(prefix).netloc], is the interface [Routing.Urllib].
      The module [game.routing], from which src/tictactoe/routing.py
      imports [websocket_urlpatterns], is not among the sources: the
      model takes the table to be the one route
      [ws/game/<room_code>/] the [websocket_url] of [create_game] is
      made for, and what is proved of [application] is proved for
      that table.  The user of the session is a field of the scope,
      which [AuthMiddlewareStack] copies and the consumer never
      reads.

    ** What the theorems show

    - [Board]: the scan returns the first winning combination of the
      table and only such a one, and never raises on nine cells.
    - [Consumers]: for every input the exact result and world of each
      method: which guard rejects, what an accepted move writes, which
      message is returned; a rejected move writes nothing.
    - [Preservation]: every call keeps every match well formed (board
      of nine cells over [-XO], marks consistent with the turn, status,
      winner and move log); the status never goes back, player 2 is
      assigned once, a mark stays in its cell, and the recorded moves
      are as many as the marks, so at most nine.
    - [Protocol]: a move is answered exactly when it is legal; turns
      alternate; a cell is played once; a move wins exactly when it
      completes a line and draws exactly when it fills the board
      without one; and the places where the code departs from its
      specification: names that are always [null], the turn kept on
      completion, booleans taken as positions.
    - [MoveSpec]: [make_move] implements [submitMove] and
      [add_player_to_game] implements [attach]: the abstract state
      after the call is the one the specification computes, and a
      message is returned exactly when the specification accepts; the
      message reports the outcome of the validator.  A lemma ties the
      two invariants: every row of a well-formed database satisfies
      what the specification states of a match.  The abstraction forgets what the code keeps and the specification
      drops: the turn of a completed match.
    - [Views]: [create_game] ends as soon as a fresh code is drawn,
      inserts the pending row under a code no game had and keeps the
      database well formed; [join_game] writes nothing and answers by
      its table of cases, and says yes exactly when the connection
      that follows makes the caller the second player; [game_history]
      lists exactly the matches the caller plays in.
    - [Replay]: whatever events happen, each board is what the
      recorded moves of its game give when played in order on the
      empty board, the moves of a game are made by its two players in
      turn, no cell is recorded twice, and the recorded moves are only
      appended to; so the history [game_history] hands out determines
      every board.
    - [Tasks], [Async]: under every schedule the database stays well
      formed, the boards stay the replay of the recorded moves and
      the games only move forward.  Lemmas tie the models together:
      a coroutine run without giving way is the handler of
      [Gateway], and the atomic handling of an event in [Gateway] is
      one of the schedules of [Async].
    - [Workers]: two calls that both read before either writes are both answered
      while one write is lost: two moves are recorded for one mark on
      the board, two users are told they joined a room that has one
      seat.  The invariant of [Preservation] is thus the invariant of
      a single server process, not of the code on its own.  Lemmas
      tie the model to [Consumers]: a call whose parts run one after
      the other is the method, and workers that take their turns one
      call after the other are the sequence of calls of
      [Preservation].
    - [Rooms]: the three methods and their parts are local to their
      room, by the rules; hence two calls on different rooms commute,
      and workers whose calls are on different rooms, however many and
      however scheduled, end with the answers and the database of the
      calls run one after the other.  The databases are equal up to
      [≡], which the invariant respects.  Together with [Workers]:
      the one thing several processes need that the code does not
      have is mutual exclusion per room.
    - [Faults]: when [GameMove.objects.create] raises, an accepted
      move is dropped without a word; when [game.save()] raises after
      it, the move stays in the history and not on the board, the
      invariant is lost and the same submission is accepted again:
      the method has two writes and no transaction.
    - [Otp]: whatever tasks run, the accounts stay well formed and the
      games untouched; a stored password has six characters; the
      password stored is the one mailed; and what the tasks do when
      the address is unknown: the mail goes out and nothing is stored,
      [invalidateOTP] leaves its periodic task enabled.
    - [Routing]: [urlpatterns] fails to load exactly when [DEBUG] is
      set and [MEDIA_URL] is empty, and otherwise the resolver on it
      is the table of the eight paths, followed under [DEBUG] by the
      files under a local media prefix; and end to end, for the route
      table taken for [game.routing], a websocket opened at the URL
      [create_game] answered, with the token of another user, makes
      that user the second player of the game created.
    - [Schema], [Frames]: every frame ever sent has one of the six
      types of the code, when the handlers run one at a time and when
      they give way at their [await]s, under every schedule; against
      the documented types the names are always [null], a boolean
      position is echoed, and error frames have no [action].
    - [Progress]: a game in progress always has an accepted move for
      the player to move and is completed by at most as many moves as
      it has empty cells; from every state of the interleaved system a
      schedule leads to a state where no consumer has anything to do.
    - [Gateway], [Sessions]: the token [connect] reads from a query
      string of pairs is the value of the last pair with the key
      [token]; every event keeps the server well formed
      (members of groups are open sockets of the room of the group);
      the frames each socket receives after each kind of event; rooms
      are isolated; members of a group hear the same frames; a closed
      socket hears nothing; and again the departures from the
      specification: a rejected move and an unknown action are
      answered with silence, an unknown room leaves the socket open, a
      malformed query string escapes the handler.

    ** Bounds and fuel

    One loop of the code has no bound: [create_game] draws room codes
    until it draws one no game has.  [Views.unique_code] runs it over
    the list of draws it is given and returns [None] when the list
    ends first; [Views.unique_code_terminates] shows that a list with
    one fresh draw is enough, which is the hypothesis of the theorem on
    [create_game].  Every other loop ranges over a fixed list (the
    eight combinations, the three indices of a combination, the
    characters of the board, the members of a group, the games of a
    user) and is a structural [Fixpoint].  A [Tasks.Task] is an
    inductive type, so a handler has finitely many steps by
    construction.  A schedule of [Async] is a finite list of actions of any length;
    the theorems quantify over all of them.  [Progress.play_out] takes
    fuel, one unit for a move: a board has nine cells, and
    [Progress.game_can_be_finished] shows that nine units complete
    every game in progress.  A call of [Workers] is an inductive
    [Proc] and has finitely many steps; [Rooms.local_proc] counts
    them, and two are enough for every method.  The match of a route
    recurses on the route and, inside a capture, on the path.  Primary keys and
    positions are Python integers, which do not overflow: they are
    [Z]; the password is an integer of six digits, written in decimal
    by stdpp's [pretty].

    ** Not modelled

    - Workers that interleave inside the reads or inside the writes
      of a method (the cut of [Workers] is the coarsest one), and
      database transactions, which the code does not open.
    - A database that fails at a read, or in a method other than
      [make_move].  The turn switch of [make_move] reads after the
      move is recorded, and a failure there leaves what a failing
      save leaves; every other read comes before the first write, and
      the other methods have a single write.
    - The cancellation of a handler when its socket goes, the
      capacity and expiry of the channel layer, and the order in
      which the event loop resumes the handlers that are ready: the
      model allows every order.
    - Authentication of a REST request ([JWTAuthentication],
      [IsAuthenticated]) and the routing of the view set: a view runs
      for a user already authenticated; a [room_code] in a request
      that is not a string.
    - The broker, the retries and the scheduler of Celery: a task is
      run once, to its end; the content of the mail templates.
    - The views of the accounts (sign in, sign up, password reset,
      profile), which are not among the sources: [urlpatterns] names
      them.  The parser [urlsplit], of which [static] uses the host.
      The module [game.routing].  The resolution of a session cookie
      to a user.
    - Paths and room codes outside ASCII. *)

From stdpp Require Import base tactics option list.

(** ** Python exceptions

    The exception classes the modelled code can meet.  [JSONDecodeError]
    is a subclass of [ValueError] and every class is a subclass of
    [Exception]; the handlers only ever test for one named class or for
    [Exception], so the hierarchy is the two predicates below. *)

Inductive exn : Type :=
| ObjectDoesNotExist
| TypeError
| IndexError
| AttributeError
| KeyError
| ValueError
| JSONDecodeError
| InvalidTokenError
| RuntimeError
| IntegrityError
| MultipleObjectsReturned
| SMTPException
| OperationalError
| ImproperlyConfigured.

#[export] Instance exn_eq_dec : EqDecision exn.
Proof. solve_decision. Defined.

(** [isinstance(e, cls)] for the classes named in [except] clauses. *)
Definition isinstance (e cls : exn) : bool :=
  match cls, e with
  | ValueError, JSONDecodeError => true
  | _, _ => bool_decide (e = cls)
  end.

(** ** The pure error monad *)

Inductive Result (A : Type) : Type :=
| Raise (e : exn)
| Ok (x : A).

Arguments Raise {A} e.
Arguments Ok {A} x.

#[export] Instance Result_ret : MRet Result := λ A x, Ok x.

#[export] Instance Result_bind : MBind Result := λ A B f m,
  match m with
  | Raise e => Raise e
  | Ok x => f x
  end.

#[export] Instance Result_fmap : FMap Result := λ A B f m,
  match m with
  | Raise e => Raise e
  | Ok x => Ok (f x)
  end.

(** Python's [a or b] on conditions that may raise: [b] is evaluated
    only when [a] is false. *)
Definition or_else (a b : Result bool) : Result bool :=
  a ≫= λ x : bool, if x then mret true else b.

(** Python's [a and b], likewise. *)
Definition and_then (a b : Result bool) : Result bool :=
  a ≫= λ x : bool, if x then b else mret false.

Declare Scope py_scope.
Delimit Scope py_scope with py.
Infix "|||" := or_else (at level 50, left associativity) : py_scope.
Infix "&&&" := and_then (at level 40, left associativity) : py_scope.

(** [l[i]] on a Python list with a non-negative index. *)
Definition getitem {A : Type} (l : list A) (i : nat) : Result A :=
  match l !! i with
  | Some x => mret x
  | None => Raise IndexError
  end.

(** [l[i] = x] on a Python list with a non-negative index. *)
Definition setitem {A : Type} (l : list A) (i : nat) (x : A) : Result (list A) :=
  if decide (i < length l) then mret (<[i:=x]> l) else Raise IndexError.

(** [sum(1 for x in l if p(x))]. *)
Fixpoint count_by {A : Type} (p : A → bool) (l : list A) : nat :=
  match l with
  | [] => 0
  | x :: l' => (if p x then 1 else 0) + count_by p l'
  end.

(** ** Automation *)

(** Case analysis on the scrutinee of the first [match] of the goal. *)
Ltac destruct_match :=
  match goal with
  | |- context [match ?x with _ => _ end] => destruct x eqn:?
  end.

(** Close a decidable statement about concrete data by evaluation. *)
Ltac by_compute :=
  lazymatch goal with
  | |- _ = _ => vm_compute; reflexivity
  | |- _ => first [ apply (bool_decide_unpack _); vm_compute; reflexivity
                  | reflexivity ]
  end.

(** Unfold one monadic step of [Result]. *)
Ltac result_simpl :=
  repeat (cbn [mbind mret fmap Result_bind Result_ret Result_fmap] in *;
          simplify_eq).

Create HintDb py discriminated.
Create Rewrite HintDb py.

(** ** Lemmas on [Result] *)

Section result.
Context {A B : Type}.
Implicit Types (m : Result A) (f : A → Result B) (x : A) (e : exn).

Lemma bind_inr f x : Ok x ≫= f = f x.
Proof. done. Qed.

Lemma bind_inl f e : (Raise e : Result A) ≫= f = Raise e.
Proof. done. Qed.

Lemma bind_inr_inv m f (y : B) :
  m ≫= f = Ok y → ∃ x, m = Ok x ∧ f x = Ok y.
Proof. destruct m as [e|x]; [done|]. by exists x. Qed.

Lemma bind_inl_inv m f e :
  m ≫= f = Raise e → m = Raise e ∨ ∃ x, m = Ok x ∧ f x = Raise e.
Proof. destruct m as [e'|x]; result_simpl; eauto. intros [= ->]. by left. Qed.

End result.

Section or_else.
Implicit Types (a b : Result bool).

Lemma or_else_true b : (Ok true ||| b)%py = Ok true.
Proof. done. Qed.

Lemma or_else_false b : (Ok false ||| b)%py = b.
Proof. done. Qed.

Lemma or_else_raise e b : (Raise e ||| b)%py = Raise e.
Proof. done. Qed.

Lemma or_else_inr_false a b :
  (a ||| b)%py = Ok false ↔ a = Ok false ∧ b = Ok false.
Proof.
  split; [|by intros [-> ->]].
  destruct a as [e|[]]; [done..|]. by rewrite or_else_false.
Qed.

Lemma or_else_inr_true a b :
  (a ||| b)%py = Ok true ↔ a = Ok true ∨ (a = Ok false ∧ b = Ok true).
Proof.
  split; [|by intros [->|[-> ->]]].
  destruct a as [e|[]]; [done|by left|]. rewrite or_else_false. by right.
Qed.

End or_else.

(** ** Lemmas on lists as Python lists *)

Section pylist.
Context {A : Type}.
Implicit Types (l : list A) (i : nat) (x y : A) (p : A → bool).

Lemma getitem_inr l i x : getitem l i = Ok x ↔ l !! i = Some x.
Proof. unfold getitem. destruct (l !! i); split; by intros [= ->]. Qed.

Lemma getitem_raise l i e : getitem l i = Raise e ↔ e = IndexError ∧ length l ≤ i.
Proof.
  unfold getitem. destruct (l !! i) eqn:H.
  - apply lookup_lt_Some in H. split; [done|]. intros [_ ?]. lia.
  - apply lookup_ge_None in H. split; [by intros [= <-]|by intros [-> _]].
Qed.

Lemma getitem_lt l i : i < length l → ∃ x, getitem l i = Ok x.
Proof.
  intros [x Hx]%lookup_lt_is_Some. exists x. by apply getitem_inr.
Qed.

Lemma setitem_inr l i x l' :
  setitem l i x = Ok l' ↔ i < length l ∧ l' = <[i:=x]> l.
Proof.
  unfold setitem. case_decide; split; try (by intros [= <-]); [by intros [_ ->]|].
  intros [? _]. lia.
Qed.

Lemma setitem_lt l i x : i < length l → setitem l i x = Ok (<[i:=x]> l).
Proof. intros. by apply setitem_inr. Qed.

Lemma setitem_length l i x l' : setitem l i x = Ok l' → length l' = length l.
Proof. intros [_ ->]%setitem_inr. apply length_insert. Qed.

Lemma count_by_app p l1 l2 : count_by p (l1 ++ l2) = count_by p l1 + count_by p l2.
Proof. induction l1 as [|x l1 IH]; simpl; [done|]. rewrite IH. lia. Qed.

Lemma count_by_le p l : count_by p l ≤ length l.
Proof. induction l as [|x l IH]; simpl; [done|]. destruct (p x); lia. Qed.

(** Overwriting a cell that did not count with one that does adds one. *)
Lemma count_by_insert p l i x y :
  l !! i = Some x → p x = false → p y = true →
  count_by p (<[i:=y]> l) = S (count_by p l).
Proof.
  intros Hi Hx Hy. revert i Hi.
  induction l as [|z l IH]; intros [|i] Hi; simplify_eq/=.
  - by rewrite Hx, Hy.
  - by rewrite (IH i).
Qed.

(** Overwriting a cell with one of the same count changes nothing. *)
Lemma count_by_insert_same p l i x y :
  l !! i = Some x → p x = p y → count_by p (<[i:=y]> l) = count_by p l.
Proof.
  intros Hi Hxy. revert i Hi.
  induction l as [|z l IH]; intros [|i] Hi; simplify_eq/=.
  - by rewrite Hxy.
  - by rewrite (IH i).
Qed.

Lemma count_by_all_false p l : Forall (λ x, p x = false) l → count_by p l = 0.
Proof. induction 1 as [|x l Hx _ IH]; simpl; [done|]. by rewrite Hx, IH. Qed.

Lemma count_by_zero p l : count_by p l = 0 → Forall (λ x, p x = false) l.
Proof.
  induction l as [|x l IH]; simpl; [by constructor|].
  destruct (p x) eqn:Hx; [done|]. intros. constructor; auto.
Qed.

Lemma count_by_full p l : count_by p l = length l ↔ Forall (λ x, p x = true) l.
Proof.
  induction l as [|x l IH]; simpl; [by split; [constructor|]|].
  pose proof (count_by_le p l). rewrite Forall_cons.
  destruct (p x); [rewrite <-IH|]; split; try lia; naive_solver lia.
Qed.

Lemma filter_all (P : A → Prop) `{!∀ x, Decision (P x)} l :
  Forall P l → filter P l = l.
Proof.
  induction 1 as [|x l Hx _ IH]; [done|]. by rewrite filter_cons_True, IH.
Qed.

Lemma filter_none (P : A → Prop) `{!∀ x, Decision (P x)} l :
  Forall (λ x, ¬ P x) l → filter P l = [].
Proof.
  induction 1 as [|x l Hx _ IH]; [done|]. by rewrite filter_cons_False, IH.
Qed.

End pylist.

#[export] Hint Rewrite @bind_inr @bind_inl or_else_true or_else_false
  or_else_raise : py.
#[export] Hint Rewrite @setitem_lt using (simpl; lia) : py.
