(* ===== verification/Monad.v ===== *)
(** * The monad of a handler

    A handler reads and writes a store and either returns a value or
    raises.  What it wrote before it raised stays written: the handlers
    run without a transaction, and a Python object mutated before an
    exception stays mutated.  [ST S A] is the type of such a computation
    over a store [S]; the database methods run over the tables, the
    websocket handlers over the whole server, and [embed] runs a
    computation over a part of the store inside one over the whole. *)

From stdpp Require Import base option list.
From S2P Require Import Prelude.

Record ST (S A : Type) : Type := MkST { run : S → Result A * S }.
Arguments MkST {S A} _.
Arguments run {S A} _ _.

#[export] Instance ST_ret {S} : MRet (ST S) := λ A x, MkST (λ s, (Ok x, s)).

#[export] Instance ST_bind {S} : MBind (ST S) := λ A B f m,
  MkST (λ s, match run m s with
             | (Raise e, s') => (Raise e, s')
             | (Ok x, s') => run (f x) s'
             end).

(** A pure computation inside a handler. *)
Definition lift {S A : Type} (r : Result A) : ST S A := MkST (λ s, (r, s)).

(** [raise e]. *)
Definition raise {S A : Type} (e : exn) : ST S A := lift (Raise e).

(** [try: body / except Exception as e: handler(e)]. *)
Definition try_except {S A : Type} (body : ST S A) (handler : exn → ST S A) : ST S A :=
  MkST (λ s, match run body s with
             | (Raise e, s') => run (handler e) s'
             | (Ok x, s') => (Ok x, s')
             end).

(** The store, read and replaced. *)
Definition get_store {S : Type} : ST S S := MkST (λ s, (Ok s, s)).
Definition modify {S : Type} (f : S → S) : ST S unit := MkST (λ s, (Ok tt, f s)).

(** A computation over a part [S] of a store [T], run on the whole. *)
Definition embed {S T A : Type} (part : T → S) (update : T → S → T)
    (m : ST S A) : ST T A :=
  MkST (λ t, let (r, s') := run m (part t) in (r, update t s')).

(** ** Laws *)

Section laws.
Context {S A B : Type}.
Implicit Types (s : S) (x : A) (e : exn) (m : ST S A) (f : A → ST S B).

Lemma run_ret x s : run (mret x) s = (Ok x, s).
Proof. done. Qed.

Lemma run_bind m f s :
  run (m ≫= f) s =
    match run m s with
    | (Raise e, s') => (Raise e, s')
    | (Ok x, s') => run (f x) s'
    end.
Proof. done. Qed.

Lemma run_bind_ok m f s x s' :
  run m s = (Ok x, s') → run (m ≫= f) s = run (f x) s'.
Proof. intros H. by rewrite run_bind, H. Qed.

Lemma run_bind_raise m f s e s' :
  run m s = (Raise e, s') → run (m ≫= f) s = (Raise e, s').
Proof. intros H. by rewrite run_bind, H. Qed.

Lemma run_lift (r : Result A) s : run (lift r) s = (r, s).
Proof. done. Qed.

Lemma run_raise e s : run (raise e : ST S A) s = (Raise e, s).
Proof. done. Qed.

Lemma run_try_ok m (h : exn → ST S A) s x s' :
  run m s = (Ok x, s') → run (try_except m h) s = (Ok x, s').
Proof. intros H. unfold try_except. simpl. by rewrite H. Qed.

Lemma run_try_raise m (h : exn → ST S A) s e s' :
  run m s = (Raise e, s') → run (try_except m h) s = run (h e) s'.
Proof. intros H. unfold try_except. simpl. by rewrite H. Qed.

Lemma run_try m (h : exn → ST S A) s :
  run (try_except m h) s =
    match run m s with
    | (Raise e, s') => run (h e) s'
    | (Ok x, s') => (Ok x, s')
    end.
Proof. done. Qed.

(** The body of a [try] is what it does. *)
Lemma run_try_ext m m' (h : exn → ST S A) s :
  run m s = run m' s → run (try_except m h) s = run (try_except m' h) s.
Proof. intros Hm. by rewrite !run_try, Hm. Qed.

Lemma run_get_store s : run get_store s = (Ok s, s).
Proof. done. Qed.

Lemma run_modify (g : S → S) s : run (modify g) s = (Ok tt, g s).
Proof. done. Qed.

(** A handler that catches everything does not raise. *)
Lemma run_try_total m (h : exn → ST S A) s :
  (∀ e s', ∃ x s'', run (h e) s' = (Ok x, s'')) →
  ∃ x s', run (try_except m h) s = (Ok x, s').
Proof.
  intros Hh. destruct (run m s) as [[e|x] s'] eqn:Hm.
  - erewrite run_try_raise by exact Hm. apply Hh.
  - erewrite run_try_ok by exact Hm. eauto.
Qed.

End laws.

Lemma run_bind_assoc {S A B C : Type} (m : ST S A) (f : A → ST S B) (g : B → ST S C) s :
  run ((m ≫= f) ≫= g) s = run (m ≫= λ x, f x ≫= g) s.
Proof. rewrite !run_bind. by destruct (run m s) as [[e|x] s']; [|rewrite run_bind]. Qed.

(** Two computations that start with the same statement. *)
Lemma run_bind_ext {S A B : Type} (m : ST S A) (f g : A → ST S B) s :
  (∀ x s', run (f x) s' = run (g x) s') → run (m ≫= f) s = run (m ≫= g) s.
Proof. intros Hfg. rewrite !run_bind. by destruct (run m s) as [[e|x] s']. Qed.

Lemma run_ret_bind {S A B : Type} (x : A) (f : A → ST S B) s :
  run (mret x ≫= f) s = run (f x) s.
Proof. by rewrite run_bind, run_ret. Qed.

Lemma run_bind_ret {S A : Type} (m : ST S A) s : run (x ← m; mret x) s = run m s.
Proof. rewrite run_bind. by destruct (run m s) as [[e|x] s']. Qed.

Section embed.
Context {S T A : Type} (part : T → S) (update : T → S → T).
Implicit Types (t : T) (m : ST S A).

Lemma run_embed m t :
  run (embed part update m) t = ((run m (part t)).1, update t (run m (part t)).2).
Proof. unfold embed. simpl. by destruct (run m (part t)). Qed.

Lemma run_embed_eq m t r s' :
  run m (part t) = (r, s') → run (embed part update m) t = (r, update t s').
Proof. intros H. by rewrite run_embed, H. Qed.

End embed.

#[export] Hint Rewrite @run_ret @run_lift @run_raise @run_get_store @run_modify : py.
