(* ===== verification/Json.v ===== *)
(** * JSON values as Python sees them

    [json.loads] turns a text frame into Python values and the handlers
    inspect them without checking their type first.  This file holds the
    value type and the Python operations the handlers apply to a value
    whose type they do not know: the chained comparison
    [0 <= position <= 8], the use of the value as an index, and the
    conversion [int(position)] Django applies when it stores an
    [IntegerField]. *)

From stdpp Require Import base list strings.
From Stdlib Require Import PrimFloat.
From S2P Require Import Prelude.

#[local] Set Warnings "-clear-no-such-hyp".

#[local] Set Warnings "-register-all".

(** [None], [bool], [int], [float], [str], [list], [dict]. *)
Inductive json : Type :=
| JNull
| JBool (b : bool)
| JInt (z : Z)
| JFloat (f : float)
| JStr (s : string)
| JArr (l : list json)
| JObj (kv : list (string * json)).

(** A [str] that may be [None], as a JSON value. *)
Definition of_optional_str (o : option string) : json :=
  match o with
  | Some s => JStr s
  | None => JNull
  end.

(** A list of [int] as a JSON array. *)
Definition of_nat_list (l : list nat) : json := JArr (JInt ∘ Z.of_nat <$> l).

(** [d.get(key)] on the items of a [dict]: the value of the first item
    with that key ([dict] keys are unique, so of the only one). *)
Fixpoint items_get (kv : list (string * json)) (key : string) : option json :=
  match kv with
  | [] => None
  | (k, v) :: kv' => if decide (k = key) then Some v else items_get kv' key
  end.

(** The entry of an object under a key; [None] when the value is not an
    object or has no such key. *)
Definition entry (d : json) (key : string) : option json :=
  match d with
  | JObj kv => items_get kv key
  | JNull | JBool _ | JInt _ | JFloat _ | JStr _ | JArr _ => None
  end.

(** [d.get(key)] for an untyped [d]: the value, [None] when the
    dictionary has no such key, [AttributeError] when [d] is not a
    dictionary. *)
Definition dict_get (d : json) (key : string) : Result json :=
  match d with
  | JObj kv => Ok (default JNull (items_get kv key))
  | JNull | JBool _ | JInt _ | JFloat _ | JStr _ | JArr _ => Raise AttributeError
  end.

(** [d[key]] for a dictionary [d]. *)
Definition dict_getitem (d : json) (key : string) : Result json :=
  match entry d key with
  | Some v => Ok v
  | None => Raise KeyError
  end.

(** [v == s] for a string literal [s]. *)
Definition eq_str (v : json) (s : string) : bool :=
  match v with
  | JStr s' => bool_decide (s' = s)
  | JNull | JBool _ | JInt _ | JFloat _ | JArr _ | JObj _ => false
  end.

(** [int(b)] for a [bool]. *)
Definition int_of_bool (b : bool) : Z := if b then 1%Z else 0%Z.

(** [0 <= v <= 8] for an untyped [v], that is [0 <= v and v <= 8]:
    [bool] compares as [int], [float] compares numerically (a NaN
    compares false), every other type raises [TypeError] at the first
    comparison. *)
Definition chained_le_0_8 (v : json) : Result bool :=
  match v with
  | JInt z => Ok (bool_decide (0 ≤ z)%Z && bool_decide (z ≤ 8)%Z)
  | JBool b =>
      Ok (bool_decide (0 ≤ int_of_bool b)%Z && bool_decide (int_of_bool b ≤ 8)%Z)
  | JFloat f => Ok (PrimFloat.leb 0%float f && PrimFloat.leb f 8%float)
  | JNull | JStr _ | JArr _ | JObj _ => Raise TypeError
  end.

(** [v.__index__()]: the integer a value stands for when it subscripts
    a [str] or a [list]; only [int] and [bool] have one. *)
Definition as_index (v : json) : Result Z :=
  match v with
  | JInt z => Ok z
  | JBool b => Ok (int_of_bool b)
  | JNull | JFloat _ | JStr _ | JArr _ | JObj _ => Raise TypeError
  end.

(** [s[v]] for a sequence [s] and an untyped subscript [v] already known
    to be non-negative when it is an integer. *)
Definition subscript {A : Type} (s : list A) (v : json) : Result A :=
  i ← as_index v; getitem s (Z.to_nat i).

(** [s[v] = x], likewise. *)
Definition subscript_assign {A : Type} (s : list A) (v : json) (x : A) : Result (list A) :=
  i ← as_index v; setitem s (Z.to_nat i) x.

(** The values that denote a board position: the integers 0 to 8 and,
    because [bool] is a subclass of [int], [False] and [True]. *)
Definition position_index (v : json) : option nat :=
  match as_index v with
  | Ok z => if bool_decide (0 ≤ z ≤ 8)%Z then Some (Z.to_nat z) else None
  | Raise _ => None
  end.

(** ** Lemmas *)

Lemma int_of_bool_range b : (0 ≤ int_of_bool b ≤ 1)%Z.
Proof. by destruct b. Qed.

Lemma chained_le_int z :
  chained_le_0_8 (JInt z) = Ok (bool_decide (0 ≤ z ≤ 8)%Z).
Proof.
  simpl. f_equal. repeat case_bool_decide; simpl; try done; lia.
Qed.

Lemma chained_le_bool b : chained_le_0_8 (JBool b) = Ok true.
Proof. by destruct b. Qed.

(** The comparison never raises anything but [TypeError], and it raises
    exactly on the values that are not numbers. *)
Lemma chained_le_raise v e :
  chained_le_0_8 v = Raise e →
  e = TypeError ∧ as_index v = Raise TypeError.
Proof. destruct v; naive_solver. Qed.

Lemma as_index_raise v e : as_index v = Raise e → e = TypeError.
Proof. destruct v; naive_solver. Qed.

(** A value that passes the guard [0 <= v <= 8] and subscripts without
    [TypeError] is a board position. *)
Lemma position_index_Some v i :
  position_index v = Some i ↔
  ∃ z, as_index v = Ok z ∧ chained_le_0_8 v = Ok true ∧ i = Z.to_nat z ∧ i ≤ 8.
Proof.
  unfold position_index. split.
  - destruct v as [|b|z|f|s|l|kv]; try done; simpl;
      case_bool_decide; intros [= <-].
    + exists (int_of_bool b). by destruct b; repeat split; simpl; try lia.
    + exists z. rewrite !bool_decide_eq_true_2 by lia. repeat split; lia.
  - intros (z & Hz & Hc & -> & Hi). rewrite Hz.
    destruct v as [|b|z'|f|s|l|kv]; simplify_eq/=.
    + rewrite bool_decide_eq_true_2; [done|]. pose proof (int_of_bool_range b). lia.
    + apply andb_prop in Hc as [?%bool_decide_eq_true ?%bool_decide_eq_true].
      by rewrite bool_decide_eq_true_2.
Qed.

Lemma position_index_le v i : position_index v = Some i → i ≤ 8.
Proof. intros (? & _ & _ & _ & ?)%position_index_Some. done. Qed.

Lemma position_index_int z :
  position_index (JInt z) = if bool_decide (0 ≤ z ≤ 8)%Z then Some (Z.to_nat z) else None.
Proof. done. Qed.

(** Subscripting by a position is list lookup. *)
Lemma subscript_position {A} (s : list A) v i :
  position_index v = Some i → subscript s v = getitem s i.
Proof. intros (z & Hz & _ & -> & _)%position_index_Some. unfold subscript. by rewrite Hz. Qed.

Lemma subscript_assign_position {A} (s : list A) v i x :
  position_index v = Some i → subscript_assign s v x = setitem s i x.
Proof.
  intros (z & Hz & _ & -> & _)%position_index_Some.
  unfold subscript_assign. by rewrite Hz.
Qed.
