(* ===== verification/Board.v ===== *)
(** * The board

    [Game.board] is a string of nine characters, ['-'] for an empty
    cell, ['X'] for player 1 and ['O'] for player 2
    (src/game/models.py:19).  [make_move] turns it into a list, assigns
    one item, joins it back and scans the table of winning combinations
    (src/game/consumers.py:148-183).  These are the pure parts of that
    code, with the exceptions Python raises when the string is shorter
    than the indices used. *)

From stdpp Require Import base list strings.
From Stdlib Require Import Ascii.
From S2P Require Import Prelude.

#[local] Set Warnings "-clear-no-such-hyp".

#[local] Open Scope char_scope.

(** [list(board)]. *)
Definition board_list (board : string) : list ascii :=
  String.list_ascii_of_string board.

(** [''.join(board_list)]. *)
Definition join (l : list ascii) : string := String.string_of_list_ascii l.

(** The default of the field: nine empty cells. *)
Definition empty_board : string := "---------".

(** ['X' if user == game.player1 else 'O']. *)
Definition symbol_of (is_player1 : bool) : ascii :=
  if is_player1 then "X" else "O".

(** The table of rows, columns and diagonals, in the order of the code. *)
Definition winning_combinations : list (list nat) :=
  [ [0; 1; 2]; [3; 4; 5]; [6; 7; 8];
    [0; 3; 6]; [1; 4; 7]; [2; 5; 8];
    [0; 4; 8]; [2; 4; 6] ].

(** [all(board_list[i] == symbol for i in combo)]: the generator stops
    at the first cell that differs, and a cell past the end of the list
    raises [IndexError]. *)
Fixpoint all_eq (bl : list ascii) (symbol : ascii) (combo : list nat) : Result bool :=
  match combo with
  | [] => Ok true
  | i :: combo' =>
      c ← getitem bl i;
      if bool_decide (c = symbol) then all_eq bl symbol combo' else Ok false
  end.

(** [for combo in combos: if all(...): return combo], [None] when the
    loop ends without a hit. *)
Fixpoint first_win (bl : list ascii) (symbol : ascii) (combos : list (list nat))
  : Result (option (list nat)) :=
  match combos with
  | [] => Ok None
  | combo :: combos' =>
      hit ← all_eq bl symbol combo;
      if hit : bool then Ok (Some combo) else first_win bl symbol combos'
  end.

(** ['-' not in board]. *)
Definition no_empty_cell (board : string) : bool :=
  bool_decide ("-" ∉ board_list board).

(** A cell that holds a mark. *)
Definition filled (c : ascii) : bool := negb (bool_decide (c = "-")).

(** The number of marks on the board. *)
Definition marks (board : string) : nat := count_by filled (board_list board).

(** The number of cells that hold [symbol]. *)
Definition count_symbol (symbol : ascii) (board : string) : nat :=
  count_by (λ c, bool_decide (c = symbol)) (board_list board).

(** A character a cell may hold. *)
Definition cell_ok (c : ascii) : Prop := c = "-" ∨ c = "X" ∨ c = "O".

(** A board as the application keeps it: nine cells over [-XO]. *)
Definition board_ok (board : string) : Prop :=
  length (board_list board) = 9 ∧ Forall cell_ok (board_list board).

(** All cells of [combo] hold [symbol]. *)
Definition line (bl : list ascii) (symbol : ascii) (combo : list nat) : Prop :=
  Forall (λ i, bl !! i = Some symbol) combo.

(** [symbol] holds one of the eight combinations. *)
Definition wins (bl : list ascii) (symbol : ascii) : Prop :=
  Exists (line bl symbol) winning_combinations.

#[export] Instance cell_ok_dec c : Decision (cell_ok c).
Proof. unfold cell_ok. apply _. Defined.

#[export] Instance board_ok_dec board : Decision (board_ok board).
Proof. unfold board_ok. apply _. Defined.

#[export] Instance line_dec bl symbol combo : Decision (line bl symbol combo).
Proof. unfold line. apply _. Defined.

#[export] Instance wins_dec bl symbol : Decision (wins bl symbol).
Proof. unfold wins. apply _. Defined.

(** ** Conversion between the string and the list *)

Lemma join_board_list board : join (board_list board) = board.
Proof. apply String.string_of_list_ascii_of_string. Qed.

Lemma board_list_join l : board_list (join l) = l.
Proof. apply String.list_ascii_of_string_of_list_ascii. Qed.

Lemma board_list_inj b1 b2 : board_list b1 = board_list b2 → b1 = b2.
Proof. intros H. by rewrite <-(join_board_list b1), H, join_board_list. Qed.

Lemma empty_board_ok : board_ok empty_board.
Proof. by vm_compute; split; [|repeat constructor; left]. Qed.

Lemma marks_empty_board : marks empty_board = 0.
Proof. done. Qed.

(** ** Item assignment *)

Section assign.
Implicit Types (bl : list ascii) (i : nat) (s c : ascii) (board : string).

Lemma filled_symbol_of b : filled (symbol_of b) = true.
Proof. by destruct b. Qed.

Lemma cell_ok_symbol_of b : cell_ok (symbol_of b).
Proof. destruct b; unfold cell_ok; auto. Qed.

Lemma symbol_of_inj b1 b2 : symbol_of b1 = symbol_of b2 → b1 = b2.
Proof. by destruct b1, b2. Qed.

Lemma board_ok_insert board i s :
  board_ok board → cell_ok s → board_ok (join (<[i:=s]> (board_list board))).
Proof.
  intros [Hlen Hall] Hs. unfold board_ok. rewrite board_list_join, length_insert.
  split; [done|]. by apply Forall_insert.
Qed.

(** Writing a mark into an empty cell adds exactly one mark. *)
Lemma marks_insert board i s :
  board_list board !! i = Some "-" → filled s = true →
  marks (join (<[i:=s]> (board_list board))) = S (marks board).
Proof.
  intros Hi Hs. unfold marks. rewrite board_list_join.
  by apply (count_by_insert _ _ _ "-").
Qed.

Lemma count_symbol_insert board i s :
  board_list board !! i = Some "-" → s ≠ "-" →
  count_symbol s (join (<[i:=s]> (board_list board))) = S (count_symbol s board).
Proof.
  intros Hi Hs. unfold count_symbol. rewrite board_list_join.
  apply (count_by_insert _ _ _ "-"); [done|..].
  - by apply bool_decide_eq_false_2.
  - by apply bool_decide_eq_true_2.
Qed.

Lemma count_symbol_insert_other board i s s' :
  board_list board !! i = Some "-" → s' ≠ "-" → s' ≠ s →
  count_symbol s' (join (<[i:=s]> (board_list board))) = count_symbol s' board.
Proof.
  intros Hi Hs Hne. unfold count_symbol. rewrite board_list_join.
  apply (count_by_insert_same _ _ _ "-"); [done|].
  rewrite !bool_decide_eq_false_2; [done|congruence..].
Qed.

Lemma no_empty_cell_marks board :
  no_empty_cell board = true ↔ marks board = length (board_list board).
Proof.
  unfold no_empty_cell, marks. rewrite bool_decide_eq_true, count_by_full.
  rewrite Forall_forall. unfold filled.
  split.
  - intros Hn c Hc. apply negb_true_iff, bool_decide_eq_false_2. by intros ->.
  - intros H Hin. apply H in Hin. by rewrite bool_decide_eq_true_2 in Hin.
Qed.

End assign.

(** ** The scan for a winning combination *)

Section scan.
Implicit Types (bl : list ascii) (s : ascii) (combo : list nat)
  (combos : list (list nat)).

(** On a list long enough for the indices, [all] decides [line]. *)
Lemma all_eq_line bl s combo :
  Forall (λ i, i < length bl) combo →
  all_eq bl s combo = Ok (bool_decide (line bl s combo)).
Proof.
  unfold line. induction 1 as [|i combo [c Hc]%lookup_lt_is_Some _ IH]; [done|].
  simpl. rewrite (proj2 (getitem_inr _ _ _) Hc). simpl.
  destruct (decide (c = s)) as [->|Hcs].
  - rewrite bool_decide_eq_true_2, IH by done. f_equal.
    apply bool_decide_ext. rewrite Forall_cons. tauto.
  - rewrite bool_decide_eq_false_2 by done. f_equal. symmetry.
    apply bool_decide_eq_false_2. rewrite Forall_cons. intros [? _]. congruence.
Qed.

(** [all] raises only [IndexError], and only when an index is past the
    end. *)
Lemma all_eq_raise bl s combo e :
  all_eq bl s combo = Raise e →
  e = IndexError ∧ Exists (λ i, length bl ≤ i) combo.
Proof.
  induction combo as [|i combo IH]; [done|]. simpl.
  destruct (getitem bl i) as [e'|c] eqn:Hg; simpl.
  - intros [= ->]. apply getitem_raise in Hg as [-> ?]. split; [done|by left].
  - case_bool_decide; [|done]. intros [-> ?]%IH. split; [done|by right].
Qed.

(** On a list long enough for every combination, the scan returns the
    first combination that is a line. *)
Lemma first_win_find bl s combos :
  Forall (Forall (λ i, i < length bl)) combos →
  first_win bl s combos = Ok (snd <$> list_find (line bl s) combos).
Proof.
  induction 1 as [|combo combos Hc _ IH]; [done|].
  simpl. rewrite all_eq_line by done. simpl.
  case_bool_decide; case_decide; try done. rewrite IH.
  by destruct (list_find _ combos) as [[??]|].
Qed.

(** The indices of the table are below nine. *)
Lemma winning_combinations_lt n :
  9 ≤ n → Forall (Forall (λ i, i < n)) winning_combinations.
Proof. intros. repeat (constructor; [repeat (constructor; [lia|]); constructor|]). constructor. Qed.

(** What the scan returns is a line of the table, and no combination
    before it is one. *)
Lemma first_win_find_Some bl s combos combo :
  Forall (Forall (λ i, i < length bl)) combos →
  first_win bl s combos = Ok (Some combo) →
  ∃ k, combos !! k = Some combo ∧ line bl s combo ∧
       ∀ j c, combos !! j = Some c → j < k → ¬ line bl s c.
Proof.
  intros Hlt. rewrite first_win_find by done. intros [= H].
  apply fmap_Some in H as ([k c] & H & ->).
  apply list_find_Some in H. by exists k.
Qed.

Lemma first_win_find_None bl s combos :
  Forall (Forall (λ i, i < length bl)) combos →
  first_win bl s combos = Ok None ↔ ¬ Exists (line bl s) combos.
Proof.
  intros Hlt. rewrite first_win_find by done.
  destruct (list_find (line bl s) combos) as [[k c]|] eqn:H; simpl.
  - split; [done|]. intros []. apply list_find_Some in H as (Hk & Hl & _).
    apply Exists_exists. exists c. split; [by eapply list_elem_of_lookup_2|done].
  - split; [|done]. intros _. apply list_find_None in H. by apply Forall_Exists_neg.
Qed.

Lemma first_win_Some bl s combo :
  length bl = 9 →
  first_win bl s winning_combinations = Ok (Some combo) →
  combo ∈ winning_combinations ∧ line bl s combo.
Proof.
  intros Hlen (k & Hk & Hl & _)%first_win_find_Some;
    [|apply winning_combinations_lt; lia].
  split; [by eapply list_elem_of_lookup_2|done].
Qed.

Lemma first_win_None bl s :
  length bl = 9 →
  first_win bl s winning_combinations = Ok None ↔ ¬ wins bl s.
Proof. intros. apply first_win_find_None, winning_combinations_lt. lia. Qed.

(** On a board of nine cells the scan never raises. *)
Lemma first_win_total bl s :
  length bl = 9 → ∃ r, first_win bl s winning_combinations = Ok r.
Proof.
  intros. rewrite first_win_find by (apply winning_combinations_lt; lia). eauto.
Qed.

Lemma first_win_wins bl s :
  length bl = 9 →
  wins bl s ↔ ∃ combo, first_win bl s winning_combinations = Ok (Some combo).
Proof.
  intros Hlen. destruct (first_win_total bl s Hlen) as [[c|] Hr]; rewrite Hr.
  - apply first_win_Some in Hr as [Hin Hl]; [|done].
    split; [by eexists|]. intros _. apply Exists_exists. eauto.
  - apply first_win_None in Hr; [|done]. split; [done|by intros [? [=]]].
Qed.

End scan.

(** ** The scan on a board of nine cells *)

(** C24: on a board of nine cells the scan of [make_move] never raises;
    it returns a combination exactly when [symbol] holds one of the
    eight lines, the combination returned is a line held by [symbol],
    and it is the first such line in the order of the table. *)
Theorem first_win_correct (bl : list ascii) (symbol : ascii) :
  length bl = 9 →
  ∃ r, first_win bl symbol winning_combinations = Ok r ∧
       (r = None ↔ ¬ wins bl symbol) ∧
       ∀ combo, r = Some combo →
         ∃ k, winning_combinations !! k = Some combo ∧ line bl symbol combo ∧
              ∀ j c, winning_combinations !! j = Some c → j < k → ¬ line bl symbol c.
Proof.
  intros Hlen. destruct (first_win_total bl symbol Hlen) as [r Hr].
  exists r. split; [done|]. split.
  - rewrite <-first_win_None, Hr by done. split; [by intros ->|by intros [=]].
  - intros combo ->. apply first_win_find_Some; [|done].
    apply winning_combinations_lt. lia.
Qed.

(** The column 1-4-7 held by X on the board of the winning scenario. *)
Lemma first_win_correct_witness :
  ∃ r, first_win (board_list "OX-OX--X-") "X" winning_combinations = Ok r ∧
       (r = None ↔ ¬ wins (board_list "OX-OX--X-") "X") ∧
       ∀ combo, r = Some combo →
         ∃ k, winning_combinations !! k = Some combo ∧
              line (board_list "OX-OX--X-") "X" combo ∧
              ∀ j c, winning_combinations !! j = Some c → j < k →
                     ¬ line (board_list "OX-OX--X-") "X" c.
Proof. apply (first_win_correct (board_list "OX-OX--X-") "X"). reflexivity. Defined.

(** ** Marks of the two players *)

Section players.
Implicit Types (bl : list ascii) (i : nat) (s : ascii) (board : string).

(** A mark written for one symbol creates no line of another. *)
Lemma line_insert_other bl i s s' combo :
  s' ≠ s → line (<[i:=s]> bl) s' combo → line bl s' combo.
Proof.
  intros Hne Hl. eapply Forall_impl; [exact Hl|]. intros j Hj. simpl in Hj.
  apply list_lookup_insert_Some in Hj as [(-> & ? & _)|[_ ?]]; congruence.
Qed.

Lemma wins_insert_other bl i s s' :
  s' ≠ s → wins (<[i:=s]> bl) s' → wins bl s'.
Proof.
  intros Hne Hw. eapply Exists_impl; [exact Hw|]. intros ?. by apply line_insert_other.
Qed.

(** On a board over [-XO] every mark is an X or an O. *)
Lemma marks_count board :
  Forall cell_ok (board_list board) →
  marks board = count_symbol "X" board + count_symbol "O" board.
Proof.
  unfold marks, count_symbol. induction 1 as [|c l Hc _ IH]; [done|].
  simpl. rewrite IH. by destruct Hc as [-> | [-> | ->]].
Qed.

End players.
