(* ===== verification/Models.v ===== *)
(** * The database: rows, tables and the monad of a handler

    The rows are the Django models of src/authenticate/models.py and
    src/game/models.py.  A foreign key is kept as the primary key of its
    target; a table with a unique column is a finite map keyed by it.
    A handler is a computation in [M]: it reads and writes the [World]
    and either returns a value or raises; what it wrote before raising
    stays written, because the handlers run without a transaction. *)

From stdpp Require Import base option list gmap strings.
From S2P Require Import Prelude Monad.

#[local] Set Warnings "-clear-no-such-hyp".

(** ** Rows *)

(** [authenticate.models.User].  [pk] is the automatic primary key
    [id]. *)
Record User : Type := mkUser {
  pk : Z;
  email : string;
  verification_status : string;
  otp : option string;
  otp_validity : bool;
  is_user : bool;
  is_doctor : bool;
  resetToken : string;
}.

(** [User] removes the [username] field of [AbstractUser] by setting the
    class attribute to [None]; reading [user.username] yields that
    [None] for every user. *)
Definition username (u : User) : option string := None.

(** The values of [Game.GAME_STATUS]. *)
Inductive GAME_STATUS : Type :=
| PENDING
| IN_PROGRESS
| COMPLETED.

#[export] Instance GAME_STATUS_eq_dec : EqDecision GAME_STATUS.
Proof. solve_decision. Defined.

(** The string stored in the column and sent to clients. *)
Definition status_str (s : GAME_STATUS) : string :=
  match s with
  | PENDING => "PENDING"
  | IN_PROGRESS => "IN_PROGRESS"
  | COMPLETED => "COMPLETED"
  end.

(** The columns of [game.models.Game] the consumer and the views
    read or write.  The timestamps [created_at] and [updated_at] are
    left out: the database sets them and no modelled code reads them.
    [status] is one of the three choices: the column is a [CharField]
    that would take any string, and the code stores these three
    only. *)
Record Game : Type := mkGame {
  room_code : string;
  player1 : Z;
  player2 : option Z;
  current_turn : option Z;
  winner : option Z;
  status : GAME_STATUS;
  board : string;
}.

(** The columns [game], [player] and [position] of
    [game.models.GameMove]; [move_game] is the room code of the game
    the move belongs to.  The key [id] is the place of the row in the
    table, which is kept in the order of insertion, and the timestamp
    [created_at] is left out. *)
Record GameMove : Type := mkGameMove {
  move_game : string;
  move_player : Z;
  move_position : Z;
}.

(** Attribute assignment on a [Game] instance. *)
Definition set_player2 (g : Game) (v : option Z) : Game :=
  mkGame (room_code g) (player1 g) v (current_turn g) (winner g) (status g) (board g).
Definition set_current_turn (g : Game) (v : option Z) : Game :=
  mkGame (room_code g) (player1 g) (player2 g) v (winner g) (status g) (board g).
Definition set_winner (g : Game) (v : option Z) : Game :=
  mkGame (room_code g) (player1 g) (player2 g) (current_turn g) v (status g) (board g).
Definition set_status (g : Game) (v : GAME_STATUS) : Game :=
  mkGame (room_code g) (player1 g) (player2 g) (current_turn g) (winner g) v (board g).
Definition set_board (g : Game) (v : string) : Game :=
  mkGame (room_code g) (player1 g) (player2 g) (current_turn g) (winner g) (status g) v.

(** [a == b] on model instances: equality of primary keys. *)
Definition model_eq (a b : User) : bool := bool_decide (pk a = pk b).

(** [a != b] where [a] may be [None]. *)
Definition optional_model_ne (a : option User) (b : User) : bool :=
  match a with
  | Some a' => negb (model_eq a' b)
  | None => true
  end.

(** ** The world *)

(** The tables, the move log in insertion order and the lines written
    with [logger.error], newest last. *)
Record World : Type := mkWorld {
  games : gmap string Game;
  users : gmap Z User;
  moves : list GameMove;
  log : list (string * exn);
}.

Definition set_games (w : World) (v : gmap string Game) : World :=
  mkWorld v (users w) (moves w) (log w).
Definition set_moves (w : World) (v : list GameMove) : World :=
  mkWorld (games w) (users w) v (log w).
Definition set_log (w : World) (v : list (string * exn)) : World :=
  mkWorld (games w) (users w) (moves w) v.

(** The moves recorded for one game. *)
Definition moves_of (w : World) (rc : string) : list GameMove :=
  filter (λ m, move_game m = rc) (moves w).

(** ** The monad *)

(** A database method is a computation over the tables. *)
Abbreviation M := (ST World).

(** [logger.error(f"{tag}: {str(e)}")]. *)
Definition logger_error (tag : string) (e : exn) : M unit :=
  MkST (λ w, (Ok tt, set_log w (log w ++ [(tag, e)]))).

(** ** The ORM calls of the handlers *)

(** [Game.objects.get(room_code=rc)]. *)
Definition Game_objects_get (rc : string) : M Game :=
  MkST (λ w, match games w !! rc with
            | Some g => (Ok g, w)
            | None => (Raise ObjectDoesNotExist, w)
            end).

(** [User.objects.get(id=uid)]. *)
Definition User_objects_get (uid : Z) : M User :=
  MkST (λ w, match users w !! uid with
            | Some u => (Ok u, w)
            | None => (Raise ObjectDoesNotExist, w)
            end).

(** Reading a foreign key that is not null, as [game.player1]: the
    related row is fetched. *)
Definition related (fk : Z) : M User := User_objects_get fk.

(** Reading a nullable foreign key, as [game.player2]: [None] when the
    column is null. *)
Definition related_optional (fk : option Z) : M (option User) :=
  match fk with
  | Some k => u ← related k; mret (Some u)
  | None => mret None
  end.

(** [game.save()]: the row with the game's key is replaced. *)
Definition save (g : Game) : M unit :=
  MkST (λ w, (Ok tt, set_games w (<[room_code g := g]> (games w)))).

(** [GameMove.objects.create(game=g, player=u, position=p)]. *)
Definition GameMove_objects_create (g : Game) (u : User) (p : Z) : M unit :=
  MkST (λ w, (Ok tt, set_moves w (moves w ++ [mkGameMove (room_code g) (pk u) p]))).

(** ** A small world for the examples

    Two users and one room, as [create_game] leaves it: pending, no
    second player, the empty board. *)

Definition alice : User := mkUser 1 "alice@example.org" "verified" None false true false "none".
Definition bob : User := mkUser 2 "bob@example.org" "verified" None false true false "none".
Definition carol : User := mkUser 3 "carol@example.org" "verified" None false true false "none".

Definition room : string := "K7Q2ZD".

Definition pending_game : Game := mkGame room 1 None None None PENDING "---------".

Definition example_users : gmap Z User := {[ 1%Z := alice; 2%Z := bob; 3%Z := carol ]}.

Definition pending_world : World :=
  mkWorld {[ room := pending_game ]} example_users [] [].

(** The same room once bob has joined. *)
Definition open_game : Game :=
  mkGame room 1 (Some 2%Z) (Some 1%Z) None IN_PROGRESS "---------".

Definition open_world : World :=
  mkWorld {[ room := open_game ]} example_users [] [].

(** ** Laws of the monad and of the ORM calls *)

Section orm.
Implicit Types (w : World) (g : Game) (u : User) (rc : string) (uid : Z).

Lemma run_Game_get w rc g :
  games w !! rc = Some g → run (Game_objects_get rc) w = (Ok g, w).
Proof. intros H. simpl. by rewrite H. Qed.

Lemma run_Game_get_None w rc :
  games w !! rc = None → run (Game_objects_get rc) w = (Raise ObjectDoesNotExist, w).
Proof. intros H. simpl. by rewrite H. Qed.

Lemma run_User_get w uid u :
  users w !! uid = Some u → run (User_objects_get uid) w = (Ok u, w).
Proof. intros H. simpl. by rewrite H. Qed.

Lemma run_User_get_None w uid :
  users w !! uid = None → run (User_objects_get uid) w = (Raise ObjectDoesNotExist, w).
Proof. intros H. simpl. by rewrite H. Qed.

Lemma run_related w uid u :
  users w !! uid = Some u → run (related uid) w = (Ok u, w).
Proof. apply run_User_get. Qed.

Lemma run_related_optional_Some w uid u :
  users w !! uid = Some u → run (related_optional (Some uid)) w = (Ok (Some u), w).
Proof. intros H. simpl. by rewrite H. Qed.

Lemma run_related_optional_None w : run (related_optional None) w = (Ok None, w).
Proof. done. Qed.

Lemma run_save w g :
  run (save g) w = (Ok tt, set_games w (<[room_code g := g]> (games w))).
Proof. done. Qed.

Lemma run_GameMove_create w g u p :
  run (GameMove_objects_create g u p) w =
    (Ok tt, set_moves w (moves w ++ [mkGameMove (room_code g) (pk u) p])).
Proof. done. Qed.

Lemma run_logger_error w tag e :
  run (logger_error tag e) w = (Ok tt, set_log w (log w ++ [(tag, e)])).
Proof. done. Qed.

(** Reading never writes. *)
Lemma run_Game_get_world w rc r w' :
  run (Game_objects_get rc) w = (r, w') → w' = w.
Proof. simpl. by destruct (games w !! rc); intros [= _ <-]. Qed.

Lemma run_User_get_world w uid r w' :
  run (User_objects_get uid) w = (r, w') → w' = w.
Proof. simpl. by destruct (users w !! uid); intros [= _ <-]. Qed.

Lemma run_related_optional_world w fk r w' :
  run (related_optional fk) w = (r, w') → w' = w.
Proof.
  destruct fk as [k|]; simpl; [|by intros [= _ <-]].
  by destruct (users w !! k); intros [= _ <-].
Qed.

Lemma games_save w g :
  games (run (save g) w).2 = <[room_code g := g]> (games w).
Proof. done. Qed.

Lemma moves_of_app w rc ms :
  moves_of (set_moves w (moves w ++ ms)) rc =
    moves_of w rc ++ filter (λ m, move_game m = rc) ms.
Proof. unfold moves_of. simpl. apply filter_app. Qed.

Lemma moves_of_set_games w rc gs : moves_of (set_games w gs) rc = moves_of w rc.
Proof. done. Qed.

Lemma moves_of_set_log w rc l : moves_of (set_log w l) rc = moves_of w rc.
Proof. done. Qed.

End orm.

(** Setters against projections. *)
Section setters.
Implicit Types (g : Game).

Lemma room_code_set_board g b : room_code (set_board g b) = room_code g.
Proof. done. Qed.
Lemma room_code_set_status g s : room_code (set_status g s) = room_code g.
Proof. done. Qed.
Lemma room_code_set_winner g v : room_code (set_winner g v) = room_code g.
Proof. done. Qed.
Lemma room_code_set_current_turn g v : room_code (set_current_turn g v) = room_code g.
Proof. done. Qed.
Lemma room_code_set_player2 g v : room_code (set_player2 g v) = room_code g.
Proof. done. Qed.

Lemma model_eq_pk (a b : User) : model_eq a b = true ↔ pk a = pk b.
Proof. apply bool_decide_eq_true. Qed.

Lemma optional_model_ne_false (a : option User) (b : User) :
  optional_model_ne a b = false ↔ ∃ a', a = Some a' ∧ pk a' = pk b.
Proof.
  destruct a as [a'|]; simpl.
  - rewrite negb_false_iff, model_eq_pk. split; [by exists a'|by intros (? & [= <-] & ?)].
  - split; [done|by intros (? & [=] & _)].
Qed.

Lemma status_str_inj s1 s2 : status_str s1 = status_str s2 → s1 = s2.
Proof. by destruct s1, s2. Qed.

End setters.

#[export] Hint Rewrite run_save run_GameMove_create
  run_logger_error room_code_set_board
  room_code_set_status room_code_set_winner room_code_set_current_turn
  room_code_set_player2 : py.
