(* ===== verification/Wellformed.v ===== *)
(** * Well-formed matches

    The invariant of the game table.  A row is well formed when its
    board has nine cells over [-XO] with as many X as O or one more,
    and its status agrees with its players, turn, winner and board:
    - PENDING: no second player, no turn, no winner, the empty board;
    - IN_PROGRESS: a second player distinct from the first, no winner,
      no line on the board, an empty cell left, and the turn is player 1
      exactly when X and O are level;
    - COMPLETED: a second player, and either a winner who holds a line
      while the other player holds none and whose turn it still is, or
      no winner, no line and a full board.
    A world is well formed when its tables are keyed by the key the
    rows carry, every row is well formed, every foreign key of a row
    and of a recorded move has a target, and every game has as many
    recorded moves as marks on its board.  Every predicate is decidable, so a concrete world is
    checked by computation. *)

From stdpp Require Import base option list gmap strings.
From Stdlib Require Import Ascii.
From S2P Require Import Prelude Monad Json Board Models.

#[local] Set Warnings "-clear-no-such-hyp".

#[local] Open Scope char_scope.

(** X has moved as often as O ([x_to_move]) or once more. *)
Definition balanced (b : string) (x_to_move : bool) : Prop :=
  count_symbol "X" b = count_symbol "O" b + (if x_to_move then 0 else 1).

(** No player holds a line. *)
Definition no_line (b : string) : Prop :=
  ¬ wins (board_list b) "X" ∧ ¬ wins (board_list b) "O".

Definition pending_ok (g : Game) : Prop :=
  player2 g = None ∧ current_turn g = None ∧ winner g = None ∧
  board g = empty_board.

Definition in_progress_ok (g : Game) : Prop :=
  match player2 g with
  | Some p2 =>
      p2 ≠ player1 g ∧ winner g = None ∧ no_line (board g) ∧
      no_empty_cell (board g) = false ∧
      ((current_turn g = Some (player1 g) ∧ balanced (board g) true) ∨
       (current_turn g = Some p2 ∧ balanced (board g) false))
  | None => False
  end.

Definition completed_ok (g : Game) : Prop :=
  match player2 g with
  | Some p2 =>
      p2 ≠ player1 g ∧
      ((winner g = Some (player1 g) ∧ current_turn g = Some (player1 g) ∧
        wins (board_list (board g)) "X" ∧ ¬ wins (board_list (board g)) "O" ∧
        balanced (board g) false) ∨
       (winner g = Some p2 ∧ current_turn g = Some p2 ∧
        wins (board_list (board g)) "O" ∧ ¬ wins (board_list (board g)) "X" ∧
        balanced (board g) true) ∨
       (winner g = None ∧ current_turn g = Some (player1 g) ∧
        no_line (board g) ∧ no_empty_cell (board g) = true ∧
        balanced (board g) false))
  | None => False
  end.

Definition status_ok (g : Game) : Prop :=
  match status g with
  | PENDING => pending_ok g
  | IN_PROGRESS => in_progress_ok g
  | COMPLETED => completed_ok g
  end.

Definition game_ok (g : Game) : Prop := board_ok (board g) ∧ status_ok g.

(** The foreign keys of a row have targets. *)
Definition fks_ok (w : World) (g : Game) : Prop :=
  is_Some (users w !! player1 g) ∧
  from_option (λ k, is_Some (users w !! k)) True (player2 g).

Definition row_ok (w : World) (rc : string) (g : Game) : Prop :=
  room_code g = rc ∧ game_ok g ∧ fks_ok w g ∧
  length (moves_of w rc) = marks (board g).

(** The foreign keys of a recorded move have targets. *)
Definition move_ok (w : World) (m : GameMove) : Prop :=
  is_Some (games w !! move_game m) ∧ is_Some (users w !! move_player m).

Definition world_ok (w : World) : Prop :=
  map_Forall (λ k u, pk u = k) (users w) ∧
  map_Forall (row_ok w) (games w) ∧
  Forall (move_ok w) (moves w).

#[export] Instance balanced_dec b x : Decision (balanced b x).
Proof. unfold balanced. apply _. Defined.
#[export] Instance no_line_dec b : Decision (no_line b).
Proof. unfold no_line. apply _. Defined.
#[export] Instance pending_ok_dec g : Decision (pending_ok g).
Proof. unfold pending_ok. apply _. Defined.
#[export] Instance in_progress_ok_dec g : Decision (in_progress_ok g).
Proof. unfold in_progress_ok. destruct (player2 g); apply _. Defined.
#[export] Instance completed_ok_dec g : Decision (completed_ok g).
Proof. unfold completed_ok. destruct (player2 g); apply _. Defined.
#[export] Instance status_ok_dec g : Decision (status_ok g).
Proof. unfold status_ok. destruct (status g); apply _. Defined.
#[export] Instance game_ok_dec g : Decision (game_ok g).
Proof. unfold game_ok. apply _. Defined.
#[export] Instance fks_ok_dec w g : Decision (fks_ok w g).
Proof. unfold fks_ok. destruct (player2 g); apply _. Defined.
#[export] Instance row_ok_dec w rc g : Decision (row_ok w rc g).
Proof. unfold row_ok. apply _. Defined.
#[export] Instance move_ok_dec w m : Decision (move_ok w m).
Proof. unfold move_ok. apply _. Defined.
#[export] Instance world_ok_dec w : Decision (world_ok w).
Proof. unfold world_ok. apply _. Defined.

(** ** Consequences for a row *)

Section row.
Implicit Types (g : Game) (b : string) (w : World).

Lemma game_ok_length g : game_ok g → length (board_list (board g)) = 9.
Proof. by intros [[? _] _]. Qed.

Lemma game_ok_pending g : game_ok g → status g = PENDING → pending_ok g.
Proof. intros [_ H] Hs. unfold status_ok in H. by rewrite Hs in H. Qed.

Lemma game_ok_in_progress g : game_ok g → status g = IN_PROGRESS → in_progress_ok g.
Proof. intros [_ H] Hs. unfold status_ok in H. by rewrite Hs in H. Qed.

Lemma game_ok_completed g : game_ok g → status g = COMPLETED → completed_ok g.
Proof. intros [_ H] Hs. unfold status_ok in H. by rewrite Hs in H. Qed.

(** The second player is absent exactly while the game is pending. *)
Lemma game_ok_player2_None g : game_ok g → player2 g = None ↔ status g = PENDING.
Proof.
  intros [_ H]. unfold status_ok, pending_ok, in_progress_ok, completed_ok in H.
  destruct (status g), (player2 g); naive_solver.
Qed.

(** While a game is in progress the turn belongs to one of the two
    players, and X is the mark of the first. *)
Lemma in_progress_turn g uid :
  in_progress_ok g → current_turn g = Some uid →
  ∃ p2, player2 g = Some p2 ∧ p2 ≠ player1 g ∧
        ((uid = player1 g ∧ balanced (board g) true) ∨
         (uid = p2 ∧ balanced (board g) false)).
Proof.
  unfold in_progress_ok. destruct (player2 g) as [p2|]; [|done].
  intros (? & _ & _ & _ & Ht) Hu. exists p2. rewrite Hu in Ht.
  split; [done|]. split; [done|]. destruct Ht as [[[= ->] ?]|[[= ->] ?]]; auto.
Qed.

Lemma no_line_empty_board : no_line empty_board.
Proof. apply (bool_decide_unpack _). by vm_compute. Qed.

Lemma balanced_empty_board : balanced empty_board true.
Proof. done. Qed.

(** The turn and the winner, when set, are players of the game. *)
Lemma game_ok_turn_player g k :
  game_ok g → current_turn g = Some k → k = player1 g ∨ player2 g = Some k.
Proof.
  intros [_ H] Hk. unfold status_ok, pending_ok, in_progress_ok, completed_ok in H.
  rewrite Hk in H. destruct (status g), (player2 g); naive_solver.
Qed.

Lemma game_ok_winner_player g k :
  game_ok g → winner g = Some k → k = player1 g ∨ player2 g = Some k.
Proof.
  intros [_ H] Hk. unfold status_ok, pending_ok, in_progress_ok, completed_ok in H.
  rewrite Hk in H. destruct (status g), (player2 g); naive_solver.
Qed.

(** The marks of a well-formed board are balanced. *)
Lemma game_ok_balance g :
  game_ok g →
  count_symbol "O" (board g) ≤ count_symbol "X" (board g) ≤ S (count_symbol "O" (board g)).
Proof.
  intros [_ H]. unfold status_ok, pending_ok, in_progress_ok, completed_ok in H.
  destruct (status g).
  - destruct H as (_ & _ & _ & ->). vm_compute. lia.
  - destruct (player2 g); [|done]. unfold balanced in H. naive_solver lia.
  - destruct (player2 g); [|done]. unfold balanced in H. naive_solver lia.
Qed.

(** A line on the board means the game is completed and won by the
    player who holds it; a full board without a line means it is
    completed without a winner. *)
Lemma game_ok_lines g :
  game_ok g →
  (wins (board_list (board g)) "X" →
     status g = COMPLETED ∧ winner g = Some (player1 g)) ∧
  (wins (board_list (board g)) "O" →
     status g = COMPLETED ∧ winner g = player2 g ∧ is_Some (player2 g)) ∧
  (no_line (board g) → "-" ∉ board_list (board g) →
     status g = COMPLETED ∧ winner g = None).
Proof.
  intros [_ Hs]. pose proof no_line_empty_board as [HeX HeO].
  unfold status_ok, pending_ok, in_progress_ok, completed_ok, no_line in *.
  destruct (status g).
  - destruct Hs as (_ & _ & _ & ->). split_and!; try done.
    intros _ Hfull. destruct Hfull. by vm_compute; left.
  - destruct (player2 g); [|done].
    destruct Hs as (_ & _ & [? ?] & ?%bool_decide_eq_false & _).
    split_and!; [done..|tauto].
  - destruct (player2 g) as [p2|]; [|done]. naive_solver.
Qed.

End row.

(** ** Consequences for a world *)

Section world.
Implicit Types (g : Game) (u : User) (w : World) (rc : string) (uid : Z).

Lemma world_ok_row w rc g : world_ok w → games w !! rc = Some g → row_ok w rc g.
Proof. intros (_ & H & _) Hg. by apply H. Qed.

Lemma world_ok_game w rc g : world_ok w → games w !! rc = Some g → game_ok g.
Proof. intros Hw Hg. by destruct (world_ok_row w rc g Hw Hg) as (_ & ? & _). Qed.

Lemma world_ok_room_code w rc g :
  world_ok w → games w !! rc = Some g → room_code g = rc.
Proof. intros Hw Hg. by destruct (world_ok_row w rc g Hw Hg) as (? & _). Qed.

Lemma world_ok_pk w uid u : world_ok w → users w !! uid = Some u → pk u = uid.
Proof. intros [H _] Hu. by apply H in Hu. Qed.

(** Reading [game.player1] succeeds and yields the row of that key. *)
Lemma world_ok_player1 w rc g :
  world_ok w → games w !! rc = Some g →
  ∃ p1, users w !! player1 g = Some p1 ∧ pk p1 = player1 g.
Proof.
  intros Hw Hg. destruct (world_ok_row w rc g Hw Hg) as (_ & _ & [[p1 H1] _] & _).
  exists p1. split; [done|]. by eapply world_ok_pk.
Qed.

Lemma world_ok_player2 w rc g p2 :
  world_ok w → games w !! rc = Some g → player2 g = Some p2 →
  ∃ u2, users w !! p2 = Some u2 ∧ pk u2 = p2.
Proof.
  intros Hw Hg H2. destruct (world_ok_row w rc g Hw Hg) as (_ & _ & [_ Hfk] & _).
  rewrite H2 in Hfk. destruct Hfk as [u2 Hu2].
  exists u2. split; [done|]. by eapply world_ok_pk.
Qed.

Lemma world_ok_moves w rc g :
  world_ok w → games w !! rc = Some g → length (moves_of w rc) = marks (board g).
Proof. intros Hw Hg. by destruct (world_ok_row w rc g Hw Hg) as (_ & _ & _ & ?). Qed.

(** Every key a row mentions has a target. *)
Lemma world_ok_fk w rc g k :
  world_ok w → games w !! rc = Some g →
  k = player1 g ∨ player2 g = Some k ∨ current_turn g = Some k ∨ winner g = Some k →
  ∃ uk, users w !! k = Some uk ∧ pk uk = k.
Proof.
  intros Hw Hg Hk. pose proof (world_ok_game _ _ _ Hw Hg) as Hok.
  assert (k = player1 g ∨ player2 g = Some k) as [->|H2].
  { destruct Hk as [?|[?|[?|?]]];
      eauto using game_ok_turn_player, game_ok_winner_player. }
  - by eapply world_ok_player1.
  - by eapply world_ok_player2.
Qed.

(** A recorded move points to a game and to a user. *)
Lemma world_ok_move w m : world_ok w → m ∈ moves w → move_ok w m.
Proof. intros (_ & _ & H) Hin. rewrite Forall_forall in H. by apply H. Qed.

(** A room code without a game has no recorded move. *)
Lemma world_ok_no_moves w rc : world_ok w → games w !! rc = None → moves_of w rc = [].
Proof.
  intros Hw Hnone. unfold moves_of. apply filter_none, Forall_forall.
  intros m Hin Hrc. destruct (world_ok_move w m Hw Hin) as [[g Hg] _]. congruence.
Qed.

(** A line of the error log is not part of the invariant. *)
Lemma world_ok_set_log w l : world_ok w → world_ok (set_log w l).
Proof. done. Qed.

End world.
