(* ===== verification/Consumers.v ===== *)
(** * The database methods of [TicTacToeConsumer]

    [get_game_state], [add_player_to_game] and [make_move] of
    src/game/consumers.py, statement by statement, in the monad [M] of
    [Models].  The consumer's attributes [self.room_code] and
    [self.user_id] are the arguments [rc] and [uid]; the value a method
    returns is the dictionary it builds, as a [json] object, or [None].

    After the definitions come two pure readings of [make_move] on a
    single row, [accepts] (the guard) and [played] (the row that is
    saved), and the lemmas that give the result and the world of every
    branch of the three methods. *)

From stdpp Require Import base option list gmap strings.
From Stdlib Require Import Ascii.
From S2P Require Import Prelude Monad Json Board Models Wellformed.

#[local] Set Warnings "-clear-no-such-hyp".

#[local] Open Scope char_scope.

(** ** The dictionaries the methods build *)

(** [x.username if x else None] for a nullable foreign key [x]. *)
Definition optional_username (fk : option Z) : M json :=
  u ← related_optional fk;
  mret (match u with
        | Some u' => of_optional_str (username u')
        | None => JNull
        end).

(** [{'type': 'game_message', 'message': message}]. *)
Definition game_message_event (message : json) : json :=
  JObj [("type", JStr "game_message"); ("message", message)]%string.

Definition player_joined_message (player2_name turn_name : option string)
    (game : Game) : json :=
  JObj [("action", JStr "player_joined");
        ("player2", of_optional_str player2_name);
        ("status", JStr "IN_PROGRESS");
        ("current_turn", of_optional_str turn_name);
        ("board", JStr (board game))]%string.

Definition game_over_win_message (winner_name : option string) (game : Game)
    (combo : list nat) : json :=
  JObj [("action", JStr "game_over");
        ("winner", of_optional_str winner_name);
        ("board", JStr (board game));
        ("winning_combo", of_nat_list combo)]%string.

Definition game_over_draw_message (game : Game) : json :=
  JObj [("action", JStr "game_over");
        ("winner", JNull);
        ("board", JStr (board game));
        ("status", JStr "draw")]%string.

Definition move_made_message (position : json) (symbol : ascii)
    (next_turn : option string) (game : Game) : json :=
  JObj [("action", JStr "move_made");
        ("position", position);
        ("symbol", JStr (String symbol EmptyString));
        ("next_turn", of_optional_str next_turn);
        ("board", JStr (board game))]%string.

(** ** [get_game_state] *)

Definition get_game_state_body (rc : string) : M (option json) :=
  game ← Game_objects_get rc;
  turn ← optional_username (current_turn game);
  p1 ← related (player1 game);
  p2 ← optional_username (player2 game);
  won ← optional_username (winner game);
  mret (Some (JObj [("action", JStr "game_state");
                    ("board", JStr (board game));
                    ("status", JStr (status_str (status game)));
                    ("current_turn", turn);
                    ("player1", of_optional_str (username p1));
                    ("player2", p2);
                    ("winner", won)]%string)).

(** The method has a single handler, for [ObjectDoesNotExist]; any
    other exception leaves the method. *)
Definition get_game_state (rc : string) : M (option json) :=
  try_except (get_game_state_body rc)
    (λ e, if isinstance e ObjectDoesNotExist then mret None else lift (Raise e)).

(** ** [add_player_to_game] *)

Definition add_player_to_game_body (rc : string) (uid : Z) : M (option json) :=
  game ← Game_objects_get rc;
  user ← User_objects_get uid;
  p2 ← related_optional (player2 game);
  if p2 is None then
    p1 ← related (player1 game);
    if negb (model_eq p1 user) then
      let game := set_player2 game (Some (pk user)) in
      let game := set_status game IN_PROGRESS in
      let game := set_current_turn game (Some (pk p1)) in
      save game;;
      mret (Some (game_message_event
                    (player_joined_message (username user) (username p1) game)))
    else mret None
  else mret None.

(** [except ObjectDoesNotExist: return None] then
    [except Exception as e: logger.error(...); return None]. *)
Definition handle_errors (tag : string) (e : exn) : M (option json) :=
  if isinstance e ObjectDoesNotExist then mret None
  else logger_error tag e;; mret None.

Definition add_player_to_game (rc : string) (uid : Z) : M (option json) :=
  try_except (add_player_to_game_body rc uid) (handle_errors "Add Player Error").

(** ** [make_move] *)

(** [not (0 <= position <= 8) or board[position] != '-']. *)
Definition position_rejected (cells : list ascii) (position : json) : Result bool :=
  ((negb <$> chained_le_0_8 position)
   ||| ((λ c, negb (bool_decide (c = "-"))) <$> subscript cells position))%py.

(** The condition of the first [if]: four tests joined by [or],
    evaluated left to right until one holds. *)
Definition move_rejected (game : Game) (user : User) (position : json) : M bool :=
  if negb (bool_decide (status game = IN_PROGRESS)) then mret true else
  turn ← related_optional (current_turn game);
  if optional_model_ne turn user then mret true else
  lift (position_rejected (board_list (board game)) position).

(** [game.player2 if user == game.player1 else game.player1], the
    instance assigned to [game.current_turn]. *)
Definition other_player (game : Game) (user p1 : User) : M (option User) :=
  if model_eq user p1 then related_optional (player2 game) else mret (Some p1).

(** [x.username] for an [x] that may be [None]. *)
Definition username_attr (x : option User) : Result (option string) :=
  match x with
  | Some u => Ok (username u)
  | None => Raise AttributeError
  end.

(** The second half of [make_move]: check for a winner, check for a
    draw, switch turns.  [game] already carries the new board, [cells]
    is [board_list] after the assignment. *)
Definition conclude_move (game : Game) (user p1 : User) (position : json)
    (symbol : ascii) (cells : list ascii) : M (option json) :=
  hit ← lift (first_win cells symbol winning_combinations);
  match hit with
  | Some combo =>
      let game := set_status game COMPLETED in
      let game := set_winner game (Some (pk user)) in
      save game;;
      mret (Some (game_message_event
                    (game_over_win_message (username user) game combo)))
  | None =>
      if no_empty_cell (board game) then
        let game := set_status game COMPLETED in
        save game;;
        mret (Some (game_message_event (game_over_draw_message game)))
      else
        next ← other_player game user p1;
        let game := set_current_turn game (pk <$> next) in
        save game;;
        name ← lift (username_attr next);
        mret (Some (game_message_event (move_made_message position symbol name game)))
  end.

(** The first half: fetch the rows, test the guard, update the board,
    save the move. *)
Definition make_move_body (rc : string) (uid : Z) (position : json) : M (option json) :=
  game ← Game_objects_get rc;
  user ← User_objects_get uid;
  rejected ← move_rejected game user position;
  if rejected : bool then mret None else
  p1 ← related (player1 game);
  let symbol := symbol_of (model_eq user p1) in
  cells ← lift (subscript_assign (board_list (board game)) position symbol);
  let game := set_board game (join cells) in
  stored ← lift (as_index position);
  GameMove_objects_create game user stored;;
  conclude_move game user p1 position symbol cells.

Definition make_move (rc : string) (uid : Z) (position : json) : M (option json) :=
  try_except (make_move_body rc uid position) (handle_errors "Make Move Error").

(** ** [make_move] read on one row

    When no foreign key dangles and the board has nine cells, whether a
    move is accepted, what is saved and what is sent depend only on the
    row, the caller's key and the position. *)

(** The empty cell a position designates, if any. *)
Definition target (cells : list ascii) (position : json) : option nat :=
  i ← position_index position;
  if decide (cells !! i = Some "-") then Some i else None.

(** The cell index of an accepted move: the game is in progress, it is
    the caller's turn, the position is an index of the board and the
    cell is empty. *)
Definition accepts (g : Game) (uid : Z) (position : json) : option nat :=
  if decide (status g = IN_PROGRESS ∧ current_turn g = Some uid)
  then target (board_list (board g)) position
  else None.

(** The exception [position_rejected] raises on a board of nine cells:
    [TypeError] on a value that is not a number and on a float that
    passes the comparison. *)
Definition position_error (position : json) : option exn :=
  match position with
  | JInt _ | JBool _ => None
  | JFloat _ =>
      if chained_le_0_8 position is Ok true then Some TypeError else None
  | JNull | JStr _ | JArr _ | JObj _ => Some TypeError
  end.

(** The exception the guard of [make_move] raises, when its first two
    tests let the position be looked at. *)
Definition guard_error (g : Game) (uid : Z) (position : json) : option exn :=
  if decide (status g = IN_PROGRESS ∧ current_turn g = Some uid)
  then position_error position
  else None.

(** The mark of the caller. *)
Definition symbol_for (g : Game) (uid : Z) : ascii :=
  symbol_of (bool_decide (uid = player1 g)).

(** The cells after the caller's mark is written at [i]. *)
Definition cells_after (g : Game) (uid : Z) (i : nat) : list ascii :=
  <[i := symbol_for g uid]> (board_list (board g)).

(** The row saved by an accepted move at cell [i]. *)
Definition played (g : Game) (uid : Z) (i : nat) : Game :=
  let g1 := set_board g (join (cells_after g uid i)) in
  if decide (wins (cells_after g uid i) (symbol_for g uid)) then
    set_winner (set_status g1 COMPLETED) (Some uid)
  else if no_empty_cell (board g1) then set_status g1 COMPLETED
  else set_current_turn g1
         (if bool_decide (uid = player1 g) then player2 g else Some (player1 g)).

(** The message broadcast for an accepted move at cell [i]. *)
Definition move_message (g : Game) (uid : Z) (position : json) (i : nat) : json :=
  match list_find (line (cells_after g uid i) (symbol_for g uid))
          winning_combinations with
  | Some (_, combo) => game_over_win_message None (played g uid i) combo
  | None =>
      if no_empty_cell (board (played g uid i))
      then game_over_draw_message (played g uid i)
      else move_made_message position (symbol_for g uid) None (played g uid i)
  end.

(** The world after an accepted move at cell [i]: one more recorded
    move and the row replaced. *)
Definition record_move (w : World) (g : Game) (uid : Z) (i : nat) : World :=
  set_games
    (set_moves w (moves w ++ [mkGameMove (room_code g) uid (Z.of_nat i)]))
    (<[room_code g := played g uid i]> (games w)).

(** The world a rejected move leaves: the world it found, with one
    line in the error log when the guard raised. *)
Definition rejection_world (w : World) (g : Game) (uid : Z) (position : json) : World :=
  match guard_error g uid position with
  | Some e => set_log w (log w ++ [("Make Move Error"%string, e)])
  | None => w
  end.

(** The snapshot [get_game_state] returns for a row: every name in it
    is [None], because [username] is. *)
Definition game_state_message (g : Game) : json :=
  JObj [("action", JStr "game_state");
        ("board", JStr (board g));
        ("status", JStr (status_str (status g)));
        ("current_turn", JNull);
        ("player1", JNull);
        ("player2", JNull);
        ("winner", JNull)]%string.

(** The row saved when a second player joins. *)
Definition joined (g : Game) (uid : Z) : Game :=
  set_current_turn (set_status (set_player2 g (Some uid)) IN_PROGRESS)
    (Some (player1 g)).

(** Whether [add_player_to_game] makes the caller the second player. *)
Definition joins (g : Game) (uid : Z) : bool :=
  bool_decide (player2 g = None ∧ player1 g ≠ uid).

(** What [make_move] returns and the world it leaves, as a function of
    the world it finds. *)
Definition make_move_outcome (w : World) (rc : string) (uid : Z) (position : json) :
    Result (option json) * World :=
  match games w !! rc, users w !! uid with
  | Some g, Some _ =>
      match accepts g uid position with
      | Some i => (Ok (Some (game_message_event (move_message g uid position i))),
                   record_move w g uid i)
      | None => (Ok None, rejection_world w g uid position)
      end
  | _, _ => (Ok None, w)
  end.

(** The same for [add_player_to_game]. *)
Definition add_player_outcome (w : World) (rc : string) (uid : Z) :
    Result (option json) * World :=
  match games w !! rc, users w !! uid with
  | Some g, Some _ =>
      if joins g uid
      then (Ok (Some (game_message_event
                        (player_joined_message None None (joined g uid)))),
            set_games w (<[room_code g := joined g uid]> (games w)))
      else (Ok None, w)
  | _, _ => (Ok None, w)
  end.

(** The first two statements of [add_player_to_game] and [make_move],
    when both rows exist. *)
Ltac run_rows :=
  erewrite run_bind_ok by (by apply run_Game_get);
  erewrite run_bind_ok by (by apply run_User_get).

(** ** The guard *)

Section guard.
Implicit Types (cells : list ascii) (position : json) (g : Game) (u : User)
  (w : World) (uid : Z) (i : nat).

Lemma target_Some cells position i :
  target cells position = Some i ↔
  position_index position = Some i ∧ cells !! i = Some "-".
Proof.
  unfold target. destruct (position_index position) as [j|]; simpl; [|naive_solver].
  case_decide; naive_solver.
Qed.

Lemma target_cell_test (c : ascii) i :
  negb (bool_decide (c = "-")) =
    bool_decide ((if decide (Some c = Some "-") is left _ then Some i else None) = None).
Proof.
  destruct (decide (c = "-")) as [->|Hne].
  - by rewrite decide_True.
  - rewrite decide_False by congruence. by rewrite bool_decide_eq_false_2.
Qed.

(** On nine cells the last two tests of the guard raise on
    [position_error] and otherwise reject exactly the positions that
    designate no empty cell. *)
Lemma position_rejected_spec cells position :
  length cells = 9 →
  position_rejected cells position =
    match position_error position with
    | Some e => Raise e
    | None => Ok (bool_decide (target cells position = None))
    end.
Proof.
  intros Hlen. unfold position_rejected, target, subscript.
  destruct position as [|b|z|f|s|l|kv]; try done.
  - rewrite chained_le_bool. simpl.
    destruct (lookup_lt_is_Some_2 cells (Z.to_nat (int_of_bool b))) as [c Hc].
    { destruct b; simpl; lia. }
    rewrite (proj2 (getitem_inr _ _ _) Hc). simpl.
    replace (position_index (JBool b)) with (Some (Z.to_nat (int_of_bool b)))
      by by destruct b.
    simpl. rewrite Hc. f_equal. apply target_cell_test.
  - rewrite chained_le_int, position_index_int. simpl.
    case_bool_decide as Hz; simpl; [|done].
    destruct (lookup_lt_is_Some_2 cells (Z.to_nat z)) as [c Hc]; [lia|].
    rewrite (proj2 (getitem_inr _ _ _) Hc). simpl. rewrite Hc.
    f_equal. apply target_cell_test.
  - simpl. by destruct (_ && _).
Qed.

Lemma position_index_as_index position i :
  position_index position = Some i → as_index position = Ok (Z.of_nat i).
Proof.
  intros (z & Hz & Hc & -> & _)%position_index_Some. rewrite Hz. f_equal.
  destruct position as [|b|z'|f|s|l|kv]; simplify_eq/=.
  - by destruct b.
  - apply andb_prop in Hc as [?%bool_decide_eq_true _]. lia.
Qed.

Lemma position_index_no_error position i :
  position_index position = Some i → position_error position = None.
Proof. by destruct position. Qed.

Lemma accepts_off_turn g uid position :
  ¬ (status g = IN_PROGRESS ∧ current_turn g = Some uid) →
  accepts g uid position = None ∧ guard_error g uid position = None.
Proof. intros. unfold accepts, guard_error. by rewrite !decide_False. Qed.

Lemma accepts_on_turn g uid position :
  status g = IN_PROGRESS → current_turn g = Some uid →
  accepts g uid position = target (board_list (board g)) position ∧
  guard_error g uid position = position_error position.
Proof. intros. unfold accepts, guard_error. by rewrite !decide_True. Qed.

Lemma accepts_Some g uid position i :
  accepts g uid position = Some i ↔
  status g = IN_PROGRESS ∧ current_turn g = Some uid ∧
  position_index position = Some i ∧ board_list (board g) !! i = Some "-".
Proof. unfold accepts. case_decide; rewrite ?target_Some; naive_solver. Qed.

Lemma accepts_no_error g uid position i :
  accepts g uid position = Some i → guard_error g uid position = None.
Proof.
  intros (Hs & Ht & Hp & _)%accepts_Some.
  destruct (accepts_on_turn g uid position Hs Ht) as [_ ->].
  by eapply position_index_no_error.
Qed.

(** Under the invariant the guard reads two rows and decides as
    [accepts] and [guard_error] say. *)
Lemma run_move_rejected w rc g uid u position :
  world_ok w → games w !! rc = Some g → users w !! uid = Some u →
  run (move_rejected g u position) w =
    (match guard_error g uid position with
     | Some e => Raise e
     | None => Ok (bool_decide (accepts g uid position = None))
     end, w).
Proof.
  intros Hw Hg Hu. unfold move_rejected.
  pose proof (world_ok_pk _ _ _ Hw Hu) as Hpk.
  pose proof (world_ok_game _ _ _ Hw Hg) as Hok.
  destruct (decide (status g = IN_PROGRESS)) as [Hs|Hs]; last first.
  { destruct (accepts_off_turn g uid position) as [-> ->]; [tauto|].
    by rewrite bool_decide_eq_false_2. }
  rewrite bool_decide_eq_true_2 by done. cbn [negb].
  destruct (current_turn g) as [t|] eqn:Ht; last first.
  { destruct (accepts_off_turn g uid position) as [-> ->]; [naive_solver|done]. }
  destruct (in_progress_turn g t) as (p2 & Hp2 & Hne & Hcase);
    [by apply game_ok_in_progress|done|].
  assert (∃ ut, users w !! t = Some ut ∧ pk ut = t) as (ut & Hut & Hkt).
  { destruct Hcase as [[-> _]|[-> _]];
      eauto using world_ok_player1, world_ok_player2. }
  erewrite run_bind_ok by (by apply run_related_optional_Some).
  unfold optional_model_ne, model_eq. rewrite Hkt, Hpk.
  destruct (decide (t = uid)) as [->|Htu]; last first.
  { destruct (accepts_off_turn g uid position) as [-> ->]; [naive_solver|].
    by rewrite bool_decide_eq_false_2. }
  rewrite bool_decide_eq_true_2 by done. cbn [negb].
  destruct (accepts_on_turn g uid position) as [-> ->]; [done..|].
  rewrite position_rejected_spec by by apply game_ok_length.
  by destruct (position_error position).
Qed.

End guard.

(** ** The row that is saved *)

Section played.
Implicit Types (cells : list ascii) (g : Game) (uid : Z) (i : nat).

Lemma played_win g uid i :
  wins (cells_after g uid i) (symbol_for g uid) →
  played g uid i =
    set_winner (set_status (set_board g (join (cells_after g uid i))) COMPLETED)
      (Some uid).
Proof. intros. unfold played. by rewrite decide_True. Qed.

Lemma played_draw g uid i :
  ¬ wins (cells_after g uid i) (symbol_for g uid) →
  no_empty_cell (join (cells_after g uid i)) = true →
  played g uid i = set_status (set_board g (join (cells_after g uid i))) COMPLETED.
Proof.
  intros ? Hn. unfold played. rewrite decide_False by done. simpl. by rewrite Hn.
Qed.

Lemma played_continue g uid i :
  ¬ wins (cells_after g uid i) (symbol_for g uid) →
  no_empty_cell (join (cells_after g uid i)) = false →
  played g uid i =
    set_current_turn (set_board g (join (cells_after g uid i)))
      (if bool_decide (uid = player1 g) then player2 g else Some (player1 g)).
Proof.
  intros ? Hn. unfold played. rewrite decide_False by done. simpl. by rewrite Hn.
Qed.

Lemma room_code_played g uid i : room_code (played g uid i) = room_code g.
Proof. unfold played. case_decide; [done|]. by case_match. Qed.

Lemma player1_played g uid i : player1 (played g uid i) = player1 g.
Proof. unfold played. case_decide; [done|]. by case_match. Qed.

Lemma player2_played g uid i : player2 (played g uid i) = player2 g.
Proof. unfold played. case_decide; [done|]. by case_match. Qed.

Lemma board_played g uid i : board (played g uid i) = join (cells_after g uid i).
Proof. unfold played. case_decide; [done|]. by case_match. Qed.

Lemma list_find_line_wins cells s :
  is_Some (list_find (line cells s) winning_combinations) ↔ wins cells s.
Proof.
  unfold wins. rewrite Exists_exists. split.
  - intros [[k c] (Hk & Hl & _)%list_find_Some]. exists c.
    split; [by eapply list_elem_of_lookup_2|done].
  - intros (c & Hin & Hl). destruct (list_find _ _) eqn:H; [done|].
    apply list_find_None in H. rewrite Forall_forall in H. by destruct (H c Hin).
Qed.

(** The three messages of an accepted move, by how the move ends. *)
Lemma move_message_cases g uid position i :
  (wins (cells_after g uid i) (symbol_for g uid) ∧
   ∃ combo, move_message g uid position i =
              game_over_win_message None (played g uid i) combo) ∨
  (¬ wins (cells_after g uid i) (symbol_for g uid) ∧
   no_empty_cell (join (cells_after g uid i)) = true ∧
   move_message g uid position i = game_over_draw_message (played g uid i)) ∨
  (¬ wins (cells_after g uid i) (symbol_for g uid) ∧
   no_empty_cell (join (cells_after g uid i)) = false ∧
   move_message g uid position i =
     move_made_message position (symbol_for g uid) None (played g uid i)).
Proof.
  unfold move_message. rewrite board_played.
  destruct (list_find _ _) as [[k combo]|] eqn:Hfind.
  - left. split; [apply list_find_line_wins; rewrite Hfind|]; eauto.
  - right. assert (¬ wins (cells_after g uid i) (symbol_for g uid)) as Hnw.
    { intros Hw%list_find_line_wins. rewrite Hfind in Hw. by destruct Hw. }
    destruct (no_empty_cell _); eauto.
Qed.

End played.

(** ** The result and the world of [make_move] *)

Section run_make_move.
Implicit Types (position : json) (g : Game) (u : User) (w : World)
  (uid : Z) (i : nat) (rc : string).

Lemma length_cells_after g uid i :
  length (cells_after g uid i) = length (board_list (board g)).
Proof. apply length_insert. Qed.

(** [game.player2 if user == game.player1 else game.player1] under the
    invariant: the key assigned to [current_turn] is the one [played]
    computes, and the instance is not [None]. *)
Lemma run_other_player w g uid u (p1 : User) :
  users w !! uid = Some u → pk u = uid →
  pk p1 = player1 g →
  (∃ p2 u2, player2 g = Some p2 ∧ users w !! p2 = Some u2 ∧ pk u2 = p2) →
  ∃ next, run (other_player g u p1) w = (Ok (Some next), w) ∧
          Some (pk next) =
            if bool_decide (uid = player1 g) then player2 g else Some (player1 g).
Proof.
  intros Hu Hpk Hk1 (p2 & u2 & Hp2 & Hu2 & Hk2). unfold other_player, model_eq.
  rewrite Hpk, Hk1. case_bool_decide.
  - exists u2. rewrite Hp2. split; [by apply run_related_optional_Some|by rewrite Hk2].
  - exists p1. by rewrite Hk1.
Qed.

Lemma run_move_passes w rc g uid u position i :
  world_ok w → games w !! rc = Some g → users w !! uid = Some u →
  accepts g uid position = Some i →
  run (move_rejected g u position) w = (Ok false, w).
Proof.
  intros Hw Hg Hu Hacc. erewrite run_move_rejected by done.
  by rewrite (accepts_no_error _ _ _ _ Hacc), Hacc.
Qed.

(** What the second half of [make_move] returns and writes. *)
Lemma run_conclude_move w g uid u (p1 : User) position i :
  users w !! uid = Some u → pk u = uid →
  pk p1 = player1 g →
  (∃ p2 u2, player2 g = Some p2 ∧ users w !! p2 = Some u2 ∧ pk u2 = p2) →
  length (board_list (board g)) = 9 →
  run (conclude_move (set_board g (join (cells_after g uid i))) u p1 position
         (symbol_for g uid) (cells_after g uid i)) w =
    (Ok (Some (game_message_event (move_message g uid position i))),
     set_games w (<[room_code g := played g uid i]> (games w))).
Proof.
  intros Hu Hpk Hk1 Hfk Hlen. unfold conclude_move, move_message.
  rewrite run_bind, run_lift, first_win_find
    by (apply winning_combinations_lt; rewrite length_cells_after; lia).
  destruct (list_find _ _) as [[k combo]|] eqn:Hfind; simpl fmap.
  - rewrite played_win by (apply list_find_line_wins; rewrite Hfind; eauto).
    by rewrite run_bind, run_save, run_ret, Hpk.
  - assert (¬ wins (cells_after g uid i) (symbol_for g uid)) as Hnw.
    { intros Hwin%list_find_line_wins. rewrite Hfind in Hwin. by destruct Hwin. }
    rewrite board_played. cbn [board set_board].
    destruct (no_empty_cell _) eqn:Hfull.
    + rewrite played_draw by done. by rewrite run_bind, run_save, run_ret.
    + rewrite played_continue by done.
      destruct (run_other_player w g uid u p1) as (next & Hrun & <-); [done..|].
      erewrite run_bind_ok by done.
      by rewrite run_bind, run_save, run_bind, run_lift.
Qed.

(** The [try] block on a move that passes the guard. *)
Lemma run_body_accepted w rc g uid u position i :
  world_ok w → games w !! rc = Some g → users w !! uid = Some u →
  accepts g uid position = Some i →
  run (make_move_body rc uid position) w =
    (Ok (Some (game_message_event (move_message g uid position i))),
     record_move w g uid i).
Proof.
  intros Hw Hg Hu Hacc.
  pose proof (world_ok_pk _ _ _ Hw Hu) as Hpk.
  pose proof (world_ok_game _ _ _ Hw Hg) as Hok.
  destruct (world_ok_player1 _ _ _ Hw Hg) as (p1 & Hp1 & Hk1).
  pose proof Hacc as (Hs & Ht & Hpi & Hcell)%accepts_Some.
  destruct (in_progress_turn g uid) as (p2 & Hp2 & _);
    [by apply game_ok_in_progress|done|].
  destruct (world_ok_player2 _ _ _ _ Hw Hg Hp2) as (u2 & Hu2 & Hk2).
  unfold make_move_body. run_rows.
  erewrite run_bind_ok by (by eapply run_move_passes). cbv beta iota.
  erewrite run_bind_ok by (by apply run_related).
  unfold model_eq. rewrite Hpk, Hk1. fold (symbol_for g uid).
  rewrite run_bind, run_lift, (subscript_assign_position _ _ i), setitem_lt
    by (done || by eapply lookup_lt_Some).
  fold (cells_after g uid i).
  rewrite run_bind, run_lift, (position_index_as_index _ i) by done.
  rewrite run_bind, run_GameMove_create, Hpk. cbn [room_code set_board].
  erewrite run_conclude_move; [done..| |by apply game_ok_length]; eauto.
Qed.

End run_make_move.

Section run_rejected.
Implicit Types (position : json) (g : Game) (u : User) (w : World)
  (uid : Z) (i : nat) (rc : string).

Lemma position_error_TypeError position e :
  position_error position = Some e → e = TypeError.
Proof. destruct position; simpl; try case_match; naive_solver. Qed.

Lemma guard_error_TypeError g uid position e :
  guard_error g uid position = Some e → e = TypeError.
Proof. unfold guard_error. case_decide; [apply position_error_TypeError|done]. Qed.

(** The [try] block on a move that does not pass the guard: it
    returns [None] or raises the error of the guard, and writes
    nothing. *)
Lemma run_body_rejected w rc g uid u position :
  world_ok w → games w !! rc = Some g → users w !! uid = Some u →
  accepts g uid position = None →
  run (make_move_body rc uid position) w =
    (match guard_error g uid position with
     | Some e => Raise e
     | None => Ok None
     end, w).
Proof.
  intros Hw Hg Hu Hacc. unfold make_move_body. run_rows.
  rewrite run_bind. erewrite run_move_rejected by done. rewrite Hacc.
  by destruct (guard_error g uid position).
Qed.

(** A method that starts by fetching the game and the user raises
    [ObjectDoesNotExist] when one of them is missing. *)
Lemma run_rows_missing {A} w rc uid (k : Game → User → M A) :
  games w !! rc = None ∨ users w !! uid = None →
  run (game ← Game_objects_get rc; user ← User_objects_get uid; k game user) w =
    (Raise ObjectDoesNotExist, w).
Proof.
  intros Hmiss. destruct (games w !! rc) as [g|] eqn:Hg.
  - destruct Hmiss as [?|Hu]; [done|].
    erewrite run_bind_ok by (by apply run_Game_get).
    by erewrite run_bind_raise by (by apply run_User_get_None).
  - by erewrite run_bind_raise by (by apply run_Game_get_None).
Qed.

(** [make_move] on every world that satisfies the invariant. *)
Lemma run_make_move w rc uid position :
  world_ok w → run (make_move rc uid position) w = make_move_outcome w rc uid position.
Proof.
  intros Hw. unfold make_move, make_move_outcome.
  destruct (games w !! rc) as [g|] eqn:Hg; last first.
  { erewrite run_try_raise by (apply run_rows_missing; auto). done. }
  destruct (users w !! uid) as [u|] eqn:Hu; last first.
  { erewrite run_try_raise by (apply run_rows_missing; auto). done. }
  destruct (accepts g uid position) as [i|] eqn:Hacc.
  { apply run_try_ok. by eapply run_body_accepted. }
  pose proof (run_body_rejected w rc g uid u position Hw Hg Hu Hacc) as Hbody.
  unfold rejection_world. destruct (guard_error g uid position) as [e|] eqn:He.
  - erewrite run_try_raise by exact Hbody.
    apply guard_error_TypeError in He as ->. done.
  - by erewrite run_try_ok by exact Hbody.
Qed.

(** C2: a move that passes the guard is recorded, the row is replaced by
    the row [played] computes, and the message [move_message] is
    returned for broadcast; nothing else of the world changes and
    nothing is logged. *)
Theorem make_move_accepted w rc g uid u position i :
  world_ok w → games w !! rc = Some g → users w !! uid = Some u →
  accepts g uid position = Some i →
  run (make_move rc uid position) w =
    (Ok (Some (game_message_event (move_message g uid position i))),
     record_move w g uid i).
Proof.
  intros Hw Hg Hu Hacc. rewrite run_make_move by done.
  unfold make_move_outcome. by rewrite Hg, Hu, Hacc.
Qed.

(** C3: a move that does not pass the guard returns [None] and writes
    neither the game table nor the move log; the only trace it can
    leave is a line in the error log, when the position is not an
    integer and the first two tests passed. *)
Theorem make_move_rejected w rc g uid u position :
  world_ok w → games w !! rc = Some g → users w !! uid = Some u →
  accepts g uid position = None →
  run (make_move rc uid position) w = (Ok None, rejection_world w g uid position).
Proof.
  intros Hw Hg Hu Hacc. rewrite run_make_move by done.
  unfold make_move_outcome. by rewrite Hg, Hu, Hacc.
Qed.

(** A move on a room or by a user that does not exist returns
    [None] and leaves the world as it is, error log included: the
    [ObjectDoesNotExist] clause of the handler logs nothing. *)
Theorem make_move_missing w rc uid position :
  games w !! rc = None ∨ users w !! uid = None →
  run (make_move rc uid position) w = (Ok None, w).
Proof.
  intros Hmiss. unfold make_move.
  by erewrite run_try_raise by (by apply run_rows_missing).
Qed.

End run_rejected.

(** ** The result and the world of [add_player_to_game] and
    [get_game_state] *)

Section run_join.
Implicit Types (g : Game) (u : User) (w : World) (uid : Z) (rc : string).

Lemma joins_true g uid : joins g uid = true ↔ player2 g = None ∧ player1 g ≠ uid.
Proof. apply bool_decide_eq_true. Qed.

(** The [try] block of [add_player_to_game] when both rows exist: it
    does not raise. *)
Lemma run_add_player_body w rc g uid u :
  world_ok w → games w !! rc = Some g → users w !! uid = Some u →
  run (add_player_to_game_body rc uid) w =
    if joins g uid
    then (Ok (Some (game_message_event
                      (player_joined_message None None (joined g uid)))),
          set_games w (<[room_code g := joined g uid]> (games w)))
    else (Ok None, w).
Proof.
  intros Hw Hg Hu. pose proof (world_ok_pk _ _ _ Hw Hu) as Hpk.
  destruct (world_ok_player1 _ _ _ Hw Hg) as (p1 & Hp1 & Hk1).
  unfold add_player_to_game_body, joins. run_rows.
  destruct (player2 g) as [p2|] eqn:Hp2.
  - destruct (world_ok_player2 _ _ _ _ Hw Hg Hp2) as (u2 & Hu2 & _).
    rewrite bool_decide_eq_false_2 by (by intros [[=] _]).
    by erewrite run_bind_ok by (by apply run_related_optional_Some).
  - erewrite run_bind_ok by apply run_related_optional_None. cbv beta iota.
    erewrite run_bind_ok by (by apply run_related).
    unfold model_eq. rewrite Hk1, Hpk.
    destruct (decide (player1 g = uid)) as [Heq|Hne].
    + rewrite (bool_decide_eq_true_2 (player1 g = uid)) by done.
      by rewrite bool_decide_eq_false_2 by tauto.
    + rewrite (bool_decide_eq_false_2 (player1 g = uid)) by done.
      rewrite bool_decide_eq_true_2 by tauto.
      cbn [negb]. cbv beta iota zeta. by rewrite run_bind, run_save, run_ret.
Qed.

(** [add_player_to_game] on every world that satisfies the
    invariant. *)
Lemma run_add_player_to_game w rc uid :
  world_ok w → run (add_player_to_game rc uid) w = add_player_outcome w rc uid.
Proof.
  intros Hw. unfold add_player_to_game, add_player_outcome.
  destruct (games w !! rc) as [g|] eqn:Hg; last first.
  { erewrite run_try_raise by (apply run_rows_missing; auto). done. }
  destruct (users w !! uid) as [u|] eqn:Hu; last first.
  { erewrite run_try_raise by (apply run_rows_missing; auto). done. }
  pose proof (run_add_player_body w rc g uid u Hw Hg Hu) as Hbody.
  destruct (joins g uid); by erewrite run_try_ok by exact Hbody.
Qed.

(** C19: under the invariant [add_player_to_game] makes the caller the
    second player exactly when the row has none and the caller is not
    the first player: it then saves the row with [player2] set to the
    caller, status IN_PROGRESS and the turn given to player 1, and
    returns the [player_joined] message; in every other case it
    returns [None] and writes nothing. *)
Theorem add_player_to_game_run w rc g uid u :
  world_ok w → games w !! rc = Some g → users w !! uid = Some u →
  run (add_player_to_game rc uid) w =
    if joins g uid
    then (Ok (Some (game_message_event
                      (player_joined_message None None (joined g uid)))),
          set_games w (<[room_code g := joined g uid]> (games w)))
    else (Ok None, w).
Proof.
  intros Hw Hg Hu. rewrite run_add_player_to_game by done.
  unfold add_player_outcome. by rewrite Hg, Hu.
Qed.

(** Joining a room that does not exist, or as a user that does
    not exist, returns [None] and leaves the world as it is. *)
Theorem add_player_to_game_missing w rc uid :
  games w !! rc = None ∨ users w !! uid = None →
  run (add_player_to_game rc uid) w = (Ok None, w).
Proof.
  intros Hmiss. unfold add_player_to_game.
  by erewrite run_try_raise by (by apply run_rows_missing).
Qed.

(** [x.username if x else None] is [None] for every key of a row. *)
Lemma run_optional_username w rc g fk :
  world_ok w → games w !! rc = Some g →
  fk = player2 g ∨ fk = current_turn g ∨ fk = winner g →
  run (optional_username fk) w = (Ok JNull, w).
Proof.
  intros Hw Hg Hfk. unfold optional_username. destruct fk as [k|].
  - destruct (world_ok_fk w rc g k) as (uk & Huk & _); [done..|naive_solver|].
    by erewrite run_bind_ok by (by apply run_related_optional_Some).
  - by erewrite run_bind_ok by apply run_related_optional_None.
Qed.

(** The snapshot of a row that exists. *)
Lemma run_get_game_state_Some w rc g :
  world_ok w → games w !! rc = Some g →
  run (get_game_state rc) w = (Ok (Some (game_state_message g)), w).
Proof.
  intros Hw Hg. unfold get_game_state, get_game_state_body.
  destruct (world_ok_player1 _ _ _ Hw Hg) as (p1 & Hp1 & _).
  apply run_try_ok.
  erewrite run_bind_ok by (by apply run_Game_get).
  erewrite run_bind_ok by (eapply run_optional_username; eauto).
  erewrite run_bind_ok by (by apply run_related).
  erewrite run_bind_ok by (eapply run_optional_username; eauto).
  erewrite run_bind_ok by (eapply run_optional_username; eauto).
  done.
Qed.

Lemma run_get_game_state_None w rc :
  games w !! rc = None → run (get_game_state rc) w = (Ok None, w).
Proof.
  intros Hg. unfold get_game_state, get_game_state_body.
  by erewrite run_try_raise
    by (by erewrite run_bind_raise by (by apply run_Game_get_None)).
Qed.

(** C20: [get_game_state] returns the snapshot of the row, with the
    board and the status of the row and [None] for every name, and
    writes nothing; for a room that does not exist it returns [None]. *)
Theorem get_game_state_run w rc :
  world_ok w →
  run (get_game_state rc) w = (Ok (game_state_message <$> games w !! rc), w).
Proof.
  intros Hw. destruct (games w !! rc) as [g|] eqn:Hg.
  - by apply run_get_game_state_Some.
  - by apply run_get_game_state_None.
Qed.

End run_join.

(** ** Examples on the small world *)

(** Alice, whose turn it is, takes the centre of the empty board. *)
Lemma make_move_accepted_witness :
  run (make_move room 1 (JInt 4)) open_world =
    (Ok (Some (game_message_event (move_message open_game 1 (JInt 4) 4))),
     record_move open_world open_game 1 4).
Proof.
  apply (make_move_accepted open_world room open_game 1 alice (JInt 4) 4); by_compute.
Defined.

(** Bob submits while it is Alice's turn. *)
Lemma make_move_rejected_witness :
  run (make_move room 2 (JInt 4)) open_world =
    (Ok None, rejection_world open_world open_game 2 (JInt 4)).
Proof.
  apply (make_move_rejected open_world room open_game 2 bob (JInt 4)); by_compute.
Defined.

(** A move on a room that was never created. *)
Lemma make_move_missing_witness :
  run (make_move "NOROOM" 1 (JInt 4)) open_world = (Ok None, open_world).
Proof. apply (make_move_missing open_world "NOROOM" 1 (JInt 4)). left. by_compute. Defined.

(** Bob connects to Alice's pending room. *)
Lemma add_player_to_game_run_witness :
  run (add_player_to_game room 2) pending_world =
    if joins pending_game 2
    then (Ok (Some (game_message_event
                      (player_joined_message None None (joined pending_game 2)))),
          set_games pending_world
            (<[room_code pending_game := joined pending_game 2]> (games pending_world)))
    else (Ok None, pending_world).
Proof.
  apply (add_player_to_game_run pending_world room pending_game 2 bob); by_compute.
Defined.

(** A user that does not exist connects. *)
Lemma add_player_to_game_missing_witness :
  run (add_player_to_game room 9) pending_world = (Ok None, pending_world).
Proof. apply (add_player_to_game_missing pending_world room 9). right. by_compute. Defined.

Lemma get_game_state_run_witness :
  run (get_game_state room) open_world =
    (Ok (game_state_message <$> games open_world !! room), open_world).
Proof. apply (get_game_state_run open_world room). by_compute. Defined.
