(* ===== verification/Preservation.v ===== *)
(** * Preservation of the invariant and the history of a match

    The calls a consumer makes on the database ([call], [perform]) and
    their effect on the world as a relation ([effect]): nothing, a line
    in the error log, a second player joining, an accepted move.  Every
    call has one of these effects on a well-formed world
    ([perform_effect]); every effect keeps the world well formed
    ([effect_ok]) and moves every row forward in the order [later]:
    the status never goes back, the players stay, marks are never
    erased and a completed row never changes. *)

From stdpp Require Import base option list gmap strings.
From Stdlib Require Import Ascii.
From S2P Require Import Prelude Monad Json Board Models Wellformed Consumers.

#[local] Set Warnings "-clear-no-such-hyp".

#[local] Open Scope char_scope.

(** ** Calls and effects *)

(** A call of one of the three database methods by some consumer. *)
Inductive call : Type :=
| GetGameState (rc : string)
| AddPlayerToGame (rc : string) (uid : Z)
| MakeMove (rc : string) (uid : Z) (position : json).

Definition perform (c : call) : M (option json) :=
  match c with
  | GetGameState rc => get_game_state rc
  | AddPlayerToGame rc uid => add_player_to_game rc uid
  | MakeMove rc uid position => make_move rc uid position
  end.

(** The world after a call, and after a sequence of calls, each run to
    completion before the next starts. *)
Definition after (c : call) (w : World) : World := (run (perform c) w).2.

Definition after_all (cs : list call) (w : World) : World :=
  foldl (λ w c, after c w) w cs.

(** The winning scenario: bob joins, then 4, 0, 1, 3, 7. *)
Definition winning_scenario : list call :=
  [ AddPlayerToGame room 2;
    MakeMove room 1 (JInt 4); MakeMove room 2 (JInt 0);
    MakeMove room 1 (JInt 1); MakeMove room 2 (JInt 3);
    MakeMove room 1 (JInt 7) ].

(** What a call can do to the world. *)
Inductive effect (w : World) : World → Prop :=
| effect_none :
    effect w w
| effect_log l :
    effect w (set_log w l)
| effect_join rc g uid :
    games w !! rc = Some g → is_Some (users w !! uid) → joins g uid = true →
    effect w (set_games w (<[room_code g := joined g uid]> (games w)))
| effect_move rc g uid position i :
    games w !! rc = Some g → is_Some (users w !! uid) →
    accepts g uid position = Some i →
    effect w (record_move w g uid i).

(** The order of the statuses. *)
Definition status_rank (s : GAME_STATUS) : nat :=
  match s with
  | PENDING => 0
  | IN_PROGRESS => 1
  | COMPLETED => 2
  end.

(** [g'] is a state of the match [g] at the same or a later time. *)
Definition later (g g' : Game) : Prop :=
  room_code g' = room_code g ∧
  player1 g' = player1 g ∧
  (∀ p, player2 g = Some p → player2 g' = Some p) ∧
  status_rank (status g) ≤ status_rank (status g') ∧
  (∀ i c, board_list (board g) !! i = Some c → c ≠ "-" →
          board_list (board g') !! i = Some c) ∧
  (status g = COMPLETED → g' = g).

(** Every row of [w] is in [w'], at the same or a later time. *)
Definition world_later (w w' : World) : Prop :=
  users w' = users w ∧
  ∀ rc g, games w !! rc = Some g → ∃ g', games w' !! rc = Some g' ∧ later g g'.

(** ** The row after a move *)

Section played_ok.
Context (g : Game) (uid : Z) (position : json) (i : nat).
Context (Hok : game_ok g) (Hacc : accepts g uid position = Some i).

Lemma mover_cell : board_list (board g) !! i = Some "-".
Proof. by apply accepts_Some in Hacc as (_ & _ & _ & ?). Qed.

(** The caller is one of the two players; player 1 writes X when the
    marks are level, player 2 writes O when X is one ahead. *)
Lemma mover_cases :
  ∃ p2, player2 g = Some p2 ∧ p2 ≠ player1 g ∧
    ((uid = player1 g ∧ symbol_for g uid = "X" ∧ balanced (board g) true) ∨
     (uid = p2 ∧ symbol_for g uid = "O" ∧ balanced (board g) false)).
Proof.
  apply accepts_Some in Hacc as (Hs & Ht & _).
  destruct (in_progress_turn g uid) as (p2 & Hp2 & Hne & Hcase);
    [by apply game_ok_in_progress|done|].
  exists p2. split; [done|]. split; [done|]. unfold symbol_for.
  destruct Hcase as [[-> ?]|[-> ?]]; [left|right].
  - by rewrite bool_decide_eq_true_2.
  - by rewrite bool_decide_eq_false_2.
Qed.

Lemma mover_in_progress : in_progress_ok g.
Proof.
  apply accepts_Some in Hacc as (Hs & _). by apply game_ok_in_progress.
Qed.

Lemma board_ok_after : board_ok (join (cells_after g uid i)).
Proof. destruct Hok as [Hb _]. apply board_ok_insert; [done|apply cell_ok_symbol_of]. Qed.

Lemma marks_after : marks (join (cells_after g uid i)) = S (marks (board g)).
Proof. apply marks_insert; [apply mover_cell|apply filled_symbol_of]. Qed.

(** The balance of the marks flips. *)
Lemma balanced_after :
  (symbol_for g uid = "X" → balanced (board g) true →
   balanced (join (cells_after g uid i)) false) ∧
  (symbol_for g uid = "O" → balanced (board g) false →
   balanced (join (cells_after g uid i)) true).
Proof.
  pose proof mover_cell as Hc. unfold balanced, cells_after.
  split; intros -> Hb.
  - rewrite count_symbol_insert, count_symbol_insert_other by done. lia.
  - rewrite count_symbol_insert, (count_symbol_insert_other _ _ "O" "X") by done. lia.
Qed.

(** A move that completes no line of the caller leaves no line at
    all. *)
Lemma no_line_after :
  ¬ wins (cells_after g uid i) (symbol_for g uid) →
  no_line (join (cells_after g uid i)).
Proof.
  intros Hnw. pose proof mover_in_progress as H.
  destruct mover_cases as (p2 & Hp2 & _ & Hcase).
  unfold in_progress_ok in H. rewrite Hp2 in H.
  destruct H as (_ & _ & [HnX HnO] & _). unfold no_line. rewrite board_list_join.
  destruct Hcase as [(_ & Hs & _)|(_ & Hs & _)]; rewrite Hs in Hnw; split; try done.
  - intros Hw. apply HnO. unfold cells_after in Hw. rewrite Hs in Hw.
    by apply (wins_insert_other _ i "X" "O").
  - intros Hw. apply HnX. unfold cells_after in Hw. rewrite Hs in Hw.
    by apply (wins_insert_other _ i "O" "X").
Qed.

(** The move gives no line to the player who did not make it. *)
Lemma opponent_no_line :
  (symbol_for g uid = "X" → ¬ wins (cells_after g uid i) "O") ∧
  (symbol_for g uid = "O" → ¬ wins (cells_after g uid i) "X").
Proof.
  pose proof mover_in_progress as H.
  destruct mover_cases as (p2 & Hp2 & _ & _).
  unfold in_progress_ok in H. rewrite Hp2 in H.
  destruct H as (_ & _ & [HnX HnO] & _). unfold cells_after.
  split; intros -> Hw; [apply HnO|apply HnX].
  - by apply (wins_insert_other _ i "X" "O").
  - by apply (wins_insert_other _ i "O" "X").
Qed.

(** The move that fills the board is a move of player 1. *)
Lemma full_by_player1 :
  no_empty_cell (join (cells_after g uid i)) = true →
  uid = player1 g ∧ symbol_for g uid = "X" ∧ balanced (board g) true.
Proof.
  intros Hfull%no_empty_cell_marks. destruct board_ok_after as [Hlen Hall].
  rewrite Hlen, (marks_count _ Hall) in Hfull.
  destruct mover_cases as (p2 & _ & _ & [?|(_ & Hs & Hb)]); [done|].
  apply balanced_after in Hb; [|done]. unfold balanced in Hb. lia.
Qed.

End played_ok.

(** An accepted move keeps the row well formed. *)
Lemma game_ok_played g uid position i :
  game_ok g → accepts g uid position = Some i → game_ok (played g uid i).
Proof.
  intros Hok Hacc. split; [rewrite board_played; by eapply board_ok_after|].
  destruct (mover_cases g uid position i Hok Hacc) as (p2 & Hp2 & Hne & Hcase).
  pose proof (mover_in_progress g uid position i Hok Hacc) as H.
  pose proof Hacc as (Hst & Ht & _)%accepts_Some.
  pose proof (balanced_after g uid position i Hacc) as [HbX HbO].
  unfold in_progress_ok in H. rewrite Hp2 in H. destruct H as (_ & Hwn & _).
  destruct (decide (wins (cells_after g uid i) (symbol_for g uid))) as [Hw|Hnw].
  - rewrite played_win by done. unfold status_ok, completed_ok. cbn. rewrite Hp2.
    destruct (opponent_no_line g uid position i Hok Hacc) as [HnO HnX].
    split; [done|]. destruct Hcase as [(-> & Hs & ?)|(-> & Hs & ?)];
      rewrite Hs in Hw; [left|right; left]; rewrite Ht, board_list_join;
      repeat split; auto.
  - pose proof (no_line_after g uid position i Hok Hacc Hnw) as Hnl.
    destruct (no_empty_cell (join (cells_after g uid i))) eqn:Hfull.
    + rewrite played_draw by done. unfold status_ok, completed_ok. cbn. rewrite Hp2.
      destruct (full_by_player1 g uid position i Hok Hacc Hfull) as (-> & Hs & Hb).
      split; [done|]. right; right. rewrite Hwn, Ht. destruct Hnl. repeat split; auto.
    + rewrite played_continue by done. unfold status_ok, in_progress_ok.
      cbn. rewrite Hst, Hp2, Hwn.
      split; [done|]. split; [done|]. split; [done|]. split; [done|].
      destruct Hcase as [(-> & Hs & ?)|(-> & Hs & ?)].
      * rewrite bool_decide_eq_true_2 by done. auto.
      * rewrite bool_decide_eq_false_2 by done. auto.
Qed.

(** A second player joining keeps the row well formed. *)
Lemma game_ok_joined g uid :
  game_ok g → joins g uid = true → game_ok (joined g uid).
Proof.
  intros Hok [Hp2 Hne]%joins_true.
  pose proof (proj1 (game_ok_player2_None g Hok) Hp2) as Hs.
  destruct (game_ok_pending g Hok Hs) as (_ & _ & Hwn & Hb).
  destruct Hok as [Hbok _]. split; [done|].
  unfold status_ok, in_progress_ok. cbn. rewrite Hwn, Hb.
  split; [done|]. split; [done|]. split; [apply no_line_empty_board|].
  split; [done|]. left. split; [done|apply balanced_empty_board].
Qed.

(** ** The world after a write *)

Section world_update.
Implicit Types (w : World) (g : Game) (rc : string) (ms : list GameMove).

(** Replacing one row and recording moves of that game keeps a world
    well formed when the new row is well formed, points to existing
    users and has as many more marks as moves were recorded. *)
Lemma world_ok_replace w w' rc g g' ms :
  world_ok w → games w !! rc = Some g →
  users w' = users w → games w' = <[rc := g']> (games w) →
  moves w' = moves w ++ ms →
  room_code g' = rc → game_ok g' → fks_ok w g' →
  Forall (λ m, move_game m = rc ∧ is_Some (users w !! move_player m)) ms →
  marks (board g') = marks (board g) + length ms →
  world_ok w'.
Proof.
  intros (Hus & Hgs & Hmv) Hg Hu' Hg' Hm' Hrc Hok Hfk Hms Hmarks.
  split; [by rewrite Hu'|]. split; last first.
  { rewrite Hm'. apply Forall_app. unfold move_ok. rewrite Hu', Hg'. split.
    - eapply Forall_impl; [exact Hmv|]. intros m [? ?]. split; [|done].
      by apply lookup_insert_is_Some'; right.
    - eapply Forall_impl; [exact Hms|]. intros m [-> ?]. split; [|done].
      by rewrite lookup_insert_eq. }
  assert (Forall (λ m, move_game m = rc) ms) as Hms'.
  { eapply Forall_impl; [exact Hms|]. by intros m [? _]. }
  clear Hms. rename Hms' into Hms.
  rewrite Hg'. intros rc' g'' Hl.
  assert (∀ g0, fks_ok w g0 → fks_ok w' g0) as Hfks.
  { intros g0. unfold fks_ok. by rewrite Hu'. }
  unfold row_ok, moves_of. rewrite Hm', filter_app, length_app.
  apply lookup_insert_Some in Hl as [[<- <-]|[Hne Hl]].
  - rewrite (filter_all _ ms) by done.
    destruct (Hgs _ _ Hg) as (_ & _ & _ & Hlen). unfold moves_of in Hlen.
    split_and!; auto. lia.
  - rewrite (filter_none _ ms) by (eapply Forall_impl; [done|]; naive_solver).
    destruct (Hgs _ _ Hl) as (? & ? & ? & Hlen). unfold moves_of in Hlen.
    split_and!; auto. simpl. lia.
Qed.

Lemma world_ok_joined w rc g uid :
  world_ok w → games w !! rc = Some g → is_Some (users w !! uid) →
  joins g uid = true →
  world_ok (set_games w (<[room_code g := joined g uid]> (games w))).
Proof.
  intros Hw Hg Hu Hj. rewrite (world_ok_room_code _ _ _ Hw Hg).
  destruct (world_ok_row _ _ _ Hw Hg) as (Hrc & Hok & [Hf1 _] & _).
  eapply (world_ok_replace w _ rc g (joined g uid) []);
    [done..|by simpl; rewrite app_nil_r|done|by apply game_ok_joined| |done|simpl; lia].
  by split.
Qed.

Lemma world_ok_record_move w rc g uid position i :
  world_ok w → games w !! rc = Some g →
  accepts g uid position = Some i →
  world_ok (record_move w g uid i).
Proof.
  intros Hw Hg Hacc. unfold record_move. rewrite (world_ok_room_code _ _ _ Hw Hg).
  destruct (world_ok_row _ _ _ Hw Hg) as (Hrc & Hok & Hfk & _).
  eapply (world_ok_replace w _ rc g (played g uid i) [_]); [done..| | | | |].
  - by rewrite room_code_played.
  - by eapply game_ok_played.
  - unfold fks_ok. by rewrite player1_played, player2_played.
  - apply Forall_singleton. split; [done|]. cbn [move_player].
    pose proof Hacc as (_ & Ht & _)%accepts_Some.
    destruct (world_ok_fk w rc g uid Hw Hg) as (u & -> & _); [auto|done].
  - rewrite board_played, (marks_after g uid position i) by done. simpl. lia.
Qed.

(** Every effect keeps the world well formed. *)
Lemma effect_ok w w' : world_ok w → effect w w' → world_ok w'.
Proof.
  intros Hw [|l|rc g uid Hg Hu Hj|rc g uid position i Hg Hu Hacc];
    eauto using world_ok_set_log, world_ok_joined, world_ok_record_move.
Qed.

End world_update.

(** ** Calls have effects *)

Section perform.
Implicit Types (w : World) (c : call) (rc : string) (uid : Z).

Lemma rejection_world_effect w g uid position :
  effect w (rejection_world w g uid position).
Proof. unfold rejection_world. case_match; constructor. Qed.

Lemma add_player_outcome_effect w rc uid : effect w (add_player_outcome w rc uid).2.
Proof.
  unfold add_player_outcome.
  destruct (games w !! rc) as [g|] eqn:Hg; [|constructor].
  destruct (users w !! uid) as [u|] eqn:Hu; [|constructor].
  destruct (joins g uid) eqn:Hj; [|constructor]. by eapply effect_join.
Qed.

Lemma make_move_outcome_effect w rc uid position :
  effect w (make_move_outcome w rc uid position).2.
Proof.
  unfold make_move_outcome.
  destruct (games w !! rc) as [g|] eqn:Hg; [|constructor].
  destruct (users w !! uid) as [u|] eqn:Hu; [|constructor].
  destruct (accepts g uid position) as [i|] eqn:Hacc.
  - by eapply effect_move.
  - apply rejection_world_effect.
Qed.

Lemma world_ok_add_player_outcome w rc uid :
  world_ok w → world_ok (add_player_outcome w rc uid).2.
Proof. intros Hw. eapply effect_ok; [done|]. apply add_player_outcome_effect. Qed.

Lemma world_ok_make_move_outcome w rc uid position :
  world_ok w → world_ok (make_move_outcome w rc uid position).2.
Proof. intros Hw. eapply effect_ok; [done|]. apply make_move_outcome_effect. Qed.

(** On a well-formed world every call has one of the four effects. *)
Lemma perform_effect w c : world_ok w → effect w (after c w).
Proof.
  intros Hw. unfold after. destruct c as [rc|rc uid|rc uid position]; cbn [perform].
  - destruct (games w !! rc) as [g|] eqn:Hg.
    + erewrite run_get_game_state_Some by done. constructor.
    + rewrite run_get_game_state_None by done. constructor.
  - rewrite run_add_player_to_game by done. apply add_player_outcome_effect.
  - rewrite run_make_move by done. apply make_move_outcome_effect.
Qed.

End perform.

(** ** The history of a row *)

Section later.
Implicit Types (w : World) (g : Game) (rc : string) (uid : Z).

#[export] Instance later_preorder : PreOrder later.
Proof.
  split.
  - intros g. unfold later. naive_solver.
  - intros g1 g2 g3 (Hr1 & Hp1 & Hq1 & Hs1 & Hb1 & Hc1) (Hr2 & Hp2 & Hq2 & Hs2 & Hb2 & Hc2).
    unfold later. split_and!; [congruence|congruence|auto|lia|auto|].
    intros Hc. pose proof (Hc1 Hc) as ->. auto.
Qed.

#[export] Instance world_later_preorder : PreOrder world_later.
Proof.
  split.
  - intros w. split; [done|]. intros rc g Hg. by exists g.
  - intros w1 w2 w3 [Hu1 Hg1] [Hu2 Hg2]. split; [congruence|].
    intros rc g Hg. destruct (Hg1 _ _ Hg) as (g' & Hg' & Hl1).
    destruct (Hg2 _ _ Hg') as (g'' & Hg'' & Hl2). exists g''. split; [done|].
    by etrans.
Qed.

Lemma later_joined g uid : game_ok g → joins g uid = true → later g (joined g uid).
Proof.
  intros Hok [Hp2 Hne]%joins_true.
  pose proof (proj1 (game_ok_player2_None g Hok) Hp2) as Hs.
  unfold later. cbn. rewrite Hp2, Hs. split_and!; try done. simpl. lia.
Qed.

Lemma later_played g uid position i :
  accepts g uid position = Some i → later g (played g uid i).
Proof.
  intros (Hs & _ & _ & Hcell)%accepts_Some. unfold later.
  rewrite room_code_played, player1_played, player2_played, board_played.
  rewrite board_list_join, Hs. split_and!; try done.
  - unfold played. case_decide; [simpl; lia|]. case_match; simpl; [lia|].
    rewrite Hs. simpl. lia.
  - intros j c Hj Hc. unfold cells_after. rewrite list_lookup_insert_ne; [done|].
    intros ->. congruence.
Qed.

(** Replacing a row by a later one moves the world forward. *)
Lemma world_later_replace w w' rc g g' :
  games w !! rc = Some g → later g g' →
  users w' = users w → games w' = <[rc := g']> (games w) →
  world_later w w'.
Proof.
  intros Hg Hl Hu' Hg'. split; [done|]. intros rc0 g0 Hg0. rewrite Hg'.
  destruct (decide (rc0 = rc)) as [->|Hne].
  - exists g'. rewrite lookup_insert_eq. by simplify_eq.
  - exists g0. by rewrite lookup_insert_ne.
Qed.

Lemma effect_later w w' : world_ok w → effect w w' → world_later w w'.
Proof.
  intros Hw [|l|rc g uid Hg Hu Hj|rc g uid position i Hg Hu Hacc]; [done| | |].
  - split; [done|]. intros rc g Hg. by exists g.
  - eapply (world_later_replace w _ rc g); [done| |done|];
      [apply later_joined; [by eapply world_ok_game|done]|].
    simpl. by rewrite (world_ok_room_code _ _ _ Hw Hg).
  - eapply (world_later_replace w _ rc g); [done|by eapply later_played|done|].
    simpl. by rewrite (world_ok_room_code _ _ _ Hw Hg).
Qed.

End later.

(** ** Every call, every sequence of calls *)

Section history.
Implicit Types (w : World) (c : call) (cs : list call) (g : Game) (rc : string).

(** C1: every call of a database method on a well-formed world leaves a
    well-formed world: whatever the room, the caller and the position,
    each match keeps a board of nine cells over [-XO], marks that
    agree with the turn, a status that agrees with players, winner and
    board, and as many recorded moves as marks. *)
Theorem perform_preserves w c : world_ok w → world_ok (after c w).
Proof. intros Hw. eapply effect_ok; [done|]. by apply perform_effect. Qed.

Lemma after_all_snoc cs c w : after_all (cs ++ [c]) w = after c (after_all cs w).
Proof. unfold after_all. by rewrite foldl_snoc. Qed.

Lemma after_all_ok cs w : world_ok w → world_ok (after_all cs w).
Proof.
  intros Hw. induction cs as [|c cs IH] using rev_ind; [done|].
  rewrite after_all_snoc. eapply effect_ok; [done|]. by apply perform_effect.
Qed.

Lemma after_all_later cs w : world_ok w → world_later w (after_all cs w).
Proof.
  intros Hw. induction cs as [|c cs IH] using rev_ind; [done|].
  rewrite after_all_snoc. etrans; [done|].
  apply effect_later; [by apply after_all_ok|].
  by apply perform_effect, after_all_ok.
Qed.

(** C14: along any sequence of calls a match only moves forward: the
    row stays in the table under its room code, player 1 is never
    replaced, player 2 once set is never replaced, the status never
    goes back, a mark once on the board stays in its cell, and a
    completed row never changes again. *)
Theorem history_monotone cs w rc g :
  world_ok w → games w !! rc = Some g →
  ∃ g', games (after_all cs w) !! rc = Some g' ∧ later g g'.
Proof. intros Hw Hg. by destruct (after_all_later cs w Hw) as [_ H]; apply H. Qed.

(** However many moves are submitted, by whomever and in whatever
    order, the moves recorded for a match are as many as the marks on
    its board, and so never more than nine. *)
Theorem recorded_moves_bounded cs w rc g :
  world_ok w → games (after_all cs w) !! rc = Some g →
  length (moves_of (after_all cs w) rc) = marks (board g) ∧
  marks (board g) ≤ 9.
Proof.
  intros Hw Hg. pose proof (after_all_ok cs w Hw) as Hw'.
  split; [by apply world_ok_moves|].
  rewrite <-(game_ok_length g) by by eapply world_ok_game.
  apply count_by_le.
Qed.

End history.

(** ** Examples on the small world *)

Lemma perform_preserves_witness :
  world_ok (after (MakeMove room 1 (JInt 4)) open_world).
Proof. apply (perform_preserves open_world (MakeMove room 1 (JInt 4))). by_compute. Defined.

Lemma history_monotone_witness :
  ∃ g', games (after_all winning_scenario pending_world) !! room = Some g' ∧
        later pending_game g'.
Proof.
  apply (history_monotone winning_scenario pending_world room pending_game); by_compute.
Defined.

Lemma recorded_moves_bounded_witness :
  length (moves_of (after_all winning_scenario pending_world) room) =
    marks (board (mkGame room 1 (Some 2%Z) (Some 1%Z) (Some 1%Z) COMPLETED "OX-OX--X-")) ∧
  marks (board (mkGame room 1 (Some 2%Z) (Some 1%Z) (Some 1%Z) COMPLETED "OX-OX--X-")) ≤ 9.
Proof.
  apply (recorded_moves_bounded winning_scenario pending_world room); by_compute.
Defined.
