(* ===== verification/Protocol.v ===== *)
(** * Turns, cells and outcomes

    What the guard and the saved row of [make_move] mean for the game:
    which submissions return a message, who may move next, that a cell
    is played once, how a move ends the game, and what the messages
    carry.  Several statements record where the code departs from the
    written specification; they are named in the findings. *)

From stdpp Require Import base option list gmap strings.
From Stdlib Require Import Ascii.
From S2P Require Import Prelude Monad Json Board Models Wellformed Consumers Preservation.

#[local] Set Warnings "-clear-no-such-hyp".

#[local] Open Scope char_scope.

(** The guard of [make_move] as a proposition on the row. *)
Definition legal (g : Game) (uid : Z) (position : json) : Prop :=
  status g = IN_PROGRESS ∧ current_turn g = Some uid ∧
  ∃ i, position_index position = Some i ∧ board_list (board g) !! i = Some "-".

(** The method returned a message to broadcast. *)
Definition broadcasts {A : Type} (r : Result (option A) * World) : Prop :=
  ∃ m, r.1 = Ok (Some m).

(** The player who is not [uid]. *)
Definition opponent (g : Game) (uid : Z) : option Z :=
  if bool_decide (uid = player1 g) then player2 g else Some (player1 g).

(** The last move of the winning scenario, on the board it finds. *)
Definition match_point : Game :=
  mkGame room 1 (Some 2%Z) (Some 1%Z) None IN_PROGRESS "OX-OX----".

Section guard.
Implicit Types (w : World) (g : Game) (u : User) (rc : string) (uid : Z)
  (position : json) (i : nat).

Lemma legal_accepts g uid position : legal g uid position ↔ is_Some (accepts g uid position).
Proof.
  unfold legal. split.
  - intros (Hs & Ht & i & Hi & Hc). exists i. by apply accepts_Some.
  - intros [i (Hs & Ht & Hi & Hc)%accepts_Some]. eauto.
Qed.

(** C4: a submission is answered with a message exactly when the game
    is in progress, it is the caller's turn, the position is an integer
    (or a boolean) from 0 to 8 and the cell is empty; in every other
    case [make_move] returns [None]. *)
Theorem make_move_broadcasts_iff w rc g uid u position :
  world_ok w → games w !! rc = Some g → users w !! uid = Some u →
  broadcasts (run (make_move rc uid position) w) ↔ legal g uid position.
Proof.
  intros Hw Hg Hu. rewrite legal_accepts, run_make_move by done.
  unfold broadcasts, make_move_outcome. rewrite Hg, Hu.
  destruct (accepts g uid position) as [i|] eqn:Hacc.
  - split; eauto.
  - split; [by intros [? [=]]|by intros [? [=]]].
Qed.

End guard.

Section turns.
Context (g : Game) (uid : Z) (position : json) (i : nat).
Context (Hok : game_ok g) (Hacc : accepts g uid position = Some i).

Lemma opponent_ne : ∃ o, opponent g uid = Some o ∧ o ≠ uid.
Proof.
  destruct (mover_cases g uid position i Hok Hacc) as (p2 & Hp2 & Hne & Hcase).
  unfold opponent. destruct Hcase as [(-> & _)|(-> & _)].
  - rewrite bool_decide_eq_true_2 by done. eauto.
  - rewrite bool_decide_eq_false_2 by done. eauto.
Qed.

(** The status after the move tells how it ended. *)
Lemma played_status :
  status (played g uid i) =
    if decide (wins (cells_after g uid i) (symbol_for g uid)) then COMPLETED
    else if no_empty_cell (join (cells_after g uid i)) then COMPLETED
    else IN_PROGRESS.
Proof.
  apply accepts_Some in Hacc as (Hs & _). unfold played.
  case_decide; [done|]. cbn [board set_board]. by case_match.
Qed.

Lemma played_in_progress :
  status (played g uid i) = IN_PROGRESS →
  played g uid i =
    set_current_turn (set_board g (join (cells_after g uid i))) (opponent g uid).
Proof.
  rewrite played_status. case_decide; [done|].
  destruct (no_empty_cell _) eqn:Hn; [done|]. intros _. by apply played_continue.
Qed.

(** The cell just played is not empty any more. *)
Lemma played_cell : board_list (board (played g uid i)) !! i = Some (symbol_for g uid).
Proof.
  rewrite board_played, board_list_join. unfold cells_after.
  apply list_lookup_insert_eq. eapply lookup_lt_Some, mover_cell; eauto.
Qed.

End turns.

Section protocol.
Implicit Types (g : Game) (uid : Z) (position : json) (i j : nat).

(** C18: after an accepted move that does not end the game the turn
    belongs to the other player: the caller's next submission is
    rejected whatever its position, and the other player's submission
    on any empty cell is accepted. *)
Theorem turn_alternates g uid position i :
  game_ok g → accepts g uid position = Some i →
  status (played g uid i) = IN_PROGRESS →
  ∃ o, o ≠ uid ∧ opponent g uid = Some o ∧
       current_turn (played g uid i) = Some o ∧
       (∀ position', accepts (played g uid i) uid position' = None) ∧
       (∀ position' j, position_index position' = Some j →
          board_list (board (played g uid i)) !! j = Some "-" →
          accepts (played g uid i) o position' = Some j).
Proof.
  intros Hok Hacc Hst.
  destruct (opponent_ne g uid position i Hok Hacc) as (o & Ho & Hne).
  pose proof (played_in_progress g uid position i Hacc Hst) as Hp.
  assert (current_turn (played g uid i) = Some o) as Ht by by rewrite Hp.
  exists o. split_and!; try done.
  - intros position'. apply accepts_off_turn. rewrite Ht. naive_solver.
  - intros position' j Hj Hc. by apply accepts_Some.
Qed.

(** A cell is played once: after an accepted move on a cell, no
    submission on that cell is accepted, from either player, at any
    later time. *)
Theorem cell_played_once g g' uid position i uid' position' :
  accepts g uid position = Some i →
  later (played g uid i) g' →
  accepts g' uid' position' ≠ Some i.
Proof.
  intros Hacc (_ & _ & _ & _ & Hcells & _) (_ & _ & _ & Hc)%accepts_Some.
  pose proof (played_cell g uid position i Hacc) as Hp.
  apply Hcells in Hp; [|by unfold symbol_for; case_bool_decide].
  rewrite Hc in Hp. injection Hp. unfold symbol_for. by case_bool_decide.
Qed.

(** A completed game accepts no move, and neither does a pending
    one. *)
Theorem only_in_progress g uid position :
  status g ≠ IN_PROGRESS → accepts g uid position = None.
Proof. intros. apply accepts_off_turn. tauto. Qed.

(** How an accepted move ends: the caller wins exactly when the
    move completes one of the eight lines with the caller's mark, the
    game is drawn exactly when it completes no line and fills the
    board, and otherwise the game goes on with no winner. *)
Theorem move_outcome g uid position i :
  game_ok g → accepts g uid position = Some i →
  let cells := cells_after g uid i in
  let g' := played g uid i in
  (wins cells (symbol_for g uid) ↔ status g' = COMPLETED ∧ winner g' = Some uid) ∧
  (¬ wins cells (symbol_for g uid) ∧ "-" ∉ cells ↔
     status g' = COMPLETED ∧ winner g' = None) ∧
  (¬ wins cells (symbol_for g uid) ∧ "-" ∈ cells ↔ status g' = IN_PROGRESS).
Proof.
  intros Hok Hacc cells g'.
  pose proof (mover_in_progress g uid position i Hok Hacc) as Hip.
  assert (winner g = None) as Hwn.
  { unfold in_progress_ok in Hip. destruct (player2 g); naive_solver. }
  assert (no_empty_cell (join cells) = true ↔ "-" ∉ cells) as Hfull.
  { unfold no_empty_cell. by rewrite board_list_join, bool_decide_eq_true. }
  subst g'. destruct (decide (wins cells (symbol_for g uid))) as [Hw|Hnw].
  - rewrite played_win by done. cbn. naive_solver.
  - destruct (no_empty_cell (join cells)) eqn:Hn.
    + rewrite played_draw by done. cbn. rewrite Hwn.
      pose proof (proj1 Hfull eq_refl). naive_solver.
    + rewrite played_continue by done. cbn.
      apply accepts_Some in Hacc as (-> & _). rewrite Hwn.
      assert ("-" ∈ cells).
      { destruct (decide ("-" ∈ cells)) as [|Hni]; [done|]. by apply Hfull in Hni. }
      naive_solver.
Qed.

End protocol.

(** ** What the messages and the saved row do not say *)

Section findings.
Implicit Types (g : Game) (uid : Z) (position : json) (i : nat).

(** The names in the message of an accepted move are always
    [null]: the [winner] of a [game_over] message is [null] for a win
    as for a draw, and the [next_turn] of a [move_made] message is
    [null], because [User.username] is [None]. *)
Theorem message_names_null g uid position i :
  accepts g uid position = Some i →
  let m := move_message g uid position i in
  (status (played g uid i) = COMPLETED →
     entry m "action" = Some (JStr "game_over") ∧ entry m "winner" = Some JNull) ∧
  (status (played g uid i) = IN_PROGRESS →
     entry m "action" = Some (JStr "move_made") ∧ entry m "next_turn" = Some JNull).
Proof.
  intros Hacc m. subst m. rewrite (played_status g uid position i Hacc).
  destruct (move_message_cases g uid position i)
    as [(Hw & combo & ->)|[(Hnw & Hn & ->)|(Hnw & Hn & ->)]].
  - by rewrite decide_True.
  - by rewrite decide_False, Hn.
  - by rewrite decide_False, Hn.
Qed.

(** The move that completes a game leaves [current_turn] set to
    the player who made it; the field is never cleared. *)
Theorem turn_kept_on_completion g uid position i :
  accepts g uid position = Some i →
  status (played g uid i) = COMPLETED →
  current_turn (played g uid i) = Some uid.
Proof.
  intros Hacc. pose proof Hacc as (_ & Ht & _)%accepts_Some.
  rewrite (played_status g uid position i Hacc). unfold played.
  case_decide; [done|]. cbn [board set_board]. by case_match.
Qed.

(** A JSON boolean is accepted as a position: [false] plays cell
    0 and [true] plays cell 1, and the [move_made] message repeats the
    boolean. *)
Theorem boolean_position g uid (b : bool) :
  accepts g uid (JBool b) = accepts g uid (JInt (int_of_bool b)) ∧
  ∀ i, accepts g uid (JBool b) = Some i →
       status (played g uid i) = IN_PROGRESS →
       entry (move_message g uid (JBool b) i) "position" = Some (JBool b).
Proof.
  split; [by destruct b|]. intros i Hacc.
  rewrite (played_status g uid _ i Hacc).
  destruct (move_message_cases g uid (JBool b) i)
    as [(Hw & combo & ->)|[(Hnw & Hn & ->)|(Hnw & Hn & ->)]].
  - by rewrite decide_True.
  - by rewrite decide_False, Hn.
  - by rewrite decide_False, Hn.
Qed.

End findings.

(** ** Examples on the small world *)

Lemma make_move_broadcasts_iff_witness :
  broadcasts (run (make_move room 1 (JInt 4)) open_world) ↔ legal open_game 1 (JInt 4).
Proof.
  apply (make_move_broadcasts_iff open_world room open_game 1 alice (JInt 4)); by_compute.
Defined.

Lemma turn_alternates_witness :
  ∃ o, o ≠ 1%Z ∧ opponent open_game 1 = Some o ∧
       current_turn (played open_game 1 4) = Some o ∧
       (∀ position', accepts (played open_game 1 4) 1 position' = None) ∧
       (∀ position' j, position_index position' = Some j →
          board_list (board (played open_game 1 4)) !! j = Some "-" →
          accepts (played open_game 1 4) o position' = Some j).
Proof. apply (turn_alternates open_game 1 (JInt 4) 4); by_compute. Defined.

Lemma cell_played_once_witness :
  accepts (played open_game 1 4) 2 (JInt 4) ≠ Some 4.
Proof.
  apply (cell_played_once open_game (played open_game 1 4) 1 (JInt 4) 4 2 (JInt 4));
    by_compute.
Defined.

Lemma only_in_progress_witness : accepts pending_game 1 (JInt 4) = None.
Proof. apply (only_in_progress pending_game 1 (JInt 4)). discriminate. Defined.

Lemma move_outcome_witness :
  let cells := cells_after open_game 1 4 in
  let g' := played open_game 1 4 in
  (wins cells (symbol_for open_game 1) ↔ status g' = COMPLETED ∧ winner g' = Some 1%Z) ∧
  (¬ wins cells (symbol_for open_game 1) ∧ "-" ∉ cells ↔
     status g' = COMPLETED ∧ winner g' = None) ∧
  (¬ wins cells (symbol_for open_game 1) ∧ "-" ∈ cells ↔ status g' = IN_PROGRESS).
Proof. apply (move_outcome open_game 1 (JInt 4) 4); by_compute. Defined.

Lemma message_names_null_witness :
  let m := move_message open_game 1 (JInt 4) 4 in
  (status (played open_game 1 4) = COMPLETED →
     entry m "action" = Some (JStr "game_over") ∧ entry m "winner" = Some JNull) ∧
  (status (played open_game 1 4) = IN_PROGRESS →
     entry m "action" = Some (JStr "move_made") ∧ entry m "next_turn" = Some JNull).
Proof. apply (message_names_null open_game 1 (JInt 4) 4). by_compute. Defined.

Lemma turn_kept_on_completion_witness :
  current_turn (played match_point 1 7) = Some 1%Z.
Proof. apply (turn_kept_on_completion match_point 1 (JInt 7) 7); by_compute. Defined.
