(* ===== verification/MoveSpec.v ===== *)
(** * The specified coordinator and its refinement

    The written specification describes a match as an abstract state
    (a board of nine cells, two players, a turn, a status, a winner or
    a draw, an append-only move log), a Move Validator that is a pure
    function of that state, the acting player and the target position,
    and a Room Coordinator whose [submitMove] and [attach] apply the
    verdict to the state.  Module [Spec] holds these, taken from the
    specification.

    [abstract] reads an abstract state off a row of the [Game] table
    and the rows of [GameMove] that point to it.  The refinement
    theorems state that [make_move] and [add_player_to_game] do to the
    row what [submitMove] and [attach] do to the abstract state, and
    answer exactly when the validator accepts.  Where the code keeps
    what the specification drops (the turn of a completed match),
    [abstract] forgets it. *)

From stdpp Require Import base option list gmap strings.
From Stdlib Require Import Ascii.
From S2P Require Import Prelude Monad Json Board Models Wellformed Consumers Preservation Protocol.

#[local] Set Warnings "-clear-no-such-hyp".

#[local] Open Scope char_scope.

Module Spec.

(** A cell: empty, the mark of player 1, the mark of player 2. *)
Inductive cell : Type :=
| Empty
| MarkA
| MarkB.

#[global] Instance cell_eq_dec : EqDecision cell.
Proof. solve_decision. Defined.

Inductive Status : Type :=
| Pending
| InProgress
| Completed.

#[global] Instance Status_eq_dec : EqDecision Status.
Proof. solve_decision. Defined.

(** The winner of a completed match: a player, or the sentinel of a
    draw. *)
Inductive Winner : Type :=
| Player (p : Z)
| DrawSentinel.

(** An entry of the move log. *)
Record Move : Type := mkMove {
  by_player : Z;
  at_position : nat;
  sequenceNumber : nat;
}.

Record MatchState : Type := mkState {
  roomCode : string;
  player1 : Z;
  player2 : option Z;
  board : list cell;
  turn : option Z;
  status : Status;
  winner : option Winner;
  moveLog : list Move;
}.

(** The eight canonical triples. *)
Definition triples : list (list nat) :=
  [ [0; 1; 2]; [3; 4; 5]; [6; 7; 8];
    [0; 3; 6]; [1; 4; 7]; [2; 5; 8];
    [0; 4; 8]; [2; 4; 6] ].

(** A mark holds the three cells of a triple. *)
Definition holds (b : list cell) (m : cell) (triple : list nat) : Prop :=
  Forall (λ i, b !! i = Some m) triple.

#[global] Instance holds_dec b m triple : Decision (holds b m triple).
Proof. unfold holds. apply _. Defined.

(** The first triple a mark holds. *)
Definition winning_line (b : list cell) (m : cell) : option (list nat) :=
  snd <$> list_find (holds b m) triples.

Inductive Outcome : Type :=
| Continue
| Win (line : list nat) (player : Z)
| Draw.

Inductive MoveResult : Type :=
| Accepted (newBoard : list cell) (outcome : Outcome)
| RejectedNotYourTurn
| RejectedGameNotInProgress
| RejectedInvalidPosition
| RejectedCellOccupied.

(** The mark of a player: A for player 1. *)
Definition mark_of (st : MatchState) (player : Z) : cell :=
  if decide (player = player1 st) then MarkA else MarkB.

(** The outcome of a board after a mark was placed: a win when a
    triple is held, a draw when there is no win and no empty cell. *)
Definition outcome_of (b : list cell) (m : cell) (player : Z) : Outcome :=
  match winning_line b m with
  | Some line => Win line player
  | None => if decide (Empty ∈ b) then Continue else Draw
  end.

(** The Move Validator: a pure function of the state, the acting
    player and the target position. *)
Definition validate (st : MatchState) (player : Z) (position : Z) : MoveResult :=
  if decide (status st ≠ InProgress) then RejectedGameNotInProgress
  else if decide (turn st ≠ Some player) then RejectedNotYourTurn
  else if decide (¬ (0 ≤ position ≤ 8)%Z) then RejectedInvalidPosition
  else match board st !! Z.to_nat position with
       | Some Empty =>
           let b := <[Z.to_nat position := mark_of st player]> (board st) in
           Accepted b (outcome_of b (mark_of st player) player)
       | Some MarkA | Some MarkB | None => RejectedCellOccupied
       end.

(** The player who is not [player]. *)
Definition other (st : MatchState) (player : Z) : option Z :=
  if decide (player = player1 st) then player2 st else Some (player1 st).

(** The state after an accepted move. *)
Definition apply_move (st : MatchState) (player : Z) (position : Z)
    (b : list cell) (o : Outcome) : MatchState :=
  let log := moveLog st ++ [mkMove player (Z.to_nat position) (length (moveLog st))] in
  match o with
  | Continue =>
      mkState (roomCode st) (player1 st) (player2 st) b (other st player)
              InProgress None log
  | Win _ p =>
      mkState (roomCode st) (player1 st) (player2 st) b None
              Completed (Some (Player p)) log
  | Draw =>
      mkState (roomCode st) (player1 st) (player2 st) b None
              Completed (Some DrawSentinel) log
  end.

(** [submitMove]: the verdict of the validator, applied when it
    accepts. *)
Definition submitMove (st : MatchState) (player : Z) (position : Z) :
    MatchState * MoveResult :=
  match validate st player position with
  | Accepted b o => (apply_move st player position b o, Accepted b o)
  | RejectedNotYourTurn => (st, RejectedNotYourTurn)
  | RejectedGameNotInProgress => (st, RejectedGameNotInProgress)
  | RejectedInvalidPosition => (st, RejectedInvalidPosition)
  | RejectedCellOccupied => (st, RejectedCellOccupied)
  end.

(** [attach], as far as it changes the match: the first identity
    distinct from player 1 that attaches while the match is pending
    becomes player 2, and the match starts with player 1 to move.
    The boolean tells whether the identity joined as player 2. *)
Definition attach (st : MatchState) (identity : Z) : MatchState * bool :=
  if decide (status st = Pending ∧ player2 st = None ∧ identity ≠ player1 st)
  then (mkState (roomCode st) (player1 st) (Some identity) (board st)
                (Some (player1 st)) InProgress None (moveLog st), true)
  else (st, false).

(** The invariants the specification states of a match: nine cells;
    the three phases; as many marks as logged moves; a held line means
    the match is completed and won by its holder; a full board with no
    line means it is completed as a draw. *)
Definition phase_ok (st : MatchState) : Prop :=
  match status st with
  | Pending => player2 st = None ∧ turn st = None ∧ winner st = None
  | InProgress => is_Some (player2 st) ∧ is_Some (turn st) ∧ winner st = None
  | Completed => is_Some (winner st) ∧ turn st = None
  end.

Definition lines_ok (st : MatchState) : Prop :=
  (is_Some (winning_line (board st) MarkA) →
     status st = Completed ∧ winner st = Some (Player (player1 st))) ∧
  (is_Some (winning_line (board st) MarkB) →
     status st = Completed ∧ winner st = Player <$> player2 st) ∧
  (winning_line (board st) MarkA = None → winning_line (board st) MarkB = None →
     Empty ∉ board st → status st = Completed ∧ winner st = Some DrawSentinel).

Definition invariant (st : MatchState) : Prop :=
  length (board st) = 9 ∧ phase_ok st ∧
  length (filter (λ c, c ≠ Empty) (board st)) = length (moveLog st) ∧
  lines_ok st.

End Spec.

(** ** The abstraction *)

Definition cell_of (c : ascii) : Spec.cell :=
  if decide (c = "X") then Spec.MarkA
  else if decide (c = "O") then Spec.MarkB
  else Spec.Empty.

Definition status_of (s : GAME_STATUS) : Spec.Status :=
  match s with
  | PENDING => Spec.Pending
  | IN_PROGRESS => Spec.InProgress
  | COMPLETED => Spec.Completed
  end.

(** The winner of a row: nobody until it is completed, then the player
    the row names, or the draw when it names nobody. *)
Definition winner_of (g : Game) : option Spec.Winner :=
  match status g with
  | COMPLETED => Some (from_option Spec.Player Spec.DrawSentinel (winner g))
  | PENDING | IN_PROGRESS => None
  end.

(** The turn of a row: the column, while the match is in progress. *)
Definition turn_of (g : Game) : option Z :=
  if decide (status g = IN_PROGRESS) then current_turn g else None.

(** The log of a room: its [GameMove] rows in the order of creation. *)
Definition log_of (w : World) (rc : string) : list Spec.Move :=
  imap (λ k m, Spec.mkMove (move_player m) (Z.to_nat (move_position m)) k)
       (moves_of w rc).

(** The abstract state of a row. *)
Definition abstract (w : World) (g : Game) : Spec.MatchState :=
  Spec.mkState (room_code g) (player1 g) (player2 g)
               (cell_of <$> board_list (board g))
               (turn_of g) (status_of (status g)) (winner_of g)
               (log_of w (room_code g)).

(** The verdict accepts. *)
Definition is_accepted (r : Spec.MoveResult) : bool :=
  match r with
  | Spec.Accepted _ _ => true
  | Spec.RejectedNotYourTurn | Spec.RejectedGameNotInProgress
  | Spec.RejectedInvalidPosition | Spec.RejectedCellOccupied => false
  end.

(** ** The abstraction of boards *)

Section boards.
Implicit Types (c sym : ascii) (cells : list ascii) (triple : list nat).

Lemma cell_of_MarkA c : cell_of c = Spec.MarkA ↔ c = "X".
Proof. unfold cell_of. repeat case_decide; naive_solver. Qed.

Lemma cell_of_MarkB c : cell_of c = Spec.MarkB ↔ c = "O".
Proof. unfold cell_of. repeat case_decide; naive_solver. Qed.

Lemma cell_of_Empty c : cell_ok c → cell_of c = Spec.Empty ↔ c = "-".
Proof. unfold cell_of. intros [-> | [-> | ->]]; by repeat case_decide. Qed.

(** A mark is in a cell of the abstract board exactly when its
    character is in the cell of the string. *)
Lemma lookup_cell_of cells sym i :
  sym = "X" ∨ sym = "O" →
  (cell_of <$> cells) !! i = Some (cell_of sym) ↔ cells !! i = Some sym.
Proof.
  intros Hsym. rewrite list_lookup_fmap. destruct (cells !! i) as [c|]; simpl; [|done].
  split; [|by intros [= ->]]. intros [= Hc]. f_equal.
  destruct Hsym as [-> | ->]; [by apply cell_of_MarkA|by apply cell_of_MarkB].
Qed.

Lemma holds_line cells sym triple :
  sym = "X" ∨ sym = "O" →
  Spec.holds (cell_of <$> cells) (cell_of sym) triple ↔ line cells sym triple.
Proof.
  intros Hsym. unfold Spec.holds, line. apply Forall_proper; [|done].
  intros i. by apply lookup_cell_of.
Qed.

(** The specified scan finds the line the code finds. *)
Lemma winning_line_find cells sym :
  sym = "X" ∨ sym = "O" →
  Spec.winning_line (cell_of <$> cells) (cell_of sym) =
    snd <$> list_find (line cells sym) winning_combinations.
Proof.
  intros Hsym. unfold Spec.winning_line. f_equal.
  apply list_find_ext. intros triple. by apply holds_line.
Qed.

Lemma empty_cell cells :
  Forall cell_ok cells → Spec.Empty ∈ cell_of <$> cells ↔ "-" ∈ cells.
Proof.
  intros Hok. rewrite list_elem_of_fmap. split.
  - intros (c & Hc & Hin). rewrite Forall_forall in Hok.
    symmetry in Hc. by apply cell_of_Empty in Hc as ->; [|apply Hok].
  - intros Hin. by exists "-".
Qed.

Lemma lookup_Empty cells i :
  Forall cell_ok cells →
  (cell_of <$> cells) !! i = Some Spec.Empty ↔ cells !! i = Some "-".
Proof.
  intros Hok. rewrite list_lookup_fmap.
  destruct (cells !! i) as [c|] eqn:Hc; simpl; [|done].
  rewrite Forall_forall in Hok. specialize (Hok c (list_elem_of_lookup_2 _ _ _ Hc)).
  split; intros [= H]; f_equal; by apply cell_of_Empty.
Qed.

End boards.

(** ** The validator and the guard *)

Section validator.
Implicit Types (w : World) (g : Game) (u : User) (uid z : Z) (i : nat) (rc : string).

Lemma symbol_for_cases g uid : symbol_for g uid = "X" ∨ symbol_for g uid = "O".
Proof. unfold symbol_for. case_bool_decide; auto. Qed.

Lemma cell_of_symbol_for w g uid :
  cell_of (symbol_for g uid) = Spec.mark_of (abstract w g) uid.
Proof. unfold symbol_for, Spec.mark_of. simpl. by case_bool_decide; case_decide. Qed.

(** An integer position the guard accepts. *)
Lemma accepts_int g uid z i :
  accepts g uid (JInt z) = Some i ↔
  status g = IN_PROGRESS ∧ current_turn g = Some uid ∧ (0 ≤ z ≤ 8)%Z ∧
  i = Z.to_nat z ∧ board_list (board g) !! i = Some "-".
Proof.
  rewrite accepts_Some, position_index_int. case_bool_decide; naive_solver.
Qed.

(** The verdict on a move the guard accepts: the board with the mark
    placed and its outcome. *)
Lemma validate_accepted w g uid z i :
  game_ok g → accepts g uid (JInt z) = Some i →
  Spec.validate (abstract w g) uid z =
    Spec.Accepted (cell_of <$> cells_after g uid i)
      (Spec.outcome_of (cell_of <$> cells_after g uid i) (cell_of (symbol_for g uid)) uid).
Proof.
  intros [[_ Hcells] _] (Hs & Ht & Hz & -> & Hcell)%accepts_int.
  unfold Spec.validate. cbn [abstract Spec.status Spec.turn Spec.board].
  unfold turn_of. rewrite Hs, Ht. cbn [status_of].
  rewrite !decide_False by naive_solver. cbv zeta.
  rewrite (proj2 (lookup_Empty _ _ Hcells) Hcell).
  by rewrite <-(cell_of_symbol_for w), <-list_fmap_insert.
Qed.

(** The verdict on a move the guard rejects is a rejection. *)
Lemma validate_rejected w g uid z :
  game_ok g → accepts g uid (JInt z) = None →
  is_accepted (Spec.validate (abstract w g) uid z) = false.
Proof.
  intros [[_ Hcells] _] Hacc. unfold Spec.validate.
  cbn [abstract Spec.status Spec.turn Spec.board]. unfold turn_of.
  repeat case_decide; try done.
  destruct ((cell_of <$> board_list (board g)) !! Z.to_nat z) as [[]|] eqn:Hc; try done.
  apply lookup_Empty in Hc; [|done].
  assert (accepts g uid (JInt z) = Some (Z.to_nat z)) as Hyes; [|congruence].
  apply accepts_int. destruct (status g); naive_solver.
Qed.

Lemma in_progress_winner g : game_ok g → status g = IN_PROGRESS → winner g = None.
Proof.
  intros Hok Hs. pose proof (game_ok_in_progress g Hok Hs) as Hin.
  unfold in_progress_ok in Hin. destruct (player2 g); naive_solver.
Qed.

(** The outcome the specification computes is the one [played]
    records. *)
Lemma outcome_played g uid position i :
  game_ok g → accepts g uid position = Some i →
  match Spec.outcome_of (cell_of <$> cells_after g uid i) (cell_of (symbol_for g uid)) uid with
  | Spec.Win line p =>
      p = uid ∧ status (played g uid i) = COMPLETED ∧ winner (played g uid i) = Some uid
  | Spec.Draw =>
      status (played g uid i) = COMPLETED ∧ winner (played g uid i) = None
  | Spec.Continue =>
      status (played g uid i) = IN_PROGRESS ∧
      current_turn (played g uid i) =
        (if bool_decide (uid = player1 g) then player2 g else Some (player1 g))
  end.
Proof.
  intros Hok Hacc. pose proof (board_ok_after g uid i Hok) as [_ Hcells].
  rewrite board_list_join in Hcells.
  pose proof Hacc as (Hs & _)%accepts_Some.
  pose proof (in_progress_winner g Hok Hs) as Hw.
  unfold Spec.outcome_of. rewrite winning_line_find by apply symbol_for_cases.
  pose proof (list_find_line_wins (cells_after g uid i) (symbol_for g uid)) as Hwins.
  destruct (list_find _ _) as [[k combo]|] eqn:Hfind; simpl.
  - rewrite played_win by (apply Hwins; eauto). done.
  - assert (¬ wins (cells_after g uid i) (symbol_for g uid)) as Hnw.
    { intros [? [=]]%Hwins. }
    case_decide as He; rewrite empty_cell in He by done.
    + rewrite played_continue; [by simpl|done|].
      unfold no_empty_cell. rewrite board_list_join. apply bool_decide_eq_false_2; tauto.
    + rewrite played_draw; [by simpl|done|].
      unfold no_empty_cell. rewrite board_list_join. by apply bool_decide_eq_true_2.
Qed.

End validator.

(** ** The refinement *)

Section refinement.
Implicit Types (w : World) (g : Game) (u : User) (uid z : Z) (i : nat) (rc : string).

(** The log after an accepted move has one more entry, numbered by
    its place. *)
Lemma log_of_record_move w g uid i :
  log_of (record_move w g uid i) (room_code g) =
    log_of w (room_code g) ++ [Spec.mkMove uid i (length (log_of w (room_code g)))].
Proof.
  unfold log_of, record_move. rewrite moves_of_set_games, moves_of_app.
  cbn [filter list_filter]. rewrite decide_True by done.
  rewrite imap_app, length_imap. cbn [imap move_player move_position].
  by rewrite Nat2Z.id, Nat.add_0_r.
Qed.

Lemma log_of_rejection_world w g uid position rc :
  log_of (rejection_world w g uid position) rc = log_of w rc.
Proof. unfold rejection_world. by case_match. Qed.

(** The abstract state after an accepted move is the state the
    specification computes. *)
Lemma abstract_played w g uid z i :
  game_ok g → accepts g uid (JInt z) = Some i →
  abstract (record_move w g uid i) (played g uid i) =
    Spec.apply_move (abstract w g) uid z (cell_of <$> cells_after g uid i)
      (Spec.outcome_of (cell_of <$> cells_after g uid i) (cell_of (symbol_for g uid)) uid).
Proof.
  intros Hok Hacc. pose proof (outcome_played g uid (JInt z) i Hok Hacc) as Hout.
  pose proof Hacc as (_ & _ & _ & -> & _)%accepts_int.
  unfold abstract. rewrite room_code_played, player1_played, player2_played,
    board_played, board_list_join, log_of_record_move.
  unfold turn_of, winner_of, Spec.apply_move, Spec.other.
  cbn [Spec.moveLog Spec.roomCode Spec.player1 Spec.player2].
  destruct (Spec.outcome_of _ _ _) as [|line p|].
  - destruct Hout as [-> ->]. cbn [status_of]. rewrite decide_True by done.
    by case_bool_decide; case_decide.
  - destruct Hout as (-> & -> & ->). by rewrite decide_False.
  - destruct Hout as [-> ->]. by rewrite decide_False.
Qed.

(** A rejection of the validator leaves the abstract state alone. *)
Lemma submitMove_rejected st player position :
  is_accepted (Spec.validate st player position) = false →
  Spec.submitMove st player position = (st, Spec.validate st player position).
Proof. unfold Spec.submitMove. by destruct (Spec.validate st player position). Qed.

(** C6: [make_move] implements [submitMove]: on a well-formed
    database, for an integer position, the row and the move log after
    the call are the abstract state [submitMove] computes from the row
    and the log before it, and the call returns a message to broadcast
    exactly when the validator accepts. *)
Theorem make_move_refines w rc g uid u z :
  world_ok w → games w !! rc = Some g → users w !! uid = Some u →
  let r := run (make_move rc uid (JInt z)) w in
  let verdict := Spec.submitMove (abstract w g) uid z in
  (∃ g', games r.2 !! rc = Some g' ∧ abstract r.2 g' = verdict.1) ∧
  (broadcasts r ↔ is_accepted verdict.2 = true).
Proof.
  intros Hw Hg Hu. cbv zeta. rewrite run_make_move by done.
  pose proof (world_ok_game _ _ _ Hw Hg) as Hok.
  pose proof (world_ok_room_code _ _ _ Hw Hg) as Hrc.
  unfold make_move_outcome, broadcasts. rewrite Hg, Hu.
  destruct (accepts g uid (JInt z)) as [i|] eqn:Hacc.
  - unfold Spec.submitMove. rewrite (validate_accepted w g uid z i) by done.
    cbn [fst snd is_accepted]. split; [|by split; eauto]. exists (played g uid i).
    split; [|by apply abstract_played].
    unfold record_move. cbn [games set_games]. by rewrite Hrc, lookup_insert_eq.
  - pose proof (validate_rejected w g uid z Hok Hacc) as Hrej.
    rewrite submitMove_rejected by done. cbn [fst snd]. rewrite Hrej. split.
    + exists g. split; [by unfold rejection_world; case_match|].
      unfold abstract. by rewrite log_of_rejection_world.
    + split; [by intros [? [=]]|done].
Qed.

(** C21: [add_player_to_game] implements [attach]: the row after the
    call is the abstract state [attach] computes, and the call returns
    the [player_joined] message exactly when the identity joined as
    player 2. *)
Theorem add_player_refines w rc g uid u :
  world_ok w → games w !! rc = Some g → users w !! uid = Some u →
  let r := run (add_player_to_game rc uid) w in
  let attached := Spec.attach (abstract w g) uid in
  (∃ g', games r.2 !! rc = Some g' ∧ abstract r.2 g' = attached.1) ∧
  (broadcasts r ↔ attached.2 = true).
Proof.
  intros Hw Hg Hu. cbv zeta. rewrite run_add_player_to_game by done.
  pose proof (world_ok_game _ _ _ Hw Hg) as Hok.
  pose proof (world_ok_room_code _ _ _ Hw Hg) as Hrc.
  pose proof (game_ok_player2_None g Hok) as Hp2.
  unfold add_player_outcome, broadcasts, Spec.attach. rewrite Hg, Hu.
  cbn [abstract Spec.status Spec.player1 Spec.player2].
  destruct (joins g uid) eqn:Hj.
  - apply joins_true in Hj as [Hnone Hne].
    pose proof (proj1 Hp2 Hnone) as Hs. pose proof (game_ok_pending g Hok Hs) as Hpen.
    rewrite decide_True by (rewrite Hs; auto). cbn [fst snd]. split; [|by split; eauto].
    exists (joined g uid). cbn [games set_games]. rewrite Hrc, lookup_insert_eq.
    split; [done|]. unfold abstract, turn_of, winner_of, log_of. cbn.
    by rewrite decide_True.
  - rewrite decide_False; last first.
    { intros (Hs & Hnone & Hne). apply not_true_iff_false in Hj. apply Hj, joins_true. auto. }
    cbn [fst snd]. split; [by exists g|]. split; [by intros [? [=]]|done].
Qed.

(** The message of an accepted move reports the outcome of the
    validator: [game_over] with the winning line for a win, [game_over]
    with status [draw] for a draw, [move_made] when the match goes
    on. *)
Theorem message_reports_outcome g uid z i :
  game_ok g → accepts g uid (JInt z) = Some i →
  move_message g uid (JInt z) i =
    match Spec.outcome_of (cell_of <$> cells_after g uid i)
                          (cell_of (symbol_for g uid)) uid with
    | Spec.Win line _ => game_over_win_message None (played g uid i) line
    | Spec.Draw => game_over_draw_message (played g uid i)
    | Spec.Continue =>
        move_made_message (JInt z) (symbol_for g uid) None (played g uid i)
    end.
Proof.
  intros Hok Hacc. pose proof (board_ok_after g uid i Hok) as [_ Hcells].
  rewrite board_list_join in Hcells.
  unfold move_message, Spec.outcome_of.
  rewrite winning_line_find by apply symbol_for_cases.
  pose proof (list_find_line_wins (cells_after g uid i) (symbol_for g uid)) as Hwins.
  destruct (list_find _ _) as [[k combo]|] eqn:Hfind; simpl; [done|].
  assert (¬ wins (cells_after g uid i) (symbol_for g uid)) as Hnw.
  { intros [? [=]]%Hwins. }
  rewrite board_played. unfold no_empty_cell. rewrite board_list_join.
  case_decide as He; rewrite empty_cell in He by done.
  - by rewrite bool_decide_eq_false_2 by tauto.
  - by rewrite bool_decide_eq_true_2.
Qed.

End refinement.

(** ** The invariants of the specification *)

Section invariants.
Implicit Types (w : World) (g : Game) (rc : string) (cells : list ascii).

Lemma phase_ok_abstract w g : game_ok g → Spec.phase_ok (abstract w g).
Proof.
  intros [_ Hs]. unfold Spec.phase_ok, status_ok in *.
  cbn [abstract Spec.status Spec.player2 Spec.turn Spec.winner].
  unfold turn_of, winner_of, pending_ok, in_progress_ok, completed_ok in *.
  destruct (status g); cbn [status_of]; [naive_solver| |naive_solver].
  destruct (player2 g); [|done]. rewrite decide_True by done. naive_solver.
Qed.

Lemma marks_abstract cells :
  Forall cell_ok cells →
  length (filter (λ c, c ≠ Spec.Empty) (cell_of <$> cells)) = count_by filled cells.
Proof.
  induction 1 as [|c cells Hc _ IH]; [done|].
  cbn [fmap list_fmap count_by]. rewrite filter_cons, <-IH.
  destruct Hc as [-> | [-> | ->]]; by vm_compute.
Qed.

(** A mark holds a line of the abstract board exactly when its
    character wins on the string. *)
Lemma winning_line_wins cells sym :
  sym = "X" ∨ sym = "O" →
  is_Some (Spec.winning_line (cell_of <$> cells) (cell_of sym)) ↔ wins cells sym.
Proof.
  intros Hsym. rewrite winning_line_find, <-list_find_line_wins by done.
  by rewrite fmap_is_Some.
Qed.

Lemma lines_ok_abstract w g : game_ok g → Spec.lines_ok (abstract w g).
Proof.
  intros Hok. destruct (game_ok_lines g Hok) as (HX & HO & Hfull).
  destruct Hok as [[_ Hcells] _]. unfold Spec.lines_ok.
  cbn [abstract Spec.status Spec.player1 Spec.player2 Spec.board Spec.winner].
  pose proof (winning_line_wins (board_list (board g)) "X" (or_introl eq_refl)) as HA.
  pose proof (winning_line_wins (board_list (board g)) "O" (or_intror eq_refl)) as HB.
  change (cell_of "X") with Spec.MarkA in HA. change (cell_of "O") with Spec.MarkB in HB.
  unfold winner_of. split_and!.
  - intros (-> & ->)%HA%HX. done.
  - intros (-> & -> & [p2 ->])%HB%HO. done.
  - intros HnA HnB He. rewrite empty_cell in He by done.
    destruct Hfull as [-> ->]; [|done..]. split.
    + rewrite <-HA, HnA. by intros [? [=]].
    + rewrite <-HB, HnB. by intros [? [=]].
Qed.

(** The invariant of the database is at least the invariant of the
    specification: the abstract state of every row of a well-formed
    database satisfies what the specification states of a match.  With
    [Preservation] this carries the invariants of the specification
    along every run of the consumer. *)
Lemma abstract_invariant w rc g :
  world_ok w → games w !! rc = Some g → Spec.invariant (abstract w g).
Proof.
  intros Hw Hg. pose proof (world_ok_game _ _ _ Hw Hg) as Hok.
  pose proof (world_ok_room_code _ _ _ Hw Hg) as Hrc.
  split_and!.
  - cbn. rewrite length_fmap. by apply game_ok_length.
  - by apply phase_ok_abstract.
  - cbn [abstract Spec.board Spec.moveLog]. unfold log_of.
    rewrite length_imap, marks_abstract, Hrc, (world_ok_moves w rc g) by (done || apply Hok).
    done.
  - by apply lines_ok_abstract.
Qed.

End invariants.

(** ** The theorems on the examples *)

Lemma make_move_refines_witness :
  let r := run (make_move room 1 (JInt 4)) open_world in
  let verdict := Spec.submitMove (abstract open_world open_game) 1 4 in
  (∃ g', games r.2 !! room = Some g' ∧ abstract r.2 g' = verdict.1) ∧
  (broadcasts r ↔ is_accepted verdict.2 = true).
Proof. apply (make_move_refines open_world room open_game 1 alice 4); by_compute. Defined.

Lemma add_player_refines_witness :
  let r := run (add_player_to_game room 2) pending_world in
  let attached := Spec.attach (abstract pending_world pending_game) 2 in
  (∃ g', games r.2 !! room = Some g' ∧ abstract r.2 g' = attached.1) ∧
  (broadcasts r ↔ attached.2 = true).
Proof. apply (add_player_refines pending_world room pending_game 2 bob); by_compute. Defined.

Lemma message_reports_outcome_witness :
  move_message match_point 1 (JInt 7) 7 =
    game_over_win_message None (played match_point 1 7) [1; 4; 7].
Proof. apply (message_reports_outcome match_point 1 7 7); by_compute. Defined.
