(* ===== verification/Views.v ===== *)
(** * The REST views

    [GameViewSet.create_game], [join_game] and [game_history] of
    src/game/views.py.  A view runs for an authenticated user (the
    view set requires one) and returns a [Response]: a JSON body and a
    status code.

    [create_game] draws room codes at random until it draws one no game
    has.  The draws are an argument of the model: a list of draws, each
    the six indices [random.choices] picks in the alphabet.  The view
    returns nothing when the list ends before a fresh code is drawn,
    and the theorems state that a fresh draw in the list is enough.
    [str(e)], the text of an exception, is a parameter. *)

From stdpp Require Import base option list gmap strings.
From Stdlib Require Import Ascii.
From S2P Require Import Prelude Monad Json Board Models Wellformed Consumers Preservation.

#[local] Set Warnings "-clear-no-such-hyp".

(** [rest_framework.response.Response(data, status=...)]. *)
Record Response : Type := mkResponse {
  data : json;
  status_code : nat;
}.

Definition HTTP_200_OK : nat := 200.
Definition HTTP_201_CREATED : nat := 201.
Definition HTTP_400_BAD_REQUEST : nat := 400.
Definition HTTP_404_NOT_FOUND : nat := 404.
Definition HTTP_500_INTERNAL_SERVER_ERROR : nat := 500.

(** [string.ascii_uppercase + string.digits]. *)
Definition alphabet : string := "ABCDEFGHIJKLMNOPQRSTUVWXYZ0123456789".

(** [''.join(random.choices(alphabet, k=6))] for the six indices the
    generator picked. *)
Definition code_of (draw : list nat) : string :=
  join (omap (λ i, board_list alphabet !! i) draw).

(** A draw of [random.choices(alphabet, k=6)]: six indices into the
    alphabet. *)
Definition draw_ok (draw : list nat) : Prop :=
  length draw = 6 ∧ Forall (λ i, i < 36) draw.

#[export] Instance draw_ok_dec draw : Decision (draw_ok draw).
Proof. unfold draw_ok. apply _. Defined.

(** The first statement of [create_game] and its [while] loop: the
    first code drawn that no game has, with the draws left. *)
Fixpoint unique_code (draws : list (list nat)) (w : World) :
    option (string * list (list nat)) :=
  match draws with
  | [] => None
  | draw :: draws' =>
      if decide (is_Some (games w !! code_of draw))
      then unique_code draws' w
      else Some (code_of draw, draws')
  end.

(** [Game.objects.create(room_code=rc, player1=user, status='PENDING',
    board='---------')]: the column [room_code] is unique. *)
Definition Game_objects_create (rc : string) (user : User) : M Game :=
  MkST (λ w, match games w !! rc with
             | Some _ => (Raise IntegrityError, w)
             | None =>
                 let game := mkGame rc (pk user) None None None PENDING "---------" in
                 (Ok game, set_games w (<[rc := game]> (games w)))
             end).

(** [f'ws://127.0.0.1:8000/ws/game/{room_code}/']. *)
Definition websocket_url (room_code : string) : string :=
  ("ws://127.0.0.1:8000/ws/game/" +:+ room_code +:+ "/")%string.

(** The body of the answer to a room that can be entered. *)
Definition room_data (room_code : string) (player1_name : option string)
    (status : GAME_STATUS) : json :=
  JObj [("room_code", JStr room_code);
        ("player1", of_optional_str player1_name);
        ("status", JStr (status_str status));
        ("websocket_url", JStr (websocket_url room_code))]%string.

Definition success (message : string) (d : json) : json :=
  JObj [("status", JStr "success"); ("message", JStr message); ("data", d)]%string.

Definition failure (message : string) : json :=
  JObj [("status", JStr "error"); ("message", JStr message)]%string.

Section views.
(** [str(e)]. *)
Context (str : exn → string).

(** The answer of an [except Exception] clause. *)
Definition failed (tag message : string) (e : exn) : M Response :=
  logger_error tag e;;
  mret (mkResponse
          (JObj [("status", JStr "error"); ("message", JStr message);
                 ("error", JStr (str e))]%string)
          HTTP_500_INTERNAL_SERVER_ERROR).

(** [create_game], once the room code is drawn. *)
Definition create_game_with (user : User) (room_code : string) : M Response :=
  try_except
    (game ← Game_objects_create room_code user;
     mret (mkResponse
             (success "Game created successfully"
                      (room_data room_code (username user) PENDING))
             HTTP_201_CREATED))
    (failed "Game Creation Error" "Failed to create game").

(** [create_game]: [None] when the draws end before the loop does. *)
Definition create_game (user : User) (draws : list (list nat)) (w : World) :
    option (Result Response * World * list (list nat)) :=
  match unique_code draws w with
  | Some (room_code, draws') =>
      Some (run (create_game_with user room_code) w, draws')
  | None => None
  end.

(** [not room_code] for the value of [request.data.get('room_code')]
    when it is a string or absent. *)
Definition falsy (room_code : option string) : bool :=
  match room_code with
  | Some s => bool_decide (s = EmptyString)
  | None => true
  end.

(** The [try] block of [join_game]. *)
Definition join_game_body (user : User) (room_code : option string) : M Response :=
  if falsy room_code
  then mret (mkResponse (failure "Room code is required") HTTP_400_BAD_REQUEST)
  else
    let rc := default EmptyString room_code in
    w ← get_store;
    match games w !! rc with
    | None => mret (mkResponse (failure "Game not found") HTTP_404_NOT_FOUND)
    | Some game =>
        if negb (bool_decide (status game = PENDING))
        then mret (mkResponse (failure "Game is already in progress or completed")
                              HTTP_400_BAD_REQUEST)
        else
          p1 ← related (player1 game);
          if model_eq p1 user
          then mret (mkResponse (failure "You cannot join your own game")
                                HTTP_400_BAD_REQUEST)
          else mret (mkResponse (success "Game found"
                                         (room_data rc (username p1) (status game)))
                                HTTP_200_OK)
    end.

(** [join_game]. *)
Definition join_game (user : User) (room_code : option string) : M Response :=
  try_except (join_game_body user room_code)
             (failed "Join Game Error" "Failed to join game").

(** The games of [Game.objects.filter(player1=user) |
    Game.objects.filter(player2=user)]. *)
Definition plays (user : User) (game : Game) : bool :=
  bool_decide (player1 game = pk user) || bool_decide (player2 game = Some (pk user)).

(** [GameMoveSerializer(moves, many=True).data]; the serializer is not
    part of the sources. *)
Context (GameMoveSerializer_data : list GameMove → json).

(** One turn of the loop of [game_history]: the dictionary appended for
    a game. *)
Definition history_entry (game : Game) : M json :=
  w ← get_store;
  p1 ← related (player1 game);
  p2 ← related_optional (player2 game);
  win ← related_optional (winner game);
  mret (JObj [("room_code", JStr (room_code game));
              ("player1", JStr (email p1));
              ("player2", of_optional_str (email <$> p2));
              ("status", JStr (status_str (status game)));
              ("winner", of_optional_str (email <$> win));
              ("moves", GameMoveSerializer_data (moves_of w (room_code game)))]%string).

(** The loop: the entries of the games, in order. *)
Fixpoint history_entries (l : list Game) : M (list json) :=
  match l with
  | [] => mret []
  | game :: l' =>
      entry ← history_entry game;
      rest ← history_entries l';
      mret (entry :: rest)
  end.

(** [game_history].  The query has no [order_by]; the rows come in the
    order of their room codes in the table. *)
Definition game_history (user : User) : M Response :=
  try_except
    (w ← get_store;
     entries ← history_entries (filter (λ g, plays user g) (map_to_list (games w)).*2);
     mret (mkResponse (JObj [("status", JStr "success"); ("data", JArr entries)]%string)
                      HTTP_200_OK))
    (failed "Game History Error" "Failed to get game history").

End views.

(** ** What the views answer, as functions of the world *)

(** The answer of [join_game]. *)
Definition join_response (w : World) (user : User) (room_code : option string) : Response :=
  match room_code with
  | None | Some EmptyString =>
      mkResponse (failure "Room code is required") HTTP_400_BAD_REQUEST
  | Some rc =>
      match games w !! rc with
      | None => mkResponse (failure "Game not found") HTTP_404_NOT_FOUND
      | Some game =>
          if decide (status game ≠ PENDING)
          then mkResponse (failure "Game is already in progress or completed")
                          HTTP_400_BAD_REQUEST
          else if decide (player1 game = pk user)
          then mkResponse (failure "You cannot join your own game") HTTP_400_BAD_REQUEST
          else mkResponse (success "Game found" (room_data rc None PENDING)) HTTP_200_OK
      end
  end.

(** The answer of [create_game] for the code [rc]. *)
Definition created_response (rc : string) : Response :=
  mkResponse (success "Game created successfully" (room_data rc None PENDING))
             HTTP_201_CREATED.

(** The row [create_game] inserts. *)
Definition created_game (rc : string) (user : User) : Game :=
  mkGame rc (pk user) None None None PENDING "---------".

(** The dictionary of a game in the history, for the users of [w]. *)
Definition history_of (serialize : list GameMove → json) (w : World) (game : Game) : json :=
  let email_of k := email <$> (users w !! k) in
  JObj [("room_code", JStr (room_code game));
        ("player1", of_optional_str (email_of (player1 game)));
        ("player2", of_optional_str (player2 game ≫= email_of));
        ("status", JStr (status_str (status game)));
        ("winner", of_optional_str (winner game ≫= email_of));
        ("moves", serialize (moves_of w (room_code game)))]%string.

(** The games [game_history] lists for a user. *)
Definition games_of (w : World) (user : User) : list Game :=
  filter (λ g, plays user g) (map_to_list (games w)).*2.

(** The answer of [game_history]. *)
Definition history_response (serialize : list GameMove → json) (w : World) (user : User) :
    Response :=
  mkResponse (JObj [("status", JStr "success");
                    ("data", JArr (history_of serialize w <$> games_of w user))]%string)
             HTTP_200_OK.

(** ** Examples *)

Definition example_serializer (ms : list GameMove) : json :=
  JArr ((λ m, JInt (move_position m)) <$> ms).


(** The draws [K7Q2ZD] (taken in [pending_world]) and [A1B2C3]. *)
Definition example_draws : list (list nat) :=
  [[10; 33; 16; 28; 25; 3]; [0; 27; 1; 28; 2; 29]].

Definition example_str (e : exn) : string := "error".

(** ** The room code *)

Section room_code.
Implicit Types (w : World) (draws rest : list (list nat)) (rc : string).

(** The loop stops at the first draw no game has. *)
Lemma unique_code_Some draws w rc rest :
  unique_code draws w = Some (rc, rest) ↔
  ∃ taken draw, draws = taken ++ draw :: rest ∧ rc = code_of draw ∧
    games w !! rc = None ∧ Forall (λ d, is_Some (games w !! code_of d)) taken.
Proof.
  induction draws as [|d draws IH]; simpl.
  { split; [done|]. by intros ([|??] & ? & ? & _). }
  case_decide as Hd.
  - rewrite IH. split.
    + intros (taken & draw & -> & ? & ? & ?). exists (d :: taken), draw. by repeat constructor.
    + intros ([|d' taken] & draw & Heq & -> & Hnone & Htaken); simplify_eq/=.
      { rewrite Hnone in Hd. by destruct Hd. }
      apply Forall_cons in Htaken as [_ ?]. by exists taken, draw.
  - apply eq_None_not_Some in Hd. split.
    + intros [= <- <-]. by exists [], d.
    + intros ([|d' taken] & draw & Heq & -> & Hnone & Htaken); simplify_eq/=; [done|].
      apply Forall_cons in Htaken as [[? Hsome] _]. congruence.
Qed.

(** The loop ends when a draw is fresh. *)
Lemma unique_code_terminates draws w :
  Exists (λ d, games w !! code_of d = None) draws → is_Some (unique_code draws w).
Proof.
  induction 1 as [d draws Hd|d draws _ IH]; simpl; case_decide as Hs; eauto.
  rewrite Hd in Hs. by destruct Hs.
Qed.

Lemma unique_code_fresh draws w rc rest :
  unique_code draws w = Some (rc, rest) → games w !! rc = None.
Proof. rewrite unique_code_Some. naive_solver. Qed.

(** A character of the alphabet for every index below 36. *)
Lemma alphabet_lookup i : i < 36 → is_Some (board_list alphabet !! i).
Proof. intros Hi. apply lookup_lt_is_Some. exact Hi. Qed.

Lemma omap_alphabet_length draw :
  Forall (λ i, i < 36) draw →
  length (omap (λ i, board_list alphabet !! i) draw) = length draw.
Proof.
  induction 1 as [|i draw Hi _ IH]; [done|].
  destruct (alphabet_lookup i Hi) as [c Hc].
  change (omap ?f (i :: draw)) with
    (match f i with Some y => y :: omap f draw | None => omap f draw end).
  cbv beta. rewrite Hc. cbn [length]. f_equal. exact IH.
Qed.

Lemma join_length (l : list ascii) : String.length (join l) = length l.
Proof. induction l as [|c l IH]; [done|]. simpl. by rewrite <- IH. Qed.

(** A code has six characters. *)
Lemma code_of_length draw : draw_ok draw → String.length (code_of draw) = 6.
Proof.
  intros [Hlen Hall]. unfold code_of.
  by rewrite join_length, omap_alphabet_length.
Qed.

End room_code.

(** ** [create_game] *)

Section create_game.
Context (str : exn → string).
Implicit Types (w : World) (user : User) (rc : string) (draws rest : list (list nat)).

Lemma game_ok_created rc user : game_ok (created_game rc user).
Proof. split; [by_compute|]. repeat split. Qed.

(** Inserting the row of a new game under a code no game has keeps the
    world well formed. *)
Lemma world_ok_created w user rc :
  world_ok w → is_Some (users w !! pk user) → games w !! rc = None →
  world_ok (set_games w (<[rc := created_game rc user]> (games w))).
Proof.
  intros Hw Hu Hnone. pose proof (world_ok_no_moves w rc Hw Hnone) as Hmoves.
  destruct Hw as (Hus & Hgs & Hmv). split; [done|]. split.
  - apply map_Forall_insert_2; [|exact Hgs].
    split; [done|]. split; [apply game_ok_created|]. split; [by split|].
    unfold moves_of in *. simpl. by rewrite Hmoves.
  - eapply Forall_impl; [exact Hmv|]. intros m [Hg Hp]. split; [|done]. simpl.
    destruct (decide (rc = move_game m)) as [->|Hne].
    + by rewrite lookup_insert_eq.
    + by rewrite lookup_insert_ne.
Qed.

Lemma run_Game_objects_create w rc user :
  games w !! rc = None →
  run (Game_objects_create rc user) w =
    (Ok (created_game rc user), set_games w (<[rc := created_game rc user]> (games w))).
Proof. intros Hnone. unfold Game_objects_create. simpl. by rewrite Hnone. Qed.

Lemma run_create_game_with w user rc :
  games w !! rc = None →
  run (create_game_with str user rc) w =
    (Ok (created_response rc), set_games w (<[rc := created_game rc user]> (games w))).
Proof.
  intros Hnone. unfold create_game_with. apply run_try_ok.
  erewrite run_bind_ok by (by apply run_Game_objects_create). done.
Qed.

(** C25: [create_game] answers 201 with a room code no game had, and
    inserts exactly the pending row of that code with the caller as
    first player, once the random generator draws a code that is not
    taken; the world it leaves is well formed. *)
Theorem create_game_creates w user draws :
  world_ok w → is_Some (users w !! pk user) →
  Exists (λ d, games w !! code_of d = None) draws →
  ∃ rc rest,
    create_game str user draws w =
      Some (Ok (created_response rc),
            set_games w (<[rc := created_game rc user]> (games w)), rest) ∧
    games w !! rc = None ∧
    world_ok (set_games w (<[rc := created_game rc user]> (games w))).
Proof.
  intros Hw Hu Hfresh.
  destruct (unique_code_terminates draws w Hfresh) as [[rc rest] Hcode].
  pose proof (unique_code_fresh _ _ _ _ Hcode) as Hnone.
  exists rc, rest. unfold create_game. rewrite Hcode.
  rewrite run_create_game_with by done. split; [done|]. split; [done|].
  by apply world_ok_created.
Qed.

End create_game.

Lemma create_game_creates_witness :
  ∃ rc rest,
    create_game example_str alice example_draws pending_world =
      Some (Ok (created_response rc),
            set_games pending_world
              (<[rc := created_game rc alice]> (games pending_world)), rest) ∧
    games pending_world !! rc = None ∧
    world_ok (set_games pending_world
                (<[rc := created_game rc alice]> (games pending_world))).
Proof.
  apply (create_game_creates example_str); [by_compute|by_compute|].
  apply Exists_cons_tl, Exists_cons_hd. by_compute.
Defined.

(** ** [join_game] *)

Section join_game.
Context (str : exn → string).
Implicit Types (w : World) (user : User) (rc : string) (g : Game).

(** [join_game] on a room that exists. *)
Lemma run_join_found w user rc g :
  world_ok w → games w !! rc = Some g → rc ≠ EmptyString →
  run (join_game_body user (Some rc)) w = (Ok (join_response w user (Some rc)), w).
Proof.
  intros Hw Hg Hrc. unfold join_game_body, join_response, falsy.
  rewrite bool_decide_eq_false_2 by done. destruct rc as [|c rc]; [done|].
  rewrite run_bind, run_get_store. cbv beta iota. simpl default. rewrite Hg.
  destruct (decide (status g ≠ PENDING)) as [Hs|Hs].
  { by rewrite bool_decide_eq_false_2. }
  apply dec_stable in Hs. rewrite bool_decide_eq_true_2 by done. simpl negb. cbv iota.
  destruct (world_ok_fk w _ g (player1 g) Hw Hg) as (p1 & Hp1 & Hpk); [by left|].
  erewrite run_bind_ok by (by apply run_related).
  unfold model_eq. rewrite Hpk, Hs.
  by destruct (decide (player1 g = pk user));
    [rewrite bool_decide_eq_true_2 by done|rewrite bool_decide_eq_false_2 by done].
Qed.

Lemma run_join_game w user room_code :
  world_ok w →
  run (join_game str user room_code) w = (Ok (join_response w user room_code), w).
Proof.
  intros Hw. unfold join_game. apply run_try_ok.
  destruct room_code as [rc|]; [|done].
  destruct (decide (rc = EmptyString)) as [->|Hrc]; [done|].
  destruct (games w !! rc) as [g|] eqn:Hg; [by eapply run_join_found|].
  unfold join_game_body, join_response, falsy.
  rewrite bool_decide_eq_false_2 by done. destruct rc as [|c rc]; [done|].
  rewrite run_bind, run_get_store. cbv beta iota. simpl default. by rewrite Hg.
Qed.

(** The answers of [join_game] by status code. *)
Lemma join_response_200 w user rc :
  status_code (join_response w user (Some rc)) = HTTP_200_OK ↔
  rc ≠ EmptyString ∧
  ∃ g, games w !! rc = Some g ∧ status g = PENDING ∧ player1 g ≠ pk user.
Proof.
  unfold join_response. destruct rc as [|c rc]; [by split; [|intros [? _]]|].
  destruct (games w !! String c rc) as [g|]; [|split; [done|naive_solver]].
  repeat case_decide; simpl; split; try done; try naive_solver.
Qed.

(** [join_game] writes nothing and answers by the table of the
    view: 400 without a room code, 404 for a code no game has, 400 for
    a game that is not pending, 400 for the caller's own game, and 200
    with the room's data otherwise. *)
Theorem join_game_run w user room_code :
  world_ok w →
  run (join_game str user room_code) w = (Ok (join_response w user room_code), w).
Proof. apply run_join_game. Qed.

(** C27: in a well-formed world, [join_game] answers 200 to a user
    for a room exactly when [add_player_to_game], run when that user's
    websocket connects to the room, makes the user the second player
    and announces it. *)
Theorem join_game_agrees_with_connect w user rc :
  world_ok w → is_Some (users w !! pk user) → rc ≠ EmptyString →
  status_code (join_response w user (Some rc)) = HTTP_200_OK ↔
  (add_player_outcome w rc (pk user)).1 ≠ Ok None.
Proof.
  intros Hw [u Hu] Hrc. rewrite join_response_200. unfold add_player_outcome. rewrite Hu.
  destruct (games w !! rc) as [g|] eqn:Hg; [|naive_solver].
  pose proof (game_ok_player2_None g (world_ok_game _ _ _ Hw Hg)) as Hp2.
  unfold joins. case_bool_decide as Hj; simpl.
  - split; [done|]. intros _. split; [done|]. exists g. naive_solver.
  - split; [|done]. intros (_ & g' & [= <-] & ? & ?). naive_solver.
Qed.

End join_game.

Lemma join_game_run_witness :
  run (join_game example_str bob (Some room)) pending_world =
    (Ok (join_response pending_world bob (Some room)), pending_world).
Proof. apply (join_game_run example_str). by_compute. Defined.

Lemma join_game_agrees_with_connect_witness :
  status_code (join_response pending_world bob (Some room)) = HTTP_200_OK ↔
  (add_player_outcome pending_world room (pk bob)).1 ≠ Ok None.
Proof. apply join_game_agrees_with_connect; [by_compute|by_compute|done]. Defined.

(** ** [game_history] *)

Section game_history.
Context (str : exn → string) (serialize : list GameMove → json).
Implicit Types (w : World) (user : User) (g : Game) (l : list Game).

(** Reading a nullable foreign key of a row of a well-formed world. *)
Lemma run_related_optional_ok w rc g fk :
  world_ok w → games w !! rc = Some g →
  fk = player2 g ∨ fk = winner g →
  run (related_optional fk) w = (Ok (fk ≫= λ k, users w !! k), w) ∧
  (fk ≫= λ k, email <$> users w !! k) = email <$> (fk ≫= λ k, users w !! k).
Proof.
  intros Hw Hg Hfk. destruct fk as [k|]; [|done].
  destruct (world_ok_fk w rc g k Hw Hg) as (u & Hu & _); [naive_solver|].
  split; [|done]. simpl. by rewrite Hu.
Qed.

Lemma run_history_entry w rc g :
  world_ok w → games w !! rc = Some g →
  run (history_entry serialize g) w = (Ok (history_of serialize w g), w).
Proof.
  intros Hw Hg. unfold history_entry, history_of.
  rewrite run_bind, run_get_store. cbv beta iota.
  destruct (world_ok_fk w rc g (player1 g) Hw Hg) as (p1 & Hp1 & _); [by left|].
  destruct (run_related_optional_ok w rc g (player2 g) Hw Hg) as [R2 E2]; [by left|].
  destruct (run_related_optional_ok w rc g (winner g) Hw Hg) as [Rw Ew]; [by right|].
  erewrite run_bind_ok by (by apply run_related).
  erewrite run_bind_ok by exact R2. erewrite run_bind_ok by exact Rw.
  by rewrite Hp1, E2, Ew.
Qed.

Lemma run_history_entries w l :
  world_ok w → Forall (λ g, games w !! room_code g = Some g) l →
  run (history_entries serialize l) w = (Ok (history_of serialize w <$> l), w).
Proof.
  intros Hw. induction 1 as [|g l Hg _ IH]; [done|]. cbn [history_entries].
  erewrite run_bind_ok by (by eapply run_history_entry).
  by erewrite run_bind_ok by exact IH.
Qed.

(** The games listed are rows of the table. *)
Lemma games_of_rows w user :
  world_ok w → Forall (λ g, games w !! room_code g = Some g) (games_of w user).
Proof.
  intros Hw. apply Forall_forall. intros g [_ Hin]%list_elem_of_filter.
  apply list_elem_of_fmap in Hin as ([rc g'] & -> & Hin). simpl.
  apply elem_of_map_to_list in Hin. by rewrite (world_ok_room_code w rc g').
Qed.

(** A row is listed when the user is one of its players. *)
Lemma elem_of_games_of w user g :
  world_ok w →
  g ∈ games_of w user ↔
  games w !! room_code g = Some g ∧
  (player1 g = pk user ∨ player2 g = Some (pk user)).
Proof.
  intros Hw. unfold games_of, plays. rewrite list_elem_of_filter, list_elem_of_fmap.
  rewrite orb_True, !bool_decide_spec. split.
  - intros [? ([rc g'] & -> & Hin%elem_of_map_to_list)]. simpl.
    by rewrite (world_ok_room_code w rc g').
  - intros [Hg ?]. split; [done|]. exists (room_code g, g). by rewrite elem_of_map_to_list.
Qed.

(** [game_history] writes nothing and answers 200 with one entry
    for each game whose first or second player is the caller, each
    with the room code, the players' and the winner's e-mail addresses,
    the status and the recorded moves of that game. *)
Theorem game_history_run w user :
  world_ok w →
  run (game_history str serialize user) w =
    (Ok (history_response serialize w user), w) ∧
  ∀ g, g ∈ games_of w user ↔
       games w !! room_code g = Some g ∧
       (player1 g = pk user ∨ player2 g = Some (pk user)).
Proof.
  intros Hw. split; [|intros g; by apply elem_of_games_of].
  unfold game_history. apply run_try_ok.
  rewrite run_bind, run_get_store. cbv beta iota.
  erewrite run_bind_ok; [done|]. apply run_history_entries; [done|].
  by apply games_of_rows.
Qed.

End game_history.

Lemma game_history_run_witness :
  run (game_history example_str example_serializer alice) pending_world =
    (Ok (history_response example_serializer pending_world alice), pending_world) ∧
  ∀ g, g ∈ games_of pending_world alice ↔
       games pending_world !! room_code g = Some g ∧
       (player1 g = pk alice ∨ player2 g = Some (pk alice)).
Proof. apply (game_history_run example_str example_serializer). by_compute. Defined.
