(* ===== verification/Otp.v ===== *)
(** * The one-time-password tasks

    The four Celery tasks of src/authenticate/task.py and the accounts
    they work on.  A task runs in a worker over the [Office]: the
    database, the mail handed to the SMTP server, the table of
    periodic tasks of [django_celery_beat] and the standard output of
    the worker.  The number [random.randint] draws is an argument of
    the task; the templates and the SMTP server are the interface
    [Mailer].  A task that raises is marked failed by the worker and
    is not run again; what it did before it raised stays done. *)

From stdpp Require Import base option list gmap strings pretty.
From S2P Require Import Prelude Monad Models Wellformed.

#[local] Set Warnings "-clear-no-such-hyp".
#[local] Open Scope Z_scope.

(** ** The accounts *)

(** [authenticate.models.UserProfile]; [user_id] is the foreign key to
    [User], kept as the primary key of its target. *)
Record UserProfile : Type := mkUserProfile {
  user_profile_id : Z;
  user_id : Z;
  image : string;
  name : string;
}.

(** Attribute assignment on a [User] instance. *)
Definition set_otp (u : User) (v : option string) : User :=
  mkUser (pk u) (email u) (verification_status u) v (otp_validity u)
         (is_user u) (is_doctor u) (resetToken u).
Definition set_otp_validity (u : User) (v : bool) : User :=
  mkUser (pk u) (email u) (verification_status u) (otp u) v
         (is_user u) (is_doctor u) (resetToken u).

Definition set_users (w : World) (v : gmap Z User) : World :=
  mkWorld (games w) v (moves w) (log w).

(** The rows of [User] with the given address. *)
Definition with_email (address : string) (w : World) : gmap Z User :=
  filter (λ row, email row.2 = address) (users w).

(** [User.objects.get(email=address)] as a function of the table: one
    row or an exception. *)
Definition find_email (address : string) (w : World) : Result User :=
  match map_to_list (with_email address w) with
  | [] => Raise ObjectDoesNotExist
  | [(_, u)] => Ok u
  | _ => Raise MultipleObjectsReturned
  end.

Definition User_objects_get_email (address : string) : M User :=
  MkST (λ w, (find_email address w, w)).

(** [user_obj.save()]: the row with the user's key is replaced. *)
Definition User_save (u : User) : M unit :=
  MkST (λ w, (Ok tt, set_users w (<[pk u := u]> (users w)))).

(** ** The office *)

(** A message given to [send_mail]. *)
Record Mail : Type := mkMail {
  subject : string;
  message : string;
  from_email : string;
  recipient_list : list string;
  html_message : string;
}.

#[export] Instance Mail_eq_dec : EqDecision Mail.
Proof. solve_decision. Defined.

(** The store of a worker: the database, the profiles, the mail the
    SMTP server took (oldest first), the periodic tasks by their unique
    name with their [enabled] flag, and the lines printed. *)
Record Office : Type := mkOffice {
  accounts : World;
  profiles : gmap Z UserProfile;
  outbox : list Mail;
  periodic : gmap string bool;
  stdout : list string;
}.

Definition set_accounts (o : Office) (w : World) : Office :=
  mkOffice w (profiles o) (outbox o) (periodic o) (stdout o).
Definition set_outbox (o : Office) (v : list Mail) : Office :=
  mkOffice (accounts o) (profiles o) v (periodic o) (stdout o).
Definition set_periodic (o : Office) (v : gmap string bool) : Office :=
  mkOffice (accounts o) (profiles o) (outbox o) v (stdout o).
Definition set_stdout (o : Office) (v : list string) : Office :=
  mkOffice (accounts o) (profiles o) (outbox o) (periodic o) v.

(** A task is a computation over the office. *)
Abbreviation T := (ST Office).

(** A call of the ORM inside a task. *)
Definition database {A : Type} (m : M A) : T A := embed accounts set_accounts m.

(** [print(line)]. *)
Definition print (line : string) : T unit :=
  modify (λ o, set_stdout o (stdout o ++ [line])).

(** ** The libraries behind the tasks *)

(** [render_to_string template otp] is
    [loader.render_to_string(template, {'otp': otp})];
    [smtp_accepts m] tells whether the SMTP server takes the message,
    and [send_mail] raises when it does not, since the tasks call it
    with [fail_silently=False]. *)
Class Mailer : Type := {
  render_to_string : string → Z → string;
  smtp_accepts : Mail → bool;
}.

(** [random.randint(a, b)]: an integer between [a] and [b], both
    included; [draw] is the state of the generator. *)
Definition random_randint (a b draw : Z) : Z := a + draw `mod` (b - a + 1).

(** [str(n)], which is what a [CharField] stores of an integer. *)
Definition str_of_int (n : Z) : string := pretty n.

#[global] Arguments random_randint : simpl never.
#[global] Arguments str_of_int : simpl never.

Section tasks.
Context `{Mailer}.

(** [send_mail(subject, message, from_email, recipient_list,
    fail_silently=False, html_message=...)]; it returns the number of
    messages sent. *)
Definition send_mail (subject message from_email : string)
    (recipient_list : list string) (html_message : string) : T nat :=
  let m := mkMail subject message from_email recipient_list html_message in
  if smtp_accepts m
  then modify (λ o, set_outbox o (outbox o ++ [m]));; mret 1%nat
  else raise SMTPException.

(** [sendEmailTask]. *)
Definition sendEmailTask (draw : Z) (address : string) : T string :=
  let subject := "Tic-Tac-Toe Account verification."%string in
  let otp := random_randint 100000 999999 draw in
  let html_message := render_to_string "registrationEmail.html" otp in
  send_mail subject "" "Tic-Tac-Toe App" [address] html_message;;
  user_obj ← database (User_objects_get_email address);
  database (User_save (set_otp user_obj (Some (str_of_int otp))));;
  mret "DONE"%string.

(** [sendForgotEmailTask]. *)
Definition sendForgotEmailTask (draw : Z) (address : string) : T string :=
  let subject := "Tic-Tac-Toe Reset Password."%string in
  let otp := random_randint 100000 999999 draw in
  let html_message := render_to_string "forgotPasswordEmail.html" otp in
  send_mail subject "" "Tic-Tac-Toe App" [address] html_message;;
  user_obj ← database (User_objects_get_email address);
  database (User_save (set_otp user_obj (Some (str_of_int otp))));;
  mret "DONE"%string.

(** [sendScheduleEmailTask]. *)
Definition sendScheduleEmailTask (draw : Z) (address : string) : T string :=
  let subject := "Tic-Tac-Toe Account verification OTP."%string in
  let otp := random_randint 100000 999999 draw in
  let html_message := render_to_string "forgotPasswordEmail.html" otp in
  send_mail subject "" "Tic-Tac-Toe App" [address] html_message;;
  mret "DONE"%string.

(** [PeriodicTask.objects.get(name=name)]: the flag of the task. *)
Definition PeriodicTask_objects_get (name : string) : T bool :=
  MkST (λ o, match periodic o !! name with
            | Some enabled => (Ok enabled, o)
            | None => (Raise ObjectDoesNotExist, o)
            end).

(** [periodic_task.enabled = v; periodic_task.save()]. *)
Definition PeriodicTask_save (name : string) (v : bool) : T unit :=
  modify (λ o, set_periodic o (<[name := v]> (periodic o))).

(** [invalidateOTP]. *)
Definition invalidateOTP (address name : string) : T string :=
  print name;;
  user_obj ← database (User_objects_get_email address);
  database (User_save (set_otp_validity user_obj false));;
  _ ← PeriodicTask_objects_get name;
  PeriodicTask_save name false;;
  mret "SET otp Invalid"%string.

End tasks.

(** ** The tasks as jobs of the worker *)

(** A call of a task with its arguments, as [task.delay(...)] puts it
    in the queue of the worker. *)
Inductive job : Type :=
| SendEmail (address : string)
| SendForgotEmail (address : string)
| SendScheduleEmail (address : string)
| InvalidateOTP (address name : string).

(** The worker runs a job; [draw] is the state of its generator. *)
Definition work `{Mailer} (draw : Z) (j : job) : T string :=
  match j with
  | SendEmail address => sendEmailTask draw address
  | SendForgotEmail address => sendForgotEmailTask draw address
  | SendScheduleEmail address => sendScheduleEmailTask draw address
  | InvalidateOTP address name => invalidateOTP address name
  end.

(** The office after a job, whether it failed or not, and after a
    list of jobs, each with its draw. *)
Definition after_job `{Mailer} (o : Office) (dj : Z * job) : Office :=
  (run (work dj.1 dj.2) o).2.
Definition after_jobs `{Mailer} (djs : list (Z * job)) (o : Office) : Office :=
  foldl after_job o djs.

(** ** What a task leaves *)

(** The mail a task sends. *)
Definition otp_mail `{Mailer} (subject template : string) (draw : Z)
    (address : string) : Mail :=
  mkMail subject "" "Tic-Tac-Toe App" [address]
         (render_to_string template (random_randint 100000 999999 draw)).

Definition posted (m : Mail) (o : Office) : Office :=
  set_outbox o (outbox o ++ [m]).

(** The row of [u] written back with [f] applied. *)
Definition updated (u : User) (o : Office) : Office :=
  set_accounts o (set_users (accounts o) (<[pk u := u]> (users (accounts o)))).

(** A task that mails a password and stores it when [store] is set. *)
Definition mailed `{Mailer} (subject template : string) (store : bool)
    (draw : Z) (address : string) (o : Office) : Result string * Office :=
  let m := otp_mail subject template draw address in
  if smtp_accepts m then
    if store then
      match find_email address (accounts o) with
      | Ok u => (Ok "DONE"%string,
                 updated (set_otp u (Some (str_of_int (random_randint 100000 999999 draw))))
                         (posted m o))
      | Raise e => (Raise e, posted m o)
      end
    else (Ok "DONE"%string, posted m o)
  else (Raise SMTPException, o).

(** What [invalidateOTP] leaves. *)
Definition invalidated (address name : string) (o : Office) : Result string * Office :=
  let o1 := set_stdout o (stdout o ++ [name]) in
  match find_email address (accounts o) with
  | Ok u =>
      let o2 := updated (set_otp_validity u false) o1 in
      match periodic o !! name with
      | Some _ => (Ok "SET otp Invalid"%string,
                   set_periodic o2 (<[name := false]> (periodic o)))
      | None => (Raise ObjectDoesNotExist, o2)
      end
  | Raise e => (Raise e, o1)
  end.

(** ** The invariant of the accounts *)

(** No two rows have the same address ([unique=True]). *)
Definition emails_unique (w : World) : Prop :=
  ∀ k1 k2 u1 u2, users w !! k1 = Some u1 → users w !! k2 = Some u2 →
    email u1 = email u2 → k1 = k2.

(** A profile is keyed by its key and belongs to a user. *)
Definition profile_ok (w : World) (k : Z) (p : UserProfile) : Prop :=
  user_profile_id p = k ∧ is_Some (users w !! user_id p).

(** A stored password is six characters, the width of the column. *)
Definition otp_ok (u : User) : Prop :=
  from_option (λ s, String.length s = 6%nat) True (otp u).

Definition office_ok (o : Office) : Prop :=
  world_ok (accounts o) ∧ emails_unique (accounts o) ∧
  map_Forall (profile_ok (accounts o)) (profiles o) ∧
  map_Forall (λ _, otp_ok) (users (accounts o)).

#[export] Instance emails_unique_dec w : Decision (emails_unique w).
Proof.
  refine (cast_if (decide (map_Forall (λ k1 u1,
            map_Forall (λ k2 u2, email u1 = email u2 → k1 = k2) (users w)) (users w))));
    unfold emails_unique, map_Forall in *; naive_solver.
Defined.
#[export] Instance profile_ok_dec w k p : Decision (profile_ok w k p).
Proof. unfold profile_ok. apply _. Defined.
#[export] Instance otp_ok_dec u : Decision (otp_ok u).
Proof. unfold otp_ok. destruct (otp u); simpl; apply _. Defined.
#[export] Instance office_ok_dec o : Decision (office_ok o).
Proof. unfold office_ok. apply _. Defined.

(** ** An example *)

Definition example_render (template : string) (otp : Z) : string :=
  (template +:+ ":" +:+ str_of_int otp)%string.

(** An SMTP server that takes every message with a recipient other
    than the address nobody of example.org. *)
Definition example_smtp (m : Mail) : bool :=
  bool_decide ("nobody@example.org"%string ∉ recipient_list m).

#[export] Instance example_mailer : Mailer :=
  {| render_to_string := example_render; smtp_accepts := example_smtp |}.

Definition example_office : Office :=
  mkOffice pending_world {[ 1 := mkUserProfile 1 1 "default.jpg" "Alice" ]} []
           {[ "otp-alice"%string := true ]} [].

(** ** The password *)

Section password.
Implicit Types (a b draw n : Z).

(** [randint] stays between its bounds. *)
Lemma random_randint_range a b draw :
  a ≤ b → a ≤ random_randint a b draw ≤ b.
Proof.
  intros Hab. unfold random_randint.
  pose proof (Z.mod_pos_bound draw (b - a + 1)). lia.
Qed.

(** Every integer between the bounds is drawn. *)
Lemma random_randint_onto a b n :
  a ≤ n ≤ b → random_randint a b (n - a) = n.
Proof. intros Hn. unfold random_randint. rewrite Z.mod_small by lia. lia. Qed.

(** The digits of a natural number with [k + 1] digits. *)
Lemma pretty_N_go_length (k : nat) (x : N) (s : string) :
  (10 ^ N.of_nat k ≤ x < 10 ^ N.of_nat (S k))%N →
  String.length (pretty_N_go x s) = (S k + String.length s)%nat.
Proof.
  revert x s. induction k as [|k IH]; intros x s Hx.
  - change (10 ^ N.of_nat 0)%N with 1%N in Hx. change (10 ^ N.of_nat 1)%N with 10%N in Hx.
    rewrite pretty_N_go_step by lia. rewrite N.div_small by lia.
    by rewrite pretty_N_go_0.
  - rewrite !Nat2N.inj_succ, !N.pow_succ_r' in Hx.
    rewrite pretty_N_go_step by lia. rewrite IH; [simpl; lia|].
    rewrite Nat2N.inj_succ, N.pow_succ_r'. split.
    + apply N.div_le_lower_bound; lia.
    + apply N.Div0.div_lt_upper_bound; lia.
Qed.

(** An integer of six digits is written with six characters. *)
Lemma str_of_int_six n :
  100000 ≤ n ≤ 999999 → String.length (str_of_int n) = 6%nat.
Proof.
  intros Hn. destruct n as [|p|p]; try lia.
  unfold str_of_int, pretty, pretty_Z, pretty, pretty_positive, pretty, pretty_N.
  rewrite decide_False by done.
  rewrite (pretty_N_go_length 5); [done|].
  change (10 ^ N.of_nat 5)%N with 100000%N. change (10 ^ N.of_nat 6)%N with 1000000%N. lia.
Qed.

End password.

(** ** The lookup by address *)

Section lookup.
Implicit Types (w : World) (u : User) (k : Z) (address : string).

Lemma with_email_lookup address w k u :
  with_email address w !! k = Some u ↔ users w !! k = Some u ∧ email u = address.
Proof. unfold with_email. by rewrite map_lookup_filter_Some. Qed.

(** The row found is a row of the table with that address. *)
Lemma find_email_Ok address w u :
  find_email address w = Ok u →
  ∃ k, with_email address w = {[ k := u ]} ∧ users w !! k = Some u ∧ email u = address.
Proof.
  unfold find_email. destruct (map_to_list _) as [|[k u'] [|??]] eqn:Hl; try done.
  intros [= ->]. exists k.
  assert (with_email address w = {[ k := u ]}) as Hm.
  { apply map_to_list_inj. by rewrite Hl, map_to_list_singleton. }
  split; [done|]. apply with_email_lookup. by rewrite Hm, lookup_singleton_eq.
Qed.

(** No row has the address. *)
Lemma find_email_missing address w :
  find_email address w = Raise ObjectDoesNotExist ↔
  ∀ k u, users w !! k = Some u → email u ≠ address.
Proof.
  unfold find_email. split.
  - destruct (map_to_list _) as [|[k' u'] [|??]] eqn:Hl; try done.
    apply map_to_list_empty_iff in Hl. intros _ k u Hk He.
    assert (with_email address w !! k = Some u) as Hw by by apply with_email_lookup.
    by rewrite Hl in Hw.
  - intros Hno. replace (with_email address w) with (∅ : gmap Z User).
    { by rewrite map_to_list_empty. }
    symmetry. apply map_empty. intros k.
    destruct (with_email address w !! k) as [u|] eqn:Hk; [|done].
    apply with_email_lookup in Hk as [Hk He]. by destruct (Hno k u).
Qed.

(** Where addresses are unique, the row of a user is the one found. *)
Lemma find_email_unique w k u :
  (∀ k1 k2 u1 u2, users w !! k1 = Some u1 → users w !! k2 = Some u2 →
     email u1 = email u2 → k1 = k2) →
  users w !! k = Some u → find_email (email u) w = Ok u.
Proof.
  intros Huniq Hk. unfold find_email.
  replace (with_email (email u) w) with ({[ k := u ]} : gmap Z User).
  { by rewrite map_to_list_singleton. }
  apply map_eq. intros k'. destruct (decide (k' = k)) as [->|Hne].
  - rewrite lookup_singleton_eq. symmetry. by apply with_email_lookup.
  - rewrite lookup_singleton_ne by done. symmetry.
    destruct (with_email (email u) w !! k') as [u'|] eqn:Hk'; [|done].
    apply with_email_lookup in Hk' as [Hk' He]. by destruct Hne, (Huniq k' k u' u).
Qed.

End lookup.

(** ** What each task does *)

Section runs.
Context `{Mailer}.
Implicit Types (o : Office) (u : User) (address name : string) (draw : Z).

Lemma run_office_database {A} (m : M A) o :
  run (database m) o = ((run m (accounts o)).1, set_accounts o (run m (accounts o)).2).
Proof. apply run_embed. Qed.

Lemma run_send_mail subject message from_email recipient_list html_message o :
  run (send_mail subject message from_email recipient_list html_message) o =
    let m := mkMail subject message from_email recipient_list html_message in
    if smtp_accepts m then (Ok 1%nat, posted m o) else (Raise SMTPException, o).
Proof. unfold send_mail. simpl. by destruct (smtp_accepts _). Qed.

(** Looking a user up and writing the row back with one field set. *)
Lemma run_store (f : User → User) (text : string) address o :
  (∀ u, pk (f u) = pk u) →
  run (user_obj ← database (User_objects_get_email address);
       database (User_save (f user_obj));; mret text) o =
    match find_email address (accounts o) with
    | Ok u => (Ok text, updated (f u) o)
    | Raise e => (Raise e, o)
    end.
Proof.
  intros Hf. rewrite run_bind, run_office_database. simpl.
  destruct (find_email address (accounts o)) as [e|u]; simpl; by destruct o.
Qed.

Lemma run_sendEmailTask draw address o :
  run (sendEmailTask draw address) o =
    mailed "Tic-Tac-Toe Account verification." "registrationEmail.html" true draw address o.
Proof.
  unfold sendEmailTask, mailed, otp_mail. rewrite run_bind, run_send_mail. cbv zeta.
  destruct (smtp_accepts _); [|done].
  by rewrite (run_store (λ u, set_otp u _) "DONE").
Qed.

Lemma run_sendForgotEmailTask draw address o :
  run (sendForgotEmailTask draw address) o =
    mailed "Tic-Tac-Toe Reset Password." "forgotPasswordEmail.html" true draw address o.
Proof.
  unfold sendForgotEmailTask, mailed, otp_mail. rewrite run_bind, run_send_mail. cbv zeta.
  destruct (smtp_accepts _); [|done].
  by rewrite (run_store (λ u, set_otp u _) "DONE").
Qed.

Lemma run_sendScheduleEmailTask draw address o :
  run (sendScheduleEmailTask draw address) o =
    mailed "Tic-Tac-Toe Account verification OTP." "forgotPasswordEmail.html" false
           draw address o.
Proof.
  unfold sendScheduleEmailTask, mailed, otp_mail. rewrite run_bind, run_send_mail. cbv zeta.
  by destruct (smtp_accepts _).
Qed.

Lemma run_invalidateOTP address name o :
  run (invalidateOTP address name) o = invalidated address name o.
Proof.
  unfold invalidateOTP, invalidated. rewrite run_bind. simpl.
  destruct (find_email address (accounts o)) as [e|u]; simpl; [done|].
  destruct (periodic o !! name); simpl; by destruct o.
Qed.

End runs.

(** ** The invariant *)

Section invariant.
Implicit Types (o : Office) (w : World) (u : User) (k : Z) (us : gmap Z User).

(** The games see the user table only through its keys. *)
Lemma world_ok_users w us :
  world_ok w → map_Forall (λ k u, pk u = k) us →
  (∀ k, is_Some (users w !! k) → is_Some (us !! k)) →
  world_ok (set_users w us).
Proof.
  intros (_ & Hrows & Hmoves) Hpk Hdom. split_and!; [done| |].
  - intros rc g Hg. destruct (Hrows rc g Hg) as (? & ? & [Hp1 Hp2] & ?).
    split_and!; try done. split; [by apply Hdom|].
    destruct (player2 g); simpl in *; [by apply Hdom|done].
  - eapply Forall_impl; [exact Hmoves|]. intros m [? ?]. split; [done|by apply Hdom].
Qed.

Lemma emails_unique_insert w k u0 u :
  emails_unique w → users w !! k = Some u0 → email u = email u0 →
  emails_unique (set_users w (<[k := u]> (users w))).
Proof.
  intros Huniq Hk He k1 k2 u1 u2. simpl.
  destruct (decide (k1 = k)) as [->|H1], (decide (k2 = k)) as [->|H2]; [done| | |].
  - rewrite lookup_insert_eq, lookup_insert_ne by done. intros [= <-] H2' He'.
    apply (Huniq k k2 u0 u2); congruence.
  - rewrite lookup_insert_eq, lookup_insert_ne by done. intros H1' [= <-] He'.
    apply (Huniq k1 k u1 u0); congruence.
  - rewrite !lookup_insert_ne by done. apply Huniq.
Qed.

(** Writing a row back with its key and address keeps the office. *)
Lemma office_ok_updated o u0 u :
  office_ok o → users (accounts o) !! pk u0 = Some u0 →
  pk u = pk u0 → email u = email u0 → otp_ok u →
  office_ok (updated u o).
Proof.
  intros (Hw & Huniq & Hprof & Hotp) Hk Hpk He Hu.
  assert (∀ j, is_Some (users (accounts o) !! j) →
               is_Some (<[pk u0 := u]> (users (accounts o)) !! j)) as Hdom.
  { intros j Hj. destruct (decide (j = pk u0)) as [->|?];
      [by rewrite lookup_insert_eq|by rewrite lookup_insert_ne]. }
  unfold updated. rewrite Hpk. split_and!; simpl.
  - apply world_ok_users; [done| |done]. apply map_Forall_insert_2; [done|apply Hw].
  - by apply emails_unique_insert with u0.
  - intros j p Hj. destruct (Hprof j p Hj). split; [done|by apply Hdom].
  - by apply map_Forall_insert_2.
Qed.

(** The invariant reads the database and the profiles only. *)
Lemma office_ok_same o o' :
  accounts o' = accounts o → profiles o' = profiles o → office_ok o → office_ok o'.
Proof. unfold office_ok. by intros -> ->. Qed.

(** The row found by address sits under its own key. *)
Lemma find_email_row o address u :
  office_ok o → find_email address (accounts o) = Ok u →
  users (accounts o) !! pk u = Some u ∧ email u = address.
Proof.
  intros (Hw & _) (k & _ & Hk & He)%find_email_Ok.
  destruct Hw as (Hpk & _). by rewrite (Hpk k u Hk).
Qed.

(** A lookup by address after the row of a user was written back. *)
Lemma find_email_updated o k u u' :
  office_ok o → users (accounts o) !! k = Some u → pk u' = pk u → email u' = email u →
  find_email (email u) (accounts (updated u' o)) = Ok u' ∧
  users (accounts (updated u' o)) !! k = Some u' ∧
  ∀ k', k' ≠ k → users (accounts (updated u' o)) !! k' = users (accounts o) !! k'.
Proof.
  intros ((Hpk & _) & Huniq & _) Hk Hpk' He. pose proof (Hpk k u Hk) as Hku.
  unfold updated. simpl. rewrite Hpk', Hku, lookup_insert_eq. split_and!; [|done|].
  - rewrite <- He. apply (find_email_unique _ k u'); simpl; [|by rewrite lookup_insert_eq].
    by apply (emails_unique_insert _ k u).
  - intros k' Hk'. by rewrite lookup_insert_ne.
Qed.

End invariant.

Section jobs.
Context `{Mailer}.
Implicit Types (o : Office) (u : User) (address name : string) (draw : Z) (j : job).

Lemma office_ok_mailed subject template store draw address o :
  office_ok o → office_ok (mailed subject template store draw address o).2.
Proof.
  intros Ho. unfold mailed. destruct (smtp_accepts _); [|done].
  destruct store; [|done].
  destruct (find_email address (accounts o)) as [e|u] eqn:Hu; [done|].
  destruct (find_email_row o address u Ho Hu) as [Hk He]. simpl.
  apply office_ok_updated with u; try done.
  apply str_of_int_six, random_randint_range. lia.
Qed.

Lemma office_ok_invalidated address name o :
  office_ok o → office_ok (invalidated address name o).2.
Proof.
  intros Ho. unfold invalidated.
  destruct (find_email address (accounts o)) as [e|u] eqn:Hu; [done|].
  destruct (find_email_row o address u Ho Hu) as [Hk He].
  assert (office_ok (updated (set_otp_validity u false) (set_stdout o (stdout o ++ [name]))))
    as Ho'.
  { apply office_ok_updated with u; try done. destruct Ho as (_ & _ & _ & Hotp).
    apply (Hotp _ _ Hk). }
  by destruct (periodic o !! name).
Qed.

(** What a job leaves, by the table of its task. *)
Lemma run_work draw j o :
  run (work draw j) o =
    match j with
    | SendEmail address =>
        mailed "Tic-Tac-Toe Account verification." "registrationEmail.html" true draw address o
    | SendForgotEmail address =>
        mailed "Tic-Tac-Toe Reset Password." "forgotPasswordEmail.html" true draw address o
    | SendScheduleEmail address =>
        mailed "Tic-Tac-Toe Account verification OTP." "forgotPasswordEmail.html" false
               draw address o
    | InvalidateOTP address name => invalidated address name o
    end.
Proof.
  destruct j; simpl work;
    [apply run_sendEmailTask|apply run_sendForgotEmailTask
    |apply run_sendScheduleEmailTask|apply run_invalidateOTP].
Qed.

Lemma after_job_ok o dj : office_ok o → office_ok (after_job o dj).
Proof.
  intros Ho. unfold after_job. rewrite run_work.
  destruct dj.2; by first [apply office_ok_mailed|apply office_ok_invalidated].
Qed.

(** A job writes to the user table only. *)
Lemma mailed_games subject template store draw address o :
  let w' := accounts (mailed subject template store draw address o).2 in
  games w' = games (accounts o) ∧ moves w' = moves (accounts o).
Proof.
  unfold mailed. destruct (smtp_accepts _), store; try done.
  by destruct (find_email address (accounts o)).
Qed.

Lemma invalidated_games address name o :
  let w' := accounts (invalidated address name o).2 in
  games w' = games (accounts o) ∧ moves w' = moves (accounts o).
Proof.
  unfold invalidated. destruct (find_email address (accounts o)); [done|].
  by destruct (periodic o !! name).
Qed.

Lemma after_job_games o dj :
  games (accounts (after_job o dj)) = games (accounts o) ∧
  moves (accounts (after_job o dj)) = moves (accounts o).
Proof.
  unfold after_job. rewrite run_work.
  destruct dj.2; by first [apply mailed_games|apply invalidated_games].
Qed.

(** C28: whatever jobs the worker runs, in whatever order and whether
    they fail or not, the accounts stay well formed (rows under their
    keys, addresses unique, every profile with its user, every stored
    password of six characters, every foreign key of a game with its
    target) and the games and their recorded moves are untouched. *)
Theorem jobs_keep_office (djs : list (Z * job)) o :
  office_ok o →
  office_ok (after_jobs djs o) ∧
  games (accounts (after_jobs djs o)) = games (accounts o) ∧
  moves (accounts (after_jobs djs o)) = moves (accounts o).
Proof.
  revert o. induction djs as [|dj djs IH]; intros o Ho; [done|].
  destruct (IH (after_job o dj) (after_job_ok o dj Ho)) as (? & Hg & Hm).
  destruct (after_job_games o dj) as [Hg' Hm']. simpl. by rewrite Hg, Hm.
Qed.

(** C29: [sendEmailTask] for the address of a user, when the SMTP server
    takes the message: the task returns DONE, one message has gone out,
    to that address alone, with the password rendered in the
    registration template, and the row a lookup by that address finds
    afterwards is the user's row with that password stored; no other
    row has changed. *)
Theorem sendEmailTask_stores_mailed_otp draw k u o :
  office_ok o → users (accounts o) !! k = Some u →
  smtp_accepts (otp_mail "Tic-Tac-Toe Account verification." "registrationEmail.html"
                         draw (email u)) = true →
  ∃ o', run (sendEmailTask draw (email u)) o = (Ok "DONE"%string, o') ∧
    outbox o' = outbox o ++
      [mkMail "Tic-Tac-Toe Account verification." "" "Tic-Tac-Toe App" [email u]
              (render_to_string "registrationEmail.html"
                                (random_randint 100000 999999 draw))] ∧
    find_email (email u) (accounts o') =
      Ok (set_otp u (Some (str_of_int (random_randint 100000 999999 draw)))) ∧
    ∀ k', k' ≠ k → users (accounts o') !! k' = users (accounts o) !! k'.
Proof.
  intros Ho Hk Hsmtp. pose proof Ho as (_ & Huniq & _).
  rewrite run_sendEmailTask. unfold mailed. rewrite Hsmtp.
  rewrite (find_email_unique _ k u Huniq Hk). eexists. split; [done|].
  split; [done|].
  by destruct (find_email_updated (posted (otp_mail "Tic-Tac-Toe Account verification."
    "registrationEmail.html" draw (email u)) o) k u (set_otp u (Some (str_of_int
    (random_randint 100000 999999 draw))))) as (? & _ & ?).
Qed.

(** C37: [sendEmailTask] for an address no user has: the message goes
    out all the same, since the mail is sent before the row is looked
    up; the task then fails with [DoesNotExist] and writes nothing, so
    the password in the mail is stored nowhere. *)
Theorem sendEmailTask_unknown_address draw address o :
  (∀ k u, users (accounts o) !! k = Some u → email u ≠ address) →
  smtp_accepts (otp_mail "Tic-Tac-Toe Account verification." "registrationEmail.html"
                         draw address) = true →
  run (sendEmailTask draw address) o =
    (Raise ObjectDoesNotExist,
     posted (otp_mail "Tic-Tac-Toe Account verification." "registrationEmail.html"
                      draw address) o).
Proof.
  intros Hno%find_email_missing Hsmtp.
  rewrite run_sendEmailTask. unfold mailed. by rewrite Hsmtp, Hno.
Qed.

(** [sendScheduleEmailTask] mails a fresh password and stores
    nothing: whatever the draw, the address and the office, the
    database after the task is the database before it, so the password
    in the mail is not the one in the row. *)
Theorem sendScheduleEmailTask_stores_nothing draw address o :
  accounts (run (sendScheduleEmailTask draw address) o).2 = accounts o ∧
  (smtp_accepts (otp_mail "Tic-Tac-Toe Account verification OTP." "forgotPasswordEmail.html"
                          draw address) = true →
   outbox (run (sendScheduleEmailTask draw address) o).2 =
     outbox o ++ [otp_mail "Tic-Tac-Toe Account verification OTP."
                           "forgotPasswordEmail.html" draw address]).
Proof.
  rewrite run_sendScheduleEmailTask. unfold mailed.
  destruct (smtp_accepts _); [|done]. by split.
Qed.

(** C38: [invalidateOTP] for the address of a user and the name of a
    periodic task: the password of the user is marked invalid, the
    stored password itself is kept, the periodic task is disabled, and
    a second run changes nothing but the output. *)
Theorem invalidateOTP_disables k u name enabled o :
  office_ok o → users (accounts o) !! k = Some u → periodic o !! name = Some enabled →
  ∃ o', run (invalidateOTP (email u) name) o = (Ok "SET otp Invalid"%string, o') ∧
    users (accounts o') !! k = Some (set_otp_validity u false) ∧
    periodic o' !! name = Some false ∧
    (run (invalidateOTP (email u) name) o').2 = set_stdout o' (stdout o' ++ [name]).
Proof.
  intros Ho Hk Hn. pose proof Ho as (_ & Huniq & _).
  set (o1 := set_stdout o (stdout o ++ [name])).
  destruct (find_email_updated o1 k u (set_otp_validity u false)) as (Hfind & Hrow & _);
    [done..|].
  rewrite run_invalidateOTP. unfold invalidated at 1.
  rewrite (find_email_unique _ k u Huniq Hk), Hn. eexists. split; [done|].
  split_and!; [done|by simpl; rewrite lookup_insert_eq|].
  rewrite run_invalidateOTP. unfold invalidated.
  change (find_email (email u) (accounts (set_periodic ?x _))) with (find_email (email u) (accounts x)).
  fold o1. rewrite Hfind. simpl. rewrite lookup_insert_eq.
  unfold updated, set_periodic, set_accounts, set_users. simpl.
  by rewrite !insert_insert_eq.
Qed.

(** [invalidateOTP] for an address no user has fails before it
    reaches the periodic task: the task stays enabled, so the scheduler
    runs it again, to the same end. *)
Theorem invalidateOTP_unknown_address address name o :
  (∀ k u, users (accounts o) !! k = Some u → email u ≠ address) →
  run (invalidateOTP address name) o =
    (Raise ObjectDoesNotExist, set_stdout o (stdout o ++ [name])) ∧
  periodic (run (invalidateOTP address name) o).2 = periodic o.
Proof.
  intros Hno%find_email_missing.
  rewrite run_invalidateOTP. unfold invalidated. by rewrite Hno.
Qed.

End jobs.

(** ** The theorems at work *)

Lemma jobs_keep_office_witness :
  office_ok (after_jobs [(7, SendEmail "alice@example.org"); (8, SendEmail "dave@example.org");
                        (9, InvalidateOTP "alice@example.org" "otp-alice")] example_office) ∧
  games (accounts (after_jobs [(7, SendEmail "alice@example.org");
                              (8, SendEmail "dave@example.org");
                              (9, InvalidateOTP "alice@example.org" "otp-alice")]
                             example_office)) = games (accounts example_office) ∧
  moves (accounts (after_jobs [(7, SendEmail "alice@example.org");
                              (8, SendEmail "dave@example.org");
                              (9, InvalidateOTP "alice@example.org" "otp-alice")]
                             example_office)) = moves (accounts example_office).
Proof. apply jobs_keep_office. by_compute. Defined.

Lemma sendEmailTask_stores_mailed_otp_witness :
  ∃ o', run (sendEmailTask 7 (email alice)) example_office = (Ok "DONE"%string, o') ∧
    outbox o' = outbox example_office ++
      [mkMail "Tic-Tac-Toe Account verification." "" "Tic-Tac-Toe App" [email alice]
              (render_to_string "registrationEmail.html" (random_randint 100000 999999 7))] ∧
    find_email (email alice) (accounts o') =
      Ok (set_otp alice (Some (str_of_int (random_randint 100000 999999 7)))) ∧
    ∀ k', k' ≠ 1 → users (accounts o') !! k' = users (accounts example_office) !! k'.
Proof. apply sendEmailTask_stores_mailed_otp; by_compute. Defined.

Lemma sendEmailTask_unknown_address_witness :
  run (sendEmailTask 7 "dave@example.org") example_office =
    (Raise ObjectDoesNotExist,
     posted (otp_mail "Tic-Tac-Toe Account verification." "registrationEmail.html"
                      7 "dave@example.org") example_office).
Proof.
  apply sendEmailTask_unknown_address; [|by_compute].
  apply find_email_missing. by_compute.
Defined.

Lemma invalidateOTP_disables_witness :
  ∃ o', run (invalidateOTP (email alice) "otp-alice") example_office =
          (Ok "SET otp Invalid"%string, o') ∧
    users (accounts o') !! 1 = Some (set_otp_validity alice false) ∧
    periodic o' !! "otp-alice"%string = Some false ∧
    (run (invalidateOTP (email alice) "otp-alice") o').2 =
      set_stdout o' (stdout o' ++ ["otp-alice"%string]).
Proof. apply (invalidateOTP_disables 1 alice "otp-alice" true); by_compute. Defined.

Lemma invalidateOTP_unknown_address_witness :
  run (invalidateOTP "dave@example.org" "otp-alice") example_office =
    (Raise ObjectDoesNotExist,
     set_stdout example_office (stdout example_office ++ ["otp-alice"%string])) ∧
  periodic (run (invalidateOTP "dave@example.org" "otp-alice") example_office).2 =
    periodic example_office.
Proof. apply invalidateOTP_unknown_address. apply find_email_missing. by_compute. Defined.
