(* ===== verification/Gateway.v ===== *)
(** * The websocket gateway

    [TicTacToeConsumer.connect], [receive], [disconnect] and
    [game_message] of src/game/consumers.py, the channel layer they
    call, and the server as a whole.

    A consumer instance is a record of the attributes the handlers set
    ([room_code], [room_group_name], [user_id]) together with the state
    of its socket (accepted, closed, the frames sent to the client, in
    order).  The server holds the database, the groups of the channel
    layer, the consumers by channel name and the events the channel
    layer holds for the channels.  A handler is a computation over the
    server.

    [group_send] leaves the event with the layer for every channel of
    the group; a consumer takes an event of its channel, and runs
    [game_message] on it, when it is not running a handler.  In this
    file a handler runs to its end and the events it sent are handled
    before the next handler starts ([dispatch]): a socket that sends to
    its own group gets the message after everything its handler sends
    to it directly.

    A frame sent with [self.send(text_data=json.dumps(v))] is recorded
    as the value [v].  The two libraries the handlers call and whose
    results depend on data the model does not hold, [jwt.decode] and
    [json.loads], are the interface [Libraries]: the handlers are
    defined, and their theorems proved, for any implementation that
    raises only the exceptions the [except] clauses name. *)

From stdpp Require Import base option list gmap strings.
From Stdlib Require Import Ascii.
From S2P Require Import Prelude Monad Json Board Models Wellformed Consumers Preservation.

#[local] Set Warnings "-clear-no-such-hyp".

(** ** The libraries behind the gateway *)

(** [jwt_decode token] is [jwt.decode(token, SECRET_KEY,
    algorithms=['HS256'])] followed by the lookup of the claim
    [user_id]: [Ok None] stands for a payload without the claim.  The
    claim of a token with a valid signature is the integer the issuer
    put there.  [json_loads] is [json.loads] on a text frame. *)
Class Libraries : Type := {
  jwt_decode : string → Result (option Z);
  json_loads : string → Result json;
  jwt_decode_raises t e : jwt_decode t = Raise e → e = InvalidTokenError;
  json_loads_raises t e : json_loads t = Raise e → e = JSONDecodeError;
}.

(** ** The query string *)

(** [s.split(sep)] for a separator of one character. *)
Fixpoint str_split (sep : ascii) (s : string) : list string :=
  match s with
  | EmptyString => [EmptyString]
  | String c s' =>
      if decide (c = sep) then EmptyString :: str_split sep s'
      else match str_split sep s' with
           | [] => [String c EmptyString]
           | p :: ps => String c p :: ps
           end
  end.

(** One element of the iterable given to [dict]: it must have two
    items, and a later key replaces an earlier one. *)
Definition dict_update (acc : Result (gmap string string)) (pair : list string) :
    Result (gmap string string) :=
  d ← acc;
  match pair with
  | [k; v] => Ok (<[k := v]> d)
  | _ => Raise ValueError
  end.

(** [dict(pairs)] for an iterable of lists. *)
Definition dict_of_pairs (pairs : list (list string)) : Result (gmap string string) :=
  foldl dict_update (Ok ∅) pairs.

(** [dict(pair.split('=') for pair in query_string.split('&')).get('token', '')]. *)
Definition token_of (query_string : string) : Result string :=
  d ← dict_of_pairs (str_split "=" <$> str_split "&" query_string);
  Ok (default EmptyString (d !! "token"%string)).

(** A query string as a client writes it: the pairs [key=value],
    joined by [&]. *)
Fixpoint query_of (pairs : list (string * string)) : string :=
  match pairs with
  | [] => EmptyString
  | kv :: rest =>
      match rest with
      | [] => kv.1 +:+ String "=" kv.2
      | _ :: _ => (kv.1 +:+ String "=" kv.2) +:+ String "&" (query_of rest)
      end
  end.

(** A key or a value in which neither [&] nor [=] occurs. *)
Definition plain (s : string) : Prop :=
  ("&"%char ∉ String.list_ascii_of_string s) ∧ ("="%char ∉ String.list_ascii_of_string s).

#[export] Instance plain_dec s : Decision (plain s).
Proof. unfold plain. apply _. Defined.

(** ** Consumers and the server *)

Record Consumer : Type := mkConsumer {
  self_room_code : string;
  self_room_group_name : string;
  self_user_id : option Z;
  accepted : bool;
  closed : bool;
  sent : list json;
}.

Definition set_user_id (c : Consumer) (v : option Z) : Consumer :=
  mkConsumer (self_room_code c) (self_room_group_name c) v (accepted c) (closed c) (sent c).
Definition set_accepted (c : Consumer) : Consumer :=
  mkConsumer (self_room_code c) (self_room_group_name c) (self_user_id c) true (closed c) (sent c).
Definition set_closed (c : Consumer) : Consumer :=
  mkConsumer (self_room_code c) (self_room_group_name c) (self_user_id c) (accepted c) true (sent c).
Definition push (frame : json) (c : Consumer) : Consumer :=
  mkConsumer (self_room_code c) (self_room_group_name c) (self_user_id c)
             (accepted c) (closed c) (sent c ++ [frame]).

(** A socket that has been accepted and not closed. *)
Definition open (c : Consumer) : bool := accepted c && negb (closed c).

(** The server: the database, the groups of the channel layer, the
    consumer instances by channel name, and the events the channel
    layer holds for the channels, oldest first. *)
Record Server : Type := mkServer {
  db : World;
  groups : gmap string (gset string);
  consumers : gmap string Consumer;
  pending : list (string * json);
}.

Definition set_db (s : Server) (w : World) : Server :=
  mkServer w (groups s) (consumers s) (pending s).
Definition set_groups (s : Server) (gs : gmap string (gset string)) : Server :=
  mkServer (db s) gs (consumers s) (pending s).
Definition set_consumers (s : Server) (cs : gmap string Consumer) : Server :=
  mkServer (db s) (groups s) cs (pending s).
Definition set_pending (s : Server) (q : list (string * json)) : Server :=
  mkServer (db s) (groups s) (consumers s) q.

(** The channels of a group. *)
Definition members (s : Server) (group : string) : gset string :=
  default ∅ (groups s !! group).

(** A handler of the gateway is a computation over the server. *)
Abbreviation G := (ST Server).

(** A method decorated with [database_sync_to_async], awaited. *)
Definition database_sync_to_async {A : Type} (m : M A) : G A := embed db set_db m.

(** [logger.error] from a handler of the gateway: the same logger. *)
Definition log_error (tag : string) (e : exn) : G unit :=
  database_sync_to_async (logger_error tag e).

(** The instance behind a channel name. *)
Definition instance (self : string) : G Consumer :=
  MkST (λ s, match consumers s !! self with
             | Some c => (Ok c, s)
             | None => (Raise AttributeError, s)
             end).

Definition update_self (self : string) (f : Consumer → Consumer) : G unit :=
  modify (λ s, set_consumers s (alter f self (consumers s))).

(** [self.accept()], [self.close()]. *)
Definition accept (self : string) : G unit := update_self self set_accepted.
Definition close (self : string) : G unit := update_self self set_closed.

(** [self.send(text_data=json.dumps(frame))]: the server refuses a
    frame on a socket that is not open. *)
Definition send (self : string) (frame : json) : G unit :=
  c ← instance self;
  if open c then update_self self (push frame) else raise RuntimeError.

(** ** The channel layer *)

Definition group_add (group channel : string) : G unit :=
  modify (λ s, set_groups s (<[group := {[channel]} ∪ members s group]> (groups s))).

Definition group_discard (group channel : string) : G unit :=
  modify (λ s, set_groups s (<[group := members s group ∖ {[channel]}]> (groups s))).

(** [for x in l: f(x)]. *)
Fixpoint for_each {S A : Type} (l : list A) (f : A → ST S unit) : ST S unit :=
  match l with
  | [] => mret tt
  | x :: l' => f x;; for_each l' f
  end.

(** ** The handlers *)

Section handlers.
Context `{Libraries}.

(** [self.add_player_to_game()] and [self.make_move(position)]: the
    method reads [self.room_code] in its first statement and
    [self.user_id] in its second, inside its [try]. *)
Definition bound (self tag : string) (method : string → Z → M (option json)) :
    G (option json) :=
  c ← instance self;
  database_sync_to_async
    match self_user_id c with
    | Some uid => method (self_room_code c) uid
    | None => try_except (Game_objects_get (self_room_code c);; raise AttributeError)
                         (handle_errors tag)
    end.

(** [self.get_game_state()]. *)
Definition bound_get_game_state (self : string) : G (option json) :=
  c ← instance self;
  database_sync_to_async (get_game_state (self_room_code c)).

(** [game_message]: the handler of the events of type [game_message]. *)
Definition game_message (self : string) (event : json) : G unit :=
  try_except (message ← lift (dict_getitem event "message"); send self message)
             (log_error "Game Message Error").

(** What a consumer does with an event of its channel: the handler
    named by the type runs; an instance without a handler for the type
    fails, and its socket is closed. *)
Definition deliver (channel : string) (event : json) : G unit :=
  match entry event "type" with
  | Some type =>
      if eq_str type "game_message" then game_message channel event
      else close channel
  | None => close channel
  end.

(** [channel_layer.group_send(group, event)]: the layer holds the
    event for every channel of the group. *)
Definition group_send (group : string) (event : json) : G unit :=
  modify (λ s, set_pending s
                 (pending s ++ ((λ channel, (channel, event)) <$> elements (members s group)))).

(** The consumers take the events the layer holds for them, oldest
    first. *)
Definition drain : G unit :=
  s ← get_store;
  modify (λ s, set_pending s []);;
  for_each (pending s) (λ item, deliver item.1 item.2).

(** A consumer handles one message at a time: a handler runs to its
    end, whether it returns or raises, before the events it sent to
    the group are handled, its own socket's among them. *)
Definition dispatch (handler : G unit) : G unit :=
  MkST (λ s, let (r, s') := run handler s in (r, (run drain s').2)).

(** [if game_state: await self.channel_layer.group_send(...)]. *)
Definition send_if_any (group : string) (game_state : option json) : G unit :=
  match game_state with
  | Some event => group_send group event
  | None => mret tt
  end.

(** The [try] block of [connect]. *)
Definition connect_body (self group token : string) : G unit :=
  payload ← lift (jwt_decode token);
  user_id ← lift (match payload with
                  | Some uid => Ok uid
                  | None => Raise KeyError
                  end);
  update_self self (λ c, set_user_id c (Some user_id));;
  group_add group self;;
  accept self;;
  game_state ← bound self "Add Player Error" add_player_to_game;
  send_if_any group game_state;;
  initial_state ← bound_get_game_state self;
  match initial_state with
  | Some state => send self state
  | None => mret tt
  end.

(** The [except] clauses of [connect]. *)
Definition connect_errors (self : string) (e : exn) : G unit :=
  if isinstance e InvalidTokenError
  then log_error "JWT Token Error" e;; close self
  else log_error "Connection Error" e;; close self.

(** [connect], for the instance the router creates for a socket on
    [ws/game/<room_code>/] with the given query string. *)
Definition connect (self room_code query_string : string) : G unit :=
  let room_group_name := ("game_" +:+ room_code)%string in
  modify (λ s, set_consumers s
                 (<[self := mkConsumer room_code room_group_name None false false []]>
                    (consumers s)));;
  token ← lift (token_of query_string);
  try_except (connect_body self room_group_name token) (connect_errors self).

(** [disconnect]. *)
Definition disconnect (self : string) : G unit :=
  try_except (c ← instance self; group_discard (self_room_group_name c) self)
             (log_error "Disconnect Error").

(** The [try] block of [receive]. *)
Definition receive_body (self text_data : string) : G unit :=
  data ← lift (json_loads text_data);
  action ← lift (dict_get data "action");
  if eq_str action "make_move" then
    position ← lift (dict_get data "position");
    game_state ← bound self "Make Move Error" (λ rc uid, make_move rc uid position);
    match game_state with
    | Some event => c ← instance self; group_send (self_room_group_name c) event
    | None => mret tt
    end
  else mret tt.

(** The error frames of [receive]. *)
Definition error_frame (text : string) : json := JObj [("error"%string, JStr text)].

(** The [except] clauses of [receive]. *)
Definition receive_errors (self : string) (e : exn) : G unit :=
  if isinstance e JSONDecodeError
  then log_error "JSON Decode Error" e;; send self (error_frame "Invalid JSON format")
  else log_error "Receive Error" e;; send self (error_frame "Internal server error").

(** [receive]. *)
Definition receive (self text_data : string) : G unit :=
  try_except (receive_body self text_data) (receive_errors self).

End handlers.

(** ** The server as a transition system *)

(** What reaches the server: a socket opened on the route of a room
    with a query string, a text frame on a socket, a socket gone. *)
Inductive event : Type :=
| Connect (self room_code query_string : string)
| Receive (self text_data : string)
| Disconnect (self : string).

Section server.
Context `{Libraries}.

(** The handler of an event.  When a socket is gone the framework
    calls [disconnect] and drops the socket. *)
Definition handle (ev : event) : G unit :=
  dispatch
    match ev with
    | Connect self room_code query_string => connect self room_code query_string
    | Receive self text_data => receive self text_data
    | Disconnect self => disconnect self;; close self
    end.

(** The server after an event, and after a sequence of events. *)
Definition next (ev : event) (s : Server) : Server := (run (handle ev) s).2.
Definition next_all (evs : list event) (s : Server) : Server :=
  foldl (λ s ev, next ev s) s evs.

End server.

(** The events the framework can produce in a state: a channel name is
    given to one socket, frames arrive on open sockets only. *)
Definition enabled (ev : event) (s : Server) : Prop :=
  match ev with
  | Connect self _ _ => consumers s !! self = None
  | Receive self _ => from_option (λ c, open c = true) False (consumers s !! self)
  | Disconnect self => is_Some (consumers s !! self)
  end.

(** A sequence of events each enabled where it occurs. *)
Fixpoint feasible `{Libraries} (evs : list event) (s : Server) : Prop :=
  match evs with
  | [] => True
  | ev :: evs' => enabled ev s ∧ feasible evs' (next ev s)
  end.

(** ** What the handlers do, as functions of the server *)

(** The server with an event of type [game_message] carrying [message]
    delivered to the group: every member has one more frame. *)
Definition broadcast (group : string) (message : json) (s : Server) : Server :=
  set_consumers s
    (map_imap (λ channel c, Some (if decide (channel ∈ members s group)
                                  then push message c else c))
              (consumers s)).

(** The server with one more frame on one socket. *)
Definition reply (self : string) (frame : json) (s : Server) : Server :=
  set_consumers s (alter (push frame) self (consumers s)).

(** The server with a line in the error log. *)
Definition logged (tag : string) (e : exn) (s : Server) : Server :=
  set_db s (set_log (db s) (log (db s) ++ [(tag, e)])).

(** The server with a socket closed by the handler. *)
Definition shut (self : string) (s : Server) : Server :=
  set_consumers s (alter set_closed self (consumers s)).

(** The message inside an event. *)
Definition message_of (game_state : option json) : option json :=
  event ← game_state; entry event "message".

(** The server with an event held for every channel of the group. *)
Definition queued (group : string) (event : json) (s : Server) : Server :=
  set_pending s
    (pending s ++ ((λ channel, (channel, event)) <$> elements (members s group))).

(** The server after [if game_state: group_send(group, game_state)]. *)
Definition queued_any (group : string) (game_state : option json) (s : Server) : Server :=
  match game_state with
  | Some event => queued group event s
  | None => s
  end.

(** What a database method returned. *)
Definition returned (outcome : Result (option json) * World) : option json :=
  match outcome.1 with
  | Ok game_state => game_state
  | Raise _ => None
  end.

(** The server when a database method has left the tables [outcome.2]
    and its event, if any, has been sent to the group. *)
Definition submitted (group : string) (outcome : Result (option json) * World)
    (s : Server) : Server :=
  queued_any group (returned outcome) (set_db s outcome.2).

(** The same server once the members of the group have handled the
    event. *)
Definition published (group : string) (outcome : Result (option json) * World)
    (s : Server) : Server :=
  let s' := set_db s outcome.2 in
  match outcome.1 with
  | Ok game_state =>
      match message_of game_state with
      | Some message => broadcast group message s'
      | None => s'
      end
  | Raise _ => s'
  end.

(** What a database method returns: nothing, or an event of type
    [game_message]. *)
Definition is_event (game_state : option json) : Prop :=
  game_state = None ∨ ∃ message, game_state = Some (game_message_event message).

(** What a database method does: it returns an event or nothing and
    keeps the tables well formed. *)
Definition method_ok (outcome : Result (option json) * World) : Prop :=
  (∃ game_state, outcome.1 = Ok game_state ∧ is_event game_state) ∧ world_ok outcome.2.

(** The server with the instance the router made for a socket. *)
Definition registered (self room_code : string) (s : Server) : Server :=
  set_consumers s
    (<[self := mkConsumer room_code ("game_" +:+ room_code) None false false []]>
       (consumers s)).

(** The server once [connect] has verified the token: the instance
    knows its user, is in the group and accepted. *)
Definition admitted (self room_code : string) (uid : Z) (s : Server) : Server :=
  let group := ("game_" +:+ room_code)%string in
  mkServer (db s)
           (<[group := {[self]} ∪ members s group]> (groups s))
           (<[self := mkConsumer room_code group (Some uid) true false []]> (consumers s))
           (pending s).

(** The snapshot of the room is sent to the socket, when the room
    exists. *)
Definition greeted (self room_code : string) (s : Server) : Server :=
  match games (db s) !! room_code with
  | Some g => reply self (game_state_message g) s
  | None => s
  end.

(** The server at the end of [connect] with a token that carries
    [uid]: [add_player_to_game] has run, its event is with the group
    ([publish]) and the new socket has been sent the snapshot. *)
Definition connected_by (publish : string → Result (option json) * World → Server → Server)
    (self room_code : string) (uid : Z) (s : Server) : Server :=
  let s1 := admitted self room_code uid s in
  let outcome := add_player_outcome (db s) room_code uid in
  publish ("game_" +:+ room_code)%string outcome
          (greeted self room_code (set_db s1 outcome.2)).

(** The server after [connect] and the handling of its event: the new
    socket is sent the snapshot by its own handler, and then the
    members of the group, the new socket among them, handle the event
    of [add_player_to_game]. *)
Definition connected : string → string → Z → Server → Server := connected_by published.

(** The server after [connect] failed inside its [try] with [e]. *)
Definition refused (self room_code : string) (tag : string) (e : exn) (s : Server) : Server :=
  let group := ("game_" +:+ room_code)%string in
  logged tag e
    (set_consumers s (<[self := mkConsumer room_code group None false true []]>
                        (consumers s))).

(** What [connect] returns and the server it leaves. *)
Definition connect_result `{Libraries}
    (publish : string → Result (option json) * World → Server → Server)
    (self room_code query_string : string) (s : Server) : Result unit * Server :=
  match token_of query_string with
  | Raise e => (Raise e, registered self room_code s)
  | Ok token =>
      match jwt_decode token with
      | Raise e => (Ok tt, refused self room_code "JWT Token Error" e s)
      | Ok None => (Ok tt, refused self room_code "Connection Error" KeyError s)
      | Ok (Some uid) => (Ok tt, connected_by publish self room_code uid s)
      end
  end.

(** The same once the event of [connect] has been handled. *)
Definition connect_outcome `{Libraries} :
    string → string → string → Server → Result unit * Server :=
  connect_result published.

(** What a text frame asks for: [Ok (Some position)] for a move,
    [Ok None] for any other action, the exception of the [try] block
    of [receive] otherwise. *)
Definition request `{Libraries} (text_data : string) : Result (option json) :=
  data ← json_loads text_data;
  action ← dict_get data "action";
  if eq_str action "make_move" then Some <$> dict_get data "position" else Ok None.

(** The server after [receive] failed with [e]: a line in the log and
    an error frame to the sender. *)
Definition complained (self : string) (e : exn) (s : Server) : Server :=
  if isinstance e JSONDecodeError
  then reply self (error_frame "Invalid JSON format") (logged "JSON Decode Error" e s)
  else reply self (error_frame "Internal server error") (logged "Receive Error" e s).

(** The server at the end of [receive]. *)
Definition received_by `{Libraries}
    (publish : string → Result (option json) * World → Server → Server)
    (self text_data : string) (s : Server) : Server :=
  match request text_data with
  | Raise e => complained self e s
  | Ok None => s
  | Ok (Some position) =>
      match consumers s !! self with
      | Some c =>
          match self_user_id c with
          | Some uid =>
              publish (self_room_group_name c)
                      (make_move_outcome (db s) (self_room_code c) uid position) s
          | None => s
          end
      | None => s
      end
  end.

(** The server after [receive] and the handling of its event. *)
Definition received `{Libraries} : string → string → Server → Server :=
  received_by published.

(** The server after a socket is gone. *)
Definition departed (self : string) (s : Server) : Server :=
  match consumers s !! self with
  | Some c =>
      let group := self_room_group_name c in
      shut self (set_groups s (<[group := members s group ∖ {[self]}]> (groups s)))
  | None => s
  end.

(** ** The invariant of the server *)

(** An instance names the group of its room, and knows its user once
    it is accepted. *)
Definition consumer_ok (c : Consumer) : Prop :=
  self_room_group_name c = ("game_" +:+ self_room_code c)%string ∧
  (accepted c = true → is_Some (self_user_id c)).

(** Two instances that differ only in the frames sent. *)
Definition same_socket (c c' : Consumer) : Prop :=
  self_room_code c' = self_room_code c ∧
  self_room_group_name c' = self_room_group_name c ∧
  self_user_id c' = self_user_id c ∧
  accepted c' = accepted c ∧ closed c' = closed c.

(** A member of a group is an open socket on the room of the group. *)
Definition member_ok (s : Server) (group channel : string) : Prop :=
  from_option (λ c, open c = true ∧ self_room_group_name c = group) False
              (consumers s !! channel).

(** Between two events the database is well formed, the instances
    are, the groups hold open sockets of their rooms, and the channel
    layer holds no event. *)
Definition server_ok (s : Server) : Prop :=
  world_ok (db s) ∧
  map_Forall (λ _, consumer_ok) (consumers s) ∧
  map_Forall (λ group channels, set_Forall (member_ok s group) channels) (groups s) ∧
  pending s = [].

#[export] Instance consumer_ok_dec c : Decision (consumer_ok c).
Proof. unfold consumer_ok. apply _. Defined.
#[export] Instance member_ok_dec s group channel : Decision (member_ok s group channel).
Proof. unfold member_ok. destruct (consumers s !! channel); simpl; apply _. Defined.
#[export] Instance server_ok_dec s : Decision (server_ok s).
Proof. unfold server_ok. apply _. Defined.
#[export] Instance enabled_dec ev s : Decision (enabled ev s).
Proof.
  destruct ev; simpl; [apply _| |apply _].
  destruct (consumers s !! self); simpl; apply _.
Defined.

#[export] Instance feasible_dec `{Libraries} evs s : Decision (feasible evs s).
Proof. revert s. induction evs as [|ev evs IH]; intros s; simpl; apply _. Defined.

(** ** An implementation of the libraries for the examples

    Three tokens that verify, one that verifies and carries no
    [user_id], and the frames the examples send. *)

Definition example_jwt_decode (token : string) : Result (option Z) :=
  if decide (token = "alice.jwt"%string) then Ok (Some 1%Z)
  else if decide (token = "bob.jwt"%string) then Ok (Some 2%Z)
  else if decide (token = "carol.jwt"%string) then Ok (Some 3%Z)
  else if decide (token = "anonymous.jwt"%string) then Ok None
  else Raise InvalidTokenError.

Definition move_frame (position : json) : json :=
  JObj [("action"%string, JStr "make_move"); ("position"%string, position)].

(** The text of the frames: [dq] is the double quote. *)
Definition dq (s : string) : string :=
  (String (ascii_of_nat 34) s +:+ String (ascii_of_nat 34) EmptyString)%string.
Definition move_text (position : string) : string :=
  ("{" +:+ dq "action" +:+ ": " +:+ dq "make_move" +:+ ", " +:+
   dq "position" +:+ ": " +:+ position +:+ "}")%string.
Definition action_text (action : string) : string :=
  ("{" +:+ dq "action" +:+ ": " +:+ dq action +:+ "}")%string.

Definition example_json_loads (text_data : string) : Result json :=
  if decide (text_data = move_text "4") then Ok (move_frame (JInt 4))
  else if decide (text_data = move_text "0") then Ok (move_frame (JInt 0))
  else if decide (text_data = move_text "true") then Ok (move_frame (JBool true))
  else if decide (text_data = action_text "make_move")
  then Ok (JObj [("action"%string, JStr "make_move")])
  else if decide (text_data = action_text "resign")
  then Ok (JObj [("action"%string, JStr "resign")])
  else if decide (text_data = "[4]"%string) then Ok (JArr [JInt 4])
  else Raise JSONDecodeError.

#[export] Instance example_libraries : Libraries.
Proof.
  refine {| jwt_decode := example_jwt_decode; json_loads := example_json_loads |}.
  - intros t e. unfold example_jwt_decode. repeat case_decide; congruence.
  - intros t e. unfold example_json_loads. repeat case_decide; congruence.
Defined.

(** A server with the pending room of the examples and no socket. *)
Definition quiet_server : Server := mkServer pending_world ∅ ∅ [].

(** Alice, who created the room, and bob connect. *)
Definition both_connected : list event :=
  [ Connect "ch.alice" room "token=alice.jwt";
    Connect "ch.bob" room "token=bob.jwt" ].

(** ** The query string *)

Section query.
Implicit Types (s k v : string) (sep : ascii).

(** [split] yields at least one piece. *)
Lemma str_split_nonempty sep s : str_split sep s ≠ [].
Proof. destruct s as [|c s]; simpl; [done|]. case_decide; [done|]. by case_match. Qed.

(** A string without the separator is its only piece. *)
Lemma str_split_absent sep s :
  sep ∉ String.list_ascii_of_string s → str_split sep s = [s].
Proof.
  induction s as [|c s IH]; simpl; [done|]. intros Hs.
  rewrite decide_False by set_solver. rewrite IH by set_solver. done.
Qed.

(** The pieces before and after the first separator. *)
Lemma str_split_app sep s1 s2 :
  sep ∉ String.list_ascii_of_string s1 →
  str_split sep (s1 +:+ String sep s2) = s1 :: str_split sep s2.
Proof.
  induction s1 as [|c s1 IH]; simpl; intros Hs.
  - by rewrite decide_True.
  - rewrite decide_False by set_solver. by rewrite IH by set_solver.
Qed.

(** The query string that carries only a token. *)
Lemma token_of_only v :
  "&"%char ∉ String.list_ascii_of_string v → "="%char ∉ String.list_ascii_of_string v →
  token_of ("token=" +:+ v) = Ok v.
Proof.
  intros Hamp Heq. unfold token_of.
  rewrite (str_split_absent "&") by (simpl; set_solver).
  change ("token=" +:+ v)%string with ("token" +:+ String "=" v)%string.
  cbn [fmap list_fmap]. rewrite (str_split_app "=" "token") by (simpl; set_solver).
  rewrite (str_split_absent "=") by done. simpl. by rewrite lookup_insert_eq.
Qed.

(** The empty query string has one pair of one item: [dict] raises. *)
Lemma token_of_empty : token_of "" = Raise ValueError.
Proof. done. Qed.

(** [token_of] raises nothing but [ValueError]. *)
Lemma dict_of_pairs_raises pairs acc e :
  foldl dict_update acc pairs = Raise e → acc = Raise e ∨ e = ValueError.
Proof.
  revert acc. induction pairs as [|pair pairs IH]; intros acc; simpl; [auto|].
  intros [Hacc| ->]%IH; [|auto]. destruct acc as [e'|d]; [auto|].
  unfold dict_update in Hacc. simpl in Hacc. repeat case_match; naive_solver.
Qed.

Lemma token_of_raises s e : token_of s = Raise e → e = ValueError.
Proof.
  unfold token_of, dict_of_pairs.
  destruct (foldl _ _ _) as [e'|d] eqn:Hd; [|done]. intros [= ->].
  by apply dict_of_pairs_raises in Hd as [?| ->].
Qed.

Lemma chars_app s1 s2 :
  String.list_ascii_of_string (s1 +:+ s2) =
    String.list_ascii_of_string s1 ++ String.list_ascii_of_string s2.
Proof. induction s1 as [|c s1 IH]; [done|]. simpl. by rewrite <- IH. Qed.

(** One pair of a query string has two items. *)
Lemma str_split_pair k v :
  plain k → plain v →
  ("&"%char ∉ String.list_ascii_of_string (k +:+ String "=" v)) ∧
  str_split "=" (k +:+ String "=" v) = [k; v].
Proof.
  intros [Hk1 Hk2] [Hv1 Hv2]. split.
  - rewrite chars_app. simpl. set_solver.
  - by rewrite str_split_app, str_split_absent.
Qed.

(** The pairs of a query string are the pairs it was written from. *)
Lemma split_query_of (pairs : list (string * string)) :
  pairs ≠ [] → Forall (λ kv, plain kv.1 ∧ plain kv.2) pairs →
  str_split "=" <$> str_split "&" (query_of pairs) = (λ kv, [kv.1; kv.2]) <$> pairs.
Proof.
  induction pairs as [|kv [|kv' rest] IH]; [done|..]; intros _ Hp.
  - apply Forall_cons in Hp as [[Hk Hv] _].
    destruct (str_split_pair kv.1 kv.2 Hk Hv) as [Hamp Heq]. cbn [query_of].
    rewrite str_split_absent by done. cbn [fmap list_fmap]. by rewrite Heq.
  - apply Forall_cons in Hp as [[Hk Hv] Hp].
    destruct (str_split_pair kv.1 kv.2 Hk Hv) as [Hamp Heq].
    change (query_of (kv :: kv' :: rest)) with
      ((kv.1 +:+ String "=" kv.2) +:+ String "&" (query_of (kv' :: rest)))%string.
    rewrite str_split_app by done. rewrite !fmap_cons, Heq. f_equal. by apply IH.
Qed.

(** [dict] on pairs of two items: a later key replaces an earlier
    one. *)
Lemma dict_of_two_items (pairs : list (string * string)) (d : gmap string string) :
  foldl dict_update (Ok d) ((λ kv, [kv.1; kv.2]) <$> pairs) =
    Ok (foldl (λ d kv, <[kv.1 := kv.2]> d) d pairs).
Proof. revert d. induction pairs as [|kv pairs IH]; intros d; [done|]. apply IH. Qed.

Lemma lookup_last_insert (pairs : list (string * string)) (d : gmap string string) k :
  foldl (λ d kv, <[kv.1 := kv.2]> d) d pairs !! k =
    match last (filter (λ kv, kv.1 = k) pairs) with
    | Some kv => Some kv.2
    | None => d !! k
    end.
Proof.
  revert d. induction pairs as [|kv pairs IH]; intros d; [done|]. cbn [foldl].
  rewrite IH, filter_cons. case_decide as Hk.
  - rewrite last_cons. destruct (last _); [done|]. by rewrite <- Hk, lookup_insert_eq.
  - destruct (last _); [done|]. by rewrite lookup_insert_ne.
Qed.

(** C35: the token of a query string is the value of its last pair with
    the key [token], and the empty string when there is none:
    [connect] reads back what a client wrote, whatever the other pairs
    are, when no key and no value holds [&] or [=]. *)
Theorem token_of_query_of (pairs : list (string * string)) :
  pairs ≠ [] → Forall (λ kv, plain kv.1 ∧ plain kv.2) pairs →
  token_of (query_of pairs) =
    Ok (default EmptyString (snd <$> last (filter (λ kv, kv.1 = "token"%string) pairs))).
Proof.
  intros Hne Hp. unfold token_of, dict_of_pairs.
  rewrite split_query_of, dict_of_two_items by done. cbn [mbind Result_bind].
  rewrite lookup_last_insert, lookup_empty. by destruct (last _).
Qed.

End query.

(** ** The primitives *)

Section primitives.
Implicit Types (s : Server) (c : Consumer) (self group channel tag : string)
  (frame message : json) (l : list string).

Lemma run_instance s self c :
  consumers s !! self = Some c → run (instance self) s = (Ok c, s).
Proof. intros Hc. simpl. by rewrite Hc. Qed.

Lemma run_database {A} (m : M A) s :
  run (database_sync_to_async m) s = ((run m (db s)).1, set_db s (run m (db s)).2).
Proof. apply run_embed. Qed.

Lemma run_log_error s tag e : run (log_error tag e) s = (Ok tt, logged tag e s).
Proof. done. Qed.

Lemma run_close s self : run (close self) s = (Ok tt, shut self s).
Proof. done. Qed.

Lemma run_send s self c frame :
  consumers s !! self = Some c → open c = true →
  run (send self frame) s = (Ok tt, reply self frame s).
Proof.
  intros Hc Ho. unfold send.
  erewrite run_bind_ok by (by apply run_instance). by rewrite Ho.
Qed.

(** A frame on a socket that is not open is refused. *)
Lemma run_send_refused s self c frame :
  consumers s !! self = Some c → open c = false →
  run (send self frame) s = (Raise RuntimeError, s).
Proof.
  intros Hc Ho. unfold send.
  erewrite run_bind_ok by (by apply run_instance). by rewrite Ho.
Qed.

(** An open member takes the message out of the event and sends it. *)
Lemma run_deliver s channel c message :
  consumers s !! channel = Some c → open c = true →
  run (deliver channel (game_message_event message)) s = (Ok tt, reply channel message s).
Proof.
  intros Hc Ho. unfold deliver.
  change (entry (game_message_event message) "type") with (Some (JStr "game_message")).
  change (eq_str (JStr "game_message") "game_message") with true.
  cbv beta iota. unfold game_message. apply run_try_ok. rewrite run_bind, run_lift.
  change (dict_getitem (game_message_event message) "message") with (Ok message).
  by eapply run_send.
Qed.

(** Frames to a list of sockets, one after the other. *)
Lemma foldl_reply l message s :
  foldl (λ s channel, reply channel message s) s l =
    set_consumers s (foldl (λ cs channel, alter (push message) channel cs)
                           (consumers s) l).
Proof.
  revert s. induction l as [|channel l IH]; intros s; [by destruct s|].
  simpl. by rewrite IH.
Qed.

Lemma lookup_foldl_alter {A} (f : A → A) l (cs : gmap string A) channel :
  NoDup l →
  foldl (λ cs channel, alter f channel cs) cs l !! channel =
    (if decide (channel ∈ l) then f else id) <$> cs !! channel.
Proof.
  intros Hl. revert cs.
  induction Hl as [|x l Hx Hl IH]; intros cs; simpl; [by rewrite option_fmap_id|].
  rewrite IH. destruct (decide (channel = x)) as [->|Hne].
  - rewrite lookup_alter_eq, decide_False, (decide_True (P := x ∈ x :: l))
      by set_solver. by destruct (cs !! x).
  - rewrite lookup_alter_ne by done.
    destruct (decide (channel ∈ l)).
    + by rewrite decide_True by set_solver.
    + by rewrite decide_False by set_solver.
Qed.

(** The loop of [group_send] over open sockets. *)
Lemma run_for_each_deliver l message s :
  (∀ channel, channel ∈ l → ∃ c, consumers s !! channel = Some c ∧ open c = true) →
  run (for_each l (λ channel, deliver channel (game_message_event message))) s =
    (Ok tt, foldl (λ s channel, reply channel message s) s l).
Proof.
  revert s. induction l as [|x l IH]; intros s Hl; [done|].
  destruct (Hl x) as (c & Hc & Ho); [set_solver|].
  cbn [for_each foldl]. erewrite run_bind_ok by (by eapply run_deliver).
  apply IH. intros channel Hin. destruct (Hl channel) as (c' & Hc' & Ho'); [set_solver|].
  unfold reply. cbn [consumers set_consumers].
  destruct (decide (channel = x)) as [->|Hne].
  - rewrite lookup_alter_eq, Hc. by exists (push message c).
  - rewrite lookup_alter_ne by done. eauto.
Qed.

End primitives.

(** ** The invariant, piece by piece *)

Section invariant.
Implicit Types (s : Server) (c : Consumer) (self group channel tag : string)
  (frame message : json) (w : World).

Lemma server_ok_world s : server_ok s → world_ok (db s).
Proof. by intros (? & _). Qed.

Lemma server_ok_consumer s channel c :
  server_ok s → consumers s !! channel = Some c → consumer_ok c.
Proof. intros (_ & Hc & _) Hl. by apply Hc in Hl. Qed.

Lemma server_ok_member s group channel :
  server_ok s → channel ∈ members s group →
  ∃ c, consumers s !! channel = Some c ∧ open c = true ∧ self_room_group_name c = group.
Proof.
  intros (_ & _ & Hg & _) Hin. unfold members in Hin.
  destruct (groups s !! group) as [chs|] eqn:Hchs; [|set_solver].
  specialize (Hg group chs Hchs channel Hin). unfold member_ok in Hg.
  destruct (consumers s !! channel) as [c|]; [|done]. by exists c.
Qed.

Lemma server_ok_quiet s : server_ok s → pending s = [].
Proof. by intros (_ & _ & _ & ?). Qed.

Lemma server_ok_intro s :
  world_ok (db s) →
  (∀ channel c, consumers s !! channel = Some c → consumer_ok c) →
  (∀ group channel, channel ∈ members s group → member_ok s group channel) →
  pending s = [] →
  server_ok s.
Proof.
  intros Hw Hc Hg Hq. split; [done|]. split; [done|]. split; [|done].
  intros group chs Hchs channel Hin. apply Hg. unfold members. by rewrite Hchs.
Qed.

(** A socket that is not known is in no group. *)
Lemma server_ok_fresh s self group :
  server_ok s → consumers s !! self = None → self ∉ members s group.
Proof.
  intros Hs Hnone Hin.
  destruct (server_ok_member s group self Hs Hin) as (c & Hc & _). congruence.
Qed.

(** An open socket knows its user. *)
Lemma server_ok_user s self c :
  server_ok s → consumers s !! self = Some c → open c = true →
  ∃ uid, self_user_id c = Some uid.
Proof.
  intros Hs Hc [Ha _]%andb_prop.
  by destruct (server_ok_consumer s self c Hs Hc) as [_ [uid ?]%(λ H, H Ha)]; eauto.
Qed.

(** The invariant does not look at the frames sent. *)
Lemma server_ok_frames s s' :
  server_ok s → db s' = db s → groups s' = groups s → pending s' = pending s →
  (∀ channel, option_Forall2 same_socket (consumers s !! channel) (consumers s' !! channel)) →
  server_ok s'.
Proof.
  intros Hs Hdb Hgr Hq Hcs. apply server_ok_intro; [| | |by rewrite Hq; apply server_ok_quiet].
  - rewrite Hdb. by apply server_ok_world.
  - intros channel c' Hc'. specialize (Hcs channel). rewrite Hc' in Hcs.
    destruct (consumers s !! channel) as [c|] eqn:Hc; inversion Hcs as [? ? Hsame|]; subst.
    destruct Hsame as (Hrc & Hgn & Hu & Ha & _).
    destruct (server_ok_consumer s channel c Hs) as [? ?]; [done|].
    split; [congruence|]. by rewrite Hu, Ha.
  - intros group channel Hin. unfold members in Hin. rewrite Hgr in Hin.
    destruct (server_ok_member s group channel Hs Hin) as (c & Hc & Ho & Hn).
    specialize (Hcs channel). rewrite Hc in Hcs. unfold member_ok.
    destruct (consumers s' !! channel) as [c'|]; inversion Hcs as [? ? Hsame|]; subst.
    destruct Hsame as (Hrc & Hgn & Hu & Ha & Hcl). simpl.
    unfold open in *. split; congruence.
Qed.

Lemma server_ok_set_db s w : server_ok s → world_ok w → server_ok (set_db s w).
Proof. intros (_ & Hc & Hg & Hq) Hw. by split. Qed.

Lemma server_ok_logged s tag e : server_ok s → server_ok (logged tag e s).
Proof. intros Hs. apply server_ok_set_db; [done|]. by apply world_ok_set_log, server_ok_world. Qed.

Lemma same_socket_push frame c : same_socket c (push frame c).
Proof. done. Qed.

Lemma server_ok_reply s self frame : server_ok s → server_ok (reply self frame s).
Proof.
  intros Hs. apply (server_ok_frames s); [done..|]. intros channel.
  unfold reply. cbn [consumers set_consumers].
  destruct (decide (self = channel)) as [->|Hne].
  - rewrite lookup_alter_eq. destruct (consumers s !! channel); by constructor.
  - rewrite lookup_alter_ne by done. destruct (consumers s !! channel); by constructor.
Qed.

Lemma lookup_broadcast s group message channel :
  consumers (broadcast group message s) !! channel =
    (λ c, if decide (channel ∈ members s group) then push message c else c)
      <$> consumers s !! channel.
Proof.
  unfold broadcast. cbn [consumers set_consumers]. rewrite map_lookup_imap.
  by destruct (consumers s !! channel).
Qed.

Lemma server_ok_broadcast s group message :
  server_ok s → server_ok (broadcast group message s).
Proof.
  intros Hs. apply (server_ok_frames s); [done..|]. intros channel.
  rewrite lookup_broadcast. destruct (consumers s !! channel); constructor.
  by case_decide.
Qed.

End invariant.

(** ** The steps of the handlers *)

Section steps.
Implicit Types (s : Server) (c : Consumer) (self group channel tag rc : string)
  (frame message : json) (w : World) (uid : Z).

Lemma method_ok_add_player w rc uid :
  world_ok w → method_ok (add_player_outcome w rc uid).
Proof.
  intros Hw. split; [|by apply world_ok_add_player_outcome].
  unfold add_player_outcome, is_event. repeat case_match; simpl; eauto.
Qed.

Lemma method_ok_make_move w rc uid position :
  world_ok w → method_ok (make_move_outcome w rc uid position).
Proof.
  intros Hw. split; [|by apply world_ok_make_move_outcome].
  unfold make_move_outcome, is_event. repeat case_match; simpl; eauto.
Qed.

(** [group_send] never fails: the layer takes the event. *)
Lemma run_group_send s group event :
  run (group_send group event) s = (Ok tt, queued group event s).
Proof. done. Qed.

(** A bound method runs on the room and the user of the instance. *)
Lemma run_bound s self c uid tag (method : string → Z → M (option json)) :
  consumers s !! self = Some c → self_user_id c = Some uid →
  run (bound self tag method) s =
    ((run (method (self_room_code c) uid) (db s)).1,
     set_db s (run (method (self_room_code c) uid) (db s)).2).
Proof.
  intros Hc Hu. unfold bound. erewrite run_bind_ok by (by apply run_instance).
  by rewrite run_database, Hu.
Qed.

(** [if game_state: group_send(group, game_state)]. *)
Lemma run_send_if_any s group game_state :
  run (send_if_any group game_state) s = (Ok tt, queued_any group game_state s).
Proof. by destruct game_state. Qed.

(** A bound method followed by the [group_send] of what it returned. *)
Lemma run_publish {A} s self c uid tag (method : string → Z → M (option json))
    group outcome (k : G A) :
  consumers s !! self = Some c → self_user_id c = Some uid →
  run (method (self_room_code c) uid) (db s) = outcome → method_ok outcome →
  run (game_state ← bound self tag method; send_if_any group game_state;; k) s =
    run k (submitted group outcome s).
Proof.
  intros Hc Hu Hrun [(game_state & Hr & _) _]. unfold submitted, returned.
  rewrite run_bind, (run_bound s self c uid), Hrun, Hr by done. cbn [fst snd].
  by rewrite run_bind, run_send_if_any.
Qed.

(** ** The events the layer holds *)

Lemma for_each_fmap {S A B : Type} (f : A → B) (g : B → ST S unit) (l : list A) :
  for_each (f <$> l) g = for_each l (λ x, g (f x)).
Proof. induction l as [|x l IH]; [done|]. rewrite fmap_cons. cbn [for_each]. by rewrite IH. Qed.

(** With no event held nothing is handled. *)
Lemma run_drain_quiet s : pending s = [] → run drain s = (Ok tt, s).
Proof.
  intros Hq. unfold drain. rewrite run_bind, run_get_store. cbv beta iota.
  rewrite run_bind, run_modify, Hq. cbv beta iota. destruct s. simpl in *. by subst.
Qed.

(** The events of one [group_send] are handled by the members of the
    group: each gets the message. *)
Lemma run_drain_queued s group message :
  server_ok s →
  run drain (queued group (game_message_event message) s) =
    (Ok tt, broadcast group message s).
Proof.
  intros Hs. pose proof (server_ok_quiet s Hs) as Hq.
  unfold drain. rewrite run_bind, run_get_store. cbv beta iota.
  rewrite run_bind, run_modify. cbv beta iota.
  replace (set_pending (queued _ _ s) []) with s by (destruct s; simpl in *; by subst).
  unfold queued. cbn [pending set_pending]. rewrite Hq, app_nil_l, for_each_fmap.
  cbn [fst snd]. rewrite run_for_each_deliver; last first.
  { intros channel Hin%elem_of_elements.
    destruct (server_ok_member s group channel Hs Hin) as (c & ? & ? & _). eauto. }
  f_equal. rewrite foldl_reply. unfold broadcast. f_equal. apply map_eq. intros channel.
  rewrite lookup_foldl_alter, map_lookup_imap by apply NoDup_elements.
  destruct (consumers s !! channel) as [c|]; [simpl|done].
  destruct (decide (channel ∈ members s group)).
  - by rewrite decide_True by by apply elem_of_elements.
  - by rewrite decide_False by by rewrite elem_of_elements.
Qed.

(** A database method, [group_send] of its event and the handling of
    the event by the members. *)
Lemma run_drain_submitted s group outcome :
  server_ok (set_db s outcome.2) → method_ok outcome →
  run drain (submitted group outcome s) = (Ok tt, published group outcome s).
Proof.
  intros Hs [(game_state & Hr & Hev) _]. unfold submitted, returned, published.
  rewrite Hr. destruct Hev as [->|[message ->]]; [by apply run_drain_quiet, server_ok_quiet|].
  by apply run_drain_queued.
Qed.

(** A handler and then the events it sent. *)
Lemma run_dispatch handler s r s' s'' :
  run handler s = (r, s') → run drain s' = (Ok tt, s'') →
  run (dispatch handler) s = (r, s'').
Proof. intros Hh Hd. unfold dispatch. cbn [run]. by rewrite Hh, Hd. Qed.

Lemma server_ok_published s group outcome :
  server_ok s → method_ok outcome → server_ok (published group outcome s).
Proof.
  intros Hs [_ Hw]. unfold published.
  repeat case_match; auto using server_ok_broadcast, server_ok_set_db.
Qed.

(** Publishing touches the frames sent and the tables, nothing else. *)
Lemma lookup_published s group outcome channel :
  option_Forall2 same_socket (consumers s !! channel)
                 (consumers (published group outcome s) !! channel).
Proof.
  unfold published. repeat case_match; try rewrite lookup_broadcast; simpl;
    destruct (consumers s !! channel); constructor; try done; by case_decide.
Qed.

Lemma published_socket s group outcome channel c :
  consumers s !! channel = Some c →
  ∃ c', consumers (published group outcome s) !! channel = Some c' ∧ same_socket c c'.
Proof.
  intros Hc. pose proof (lookup_published s group outcome channel) as Hl.
  rewrite Hc in Hl. inversion Hl as [? c' Hsame|]; subst. by exists c'.
Qed.

Lemma groups_published s group outcome : groups (published group outcome s) = groups s.
Proof. unfold published. by repeat case_match. Qed.

Lemma db_published s group outcome : db (published group outcome s) = outcome.2.
Proof. unfold published. by repeat case_match. Qed.

End steps.

(** ** [connect] *)

Section connect.
Context `{Libraries}.
Implicit Types (s : Server) (c : Consumer) (self group channel tag rc : string)
  (frame message : json) (w : World) (uid : Z).

Lemma members_insert s group (X : gset string) group' :
  members (set_groups s (<[group := X]> (groups s))) group' =
    if decide (group = group') then X else members s group'.
Proof.
  unfold members. cbn [groups set_groups]. case_decide as Heq.
  - subst. by rewrite lookup_insert_eq.
  - by rewrite lookup_insert_ne.
Qed.

Lemma members_admitted s self rc uid group :
  members (admitted self rc uid s) group =
    if decide (("game_" +:+ rc)%string = group)
    then {[self]} ∪ members s ("game_" +:+ rc) else members s group.
Proof. apply (members_insert s). Qed.

Lemma server_ok_admitted s self rc uid :
  server_ok s → consumers s !! self = None → server_ok (admitted self rc uid s).
Proof.
  intros Hs Hfresh. apply server_ok_intro; [| | |exact (server_ok_quiet s Hs)].
  - exact (server_ok_world s Hs).
  - intros channel c. cbn [admitted consumers].
    destruct (decide (self = channel)) as [->|Hne].
    + rewrite lookup_insert_eq. intros [= <-]. by split; [|eauto].
    + rewrite lookup_insert_ne by done. by apply server_ok_consumer.
  - intros group channel. rewrite members_admitted. unfold member_ok.
    cbn [admitted consumers]. destruct (decide (self = channel)) as [->|Hne].
    + rewrite lookup_insert_eq. simpl. case_decide as Hg; [done|].
      intros Hin. by apply server_ok_fresh with (group := group) in Hfresh.
    + rewrite lookup_insert_ne by done. intros Hin.
      assert (channel ∈ members s group) as Hin' by (case_decide; set_solver).
      destruct (server_ok_member s group channel Hs Hin') as (c & -> & ? & ?). done.
Qed.

Lemma server_ok_registered s self rc (closed0 : bool) :
  server_ok s → consumers s !! self = None →
  server_ok (set_consumers s
               (<[self := mkConsumer rc ("game_" +:+ rc) None false closed0 []]>
                  (consumers s))).
Proof.
  intros Hs Hfresh. apply server_ok_intro; [| | |exact (server_ok_quiet s Hs)].
  - exact (server_ok_world s Hs).
  - intros channel c. cbn [consumers set_consumers].
    destruct (decide (self = channel)) as [->|Hne].
    + rewrite lookup_insert_eq. by intros [= <-].
    + rewrite lookup_insert_ne by done. by apply server_ok_consumer.
  - intros group channel Hin. unfold member_ok. cbn [consumers set_consumers].
    destruct (server_ok_member s group channel Hs Hin) as (c & Hc & ? & ?).
    rewrite lookup_insert_ne by congruence. by rewrite Hc.
Qed.

(** The three statements between the token and the database. *)
Lemma run_admit {A} s self rc uid (k : G A) :
  run (update_self self (λ c, set_user_id c (Some uid));;
       group_add ("game_" +:+ rc) self;; accept self;; k) (registered self rc s) =
    run k (admitted self rc uid s).
Proof.
  unfold update_self, group_add, accept, update_self.
  do 3 (rewrite run_bind, run_modify; cbv beta iota). f_equal.
  unfold admitted, registered, set_consumers, set_groups, members. simpl.
  by rewrite !alter_insert_eq.
Qed.

(** The last step of [connect]: the snapshot to the new socket. *)
Lemma run_greet s self c :
  world_ok (db s) → consumers s !! self = Some c → open c = true →
  run (initial_state ← bound_get_game_state self;
       match initial_state with
       | Some state => send self state
       | None => mret tt
       end) s = (Ok tt, greeted self (self_room_code c) s).
Proof.
  intros Hs Hc Ho. unfold bound_get_game_state, greeted.
  rewrite run_bind. erewrite run_bind_ok by (by apply run_instance).
  rewrite run_database.
  destruct (games (db s) !! self_room_code c) as [g|] eqn:Hg.
  - erewrite run_get_game_state_Some by done.
    cbn [fst snd]. destruct s. by eapply run_send.
  - rewrite run_get_game_state_None by done. by destruct s.
Qed.

End connect.

Section connect_run.
Context `{Libraries}.
Implicit Types (s : Server) (c : Consumer) (self group channel tag rc : string)
  (frame message : json) (w : World) (uid : Z).

(** The [except] clauses of [connect] log and close. *)
Lemma run_connect_errors s self rc e :
  run (connect_errors self e) (registered self rc s) =
    (Ok tt, refused self rc (if isinstance e InvalidTokenError
                             then "JWT Token Error" else "Connection Error") e s).
Proof.
  unfold connect_errors, refused, registered.
  destruct (isinstance e InvalidTokenError);
    rewrite run_bind, run_log_error, run_close;
    unfold shut, logged, set_db, set_consumers; simpl; by rewrite alter_insert_eq.
Qed.

(** Sending the snapshot and sending the event to the group do not
    depend on each other. *)
Lemma greeted_submitted s self rc group outcome :
  greeted self rc (submitted group outcome s) =
    submitted group outcome (greeted self rc (set_db s outcome.2)).
Proof.
  unfold greeted, submitted, queued_any, queued.
  destruct (returned outcome); cbn [db set_db set_pending];
    by destruct (games outcome.2 !! rc).
Qed.

(** The [try] block of [connect] with a token that carries a user. *)
Lemma run_connect_body s self rc token uid :
  server_ok s → consumers s !! self = None → jwt_decode token = Ok (Some uid) →
  run (connect_body self ("game_" +:+ rc) token) (registered self rc s) =
    (Ok tt, connected_by submitted self rc uid s).
Proof.
  intros Hs Hfresh Hjwt. unfold connect_body, connected_by.
  rewrite run_bind, run_lift, Hjwt. cbv beta iota. rewrite run_bind, run_lift.
  rewrite run_admit. pose proof (server_ok_world s Hs) as Hw.
  assert (consumers (admitted self rc uid s) !! self =
          Some (mkConsumer rc ("game_" +:+ rc) (Some uid) true false [])) as Hc
    by apply lookup_insert_eq.
  erewrite (run_publish (admitted self rc uid s));
    [|exact Hc|done|by apply run_add_player_to_game|by apply method_ok_add_player].
  change (add_player_outcome (db (admitted self rc uid s)) _ uid)
    with (add_player_outcome (db s) rc uid).
  rewrite (run_greet _ self (mkConsumer rc ("game_" +:+ rc) (Some uid) true false [])).
  - by rewrite greeted_submitted.
  - unfold submitted. destruct (returned _); by apply world_ok_add_player_outcome.
  - unfold submitted. by destruct (returned _).
  - done.
Qed.

(** [connect] on a fresh socket, up to its last statement. *)
Lemma run_connect s self rc query_string :
  server_ok s → consumers s !! self = None →
  run (connect self rc query_string) s = connect_result submitted self rc query_string s.
Proof.
  intros Hs Hfresh. unfold connect, connect_result.
  rewrite run_bind, run_modify. cbv beta iota. fold (registered self rc s).
  rewrite run_bind, run_lift. destruct (token_of query_string) as [e|token]; [done|].
  destruct (jwt_decode token) as [e|[uid|]] eqn:Hjwt.
  - erewrite run_try_raise by (unfold connect_body; by rewrite run_bind, run_lift, Hjwt).
    rewrite run_connect_errors. by rewrite (jwt_decode_raises _ _ Hjwt).
  - by erewrite run_try_ok by (by apply run_connect_body).
  - erewrite run_try_raise with (e := KeyError); [by rewrite run_connect_errors|].
    unfold connect_body. rewrite run_bind, run_lift, Hjwt. cbv beta iota.
    by rewrite run_bind, run_lift.
Qed.

End connect_run.

(** ** [receive] and [disconnect] *)

Section receive_run.
Context `{Libraries}.
Implicit Types (s : Server) (c : Consumer) (self group channel tag rc : string)
  (frame message : json) (w : World) (uid : Z).

(** The [except] clauses of [receive] log and answer the sender. *)
Lemma run_receive_errors s self c e :
  consumers s !! self = Some c → open c = true →
  run (receive_errors self e) s = (Ok tt, complained self e s).
Proof.
  intros Hc Ho. unfold receive_errors, complained.
  destruct (isinstance e JSONDecodeError);
    rewrite run_bind, run_log_error; by eapply run_send.
Qed.

(** A dictionary answers [get] for every key. *)
Lemma dict_get_object data key v key' :
  dict_get data key = Ok v → ∃ v', dict_get data key' = Ok v'.
Proof. destruct data; simpl; try done. eauto. Qed.

(** The [try] block of [receive] on a frame that parses. *)
Lemma run_receive_body s self c text_data :
  server_ok s → consumers s !! self = Some c → open c = true →
  run (receive_body self text_data) s =
    match request text_data with
    | Raise e => (Raise e, s)
    | Ok _ => (Ok tt, received_by submitted self text_data s)
    end.
Proof.
  intros Hs Hc Ho. unfold receive_body, received_by, request.
  rewrite run_bind, run_lift. destruct (json_loads text_data) as [e|data]; [done|].
  cbn [mbind Result_bind]. rewrite run_bind, run_lift.
  destruct (dict_get data "action") as [e|action] eqn:Ha; [done|].
  cbn [mbind Result_bind]. cbv beta iota.
  destruct (eq_str action "make_move"); [|done].
  destruct (dict_get_object _ _ _ "position" Ha) as [position Hp].
  rewrite run_bind, run_lift, Hp. cbn [fmap Result_fmap]. cbv beta iota. rewrite Hc.
  destruct (server_ok_user s self c Hs Hc Ho) as [uid Hu]. rewrite Hu.
  pose proof (server_ok_world s Hs) as Hw.
  pose proof (method_ok_make_move (db s) (self_room_code c) uid position Hw)
    as [(game_state & Hr & Hev) Hw'].
  rewrite run_bind, (run_bound s self c uid), run_make_move, Hr by done.
  cbn [fst snd]. unfold submitted, returned. rewrite Hr.
  destruct game_state as [event|]; [|done].
  by erewrite run_bind_ok by (by apply run_instance).
Qed.

(** [receive] on an open socket, up to its last statement. *)
Lemma run_receive s self c text_data :
  server_ok s → consumers s !! self = Some c → open c = true →
  run (receive self text_data) s = (Ok tt, received_by submitted self text_data s).
Proof.
  intros Hs Hc Ho. unfold receive.
  pose proof (run_receive_body s self c text_data Hs Hc Ho) as Hbody.
  unfold received_by in *. destruct (request text_data) as [e|r].
  - erewrite run_try_raise by exact Hbody. by eapply run_receive_errors.
  - by erewrite run_try_ok by exact Hbody.
Qed.

(** The framework's handling of a socket that is gone. *)
Lemma run_disconnect s self c :
  consumers s !! self = Some c →
  run (disconnect self;; close self) s = (Ok tt, departed self s).
Proof.
  intros Hc. unfold departed. rewrite Hc. unfold disconnect.
  erewrite run_bind_ok; [by rewrite run_close|].
  apply run_try_ok. by erewrite run_bind_ok by (by apply run_instance).
Qed.

End receive_run.

(** ** Every event keeps the invariant *)

Section preservation.
Context `{Libraries}.
Implicit Types (s : Server) (c : Consumer) (self group channel tag rc : string)
  (frame message : json) (w : World) (uid : Z) (ev : event) (evs : list event).

Lemma server_ok_refused s self rc tag e :
  server_ok s → consumers s !! self = None → server_ok (refused self rc tag e s).
Proof. intros Hs Hfresh. by apply server_ok_logged, server_ok_registered. Qed.

Lemma server_ok_greeted s self rc : server_ok s → server_ok (greeted self rc s).
Proof. intros Hs. unfold greeted. case_match; [by apply server_ok_reply|done]. Qed.

(** The server when [connect] has sent the snapshot. *)
Lemma server_ok_greeting s self rc uid :
  server_ok s → consumers s !! self = None →
  server_ok (greeted self rc (set_db (admitted self rc uid s)
                                     (add_player_outcome (db s) rc uid).2)).
Proof.
  intros Hs Hfresh. apply server_ok_greeted, server_ok_set_db.
  - by apply server_ok_admitted.
  - apply world_ok_add_player_outcome, (server_ok_world s Hs).
Qed.

Lemma server_ok_connected s self rc uid :
  server_ok s → consumers s !! self = None → server_ok (connected self rc uid s).
Proof.
  intros Hs Hfresh. apply server_ok_published; [by apply server_ok_greeting|].
  apply method_ok_add_player, (server_ok_world s Hs).
Qed.

Lemma server_ok_connect_outcome s self rc query_string :
  server_ok s → consumers s !! self = None →
  server_ok (connect_outcome self rc query_string s).2.
Proof.
  intros Hs Hfresh. unfold connect_outcome, connect_result.
  repeat case_match; cbn [snd];
    [apply (server_ok_registered s self rc false)|apply server_ok_refused
    |apply server_ok_connected|apply server_ok_refused]; done.
Qed.

Lemma server_ok_complained s self e : server_ok s → server_ok (complained self e s).
Proof.
  intros Hs. unfold complained.
  case_match; by apply server_ok_reply, server_ok_logged.
Qed.

Lemma server_ok_received s self text_data :
  server_ok s → server_ok (received self text_data s).
Proof.
  intros Hs. unfold received, received_by. repeat case_match; try done.
  - by apply server_ok_complained.
  - apply server_ok_published; [done|]. apply method_ok_make_move, (server_ok_world s Hs).
Qed.

Lemma server_ok_departed s self : server_ok s → server_ok (departed self s).
Proof.
  intros Hs. unfold departed. destruct (consumers s !! self) as [c|] eqn:Hc; [|done].
  apply server_ok_intro; [| | |exact (server_ok_quiet s Hs)].
  - exact (server_ok_world s Hs).
  - intros channel c'. cbn [shut consumers set_consumers set_groups].
    destruct (decide (self = channel)) as [<-|Hne].
    + rewrite lookup_alter_eq, Hc. intros [= <-].
      by destruct (server_ok_consumer s self c Hs Hc).
    + rewrite lookup_alter_ne by done. by apply server_ok_consumer.
  - intros group channel. unfold shut.
    change (members (set_consumers ?s' _) group) with (members s' group).
    rewrite members_insert. intros Hin.
    assert (channel ∈ members s group ∧ channel ≠ self) as [Hin' Hne].
    { case_decide as Hg; [set_solver|]. split; [done|]. intros ->.
      destruct (server_ok_member s group self Hs Hin) as (c' & ? & _ & ?).
      congruence. }
    destruct (server_ok_member s group channel Hs Hin') as (c' & Hc' & ? & ?).
    unfold member_ok. cbn [consumers set_consumers set_groups].
    by rewrite lookup_alter_ne, Hc' by done.
Qed.

(** The members of the group handle the event of [connect]. *)
Lemma run_drain_connect s self rc query_string :
  server_ok s → consumers s !! self = None →
  run drain (connect_result submitted self rc query_string s).2 =
    (Ok tt, (connect_outcome self rc query_string s).2).
Proof.
  intros Hs Hfresh. unfold connect_outcome, connect_result.
  repeat case_match; cbn [snd].
  - apply run_drain_quiet, (server_ok_quiet s Hs).
  - apply run_drain_quiet, (server_ok_quiet s Hs).
  - apply run_drain_submitted; [|apply method_ok_add_player, (server_ok_world s Hs)].
    apply server_ok_set_db; [by apply server_ok_greeting|].
    apply world_ok_add_player_outcome, (server_ok_world s Hs).
  - apply run_drain_quiet, (server_ok_quiet s Hs).
Qed.

(** The members of the group handle the event of [receive]. *)
Lemma run_drain_received s self text_data :
  server_ok s →
  run drain (received_by submitted self text_data s) = (Ok tt, received self text_data s).
Proof.
  intros Hs. pose proof (server_ok_quiet s Hs) as Hq.
  unfold received, received_by.
  repeat case_match; try by apply run_drain_quiet.
  - by apply run_drain_quiet, server_ok_quiet, server_ok_complained.
  - apply run_drain_submitted; [|apply method_ok_make_move, (server_ok_world s Hs)].
    apply server_ok_set_db; [done|].
    apply world_ok_make_move_outcome, (server_ok_world s Hs).
Qed.

(** What the handler of an enabled event returns and the server once
    the events it sent are handled. *)
Lemma run_handle s ev :
  server_ok s → enabled ev s →
  run (handle ev) s =
    match ev with
    | Connect self rc query_string => connect_outcome self rc query_string s
    | Receive self text_data => (Ok tt, received self text_data s)
    | Disconnect self => (Ok tt, departed self s)
    end.
Proof.
  intros Hs Hen. destruct ev as [self rc q|self text_data|self]; cbn [enabled] in Hen.
  - unfold handle, dispatch. cbn [run]. rewrite run_connect by done.
    rewrite (surjective_pairing (connect_result submitted self rc q s)).
    rewrite run_drain_connect by done. unfold connect_outcome, connect_result.
    by repeat case_match.
  - destruct (consumers s !! self) as [c|] eqn:Hc; [|done].
    eapply run_dispatch; [by eapply run_receive|by apply run_drain_received].
  - destruct Hen as [c Hc]. eapply run_dispatch; [by eapply run_disconnect|].
    by apply run_drain_quiet, server_ok_quiet, server_ok_departed.
Qed.

(** The server after an enabled event. *)
Lemma next_enabled s ev :
  server_ok s → enabled ev s →
  next ev s =
    match ev with
    | Connect self rc query_string => (connect_outcome self rc query_string s).2
    | Receive self text_data => received self text_data s
    | Disconnect self => departed self s
    end.
Proof. intros Hs Hen. unfold next. rewrite run_handle by done. by destruct ev. Qed.

Lemma next_ok s ev : server_ok s → enabled ev s → server_ok (next ev s).
Proof.
  intros Hs Hen. rewrite next_enabled by done. destruct ev.
  - by apply server_ok_connect_outcome.
  - by apply server_ok_received.
  - by apply server_ok_departed.
Qed.

Lemma next_all_ok evs s : server_ok s → feasible evs s → server_ok (next_all evs s).
Proof.
  revert s. induction evs as [|ev evs IH]; intros s Hs; [done|].
  intros [Hen Hrest]. apply IH; [by apply next_ok|done].
Qed.

End preservation.

(** ** The theorems at work *)

Lemma token_of_query_of_witness :
  token_of (query_of [("lang", "en"); ("token", "old"); ("token", "alice.jwt")]%string) =
    Ok (default EmptyString
          (snd <$> last (filter (λ kv, kv.1 = "token"%string)
                           [("lang", "en"); ("token", "old"); ("token", "alice.jwt")]%string))).
Proof.
  apply (token_of_query_of [("lang", "en"); ("token", "old"); ("token", "alice.jwt")]%string);
    by_compute.
Defined.
