(* ===== verification/Sessions.v ===== *)
(** * Sessions: what the players see

    The theorems of the gateway, stated on the frames each socket
    receives.  An event of the server (a socket connecting, a text
    frame, a socket gone) announces at most one message to one group;
    every other effect on the sockets is a frame to the socket of the
    event itself.  From that: who receives what after a move or a
    join, that a rejected move is answered with silence, that rooms do
    not hear each other, and that a closed socket receives nothing. *)

From stdpp Require Import base option list gmap strings.
From Stdlib Require Import Ascii.
From S2P Require Import Prelude Monad Json Board Models Wellformed Consumers Preservation Gateway.

#[local] Set Warnings "-clear-no-such-hyp".

(** The socket of an event. *)
Definition socket_of (ev : event) : string :=
  match ev with
  | Connect self _ _ | Receive self _ | Disconnect self => self
  end.

(** The message in what a database method returned. *)
Definition event_message (r : Result (option json)) : option json :=
  match r with
  | Ok game_state => message_of game_state
  | Raise _ => None
  end.

(** The group an event speaks to and the message it gets: the
    [player_joined] of a connection that joins the game, the
    [move_made] or [game_over] of an accepted move. *)
Definition announcement `{Libraries} (ev : event) (s : Server) : option (string * json) :=
  match ev with
  | Connect self rc query_string =>
      match token_of query_string ≫= jwt_decode with
      | Ok (Some uid) =>
          pair ("game_" +:+ rc)%string
            <$> event_message (add_player_outcome (db s) rc uid).1
      | Ok None | Raise _ => None
      end
  | Receive self text_data =>
      match request text_data, consumers s !! self with
      | Ok (Some position), Some c =>
          uid ← self_user_id c;
          pair (self_room_group_name c)
            <$> event_message (make_move_outcome (db s) (self_room_code c) uid position).1
      | _, _ => None
      end
  | Disconnect _ => None
  end.

(** The room of an event: the room of the route for a connection, the
    room of the instance otherwise. *)
Definition room_of (ev : event) (s : Server) : option string :=
  match ev with
  | Connect _ rc _ => Some rc
  | Receive self _ | Disconnect self => self_room_code <$> consumers s !! self
  end.

(** The frames a socket has after an event and had not before. *)
Definition new_frames (s s' : Server) (channel : string) : list json :=
  match consumers s !! channel, consumers s' !! channel with
  | Some c, Some c' => drop (length (sent c)) (sent c')
  | _, _ => []
  end.

(** ** The examples

    Alice has connected to the room she created; then bob has, and the
    game is in progress; then bob is gone. *)
Definition alice_waiting : Server :=
  next (Connect "ch.alice" room "token=alice.jwt") quiet_server.
Definition playing : Server := next_all both_connected quiet_server.
Definition bob_gone : Server := next (Disconnect "ch.bob") playing.

(** Carol connects to the room of alice and bob while they play. *)
Definition watched : Server := next (Connect "ch.carol" room "token=carol.jwt") playing.

(** The instance of a socket of the examples. *)
Definition socket (s : Server) (channel : string) : Consumer :=
  default (mkConsumer "" "" None false false []) (consumers s !! channel).

(** ** The sockets after an event *)

Section frames.
Context `{Libraries}.
Implicit Types (s : Server) (c : Consumer) (self group channel rc : string)
  (frame message : json) (uid : Z) (ev : event) (evs : list event).

Lemma lookup_reply s self frame channel :
  consumers (reply self frame s) !! channel =
    if decide (self = channel) then push frame <$> consumers s !! channel
    else consumers s !! channel.
Proof.
  unfold reply. cbn [consumers set_consumers]. case_decide as Heq.
  - subst. apply lookup_alter_eq.
  - by apply lookup_alter_ne.
Qed.

Lemma lookup_shut s self channel :
  consumers (shut self s) !! channel =
    if decide (self = channel) then set_closed <$> consumers s !! channel
    else consumers s !! channel.
Proof.
  unfold shut. cbn [consumers set_consumers]. case_decide as Heq.
  - subst. apply lookup_alter_eq.
  - by apply lookup_alter_ne.
Qed.

(** The sockets after a method has run and its event is delivered. *)
Lemma consumers_published s group outcome channel :
  consumers (published group outcome s) !! channel =
    match event_message outcome.1 with
    | Some message =>
        if decide (channel ∈ members s group)
        then push message <$> consumers s !! channel
        else consumers s !! channel
    | None => consumers s !! channel
    end.
Proof.
  unfold published, event_message. destruct outcome.1 as [e|game_state]; [done|].
  destruct (message_of game_state) as [message|]; [|done].
  rewrite lookup_broadcast.
  change (members (set_db s outcome.2) group) with (members s group).
  change (consumers (set_db s outcome.2)) with (consumers s).
  case_decide; [done|]. by destruct (consumers s !! channel).
Qed.

(** The snapshot goes to one socket and changes nothing else. *)
Lemma lookup_greeted s self rc channel :
  consumers (greeted self rc s) !! channel =
    match games (db s) !! rc with
    | Some g =>
        if decide (self = channel)
        then push (game_state_message g) <$> consumers s !! channel
        else consumers s !! channel
    | None => consumers s !! channel
    end.
Proof. unfold greeted. case_match; [|done]. apply lookup_reply. Qed.

Lemma members_greeted s self rc group : members (greeted self rc s) group = members s group.
Proof. unfold greeted. by case_match. Qed.

Lemma db_greeted s self rc : db (greeted self rc s) = db s.
Proof. unfold greeted. by case_match. Qed.

(** What an event does to the sockets other than its own: the
    announced message reaches the members of the announced group. *)
Lemma next_other s ev channel :
  server_ok s → enabled ev s → channel ≠ socket_of ev →
  consumers (next ev s) !! channel =
    match announcement ev s with
    | Some (group, message) =>
        if decide (channel ∈ members s group)
        then push message <$> consumers s !! channel
        else consumers s !! channel
    | None => consumers s !! channel
    end.
Proof.
  intros Hs Hen Hne. rewrite next_enabled by done.
  destruct ev as [self rc q|self text_data|self]; cbn [socket_of] in Hne.
  - unfold connect_outcome, connect_result, announcement.
    destruct (token_of q) as [e|token]; cbn [mbind Result_bind snd];
      [by apply lookup_insert_ne|].
    destruct (jwt_decode token) as [e|[uid|]]; cbn [snd];
      [by apply lookup_insert_ne| |by apply lookup_insert_ne].
    unfold connected_by. rewrite consumers_published, members_greeted, lookup_greeted.
    change (members (set_db ?s' _) ?g) with (members s' g).
    rewrite members_admitted, decide_True by done.
    assert (consumers (set_db (admitted self rc uid s) (add_player_outcome (db s) rc uid).2)
              !! channel = consumers s !! channel) as -> by by apply lookup_insert_ne.
    destruct (event_message _), (games _ !! rc); simpl;
      rewrite ?(decide_False (P := self = channel)) by done; try done;
      destruct (decide (channel ∈ members s _));
      by rewrite ?decide_True, ?decide_False by set_solver.
  - unfold received, received_by, announcement. cbn [enabled] in Hen.
    destruct (request text_data) as [e|[position|]]; [| |done].
    + unfold complained. by case_match; rewrite lookup_reply, decide_False by done.
    + destruct (consumers s !! self) as [c|]; [|done].
      destruct (self_user_id c) as [uid|]; [|done]. cbn [mbind option_bind].
      rewrite consumers_published. by destruct (event_message _).
  - unfold departed, announcement. case_match; [|done].
    by rewrite lookup_shut, decide_False by done.
Qed.

End frames.

(** ** Connecting *)

Section connecting.
Context `{Libraries}.
Implicit Types (s : Server) (c : Consumer) (self group channel rc : string)
  (frame message : json) (uid : Z) (ev : event) (evs : list event) (g : Game) (u : User).

(** C7: whatever sockets connect, send frames and go, in whatever
    order, the database stays well formed and every member of every
    group is an accepted socket that is not closed, knows its user, and
    sits in the group named after its own room. *)
Theorem reachable_ok evs s :
  server_ok s → feasible evs s →
  world_ok (db (next_all evs s)) ∧
  ∀ group channel, channel ∈ members (next_all evs s) group →
    ∃ c uid, consumers (next_all evs s) !! channel = Some c ∧ open c = true ∧
             self_user_id c = Some uid ∧
             group = ("game_" +:+ self_room_code c)%string.
Proof.
  intros Hs Hevs. pose proof (next_all_ok evs s Hs Hevs) as Hs'.
  split; [by apply server_ok_world|]. intros group channel Hin.
  destruct (server_ok_member _ group channel Hs' Hin) as (c & Hc & Ho & Hg).
  destruct (server_ok_user _ channel c Hs' Hc Ho) as [uid Hu].
  destruct (server_ok_consumer _ channel c Hs' Hc) as [Hname _].
  exists c, uid. repeat split; congruence.
Qed.

(** [connect] with a token that verifies and carries a user: the
    instance records the user, joins the group of the room and is
    accepted; [add_player_to_game] runs and its event, if any, is sent
    to the group; the snapshot of the room, if the room exists, goes
    to the new socket; the members of the group, the new socket among
    them, then handle the event. *)
Theorem connect_admits s self rc query_string token uid :
  server_ok s → consumers s !! self = None →
  token_of query_string = Ok token → jwt_decode token = Ok (Some uid) →
  run (handle (Connect self rc query_string)) s = (Ok tt, connected self rc uid s).
Proof.
  intros Hs Hfresh Htoken Hjwt. rewrite run_handle by done.
  unfold connect_outcome, connect_result. by rewrite Htoken, Hjwt.
Qed.

(** C30: a token that does not verify: the socket is closed without
    having been accepted, it joins no group, no method of the database
    runs, and one line is logged. *)
Theorem connect_invalid_token s self rc query_string token e :
  server_ok s → consumers s !! self = None →
  token_of query_string = Ok token → jwt_decode token = Raise e →
  run (handle (Connect self rc query_string)) s =
    (Ok tt, mkServer (set_log (db s) (log (db s) ++ [("JWT Token Error"%string, InvalidTokenError)]))
                     (groups s)
                     (<[self := mkConsumer rc ("game_" +:+ rc) None false true []]>
                        (consumers s))
                     []).
Proof.
  intros Hs Hfresh Htoken Hjwt. rewrite run_handle by done.
  unfold connect_outcome, connect_result. rewrite Htoken, Hjwt.
  rewrite (jwt_decode_raises _ _ Hjwt). unfold refused, logged, set_db, set_consumers.
  cbn [db groups consumers pending]. by rewrite (server_ok_quiet s Hs).
Qed.

(** C40: a query string that [dict] cannot take, the empty one
    included, makes [connect] raise [ValueError] before its [try]: the
    handler neither accepts nor closes the socket. *)
Theorem connect_malformed_query s self rc query_string e :
  token_of query_string = Raise e →
  run (connect self rc query_string) s = (Raise ValueError, registered self rc s).
Proof.
  intros Htoken. unfold connect. rewrite run_bind, run_modify. cbv beta iota.
  rewrite run_bind, run_lift, Htoken. by rewrite (token_of_raises _ _ Htoken).
Qed.

(** C33: a room code with no game: the socket is accepted, joins the
    group of that code and stays open; nothing is sent to it and the
    database is not touched. *)
Theorem connect_unknown_room s self rc query_string token uid :
  server_ok s → consumers s !! self = None →
  token_of query_string = Ok token → jwt_decode token = Ok (Some uid) →
  games (db s) !! rc = None →
  next (Connect self rc query_string) s = admitted self rc uid s ∧
  consumers (admitted self rc uid s) !! self =
    Some (mkConsumer rc ("game_" +:+ rc) (Some uid) true false []) ∧
  self ∈ members (admitted self rc uid s) ("game_" +:+ rc).
Proof.
  intros Hs Hfresh Htoken Hjwt Hg. split; [|split].
  - rewrite next_enabled by done. unfold connect_outcome, connect_result.
    rewrite Htoken, Hjwt. cbn [snd]. unfold connected_by, add_player_outcome, greeted.
    rewrite Hg. cbn [published fst snd message_of mbind option_bind].
    cbn [set_db db admitted games]. rewrite Hg. by destruct s.
  - apply lookup_insert_eq.
  - rewrite members_admitted, decide_True by done. set_solver.
Qed.

End connecting.

(** ** Joining, moving, leaving *)

Section playing.
Context `{Libraries}.
Implicit Types (s : Server) (c : Consumer) (self group channel rc : string)
  (frame message position : json) (uid : Z) (ev : event) (evs : list event)
  (g : Game) (u : User).

(** A text frame on an open socket. *)
Lemma run_handle_receive s self c text_data :
  server_ok s → consumers s !! self = Some c → open c = true →
  run (handle (Receive self text_data)) s = (Ok tt, received self text_data s).
Proof.
  intros Hs Hc Ho. rewrite run_handle; [done..|]. cbn [enabled]. by rewrite Hc.
Qed.

(** C22: the connection that makes its user the second player: the row
    becomes IN_PROGRESS with the turn given to player 1, every socket
    already in the group of the room gets [player_joined], and the new
    socket gets the snapshot of the room as joined and then
    [player_joined], which its own handler sent before the snapshot
    and its consumer handles after; no other socket gets anything. *)
Theorem second_player_joins s self rc query_string token uid g u :
  server_ok s → consumers s !! self = None →
  token_of query_string = Ok token → jwt_decode token = Ok (Some uid) →
  games (db s) !! rc = Some g → users (db s) !! uid = Some u → joins g uid = true →
  let s' := next (Connect self rc query_string) s in
  let notice := player_joined_message None None (joined g uid) in
  games (db s') !! rc = Some (joined g uid) ∧
  consumers s' !! self =
    Some (mkConsumer rc ("game_" +:+ rc) (Some uid) true false
            [game_state_message (joined g uid); notice]) ∧
  ∀ channel c, consumers s !! channel = Some c →
    consumers s' !! channel =
      Some (if decide (channel ∈ members s ("game_" +:+ rc)) then push notice c else c).
Proof.
  intros Hs Hfresh Htoken Hjwt Hg Hu Hj s' notice.
  pose proof (world_ok_room_code _ _ _ (server_ok_world s Hs) Hg) as Hrc.
  assert (add_player_outcome (db s) rc uid =
          (Ok (Some (game_message_event notice)),
           set_games (db s) (<[rc := joined g uid]> (games (db s))))) as Hout.
  { unfold add_player_outcome. by rewrite Hg, Hu, Hj, Hrc. }
  split; [|split].
  - unfold s'. rewrite next_enabled by done. unfold connect_outcome, connect_result.
    rewrite Htoken, Hjwt. cbn [snd]. unfold connected_by.
    rewrite db_published, Hout. cbn [snd games set_games]. apply lookup_insert_eq.
  - unfold s'. rewrite next_enabled by done. unfold connect_outcome, connect_result.
    rewrite Htoken, Hjwt. cbn [snd]. unfold connected_by.
    rewrite consumers_published, members_greeted, lookup_greeted, Hout.
    cbn [fst snd event_message message_of mbind option_bind db set_db games set_games].
    change (entry (game_message_event notice) "message") with (Some notice).
    cbv beta iota. rewrite lookup_insert_eq, (decide_True (P := self = self)) by done.
    change (members (set_db ?s' _) ?g) with (members s' g).
    rewrite members_admitted, (decide_True (P := _ = _)) by done.
    rewrite decide_True by set_solver.
    cbn [admitted consumers set_db]. by rewrite lookup_insert_eq.
  - intros channel c Hc. unfold s'. rewrite next_other; [|done..|]; last first.
    { cbn [socket_of]. congruence. }
    cbn [announcement]. rewrite Htoken. cbn [mbind Result_bind]. rewrite Hjwt, Hout.
    cbn [fst event_message message_of mbind option_bind].
    change (entry (game_message_event notice) "message") with (Some notice).
    cbn [fmap option_fmap option_map]. rewrite Hc. by case_decide.
Qed.

(** C8: a move the guard accepts: the move is recorded and the row
    updated as [make_move] does, and every socket in the group of the
    room, the sender among them, gets the one message of the move;
    the sockets outside the group get nothing. *)
Theorem receive_accepted_move s self c uid text_data position g u i :
  server_ok s → consumers s !! self = Some c → open c = true →
  self_user_id c = Some uid → request text_data = Ok (Some position) →
  games (db s) !! self_room_code c = Some g → users (db s) !! uid = Some u →
  accepts g uid position = Some i →
  run (handle (Receive self text_data)) s =
    (Ok tt, broadcast (self_room_group_name c) (move_message g uid position i)
              (set_db s (record_move (db s) g uid i))).
Proof.
  intros Hs Hc Ho Hu Hreq Hg Hus Hacc. erewrite run_handle_receive by done.
  unfold received, received_by. rewrite Hreq, Hc, Hu. unfold published, make_move_outcome.
  by rewrite Hg, Hus, Hacc.
Qed.

(** C31: a move the guard rejects is answered with silence: no socket
    gets a frame, the sender included; the tables are as they were,
    and the log has one more line when the position was not a
    number. *)
Theorem receive_rejected_move s self c uid text_data position g u :
  server_ok s → consumers s !! self = Some c → open c = true →
  self_user_id c = Some uid → request text_data = Ok (Some position) →
  games (db s) !! self_room_code c = Some g → users (db s) !! uid = Some u →
  accepts g uid position = None →
  run (handle (Receive self text_data)) s =
    (Ok tt, set_db s (rejection_world (db s) g uid position)).
Proof.
  intros Hs Hc Ho Hu Hreq Hg Hus Hacc. erewrite run_handle_receive by done.
  unfold received, received_by. rewrite Hreq, Hc, Hu. unfold published, make_move_outcome.
  by rewrite Hg, Hus, Hacc.
Qed.

(** C32: a frame that is not JSON: the sender, and nobody else, gets
    the frame [{"error": "Invalid JSON format"}], and the error is
    logged; the socket stays open. *)
Theorem receive_invalid_json s self c text_data e :
  server_ok s → consumers s !! self = Some c → open c = true →
  json_loads text_data = Raise e →
  run (handle (Receive self text_data)) s =
    (Ok tt, reply self (error_frame "Invalid JSON format")
              (logged "JSON Decode Error" JSONDecodeError s)).
Proof.
  intros Hs Hc Ho Hjson. erewrite run_handle_receive by done.
  unfold received, received_by, request. rewrite Hjson. cbn [mbind Result_bind].
  by rewrite (json_loads_raises _ _ Hjson).
Qed.

(** A frame that is JSON and not an object (a list, a number, a
    string, [null]): [data.get] raises [AttributeError] and the sender
    gets [{"error": "Internal server error"}]. *)
Theorem receive_not_an_object s self c text_data data :
  server_ok s → consumers s !! self = Some c → open c = true →
  json_loads text_data = Ok data → (∀ kv, data ≠ JObj kv) →
  run (handle (Receive self text_data)) s =
    (Ok tt, reply self (error_frame "Internal server error")
              (logged "Receive Error" AttributeError s)).
Proof.
  intros Hs Hc Ho Hjson Hobj. erewrite run_handle_receive by done.
  unfold received, received_by, request. rewrite Hjson. cbn [mbind Result_bind].
  by destruct data; [..|destruct (Hobj kv)].
Qed.

(** An object whose [action] is not [make_move], or that has no
    [action]: nothing happens at all; no frame, no log line. *)
Theorem receive_other_action s self c text_data kv :
  server_ok s → consumers s !! self = Some c → open c = true →
  json_loads text_data = Ok (JObj kv) →
  items_get kv "action" ≠ Some (JStr "make_move") →
  run (handle (Receive self text_data)) s = (Ok tt, s).
Proof.
  intros Hs Hc Ho Hjson Hact. erewrite run_handle_receive by done.
  unfold received, received_by, request. rewrite Hjson. cbn [mbind Result_bind dict_get].
  destruct (items_get kv "action") as [[]|]; simpl; try done.
  case_bool_decide; [congruence|done].
Qed.

End playing.

(** ** Rooms and sockets do not interfere *)

Section isolation.
Context `{Libraries}.
Implicit Types (s : Server) (c : Consumer) (self group channel rc : string)
  (frame message position : json) (uid : Z) (ev : event) (evs : list event)
  (g : Game) (u : User) (w : World).

Lemma group_name_inj rc rc' : ("game_" +:+ rc)%string = ("game_" +:+ rc')%string → rc = rc'.
Proof. by intros [=]. Qed.

(** The two methods that write touch the row of their room only. *)
Lemma games_add_player_outcome w rc uid rc' :
  world_ok w → rc' ≠ rc → games (add_player_outcome w rc uid).2 !! rc' = games w !! rc'.
Proof.
  intros Hw Hne. unfold add_player_outcome.
  destruct (games w !! rc) as [g|] eqn:Hg; [|done].
  repeat case_match; try done. cbn [snd games set_games].
  by rewrite (world_ok_room_code _ _ _ Hw Hg), lookup_insert_ne.
Qed.

Lemma games_make_move_outcome w rc uid position rc' :
  world_ok w → rc' ≠ rc →
  games (make_move_outcome w rc uid position).2 !! rc' = games w !! rc'.
Proof.
  intros Hw Hne. unfold make_move_outcome, rejection_world, record_move.
  destruct (games w !! rc) as [g|] eqn:Hg; [|done].
  repeat case_match; try done. cbn [snd games set_games].
  by rewrite (world_ok_room_code _ _ _ Hw Hg), lookup_insert_ne.
Qed.

(** The group of an announcement is the group of the room of the
    event. *)
Lemma announcement_group s ev group message rc :
  server_ok s → announcement ev s = Some (group, message) →
  room_of ev s = Some rc → group = ("game_" +:+ rc)%string.
Proof.
  intros Hs Hann Hroom. destruct ev as [self rc' q|self text_data|self];
    cbn [announcement room_of] in *; [| |done].
  - repeat case_match; simplify_option_eq; done.
  - destruct (consumers s !! self) as [c|] eqn:Hc; [|by repeat case_match].
    destruct (server_ok_consumer s self c Hs Hc) as [Hname _].
    repeat case_match; simplify_option_eq; congruence.
Qed.

(** The rows after an event, outside the room of the event. *)
Lemma games_next_other s ev rc rc' :
  server_ok s → enabled ev s → room_of ev s = Some rc → rc' ≠ rc →
  games (db (next ev s)) !! rc' = games (db s) !! rc'.
Proof.
  intros Hs Hen Hroom Hne. pose proof (server_ok_world s Hs) as Hw.
  rewrite next_enabled by done.
  destruct ev as [self rc0 q|self text_data|self]; cbn [room_of] in Hroom.
  - injection Hroom as ->. unfold connect_outcome, connect_result, connected_by.
    repeat case_match; cbn [snd reply db set_consumers]; rewrite ?db_published;
      try done; by apply games_add_player_outcome.
  - unfold received, received_by, complained.
    destruct (consumers s !! self) as [c|]; [|done].
    injection Hroom as <-.
    repeat case_match; cbn [reply db set_consumers]; rewrite ?db_published;
      try done; by apply games_make_move_outcome.
  - unfold departed. by case_match.
Qed.

End isolation.

Section interference.
Context `{Libraries}.
Implicit Types (s : Server) (c : Consumer) (self group channel rc : string)
  (frame message position : json) (uid : Z) (ev : event) (evs : list event)
  (g : Game) (u : User) (w : World).

(** A socket is in the group of its room and in no other. *)
Lemma member_room s group channel c :
  server_ok s → channel ∈ members s group → consumers s !! channel = Some c →
  group = ("game_" +:+ self_room_code c)%string.
Proof.
  intros Hs Hin Hc.
  destruct (server_ok_member s group channel Hs Hin) as (c' & Hc' & _ & Hg).
  destruct (server_ok_consumer s channel c Hs Hc). congruence.
Qed.

(** A socket that is not open is in no group. *)
Lemma closed_not_member s group channel c :
  server_ok s → consumers s !! channel = Some c → open c = false →
  channel ∉ members s group.
Proof.
  intros Hs Hc Ho Hin.
  destruct (server_ok_member s group channel Hs Hin) as (c' & Hc' & ? & _). congruence.
Qed.

Lemma new_frames_push s s' channel c message :
  consumers s !! channel = Some c → consumers s' !! channel = Some (push message c) →
  new_frames s s' channel = [message].
Proof. intros Hc Hc'. unfold new_frames. rewrite Hc, Hc'. apply drop_app_length. Qed.

Lemma new_frames_same s s' channel :
  consumers s' !! channel = consumers s !! channel → new_frames s s' channel = [].
Proof.
  intros Hc'. unfold new_frames. rewrite Hc'.
  destruct (consumers s !! channel); [apply drop_all|done].
Qed.

(** C36: an event in one room leaves every other room alone: the rows
    of the other rooms are as they were, and so are the sockets of the
    other rooms, which get no frame. *)
Theorem rooms_isolated s ev rc :
  server_ok s → enabled ev s → room_of ev s = Some rc →
  (∀ rc', rc' ≠ rc → games (db (next ev s)) !! rc' = games (db s) !! rc') ∧
  (∀ channel c, consumers s !! channel = Some c → self_room_code c ≠ rc →
     consumers (next ev s) !! channel = Some c).
Proof.
  intros Hs Hen Hroom. split; [intros rc' ?; by eapply games_next_other|].
  intros channel c Hc Hne.
  assert (channel ≠ socket_of ev) as Hsock.
  { intros ->. destruct ev; cbn [room_of socket_of enabled] in *;
      simplify_option_eq; congruence. }
  rewrite next_other by done.
  destruct (announcement ev s) as [[group message]|] eqn:Hann; [|done].
  rewrite decide_False; [done|]. intros Hin.
  pose proof (announcement_group s ev group message rc Hs Hann Hroom) as ->.
  by apply (member_room s _ channel c Hs) in Hin as ?%group_name_inj.
Qed.

(** The sockets of a room hear the same thing: two members of a
    group, neither of them the socket of the event, get the same
    frames from it. *)
Theorem members_same_frames s ev group channel1 channel2 :
  server_ok s → enabled ev s →
  channel1 ∈ members s group → channel2 ∈ members s group →
  channel1 ≠ socket_of ev → channel2 ≠ socket_of ev →
  new_frames s (next ev s) channel1 = new_frames s (next ev s) channel2.
Proof.
  intros Hs Hen Hin1 Hin2 Hne1 Hne2.
  destruct (server_ok_member s group channel1 Hs Hin1) as (c1 & Hc1 & _).
  destruct (server_ok_member s group channel2 Hs Hin2) as (c2 & Hc2 & _).
  pose proof (next_other s ev channel1 Hs Hen Hne1) as H1.
  pose proof (next_other s ev channel2 Hs Hen Hne2) as H2.
  destruct (announcement ev s) as [[group' message]|];
    [|by rewrite !new_frames_same].
  destruct (decide (group' = group)) as [->|Hg].
  - rewrite decide_True, Hc1 in H1 by done. rewrite decide_True, Hc2 in H2 by done.
    by rewrite (new_frames_push s _ channel1 c1 message),
      (new_frames_push s _ channel2 c2 message).
  - rewrite decide_False in H1; last first.
    { intros Hin. apply Hg. by rewrite (member_room s group' channel1 c1),
        (member_room s group channel1 c1). }
    rewrite decide_False in H2; last first.
    { intros Hin. apply Hg. by rewrite (member_room s group' channel2 c2),
        (member_room s group channel2 c2). }
    by rewrite !new_frames_same.
Qed.

(** A closed socket after one more event. *)
Lemma closed_step s ev channel c :
  server_ok s → enabled ev s → consumers s !! channel = Some c → closed c = true →
  ∃ c', consumers (next ev s) !! channel = Some c' ∧ sent c' = sent c ∧ closed c' = true.
Proof.
  intros Hs Hen Hc Hcl.
  assert (open c = false) as Ho by (unfold open; rewrite Hcl; apply andb_false_r).
  destruct (decide (channel = socket_of ev)) as [->|Hne].
  - destruct ev as [self ? ?|self ?|self]; cbn [socket_of enabled] in *.
    + congruence.
    + rewrite Hc in Hen. simpl in Hen. congruence.
    + rewrite next_enabled by done. unfold departed. rewrite Hc.
      rewrite lookup_shut, decide_True by done. cbn [consumers set_groups].
      rewrite Hc. by exists (set_closed c).
  - rewrite next_other by done. exists c.
    destruct (announcement ev s) as [[group message]|]; [|done].
    by rewrite decide_False by by eapply closed_not_member.
Qed.

(** A socket that is closed never receives a frame again, whatever
    happens on the server afterwards. *)
Theorem closed_socket_silent evs s channel c :
  server_ok s → feasible evs s → consumers s !! channel = Some c → closed c = true →
  ∃ c', consumers (next_all evs s) !! channel = Some c' ∧ sent c' = sent c.
Proof.
  revert s c. induction evs as [|ev evs IH]; intros s c Hs Hevs Hc Hcl; [by exists c|].
  destruct Hevs as [Hen Hevs].
  destruct (closed_step s ev channel c Hs Hen Hc Hcl) as (c1 & Hc1 & Hsent & Hcl1).
  destruct (IH (next ev s) c1) as (c' & Hc' & Hsent'); [by apply next_ok|done..|].
  exists c'. split; [done|congruence].
Qed.

(** C34: when a socket is gone it is taken out of the group of its room
    and closed; the database, the frames it was sent and every other
    socket are as they were. *)
Theorem disconnect_leaves s self c :
  server_ok s → consumers s !! self = Some c →
  run (handle (Disconnect self)) s =
    (Ok tt, mkServer (db s)
              (<[self_room_group_name c :=
                   members s (self_room_group_name c) ∖ {[self]}]> (groups s))
              (<[self := set_closed c]> (consumers s))
              []) ∧
  ∀ group, self ∉ members (next (Disconnect self) s) group.
Proof.
  intros Hs Hc. split.
  - rewrite run_handle by (done || by exists c). unfold departed, shut. rewrite Hc.
    unfold set_consumers, set_groups. cbn [db groups consumers pending].
    rewrite (server_ok_quiet s Hs). f_equal. f_equal.
    apply map_eq. intros channel. destruct (decide (self = channel)) as [<-|Hne].
    + by rewrite lookup_alter_eq, lookup_insert_eq, Hc.
    + by rewrite lookup_alter_ne, lookup_insert_ne.
  - intros group. apply (closed_not_member _ _ _ (set_closed c)).
    + apply next_ok; [done|]. by exists c.
    + rewrite next_enabled by (done || by exists c). unfold departed. rewrite Hc.
      rewrite lookup_shut, decide_True by done. cbn [consumers set_groups].
      by rewrite Hc.
    + unfold open. simpl. apply andb_false_r.
Qed.

End interference.

(** ** The theorems on the examples *)

Lemma reachable_ok_witness :
  world_ok (db (next_all both_connected quiet_server)) ∧
  ∀ group channel, channel ∈ members (next_all both_connected quiet_server) group →
    ∃ c uid, consumers (next_all both_connected quiet_server) !! channel = Some c ∧
             open c = true ∧ self_user_id c = Some uid ∧
             group = ("game_" +:+ self_room_code c)%string.
Proof. apply (reachable_ok both_connected quiet_server); by_compute. Defined.

Lemma connect_admits_witness :
  run (handle (Connect "ch.alice" room "token=alice.jwt")) quiet_server =
    (Ok tt, connected "ch.alice" room 1 quiet_server).
Proof.
  apply (connect_admits quiet_server "ch.alice" room "token=alice.jwt" "alice.jwt" 1);
    by_compute.
Defined.

Lemma connect_invalid_token_witness :
  (run (handle (Connect "ch.mallory" room "token=forged")) playing).1 = Ok tt.
Proof.
  by rewrite (connect_invalid_token playing "ch.mallory" room "token=forged" "forged"
                InvalidTokenError) by by_compute.
Defined.

Lemma connect_malformed_query_witness :
  run (connect "ch.alice" room "") quiet_server =
    (Raise ValueError, registered "ch.alice" room quiet_server).
Proof. apply (connect_malformed_query quiet_server "ch.alice" room "" ValueError). by_compute. Defined.

Lemma connect_unknown_room_witness :
  next (Connect "ch.alice" "NOROOM" "token=alice.jwt") quiet_server =
    admitted "ch.alice" "NOROOM" 1 quiet_server ∧
  consumers (admitted "ch.alice" "NOROOM" 1 quiet_server) !! "ch.alice" =
    Some (mkConsumer "NOROOM" ("game_" +:+ "NOROOM") (Some 1%Z) true false []) ∧
  "ch.alice" ∈ members (admitted "ch.alice" "NOROOM" 1 quiet_server) ("game_" +:+ "NOROOM").
Proof.
  apply (connect_unknown_room quiet_server "ch.alice" "NOROOM" "token=alice.jwt"
           "alice.jwt" 1); by_compute.
Defined.

Lemma second_player_joins_witness :
  games (db (next (Connect "ch.bob" room "token=bob.jwt") alice_waiting)) !! room =
    Some (joined pending_game 2).
Proof.
  refine (proj1 (second_player_joins alice_waiting "ch.bob" room "token=bob.jwt"
                   "bob.jwt" 2 pending_game bob _ _ _ _ _ _ _)); by_compute.
Defined.

Lemma receive_accepted_move_witness :
  run (handle (Receive "ch.alice" (move_text "4"))) playing =
    (Ok tt, broadcast "game_K7Q2ZD" (move_message open_game 1 (JInt 4) 4)
              (set_db playing (record_move (db playing) open_game 1 4))).
Proof.
  apply (receive_accepted_move playing "ch.alice" (socket playing "ch.alice") 1
           (move_text "4") (JInt 4) open_game alice 4); by_compute.
Defined.

Lemma receive_rejected_move_witness :
  run (handle (Receive "ch.bob" (move_text "4"))) playing = (Ok tt, playing).
Proof.
  apply (receive_rejected_move playing "ch.bob" (socket playing "ch.bob") 2
           (move_text "4") (JInt 4) open_game bob); by_compute.
Defined.

Lemma receive_invalid_json_witness :
  run (handle (Receive "ch.bob" "{")) playing =
    (Ok tt, reply "ch.bob" (error_frame "Invalid JSON format")
              (logged "JSON Decode Error" JSONDecodeError playing)).
Proof.
  apply (receive_invalid_json playing "ch.bob" (socket playing "ch.bob") "{"
           JSONDecodeError); by_compute.
Defined.

Lemma receive_not_an_object_witness :
  run (handle (Receive "ch.bob" "[4]")) playing =
    (Ok tt, reply "ch.bob" (error_frame "Internal server error")
              (logged "Receive Error" AttributeError playing)).
Proof.
  apply (receive_not_an_object playing "ch.bob" (socket playing "ch.bob") "[4]"
           (JArr [JInt 4])); try by_compute. done.
Defined.

Lemma receive_other_action_witness :
  run (handle (Receive "ch.bob" (action_text "resign"))) playing = (Ok tt, playing).
Proof.
  apply (receive_other_action playing "ch.bob" (socket playing "ch.bob")
           (action_text "resign") [("action"%string, JStr "resign")]);
    try by_compute. done.
Defined.

Lemma rooms_isolated_witness :
  games (db (next (Receive "ch.alice" (move_text "4")) playing)) !! "Z9Z9Z9"%string =
  games (db playing) !! "Z9Z9Z9"%string.
Proof.
  refine (proj1 (rooms_isolated playing (Receive "ch.alice" (move_text "4")) room _ _ _)
            "Z9Z9Z9"%string _); by_compute.
Defined.

Lemma members_same_frames_witness :
  new_frames watched (next (Receive "ch.alice" (move_text "4")) watched) "ch.bob" =
  new_frames watched (next (Receive "ch.alice" (move_text "4")) watched) "ch.carol".
Proof.
  apply (members_same_frames watched (Receive "ch.alice" (move_text "4"))
           "game_K7Q2ZD" "ch.bob" "ch.carol"); by_compute.
Defined.

Lemma closed_socket_silent_witness :
  ∃ c', consumers (next_all [Receive "ch.alice" (move_text "4")] bob_gone) !! "ch.bob"
          = Some c' ∧
        sent c' = sent (socket bob_gone "ch.bob").
Proof.
  apply (closed_socket_silent [Receive "ch.alice" (move_text "4")] bob_gone "ch.bob"
           (socket bob_gone "ch.bob")); by_compute.
Defined.

Lemma disconnect_leaves_witness :
  run (handle (Disconnect "ch.bob")) playing =
    (Ok tt, mkServer (db playing)
              (<[self_room_group_name (socket playing "ch.bob") :=
                   members playing (self_room_group_name (socket playing "ch.bob"))
                     ∖ {["ch.bob"]}]> (groups playing))
              (<["ch.bob" := set_closed (socket playing "ch.bob")]> (consumers playing))
              []) ∧
  ∀ group, "ch.bob" ∉ members (next (Disconnect "ch.bob") playing) group.
Proof.
  apply (disconnect_leaves playing "ch.bob" (socket playing "ch.bob")); by_compute.
Defined.
