(* ===== verification/Routing.v ===== *)
(** * Routing

    How a request reaches its handler: the table of the REST paths of
    the accounts (src/authenticate/urls.py) and the ASGI application
    (src/tictactoe/routing.py), which sends a websocket to the
    consumer of the room its path names.  A route is a list of
    literal pieces and captures; [match_route] is the match of the
    regular expression Django compiles a route to, against the whole
    path, with the greedy captures and the backtracking of [re].

    [static] is the function of Django with its three cases: an empty
    prefix is an error, a prefix with a host gives no pattern, a local
    prefix gives the pattern of [serve].  The host of a prefix is
    [urlsplit(prefix).netloc], a function of the interface [Urllib].

    The views of the accounts are not among the sources: they are
    names.  The module [game.routing], from which
    src/tictactoe/routing.py imports [websocket_urlpatterns], is not
    among the sources either: the table is taken to be the one route
    [ws/game/<room_code>/] the URL of [create_game]
    (src/game/views.py) is made for, and what is proved of
    [application] is proved for that table. *)

From stdpp Require Import base option list gmap strings.
From Stdlib Require Import Ascii.
From S2P Require Import Prelude Monad Json Models Wellformed Consumers Views Gateway.

#[local] Set Warnings "-clear-no-such-hyp".

(** ** Routes *)

(** What a capture takes: the converter [str] of [path] (one or more
    characters other than a slash), [\w+], and [.*], whose dot is any
    character but a newline. *)
Inductive converter : Type :=
| conv_str
| conv_word
| conv_rest.

(** [\w] on ASCII: a letter, a digit or the underscore. *)
Definition is_word (a : ascii) : bool :=
  let n := N_of_ascii a in
  ((48 <=? n) && (n <=? 57) || (65 <=? n) && (n <=? 90) ||
   (97 <=? n) && (n <=? 122) || (n =? 95))%N.

Definition takes (c : converter) (a : ascii) : bool :=
  match c with
  | conv_str => negb (bool_decide (a = "/"%char))
  | conv_word => is_word a
  | conv_rest => negb (bool_decide (a = "010"%char))
  end.

(** Whether the capture may be empty ([*]) or not ([+]). *)
Definition may_be_empty (c : converter) : bool :=
  match c with conv_rest => true | _ => false end.

Inductive piece : Type :=
| Lit (text : string)
| Capture (name : string) (c : converter).

Abbreviation route := (list piece).

(** The keyword arguments of a match, in the order of the captures. *)
Abbreviation kwargs := (list (string * string)).

(** [s] without its prefix [t]. *)
Fixpoint strip_prefix (t s : string) : option string :=
  match t, s with
  | EmptyString, _ => Some s
  | String a t', String b s' => if decide (a = b) then strip_prefix t' s' else None
  | String _ _, EmptyString => None
  end.

(** A capture followed by the rest [k] of the expression: the capture
    takes as many characters as it can and gives them back one by one
    while the rest does not match. *)
Fixpoint capture (k : string → option kwargs) (name : string) (c : converter)
    (taken rest : string) : option kwargs :=
  let stop :=
    if bool_decide (taken = EmptyString) && negb (may_be_empty c) then None
    else ((name, taken) ::.) <$> k rest in
  match rest with
  | String a rest' =>
      if takes c a then
        match capture k name c (taken +:+ String a EmptyString) rest' with
        | Some kw => Some kw
        | None => stop
        end
      else stop
  | EmptyString => stop
  end.

(** The match of a route against a whole path. *)
Fixpoint match_route (r : route) (s : string) : option kwargs :=
  match r with
  | [] => if bool_decide (s = EmptyString) then Some [] else None
  | Lit t :: r' => strip_prefix t s ≫= match_route r'
  | Capture name c :: r' => capture (match_route r') name c EmptyString s
  end.

(** The pieces of the route string of [path]: [<name>] is a capture
    with the converter [str], everything else is literal. *)
Fixpoint scan (in_capture : bool) (acc : string) (s : string) : route :=
  match s with
  | EmptyString =>
      if bool_decide (acc = EmptyString) then [] else [Lit acc]
  | String a s' =>
      if in_capture then
        if bool_decide (a = ">"%char) then Capture acc conv_str :: scan false EmptyString s'
        else scan true (acc +:+ String a EmptyString) s'
      else
        if bool_decide (a = "<"%char)
        then (if bool_decide (acc = EmptyString) then [] else [Lit acc]) ++
             scan true EmptyString s'
        else scan false (acc +:+ String a EmptyString) s'
  end.

(** [path(route, view)]. *)
Definition path {V : Type} (text : string) (view : V) : route * V :=
  (scan false EmptyString text, view).

(** The first pattern that matches, as the resolver tries them in
    order; [None] is the answer 404. *)
Fixpoint resolve {V : Type} (patterns : list (route * V)) (p : string) :
    option (V * kwargs) :=
  match patterns with
  | [] => None
  | (r, view) :: rest =>
      match match_route r p with
      | Some kw => Some (view, kw)
      | None => resolve rest p
      end
  end.

(** [s.lstrip('/')]. *)
Fixpoint lstrip_slash (s : string) : string :=
  match s with
  | String a s' => if bool_decide (a = "/"%char) then lstrip_slash s' else s
  | EmptyString => EmptyString
  end.

(** ** The paths of the accounts *)

(** The views [authenticate.views] exports, and [serve] of
    [django.views.static]. *)
Inductive view : Type :=
| sign_in
| sign_up
| LogoutView
| forgot_password
| reset_password
| verify_OTP
| UserProfileAPIView
| serve.

#[export] Instance view_eq_dec : EqDecision view.
Proof. solve_decision. Defined.

(** [urlsplit(url).netloc] of [urllib.parse]: the host of a URL,
    empty when the URL is local. *)
Class Urllib : Type := {
  netloc : string → string;
}.

(** [static(prefix, document_root=...)] of [django.conf.urls.static],
    which reads [settings.DEBUG] itself: an empty prefix is an error of
    the configuration; outside [DEBUG], and for a prefix with a host,
    there is no pattern; otherwise there is one pattern for [serve],
    the prefix without its leading slashes followed by a capture named
    [path]. *)
Definition static `{Urllib} (DEBUG : bool) (prefix : string) :
    Result (list (route * view)) :=
  if bool_decide (prefix = EmptyString) then Raise ImproperlyConfigured
  else if negb DEBUG || negb (bool_decide (netloc prefix = EmptyString)) then Ok []
  else Ok [([Lit (lstrip_slash prefix); Capture "path" conv_rest], serve)].

(** [urlpatterns], for the values of [settings.DEBUG] and
    [settings.MEDIA_URL]: the module is loaded when [static] returns,
    and its import fails with the exception of [static]. *)
Definition urlpatterns `{Urllib} (DEBUG : bool) (MEDIA_URL : string) :
    Result (list (route * view)) :=
  let urlpatterns :=
    [ path "user/signIn/" sign_in;
      path "user/signUp/" sign_up;
      path "user/signOut/" LogoutView;
      path "forgotPassword/" forgot_password;
      path "resetPassword/" reset_password;
      path "verifyOTP/" verify_OTP;
      path "user/profile/<emailID>" UserProfileAPIView;
      path "user/profile/" UserProfileAPIView ] in
  if DEBUG
  then media ← static DEBUG MEDIA_URL; Ok (urlpatterns ++ media)
  else Ok urlpatterns.

(** The files [DEBUG] serves: the paths under the prefix, when the
    prefix is local. *)
Definition media_view `{Urllib} (DEBUG : bool) (MEDIA_URL p : string) :
    option (view * kwargs) :=
  if DEBUG && bool_decide (netloc MEDIA_URL = EmptyString) then
    match strip_prefix (lstrip_slash MEDIA_URL) p with
    | Some file =>
        if forallb (takes conv_rest) (String.list_ascii_of_string file)
        then Some (serve, [("path"%string, file)])
        else None
    | None => None
    end
  else None.

(** The table the patterns are meant to be: a path is one of seven
    names, or [user/profile/] followed by an address without a slash. *)
Definition account_view (p : string) : option (view * kwargs) :=
  if bool_decide (p = "user/signIn/") then Some (sign_in, [])
  else if bool_decide (p = "user/signUp/") then Some (sign_up, [])
  else if bool_decide (p = "user/signOut/") then Some (LogoutView, [])
  else if bool_decide (p = "forgotPassword/") then Some (forgot_password, [])
  else if bool_decide (p = "resetPassword/") then Some (reset_password, [])
  else if bool_decide (p = "verifyOTP/") then Some (verify_OTP, [])
  else if bool_decide (p = "user/profile/") then Some (UserProfileAPIView, [])
  else match strip_prefix "user/profile/" p with
       | Some e =>
           if forallb (takes conv_str) (String.list_ascii_of_string e)
           then Some (UserProfileAPIView, [("emailID"%string, e)])
           else None
       | None => None
       end.

(** ** The ASGI application *)

(** The scope of a connection: its protocol, its path and query
    string, the user its session cookie stands for, and what the
    routers and the middleware add: the user and the keyword arguments
    of the route. *)
Record Scope : Type := mkScope {
  type : string;
  scope_path : string;
  query_string : string;
  session : option Z;
  user : option Z;
  url_route : kwargs;
}.

Definition set_user (sc : Scope) (v : option Z) : Scope :=
  mkScope (type sc) (scope_path sc) (query_string sc) (session sc) v (url_route sc).
Definition set_url_route (sc : Scope) (v : kwargs) : Scope :=
  mkScope (type sc) (scope_path sc) (query_string sc) (session sc) (user sc) v.

(** An application, for the connection the server knows by the channel
    name [self]: the event its consumer handles first, or an
    exception. *)
Abbreviation application_type := (string → Scope → Result event).

(** [ProtocolTypeRouter(mapping)]. *)
Definition ProtocolTypeRouter (mapping : gmap string application_type) : application_type :=
  λ self sc,
    match mapping !! type sc with
    | Some app => app self sc
    | None => Raise ValueError
    end.

(** [AuthMiddlewareStack(inner)]: the user of the session is put in
    the scope. *)
Definition AuthMiddlewareStack (inner : application_type) : application_type :=
  λ self sc, inner self (set_user sc (session sc)).

(** [URLRouter(routes)]. *)
Definition URLRouter (routes : list (route * application_type)) : application_type :=
  λ self sc,
    match resolve routes (lstrip_slash (scope_path sc)) with
    | Some (app, kw) => app self (set_url_route sc kw)
    | None => Raise ValueError
    end.

(** [TicTacToeConsumer.as_asgi()]: the instance reads the room code
    from the keyword arguments of its route and the query string from
    its scope, when [connect] starts. *)
Definition TicTacToeConsumer_as_asgi : application_type :=
  λ self sc,
    match list_find (λ kv, kv.1 = "room_code"%string) (url_route sc) with
    | Some (_, (_, room_code)) => Ok (Connect self room_code (query_string sc))
    | None => Raise KeyError
    end.

(** [game.routing.websocket_urlpatterns], a module the sources import
    and do not include: the table is taken to be the route of the URL
    [create_game] hands out, with a room code of word characters. *)
Definition websocket_urlpatterns : list (route * application_type) :=
  [([Lit "ws/game/"; Capture "room_code" conv_word; Lit "/"], TicTacToeConsumer_as_asgi)].

(** [application]. *)
Definition application : application_type :=
  ProtocolTypeRouter
    {[ "websocket"%string := AuthMiddlewareStack (URLRouter websocket_urlpatterns) ]}.

(** The path of a URL with a scheme and a host, as the client sends
    it. *)
Fixpoint from_slash (s : string) : string :=
  match s with
  | String a s' => if bool_decide (a = "/"%char) then s else from_slash s'
  | EmptyString => EmptyString
  end.
Definition url_path (url : string) : string :=
  match strip_prefix "ws://" url with
  | Some rest => from_slash rest
  | None => url
  end.

(** The scope of a websocket opened at a URL with a query string. *)
Definition websocket_scope (url query : string) (session : option Z) : Scope :=
  mkScope "websocket" (url_path url) query session None [].

(** A string of word characters, not empty. *)
Definition word (s : string) : Prop :=
  s ≠ EmptyString ∧ forallb is_word (String.list_ascii_of_string s) = true.

#[export] Instance word_dec s : Decision (word s).
Proof. unfold word. apply _. Defined.

(** A capture with the converter [c] does not go on into [rest]. *)
Definition stops (c : converter) (rest : string) : Prop :=
  match rest with
  | String a _ => takes c a = false
  | EmptyString => True
  end.

(** ** Strings *)

Section strings.
Implicit Types (s t r v : string) (a : ascii).

Lemma string_app_cons a s t : (String a s +:+ t = String a (s +:+ t))%string.
Proof. done. Qed.

Lemma string_app_nil_l s : ("" +:+ s = s)%string.
Proof. done. Qed.

Lemma string_app_assoc s t r : ((s +:+ t) +:+ r = s +:+ (t +:+ r))%string.
Proof. induction s as [|a s IH]; [done|]. by rewrite !string_app_cons, IH. Qed.

Lemma string_app_nil_r s : (s +:+ "" = s)%string.
Proof. induction s as [|a s IH]; [done|]. by rewrite string_app_cons, IH. Qed.

Lemma strip_prefix_app t s : strip_prefix t (t +:+ s) = Some s.
Proof.
  induction t as [|a t IH]; [done|]. rewrite string_app_cons. simpl. by rewrite decide_True.
Qed.

Lemma strip_prefix_Some t s r : strip_prefix t s = Some r → s = (t +:+ r)%string.
Proof.
  revert s. induction t as [|a t IH]; intros [|b s]; simpl; try naive_solver.
  case_decide as Hab; [|done]. intros ->%IH. by rewrite Hab.
Qed.

(** A literal route matches its own text and nothing else. *)
Lemma match_literal t s :
  match_route [Lit t] s = if bool_decide (s = t) then Some [] else None.
Proof.
  simpl. destruct (strip_prefix t s) as [r|] eqn:Hr; simpl.
  - apply strip_prefix_Some in Hr as ->. destruct r as [|a r].
    + by rewrite string_app_nil_r, !bool_decide_true.
    + rewrite (bool_decide_false (String a r = "")) by done. rewrite bool_decide_false; [done|].
      intros Heq. rewrite <- (string_app_nil_r t) in Heq at 2. by apply (inj _) in Heq.
  - rewrite bool_decide_false; [done|]. intros ->.
    rewrite <- (string_app_nil_r t) in Hr at 2. by rewrite strip_prefix_app in Hr.
Qed.

End strings.

(** ** Captures *)

Section captures.
Context (k : string → option kwargs) (name : string) (c : converter).
Implicit Types (taken rest v s : string) (kw : kwargs).

(** A capture takes every character it can when the rest of the
    expression matches what is left. *)
Lemma capture_greedy taken v rest kw :
  forallb (takes c) (String.list_ascii_of_string v) = true → stops c rest →
  (taken +:+ v)%string ≠ EmptyString ∨ may_be_empty c = true →
  k rest = Some kw →
  capture k name c taken (v +:+ rest) = Some ((name, taken +:+ v)%string :: kw).
Proof.
  revert taken. induction v as [|a v IH]; intros taken Hv Hstop Hne Hk.
  - rewrite string_app_nil_r in *. rewrite string_app_nil_l.
    assert (bool_decide (taken = EmptyString) && negb (may_be_empty c) = false) as Hb.
    { destruct Hne as [?| ->]; [by rewrite bool_decide_false|by rewrite andb_false_r]. }
    destruct rest as [|b rest]; simpl in *; rewrite ?Hstop, Hb, Hk; done.
  - simpl in Hv. apply andb_prop in Hv as [Ha Hv]. rewrite string_app_cons. simpl. rewrite Ha.
    rewrite (IH (taken +:+ String a "")%string), string_app_assoc; try done.
    left. rewrite string_app_assoc. by destruct taken.
Qed.

(** What a capture that matched took. *)
Lemma capture_sound taken s kws :
  capture k name c taken s = Some kws →
  ∃ v rest kw, s = (v +:+ rest)%string ∧
    forallb (takes c) (String.list_ascii_of_string v) = true ∧
    ((taken +:+ v)%string ≠ EmptyString ∨ may_be_empty c = true) ∧
    k rest = Some kw ∧ kws = (name, taken +:+ v)%string :: kw.
Proof.
  assert (∀ taken s,
    (if bool_decide (taken = EmptyString) && negb (may_be_empty c) then None
     else ((name, taken) ::.) <$> k s) = Some kws →
    ∃ v rest kw, s = (v +:+ rest)%string ∧
      forallb (takes c) (String.list_ascii_of_string v) = true ∧
      ((taken +:+ v)%string ≠ EmptyString ∨ may_be_empty c = true) ∧
      k rest = Some kw ∧ kws = (name, taken +:+ v)%string :: kw) as Hstop.
  { intros t r Hs. exists EmptyString, r. rewrite string_app_nil_r.
    destruct (bool_decide _ && _) eqn:Hb; [done|].
    destruct (k r) as [kw|]; simplify_eq/=. exists kw. split_and!; try done.
    apply andb_false_iff in Hb as [Hb|Hb]; [left; by apply bool_decide_eq_false in Hb|].
    right. by destruct (may_be_empty c). }
  revert taken. induction s as [|a s IH]; intros taken; simpl; [apply Hstop|].
  destruct (takes c a) eqn:Ha; [|apply Hstop].
  destruct (capture k name c _ s) as [kw'|] eqn:Hc; [|apply Hstop].
  intros [= <-]. destruct (IH _ Hc) as (v & rest & kw & -> & Hv & Hne & Hk & ->).
  exists (String a v), rest, kw. rewrite string_app_assoc in *. simpl. by rewrite Ha.
Qed.

End captures.

(** A capture at the end of a route takes the whole rest or fails. *)
Lemma capture_whole name c e :
  capture (match_route []) name c EmptyString e =
    if forallb (takes c) (String.list_ascii_of_string e) &&
       (negb (bool_decide (e = EmptyString)) || may_be_empty c)
    then Some [(name, e)] else None.
Proof.
  destruct (capture _ _ _ _ e) as [kws|] eqn:Hc.
  - apply capture_sound in Hc as (v & rest & kw & -> & Hv & Hne & Hk & ->).
    simpl in Hk. case_bool_decide; simplify_eq. rewrite string_app_nil_r, Hv in *.
    destruct Hne as [Hne| ->]; [|by rewrite orb_true_r]. by rewrite bool_decide_false.
  - destruct (forallb _ _ && _) eqn:Hb; [|done]. apply andb_prop in Hb as [Hv Hne].
    rewrite <- (string_app_nil_r e) in Hc.
    rewrite (capture_greedy _ _ _ EmptyString e EmptyString []) in Hc; try done.
    apply orb_prop in Hne as [Hne|?]; [left|by right].
    rewrite string_app_nil_l. by apply negb_true_iff, bool_decide_eq_false in Hne.
Qed.

(** ** The paths of the accounts *)

Section accounts.
Context `{Urllib}.
Implicit Types (p : string) (v : view).

Lemma resolve_literal {V} (t : string) (view : V) rest p :
  resolve (([Lit t], view) :: rest) p =
    if bool_decide (p = t) then Some (view, []) else resolve rest p.
Proof. cbn [resolve]. rewrite match_literal. by case_bool_decide. Qed.

Lemma resolve_app {V} (l1 l2 : list (route * V)) p :
  resolve (l1 ++ l2) p = match resolve l1 p with Some r => Some r | None => resolve l2 p end.
Proof.
  induction l1 as [|[r view] l1 IH]; [done|]. simpl. by destruct (match_route r p).
Qed.

(** The eight patterns of the accounts, as routes. *)
#[local] Abbreviation account_routes :=
  [ ([Lit "user/signIn/"], sign_in); ([Lit "user/signUp/"], sign_up);
    ([Lit "user/signOut/"], LogoutView); ([Lit "forgotPassword/"], forgot_password);
    ([Lit "resetPassword/"], reset_password); ([Lit "verifyOTP/"], verify_OTP);
    ([Lit "user/profile/"; Capture "emailID" conv_str], UserProfileAPIView);
    ([Lit "user/profile/"], UserProfileAPIView) ].

(** What [static] returns. *)
Lemma static_cases DEBUG prefix :
  static DEBUG prefix =
    if bool_decide (prefix = EmptyString) then Raise ImproperlyConfigured
    else if DEBUG && bool_decide (netloc prefix = EmptyString)
    then Ok [([Lit (lstrip_slash prefix); Capture "path" conv_rest], serve)]
    else Ok [].
Proof. unfold static. by destruct DEBUG; repeat case_bool_decide. Qed.

(** The patterns as routes: the module is the eight patterns, and
    under [DEBUG] those of [static] after them. *)
Lemma urlpatterns_routes DEBUG MEDIA_URL :
  urlpatterns DEBUG MEDIA_URL =
    (media ← (if DEBUG then static DEBUG MEDIA_URL else Ok []);
     Ok (account_routes ++ media)).
Proof. by destruct DEBUG. Qed.

(** The eight patterns of the accounts resolve by the table. *)
Lemma resolve_accounts p : resolve account_routes p = account_view p.
Proof.
  unfold account_view.
  repeat (rewrite resolve_literal; case_bool_decide; [done|]).
  cbn [resolve match_route]. destruct (bool_decide (p = "user/profile/")) eqn:Hp.
  { apply bool_decide_eq_true in Hp as ->. by vm_compute. }
  destruct (strip_prefix "user/profile/" p) as [e|] eqn:He; cbn [mbind option_bind];
    [|done].
  rewrite capture_whole, orb_false_r.
  rewrite (bool_decide_false (e = "")), andb_true_r; [by destruct (forallb _ _)|].
  intros ->. apply strip_prefix_Some in He as ->. by apply bool_decide_eq_false in Hp.
Qed.

(** The pattern of [static] serves the files under the prefix. *)
Lemma resolve_static prefix p :
  resolve [([Lit prefix; Capture "path" conv_rest], serve)] p =
    match strip_prefix prefix p with
    | Some file =>
        if forallb (takes conv_rest) (String.list_ascii_of_string file)
        then Some (serve, [("path"%string, file)])
        else None
    | None => None
    end.
Proof.
  cbn [resolve match_route]. destruct (strip_prefix prefix p) as [file|]; [|done].
  cbn [mbind option_bind]. rewrite capture_whole. cbn [may_be_empty].
  rewrite orb_true_r, andb_true_r. by destruct (forallb _ _).
Qed.

End accounts.

(** ** The websocket of a room *)

Section websocket.
Implicit Types (rc p query self : string) (sc : Scope) (ev : event).

(** The paths the route of the consumer matches. *)
Lemma match_websocket_route p kws :
  match_route [Lit "ws/game/"; Capture "room_code" conv_word; Lit "/"] p = Some kws ↔
  ∃ rc, word rc ∧ p = ("ws/game/" +:+ rc +:+ "/")%string ∧ kws = [("room_code"%string, rc)].
Proof.
  cbn [match_route]. split.
  - destruct (strip_prefix "ws/game/" p) as [s|] eqn:Hs; [|done].
    apply strip_prefix_Some in Hs as ->. cbn [mbind option_bind].
    intros (v & rest & kw & -> & Hv & Hne & Hk & ->)%capture_sound.
    change (match_route [Lit "/"] rest = Some kw) in Hk. rewrite match_literal in Hk.
    case_bool_decide; simplify_eq. exists v. split; [|done]. split; [|done].
    by destruct Hne.
  - intros (rc & [Hne Hw] & -> & ->). rewrite strip_prefix_app. cbn [mbind option_bind].
    apply (capture_greedy _ _ _ EmptyString rc "/" []); try done. by left.
Qed.

(** The application on a websocket. *)
Lemma application_websocket self sc :
  type sc = "websocket"%string →
  application self sc =
    match match_route [Lit "ws/game/"; Capture "room_code" conv_word; Lit "/"]
                      (lstrip_slash (scope_path sc)) with
    | Some kw => TicTacToeConsumer_as_asgi self (set_url_route (set_user sc (session sc)) kw)
    | None => Raise ValueError
    end.
Proof.
  intros Ht. unfold application, ProtocolTypeRouter. rewrite Ht, lookup_singleton_eq.
  unfold AuthMiddlewareStack, URLRouter, websocket_urlpatterns. cbn [resolve scope_path set_user].
  by destruct (match_route _ _).
Qed.

(** Every other protocol is refused. *)
Lemma application_other self sc :
  type sc ≠ "websocket"%string → application self sc = Raise ValueError.
Proof.
  intros Ht. unfold application, ProtocolTypeRouter. by rewrite lookup_singleton_ne.
Qed.

(** The connections the application hands to a consumer. *)
Lemma application_Ok self sc ev :
  application self sc = Ok ev ↔
  type sc = "websocket"%string ∧
  ∃ rc, word rc ∧ lstrip_slash (scope_path sc) = ("ws/game/" +:+ rc +:+ "/")%string ∧
        ev = Connect self rc (query_string sc).
Proof.
  destruct (decide (type sc = "websocket"%string)) as [Ht|Ht]; last first.
  { rewrite application_other by done. naive_solver. }
  rewrite application_websocket by done. split.
  - destruct (match_route _ _) as [kw|] eqn:Hm; [|done].
    apply match_websocket_route in Hm as (rc & Hrc & Hp & ->). intros [= <-]. eauto 6.
  - intros (_ & rc & Hrc & Hp & ->).
    assert (match_route [Lit "ws/game/"; Capture "room_code" conv_word; Lit "/"]
              (lstrip_slash (scope_path sc)) = Some [("room_code"%string, rc)]) as ->; [|done].
    apply match_websocket_route. eauto.
Qed.

(** The path of the URL of a room. *)
Lemma url_path_websocket_url rc :
  url_path (websocket_url rc) = ("/ws/game/" +:+ rc +:+ "/")%string.
Proof. done. Qed.

(** A room code [create_game] draws is a word. *)
Lemma word_code_of draw : draw_ok draw → word (code_of draw).
Proof.
  intros Hd. split.
  - intros Heq. pose proof (code_of_length draw Hd) as Hlen. by rewrite Heq in Hlen.
  - unfold code_of, join. rewrite String.list_ascii_of_string_of_list_ascii.
    apply forallb_forall. intros a Ha%list_elem_of_In%list_elem_of_omap.
    destruct Ha as (i & _ & Hi). apply list_elem_of_lookup_2, list_elem_of_In in Hi.
    revert a Hi. apply forallb_forall. by vm_compute.
Qed.

End websocket.

(** ** From the answer of [create_game] to the room *)

Section end_to_end.
Context `{Libraries} (str : exn → string).
Implicit Types (s : Server) (self rc token : string) (uid : Z).

(** The database after a connection with a token that verifies. *)
Lemma db_next_connect s self rc query token uid :
  server_ok s → consumers s !! self = None →
  token_of query = Ok token → jwt_decode token = Ok (Some uid) →
  db (next (Connect self rc query) s) = (add_player_outcome (db s) rc uid).2.
Proof.
  intros Hs Hfresh Htoken Hjwt. rewrite next_enabled by done.
  unfold connect_outcome, connect_result. rewrite Htoken, Hjwt. cbn [snd].
  unfold connected_by. by rewrite db_published.
Qed.

(** The code [create_game] draws is the code of one of its draws. *)
Lemma unique_code_word draws w rc rest :
  Forall draw_ok draws → unique_code draws w = Some (rc, rest) → word rc.
Proof.
  intros Hd (taken & draw & -> & -> & _)%unique_code_Some.
  apply word_code_of. by apply Forall_app in Hd as [_ [? _]%Forall_cons].
Qed.

(** C26: the URL [create_game] hands out leads to the room it created:
    once a fresh code is drawn, the view answers 201 with the row
    inserted; a websocket opened at the [websocket_url] of the answer
    is routed by the application to the consumer of that room,
    whatever its session; and with the token of another user the
    connection makes that user the second player of the game, which
    is then in progress with the turn given to its creator.  The
    routes of the application are those of [websocket_urlpatterns],
    which stands for the module [game.routing] the sources import and
    do not include. *)
Theorem created_room_is_joinable s creator draws self token uid u session :
  server_ok s → consumers s !! self = None →
  is_Some (users (db s) !! pk creator) → Forall draw_ok draws →
  Exists (λ d, games (db s) !! code_of d = None) draws →
  token_of ("token=" +:+ token) = Ok token → jwt_decode token = Ok (Some uid) →
  users (db s) !! uid = Some u → uid ≠ pk creator →
  ∃ rc rest w,
    create_game str creator draws (db s) = Some (Ok (created_response rc), w, rest) ∧
    application self (websocket_scope (websocket_url rc) ("token=" +:+ token) session) =
      Ok (Connect self rc ("token=" +:+ token)) ∧
    games (db (next (Connect self rc ("token=" +:+ token)) (set_db s w))) !! rc =
      Some (mkGame rc (pk creator) (Some uid) (Some (pk creator)) None IN_PROGRESS
                   "---------").
Proof.
  intros Hs Hself Hcreator Hdraws Hfresh Htoken Hjwt Hu Hne.
  destruct (unique_code_terminates draws (db s) Hfresh) as [[rc rest] Hcode].
  pose proof (unique_code_fresh _ _ _ _ Hcode) as Hnone.
  pose proof (unique_code_word _ _ _ _ Hdraws Hcode) as Hword.
  eexists rc, rest, _. unfold create_game. rewrite Hcode.
  rewrite run_create_game_with by done. split; [done|]. split.
  { apply application_Ok. split; [done|]. by exists rc. }
  rewrite (db_next_connect _ _ _ _ token uid); try done; last first.
  { apply server_ok_set_db; [done|]. apply world_ok_created; [|done..].
    by apply server_ok_world. }
  unfold add_player_outcome. cbn [db set_db games set_games users].
  rewrite lookup_insert_eq, Hu. unfold joins. cbn [player1 player2 created_game].
  rewrite bool_decide_true by done. cbn [snd games set_games room_code created_game].
  by rewrite lookup_insert_eq.
Qed.

End end_to_end.

(** C39: the resolver on the patterns of the accounts is the table.
    The module [urls] fails to load, with [ImproperlyConfigured], just
    when [DEBUG] is set and [MEDIA_URL] is empty.  Otherwise each of
    the seven fixed paths has its view, [user/profile/] followed by an
    address without a slash has the profile view with the address as
    [emailID], and, when [DEBUG] is set and [MEDIA_URL] has no host,
    any other path under the media prefix is served as a file, the
    rest of the path being its name; every other path is not found. *)
Theorem accounts_resolve_by_table `{Urllib} DEBUG MEDIA_URL p :
  match urlpatterns DEBUG MEDIA_URL with
  | Ok patterns =>
      ¬ (DEBUG = true ∧ MEDIA_URL = EmptyString) ∧
      resolve patterns p =
        match account_view p with
        | Some found => Some found
        | None => media_view DEBUG MEDIA_URL p
        end
  | Raise e => DEBUG = true ∧ MEDIA_URL = EmptyString ∧ e = ImproperlyConfigured
  end.
Proof.
  rewrite urlpatterns_routes. unfold media_view. destruct DEBUG; cbn [andb].
  - rewrite static_cases. cbn [andb]. case_bool_decide as Hm; [done|].
    destruct (bool_decide (netloc MEDIA_URL = EmptyString)); cbn [mbind Result_bind];
      (split; [naive_solver|]); rewrite resolve_app, resolve_accounts;
      destruct (account_view p); try done.
    apply resolve_static.
  - cbn [mbind Result_bind]. split; [naive_solver|].
    rewrite app_nil_r, resolve_accounts. by destruct (account_view p).
Qed.

(** ** The theorems at work *)

Lemma created_room_is_joinable_witness :
  ∃ rc rest w,
    create_game example_str alice example_draws (db quiet_server) =
      Some (Ok (created_response rc), w, rest) ∧
    application "ch.bob" (websocket_scope (websocket_url rc) ("token=" +:+ "bob.jwt") None) =
      Ok (Connect "ch.bob" rc ("token=" +:+ "bob.jwt")) ∧
    games (db (next (Connect "ch.bob" rc ("token=" +:+ "bob.jwt")) (set_db quiet_server w)))
      !! rc =
      Some (mkGame rc (pk alice) (Some 2%Z) (Some (pk alice)) None IN_PROGRESS "---------").
Proof.
  apply (created_room_is_joinable example_str quiet_server alice example_draws "ch.bob"
           "bob.jwt" 2 bob None); by_compute.
Defined.
