(* ===== verification/Schema.v ===== *)
(** * The frames as typed messages

    Every frame a consumer sends is a dictionary built in
    src/game/consumers.py and dumped as JSON.  This file gives the
    dictionaries their types: a small language of types for JSON
    values, the types of the six dictionaries the code builds, the
    types the written specification gives the messages of the wire
    protocol, and the proof that whatever happens on the server every
    frame on every socket has one of the former. *)

From stdpp Require Import base option list gmap strings.
From Stdlib Require Import Ascii.
From S2P Require Import Prelude Monad Json Board Models Wellformed Consumers Preservation Gateway Sessions.

#[local] Set Warnings "-clear-no-such-hyp,-register-all".
#[local] Open Scope Z_scope.

(** ** Types of JSON values *)

(** [TLiteral s] is the string [s]; [TRange lo hi] an integer from
    [lo] to [hi]; [TBoard] a board of nine cells over [-XO]; [TLine]
    one of the eight winning combinations; [TObject] a dictionary with
    exactly these keys, in this order. *)
Inductive ty : Type :=
| TNull
| TBoolean
| TString
| TLiteral (s : string)
| TRange (lo hi : Z)
| TBoard
| TLine
| TOneOf (t1 t2 : ty)
| TObject (fields : list (string * ty)).

(** The integers of a JSON array of integers. *)
Definition integers (v : json) : option (list Z) :=
  match v with
  | JArr l => mapM (λ x, match x with JInt z => Some z | _ => None end) l
  | _ => None
  end.

Fixpoint has_type (t : ty) (v : json) {struct t} : bool :=
  match t with
  | TNull => match v with JNull => true | _ => false end
  | TBoolean => match v with JBool _ => true | _ => false end
  | TString => match v with JStr _ => true | _ => false end
  | TLiteral s => match v with JStr s' => bool_decide (s' = s) | _ => false end
  | TRange lo hi => match v with JInt z => bool_decide (lo ≤ z ≤ hi) | _ => false end
  | TBoard => match v with JStr b => bool_decide (board_ok b) | _ => false end
  | TLine =>
      match integers v with
      | Some zs => bool_decide (zs ∈ (fmap (M := list) Z.of_nat <$> winning_combinations))
      | None => false
      end
  | TOneOf t1 t2 => has_type t1 v || has_type t2 v
  | TObject fields =>
      match v with
      | JObj kv =>
          (fix items (fields : list (string * ty)) (kv : list (string * json)) : bool :=
             match fields, kv with
             | [], [] => true
             | (k, t') :: fields', (k', v') :: kv' =>
                 bool_decide (k' = k) && has_type t' v' && items fields' kv'
             | _, _ => false
             end) fields kv
      | _ => false
      end
  end.

(** ** The messages *)

(** The dictionaries of [get_game_state], [add_player_to_game] and
    [make_move], for a type of the names of players and a type of the
    position. *)
Definition game_state_ty (name : ty) : ty :=
  TObject [("action", TLiteral "game_state"); ("board", TBoard);
           ("status", TOneOf (TLiteral "PENDING")
                             (TOneOf (TLiteral "IN_PROGRESS") (TLiteral "COMPLETED")));
           ("current_turn", name); ("player1", name); ("player2", name);
           ("winner", name)]%string.
Definition player_joined_ty (name : ty) : ty :=
  TObject [("action", TLiteral "player_joined"); ("player2", name);
           ("status", TLiteral "IN_PROGRESS"); ("current_turn", name);
           ("board", TBoard)]%string.
Definition move_made_ty (name position : ty) : ty :=
  TObject [("action", TLiteral "move_made"); ("position", position);
           ("symbol", TOneOf (TLiteral "X") (TLiteral "O")); ("next_turn", name);
           ("board", TBoard)]%string.
Definition game_over_win_ty (name : ty) : ty :=
  TObject [("action", TLiteral "game_over"); ("winner", name); ("board", TBoard);
           ("winning_combo", TLine)]%string.
Definition game_over_draw_ty : ty :=
  TObject [("action", TLiteral "game_over"); ("winner", TNull); ("board", TBoard);
           ("status", TLiteral "draw")]%string.

Definition messages (name position : ty) : list ty :=
  [game_state_ty name; player_joined_ty name; move_made_ty name position;
   game_over_win_ty name; game_over_draw_ty].

(** The dictionary of the error frames of [receive]. *)
Definition error_ty : ty := TObject [("error"%string, TString)].

(** What the code sends: every name is [None], because
    [User.username] is, and the position is the value the client sent,
    an integer from 0 to 8 or a boolean. *)
Definition sent_types : list ty :=
  messages TNull (TOneOf (TRange 0 8) TBoolean) ++ [error_ty].

(** What the specification says is sent: names are references to the
    players, the position is an integer from 0 to 8, and an error is
    tagged by [action] as every message is. *)
Definition documented_types : list ty :=
  messages (TOneOf TString TNull) (TRange 0 8) ++
  [TObject [("action", TLiteral "error"); ("message", TString)]%string].

Definition frame_ok (v : json) : bool := existsb (λ t, has_type t v) sent_types.

Definition documented (v : json) : bool := existsb (λ t, has_type t v) documented_types.

(** Every frame sent on every socket so far is one of the messages. *)
Definition typed (s : Server) : Prop :=
  map_Forall (λ _ c, Forall (λ v, frame_ok v = true) (sent c)) (consumers s).

#[export] Instance typed_dec s : Decision (typed s).
Proof. unfold typed. apply _. Defined.

(** ** The messages have their types *)

Section messages.
Implicit Types (g : Game) (uid : Z) (position : json) (i : nat) (b k : string) (t : ty).

(** A dictionary is checked item by item. *)
Lemma has_type_cons k t fields v kv :
  has_type (TObject ((k, t) :: fields)) (JObj ((k, v) :: kv)) =
    has_type t v && has_type (TObject fields) (JObj kv).
Proof. simpl. by rewrite bool_decide_true. Qed.

Lemma has_type_board b : board_ok b → has_type TBoard (JStr b) = true.
Proof. intros Hb. simpl. by rewrite bool_decide_true. Qed.

Lemma has_type_line combo :
  combo ∈ winning_combinations → has_type TLine (of_nat_list combo) = true.
Proof.
  intros Hc. cbn [has_type].
  assert (integers (of_nat_list combo) = Some (Z.of_nat <$> combo)) as ->.
  { unfold integers, of_nat_list. clear. induction combo as [|n l IH]; [done|].
    cbn [fmap list_fmap mapM]. cbn [fmap list_fmap] in IH. by rewrite IH. }
  rewrite bool_decide_true; [done|]. by apply list_elem_of_fmap_2.
Qed.

Lemma has_type_position position i :
  position_index position = Some i →
  has_type (TOneOf (TRange 0 8) TBoolean) position = true.
Proof.
  unfold position_index. destruct position; try done. simpl. by case_bool_decide.
Qed.

(** A value of the [k]-th type of the code is a frame of the code. *)
Lemma frame_ok_at (k : nat) t v :
  sent_types !! k = Some t → has_type t v = true → frame_ok v = true.
Proof.
  intros Hk Ht. apply existsb_exists. exists t. split; [|done].
  by eapply list_elem_of_In, list_elem_of_lookup_2.
Qed.

Lemma frame_ok_game_state g : board_ok (board g) → frame_ok (game_state_message g) = true.
Proof.
  intros Hb. apply (frame_ok_at 0 _ _ eq_refl). unfold game_state_ty, game_state_message.
  rewrite !has_type_cons, has_type_board by done. by destruct (status g).
Qed.

Lemma frame_ok_player_joined g :
  board_ok (board g) → frame_ok (player_joined_message None None g) = true.
Proof.
  intros Hb. apply (frame_ok_at 1 _ _ eq_refl). unfold player_joined_ty, player_joined_message.
  by rewrite !has_type_cons, has_type_board.
Qed.

Lemma frame_ok_move_made g (x : bool) position i :
  board_ok (board g) → position_index position = Some i →
  frame_ok (move_made_message position (symbol_of x) None g) = true.
Proof.
  intros Hb Hi. apply (frame_ok_at 2 _ _ eq_refl). unfold move_made_ty, move_made_message.
  rewrite !has_type_cons, has_type_board, (has_type_position position i) by done.
  by destruct x.
Qed.

Lemma frame_ok_game_over_win g combo :
  board_ok (board g) → combo ∈ winning_combinations →
  frame_ok (game_over_win_message None g combo) = true.
Proof.
  intros Hb Hc. apply (frame_ok_at 3 _ _ eq_refl).
  unfold game_over_win_ty, game_over_win_message.
  by rewrite !has_type_cons, has_type_board, has_type_line.
Qed.

Lemma frame_ok_game_over_draw g :
  board_ok (board g) → frame_ok (game_over_draw_message g) = true.
Proof.
  intros Hb. apply (frame_ok_at 4 _ _ eq_refl).
  unfold game_over_draw_ty, game_over_draw_message.
  by rewrite !has_type_cons, has_type_board.
Qed.

Lemma frame_ok_error text : frame_ok (error_frame text) = true.
Proof. done. Qed.

(** The message of an accepted move. *)
Lemma frame_ok_move_message g uid position i :
  game_ok g → accepts g uid position = Some i →
  frame_ok (move_message g uid position i) = true.
Proof.
  intros Hg Hacc. pose proof (game_ok_played g uid position i Hg Hacc) as [Hb _].
  pose proof Hacc as (_ & _ & Hi & _)%accepts_Some.
  unfold move_message. destruct (list_find _ _) as [[k combo]|] eqn:Hfind.
  - apply frame_ok_game_over_win; [done|].
    apply list_find_Some in Hfind as (Hk & _). by eapply list_elem_of_lookup_2.
  - case_match; [by apply frame_ok_game_over_draw|].
    unfold symbol_for. by apply frame_ok_move_made with i.
Qed.

(** The messages of the two methods that write. *)
Lemma frame_ok_add_player w rc uid message :
  world_ok w → event_message (add_player_outcome w rc uid).1 = Some message →
  frame_ok message = true.
Proof.
  intros Hw. unfold add_player_outcome.
  destruct (games w !! rc) as [g|] eqn:Hg; [|done]. destruct (users w !! uid); [|done].
  destruct (joins g uid); [|done]. intros [= <-].
  apply frame_ok_player_joined. by destruct (world_ok_game w rc g Hw Hg).
Qed.

Lemma frame_ok_make_move w rc uid position message :
  world_ok w → event_message (make_move_outcome w rc uid position).1 = Some message →
  frame_ok message = true.
Proof.
  intros Hw. unfold make_move_outcome.
  destruct (games w !! rc) as [g|] eqn:Hg; [|done]. destruct (users w !! uid); [|done].
  destruct (accepts g uid position) as [i|] eqn:Hacc; [|done]. intros [= <-].
  eapply frame_ok_move_message; [|done]. by eapply world_ok_game.
Qed.

End messages.

(** ** The sockets keep their types *)

Section typed.
Context `{Libraries}.
Implicit Types (s : Server) (c : Consumer) (self group channel rc : string)
  (frame message : json) (ev : event) (evs : list event).

Lemma typed_same s s' : consumers s' = consumers s → typed s → typed s'.
Proof. unfold typed. by intros ->. Qed.

Lemma typed_alter s self (f : Consumer → Consumer) :
  (∀ c, Forall (λ v, frame_ok v = true) (sent c) →
        Forall (λ v, frame_ok v = true) (sent (f c))) →
  typed s → typed (set_consumers s (alter f self (consumers s))).
Proof.
  intros Hf Hs channel c'. cbn [consumers set_consumers].
  destruct (decide (self = channel)) as [<-|Hne].
  - rewrite lookup_alter_eq. intros (c & Hc & ->)%fmap_Some. by apply Hf, (Hs self).
  - rewrite lookup_alter_ne by done. apply Hs.
Qed.

Lemma typed_reply s self frame : frame_ok frame = true → typed s → typed (reply self frame s).
Proof.
  intros Hf. apply typed_alter. intros c Hc. simpl. apply Forall_app. by repeat constructor.
Qed.

Lemma typed_shut s self : typed s → typed (shut self s).
Proof. by apply typed_alter. Qed.

(** A new instance has been sent nothing. *)
Lemma typed_insert s self c :
  sent c = [] → typed s → typed (set_consumers s (<[self := c]> (consumers s))).
Proof.
  intros Hc Hs. apply map_Forall_insert_2; [|done]. rewrite Hc. constructor.
Qed.

Lemma typed_broadcast s group message :
  frame_ok message = true → typed s → typed (broadcast group message s).
Proof.
  intros Hm Hs channel c'. rewrite lookup_broadcast. intros (c & Hc & ->)%fmap_Some.
  pose proof (Hs channel c Hc). case_decide; [|done].
  simpl. apply Forall_app. by repeat constructor.
Qed.

Lemma typed_published s group (outcome : Result (option json) * World) :
  (∀ message, event_message outcome.1 = Some message → frame_ok message = true) →
  typed s → typed (published group outcome s).
Proof.
  intros Hm Hs. unfold published. destruct outcome.1 as [e|game_state]; [done|].
  destruct (message_of game_state) as [message|] eqn:Heq; [|done].
  apply typed_broadcast; [by apply Hm|done].
Qed.

Lemma typed_greeted s self rc : world_ok (db s) → typed s → typed (greeted self rc s).
Proof.
  intros Hw Hs. unfold greeted. destruct (games (db s) !! rc) as [g|] eqn:Hg; [|done].
  apply typed_reply; [|done]. apply frame_ok_game_state.
  by destruct (world_ok_game _ _ _ Hw Hg).
Qed.

Lemma typed_connect_outcome s self rc query_string :
  world_ok (db s) → typed s → typed (connect_outcome self rc query_string s).2.
Proof.
  intros Hw Hs. unfold connect_outcome, connect_result, refused, registered.
  repeat case_match; cbn [snd]; try (by apply (typed_insert s)).
  apply typed_published; [intros ?; by apply frame_ok_add_player|].
  apply typed_greeted; [by apply world_ok_add_player_outcome|]. by apply (typed_insert s).
Qed.

Lemma typed_received s self text_data :
  world_ok (db s) → typed s → typed (received self text_data s).
Proof.
  intros Hw Hs. unfold received, received_by, complained. repeat case_match; try done.
  - by apply typed_reply.
  - by apply typed_reply.
  - apply typed_published; [intros ?; by apply frame_ok_make_move|done].
Qed.

Lemma typed_departed s self : typed s → typed (departed self s).
Proof. intros Hs. unfold departed. case_match; [|done]. by apply typed_shut. Qed.

(** An event keeps the sockets typed. *)
Lemma next_typed s ev : server_ok s → enabled ev s → typed s → typed (next ev s).
Proof.
  intros Hs Hen Ht. rewrite next_enabled by done. pose proof (server_ok_world s Hs).
  destruct ev; [by apply typed_connect_outcome|by apply typed_received|by apply typed_departed].
Qed.

(** Every frame is a message of the code: whatever sockets
    connect, send frames and disconnect, every frame on every socket is
    a dictionary of one of the six types of [sent_types]: a snapshot,
    [player_joined], [move_made], the two forms of [game_over], each
    with a board of nine cells over [-XO], or an error frame; in all of
    them every name of a player is [null], and the position of
    [move_made] is an integer from 0 to 8 or a boolean. *)
Theorem frames_well_typed evs s :
  server_ok s → feasible evs s → typed s → typed (next_all evs s).
Proof.
  revert s. induction evs as [|ev evs IH]; intros s Hs; [done|].
  intros [Hen Hrest] Ht. apply IH; [by apply next_ok|done|by apply next_typed].
Qed.

End typed.

(** ** The types of the code against the documented ones *)

Section documented.
Implicit Types (v : json) (t : ty) (text : string).

(** The error frames are not documented messages: they have no
    [action]. *)
Lemma error_frame_undocumented text : documented (error_frame text) = false.
Proof. done. Qed.

(** Nor is a [move_made] that echoes a boolean. *)
Lemma boolean_echo_undocumented (x y : bool) g :
  documented (move_made_message (JBool x) (symbol_of y) None g) = false.
Proof.
  unfold documented, documented_types, messages. cbn [existsb app].
  unfold move_made_message. by destruct y.
Qed.

End documented.

(** ** The theorem at work *)

Lemma frames_well_typed_witness : typed (next_all both_connected quiet_server).
Proof. apply frames_well_typed; by_compute. Defined.
