(* ===== verification/Replay.v ===== *)
(** * The board is the replay of the recorded moves

    [make_move] writes a move twice: as a row of [GameMove] and as a
    mark on [Game.board] (src/game/consumers.py:147-158).  This file
    states what ties the two together and shows that every handler
    keeps it: the board of a game is what its recorded moves give when
    they are played in order on the empty board, the recorded moves of
    a game are made by its two players in turn, the first player first,
    and no cell is recorded twice.  [game_history]
    (src/game/views.py:104-130) hands out the recorded moves, so a
    client can rebuild every board from the history. *)

From stdpp Require Import base option list gmap strings relations.
From Stdlib Require Import Ascii.
From S2P Require Import Prelude Monad Json Board Models Wellformed Consumers Preservation Views Gateway.

#[local] Set Warnings "-clear-no-such-hyp".
#[local] Open Scope Z_scope.

(** The cells after a recorded move is played: X for a move of the
    first player, O for a move of anybody else, as [symbol] in
    [make_move]. *)
Definition place (p1 : Z) (cells : list ascii) (m : GameMove) : list ascii :=
  <[Z.to_nat (move_position m) := symbol_of (bool_decide (move_player m = p1))]> cells.

(** The cells after the recorded moves are played in order on the
    empty board. *)
Definition replay (p1 : Z) (ms : list GameMove) : list ascii :=
  foldl (place p1) (board_list empty_board) ms.

(** The player of the move number [n] of a game, counting from 0. *)
Definition mover (first second : Z) (n : nat) : Z :=
  if Nat.even n then first else second.

(** The moves are made in turn, the first player first. *)
Fixpoint alternates (first second : Z) (ms : list GameMove) : Prop :=
  match ms with
  | [] => True
  | m :: ms' => move_player m = first ∧ alternates second first ms'
  end.

(** What ties the recorded moves of a game to its row. *)
Definition log_ok (w : World) (rc : string) (g : Game) : Prop :=
  board_list (board g) = replay (player1 g) (moves_of w rc) ∧
  from_option (λ p2, alternates (player1 g) p2 (moves_of w rc))
              (moves_of w rc = []) (player2 g) ∧
  NoDup (move_position <$> moves_of w rc) ∧
  Forall (λ m, 0 ≤ move_position m ≤ 8) (moves_of w rc).

(** The database is well formed and every board is the replay of its
    recorded moves. *)
Definition history_ok (w : World) : Prop :=
  world_ok w ∧ map_Forall (log_ok w) (games w).

(** One effect after another. *)
Definition effects : World → World → Prop := rtc effect.

(** Alice and bob connect; alice plays the centre, bob the corner. *)
Definition two_moves : list event :=
  both_connected ++
  [ Receive "ch.alice" (move_text "4"); Receive "ch.bob" (move_text "0") ].

#[export] Instance alternates_dec first second ms : Decision (alternates first second ms).
Proof. revert first second. induction ms; simpl; intros; apply _. Defined.
#[export] Instance log_ok_dec w rc g : Decision (log_ok w rc g).
Proof. unfold log_ok. destruct (player2 g); simpl; apply _. Defined.
#[export] Instance history_ok_dec w : Decision (history_ok w).
Proof. unfold history_ok. apply _. Defined.

(** ** Replaying *)

Section replay.
Implicit Types (ms : list GameMove) (m : GameMove) (first second : Z).

Lemma replay_snoc (p1 : Z) ms m : replay p1 (ms ++ [m]) = place p1 (replay p1 ms) m.
Proof. unfold replay. by rewrite foldl_app. Qed.

Lemma replay_length (p1 : Z) ms : length (replay p1 ms) = 9%nat.
Proof.
  induction ms as [|m ms IH] using rev_ind; [done|].
  rewrite replay_snoc. unfold place. by rewrite length_insert.
Qed.

Lemma symbol_of_filled b : symbol_of b ≠ "-"%char.
Proof. by destruct b. Qed.

(** A cell a recorded move names holds a mark. *)
Lemma replay_marked (p1 : Z) ms m :
  m ∈ ms → 0 ≤ move_position m ≤ 8 →
  ∃ c, replay p1 ms !! Z.to_nat (move_position m) = Some c ∧ c ≠ "-"%char.
Proof.
  intros Hin Hpos. induction ms as [|m' ms IH] using rev_ind; [by apply elem_of_nil in Hin|].
  rewrite replay_snoc. unfold place.
  destruct (decide (Z.to_nat (move_position m') = Z.to_nat (move_position m))) as [->|Hne].
  - rewrite list_lookup_insert_eq by (rewrite replay_length; lia).
    eexists. split; [done|]. apply symbol_of_filled.
  - rewrite list_lookup_insert_ne by done. apply IH.
    apply elem_of_app in Hin as [?|Hin]; [done|]. apply list_elem_of_singleton in Hin.
    congruence.
Qed.

Lemma mover_S first second n : mover first second (S n) = mover second first n.
Proof. unfold mover. rewrite Nat.even_succ, <- Nat.negb_even. by destruct (Nat.even n). Qed.

(** One more move keeps the turns when it is made by the player whose
    turn it is. *)
Lemma alternates_snoc first second ms m :
  alternates first second (ms ++ [m]) ↔
  alternates first second ms ∧ move_player m = mover first second (length ms).
Proof.
  revert first second. induction ms as [|m' ms IH]; intros first second; simpl.
  - unfold mover. simpl. naive_solver.
  - rewrite IH, mover_S. naive_solver.
Qed.

End replay.

(** ** Every effect keeps the tie *)

Section effect.
Implicit Types (w : World) (g : Game) (rc : string) (uid : Z) (i : nat)
  (position : json).

Lemma moves_of_record_move w g uid i rc :
  moves_of (record_move w g uid i) rc =
    moves_of w rc ++
    (if decide (room_code g = rc)
     then [mkGameMove (room_code g) uid (Z.of_nat i)] else []).
Proof.
  unfold record_move. rewrite moves_of_set_games, moves_of_app. f_equal.
Qed.

(** The number of marks tells whose turn it is. *)
Lemma marks_parity b :
  Forall cell_ok (board_list b) →
  (balanced b true → Nat.even (marks b) = true) ∧
  (balanced b false → Nat.even (marks b) = false).
Proof.
  intros Hb. rewrite (marks_count b Hb). unfold balanced. split; intros ->.
  - rewrite Nat.add_0_r. apply Nat.even_spec. exists (count_symbol "O" b). lia.
  - rewrite <- Nat.negb_odd. apply negb_false_iff, Nat.odd_spec.
    exists (count_symbol "O" b). lia.
Qed.

(** The player an accepted move is made by is the one the count of
    recorded moves names. *)
Lemma accepted_mover w rc g uid position i p2 :
  world_ok w → games w !! rc = Some g → accepts g uid position = Some i →
  player2 g = Some p2 →
  uid = mover (player1 g) p2 (length (moves_of w rc)).
Proof.
  intros Hw Hg Hacc Hp2. pose proof (world_ok_game _ _ _ Hw Hg) as Hok.
  rewrite (world_ok_moves w rc g Hw Hg). unfold mover.
  destruct (marks_parity (board g)) as [Heven Hodd]; [by destruct Hok as [[_ ?] _]|].
  destruct (mover_cases g uid position i Hok Hacc) as (p2' & Hp2' & _ & Hcase).
  assert (p2' = p2) as -> by congruence.
  destruct Hcase as [(-> & _ & Hb)|(-> & _ & Hb)]; [by rewrite Heven|by rewrite Hodd].
Qed.

(** An accepted move keeps the tie of its game. *)
Lemma log_ok_record_move w rc g uid position i :
  world_ok w → games w !! rc = Some g → log_ok w rc g →
  accepts g uid position = Some i →
  log_ok (record_move w g uid i) rc (played g uid i).
Proof.
  intros Hw Hg (Hboard & Halt & Hnodup & Hrange) Hacc.
  pose proof (world_ok_game _ _ _ Hw Hg) as Hok.
  pose proof (world_ok_room_code _ _ _ Hw Hg) as Hrc.
  pose proof (mover_cell g uid position i Hacc) as Hcell.
  assert (i < 9)%nat as Hi.
  { rewrite <- (game_ok_length g Hok). by eapply lookup_lt_Some. }
  destruct (mover_cases g uid position i Hok Hacc) as (p2 & Hp2 & _ & _).
  unfold log_ok. rewrite moves_of_record_move, decide_True by done.
  rewrite board_played, board_list_join, player1_played, player2_played, Hp2.
  rewrite Hp2 in Halt. simpl in Halt |- *. split_and!.
  - rewrite replay_snoc. unfold place, cells_after, symbol_for. simpl.
    by rewrite Nat2Z.id, Hboard.
  - apply alternates_snoc. split; [done|]. simpl. by eapply accepted_mover.
  - rewrite fmap_app. apply NoDup_app. split; [done|]. split; [|apply NoDup_singleton].
    intros z Hz ->%list_elem_of_singleton.
    apply list_elem_of_fmap in Hz as (m & Hm & Hin). simpl in Hm.
    destruct (replay_marked (player1 g) _ m Hin) as (c & Hc & Hne); [lia|].
    rewrite <- Hm, Nat2Z.id, <- Hboard, Hcell in Hc. congruence.
  - apply Forall_app. split; [done|]. apply Forall_singleton. simpl. lia.
Qed.

(** The rows of other games are tied to the same moves as before. *)
Lemma log_ok_other w g uid i rc g' :
  room_code g ≠ rc → log_ok w rc g' → log_ok (record_move w g uid i) rc g'.
Proof.
  intros Hne. unfold log_ok.
  by rewrite moves_of_record_move, decide_False, app_nil_r by done.
Qed.

Lemma history_ok_record_move w rc g uid position i :
  history_ok w → games w !! rc = Some g → is_Some (users w !! uid) →
  accepts g uid position = Some i →
  history_ok (record_move w g uid i).
Proof.
  intros [Hw Hlog] Hg Hu Hacc. split; [by eapply world_ok_record_move|].
  pose proof (world_ok_room_code _ _ _ Hw Hg) as Hrc.
  intros rc' g'. cbn [record_move games set_games]. rewrite Hrc.
  destruct (decide (rc = rc')) as [<-|Hne].
  - rewrite lookup_insert_eq. intros [= <-]. eapply log_ok_record_move; eauto.
  - rewrite lookup_insert_ne by done. intros Hg'. apply log_ok_other; [congruence|].
    by apply Hlog.
Qed.

(** The second player joins a game without recorded moves. *)
Lemma history_ok_joined w rc g uid :
  history_ok w → games w !! rc = Some g → is_Some (users w !! uid) →
  joins g uid = true →
  history_ok (set_games w (<[room_code g := joined g uid]> (games w))).
Proof.
  intros [Hw Hlog] Hg Hu Hj. split; [by eapply world_ok_joined|].
  pose proof (world_ok_room_code _ _ _ Hw Hg) as Hrc.
  intros rc' g'. cbn [games set_games]. rewrite Hrc.
  destruct (decide (rc = rc')) as [<-|Hne]; [|rewrite lookup_insert_ne by done; apply Hlog].
  rewrite lookup_insert_eq. intros [= <-].
  destruct (Hlog rc g Hg) as (Hboard & Halt & Hnodup & Hrange).
  apply bool_decide_eq_true in Hj as [Hp2 _]. rewrite Hp2 in Halt. simpl in Halt.
  unfold log_ok. rewrite moves_of_set_games. simpl. rewrite Halt in *. done.
Qed.

Lemma history_ok_set_log w l : history_ok w → history_ok (set_log w l).
Proof. intros [Hw Hlog]. split; [by apply world_ok_set_log|done]. Qed.

Lemma effect_history w w' : history_ok w → effect w w' → history_ok w'.
Proof.
  intros Hw. destruct 1 as [|l|rc g uid Hg Hu Hj|rc g uid position i Hg Hu Hacc].
  - done.
  - by apply history_ok_set_log.
  - by eapply history_ok_joined.
  - by eapply history_ok_record_move.
Qed.

Lemma effects_history w w' : history_ok w → effects w w' → history_ok w'.
Proof. intros Hw. induction 1; eauto using effect_history. Qed.

(** The recorded moves are only appended to. *)
Lemma effect_moves w w' : effect w w' → moves w `prefix_of` moves w'.
Proof. destruct 1; simpl; [done|done|done|]. by apply prefix_app_r. Qed.

Lemma effects_moves w w' : effects w w' → moves w `prefix_of` moves w'.
Proof. induction 1 as [|w w' w'' H _ IH]; [done|]. etrans; [by apply effect_moves|done]. Qed.

Lemma moves_of_prefix w w' rc :
  moves w `prefix_of` moves w' → moves_of w rc `prefix_of` moves_of w' rc.
Proof. intros [ms Hms]. unfold moves_of. rewrite Hms, filter_app. by apply prefix_app_r. Qed.

End effect.

(** ** A database without recorded moves *)

Section fresh.
Implicit Types (w : World) (g : Game) (rc : string).

(** A board without marks is the empty board. *)
Lemma no_marks_empty b :
  length (board_list b) = 9%nat → marks b = 0%nat → board_list b = board_list empty_board.
Proof.
  intros Hlen Hmarks. apply count_by_zero in Hmarks.
  change (board_list empty_board) with (replicate 9 "-"%char).
  symmetry. apply replicate_as_Forall. split; [done|].
  eapply Forall_impl; [exact Hmarks|]. intros c Hc. unfold filled in Hc.
  apply negb_false_iff, bool_decide_eq_true in Hc. done.
Qed.

(** The row of a game without recorded moves is tied to them. *)
Lemma log_ok_no_moves w rc g :
  world_ok w → games w !! rc = Some g → moves_of w rc = [] → log_ok w rc g.
Proof.
  intros Hw Hg Hnil. pose proof (world_ok_moves w rc g Hw Hg) as Hmarks.
  unfold log_ok. rewrite Hnil in *. split_and!.
  - apply no_marks_empty; [|done]. eapply game_ok_length, world_ok_game; eauto.
  - by destruct (player2 g).
  - constructor.
  - constructor.
Qed.

Lemma history_ok_fresh w : world_ok w → moves w = [] → history_ok w.
Proof.
  intros Hw Hnil. split; [done|]. intros rc g Hg. apply log_ok_no_moves; [done..|].
  unfold moves_of. by rewrite Hnil.
Qed.

(** [create_game] keeps the tie: the new game has no recorded move. *)
Lemma history_ok_created w user rc :
  history_ok w → is_Some (users w !! pk user) → games w !! rc = None →
  history_ok (set_games w (<[rc := created_game rc user]> (games w))).
Proof.
  intros [Hw Hlog] Hu Hnone.
  pose proof (world_ok_created w user rc Hw Hu Hnone) as Hw'. split; [done|].
  intros rc' g'. cbn [games set_games]. destruct (decide (rc = rc')) as [<-|Hne].
  - rewrite lookup_insert_eq. intros [= <-]. apply log_ok_no_moves; [done|..].
    + cbn [games set_games]. by rewrite lookup_insert_eq.
    + rewrite moves_of_set_games. by apply world_ok_no_moves.
  - rewrite lookup_insert_ne by done. apply Hlog.
Qed.

End fresh.

(** ** The handlers *)

Section handlers.
Context `{Libraries}.
Implicit Types (s : Server) (ev : event) (evs : list event) (rc : string) (g : Game)
  (w : World) (cs : list call).

(** What a sequence of calls of the database methods does is one
    effect after another. *)
Lemma after_all_effects cs w : world_ok w → effects w (after_all cs w).
Proof.
  intros Hw. induction cs as [|c cs IH] using rev_ind; [apply rtc_refl|].
  rewrite after_all_snoc. eapply rtc_r; [exact IH|].
  apply perform_effect. by apply after_all_ok.
Qed.

(** So is what an event does to the database. *)
Lemma next_effects s ev : server_ok s → enabled ev s → effects (db s) (db (next ev s)).
Proof.
  intros Hs Hen. rewrite next_enabled by done.
  destruct ev as [self rc q|self text_data|self].
  - unfold connect_outcome, connect_result, connected_by, greeted, refused, logged.
    repeat case_match; cbn [snd reply db set_consumers set_db registered];
      rewrite ?db_published; try apply rtc_refl; apply rtc_once;
      first [apply effect_log|apply add_player_outcome_effect].
  - unfold received, received_by, complained, logged.
    repeat case_match; cbn [reply db set_consumers set_db]; rewrite ?db_published;
      try apply rtc_refl; apply rtc_once;
      first [apply effect_log|apply make_move_outcome_effect].
  - unfold departed. case_match; apply rtc_refl.
Qed.

Lemma next_all_effects evs s :
  server_ok s → feasible evs s → effects (db s) (db (next_all evs s)).
Proof.
  revert s. induction evs as [|ev evs IH]; intros s Hs; [intros _; apply rtc_refl|].
  intros [Hen Hrest]. cbn [next_all foldl]. etrans; [by apply next_effects|].
  apply IH; [by apply next_ok|done].
Qed.

(** C15: whatever sockets connect, send frames and disconnect, the
    board of every game is what its recorded moves give when they are
    played in order on the empty board, X for the first player and O
    for the second; the recorded moves of a game are made by its two
    players in turn, the first player first; no cell is recorded twice
    and every recorded position is a cell of the board. *)
Theorem board_is_replay evs s rc g :
  server_ok s → history_ok (db s) → feasible evs s →
  games (db (next_all evs s)) !! rc = Some g →
  board_list (board g) = replay (player1 g) (moves_of (db (next_all evs s)) rc) ∧
  (∀ p2, player2 g = Some p2 →
         alternates (player1 g) p2 (moves_of (db (next_all evs s)) rc)) ∧
  NoDup (move_position <$> moves_of (db (next_all evs s)) rc) ∧
  Forall (λ m, 0 ≤ move_position m ≤ 8) (moves_of (db (next_all evs s)) rc).
Proof.
  intros Hs Hh Hevs Hg.
  pose proof (effects_history _ _ Hh (next_all_effects evs s Hs Hevs)) as [_ Hlog].
  destruct (Hlog rc g Hg) as (Hboard & Halt & Hnodup & Hrange).
  split_and!; try done. intros p2 Hp2. by rewrite Hp2 in Halt.
Qed.

(** The recorded moves of a game are only appended to: whatever
    events follow, the moves recorded before are the first of the
    moves recorded after, in the same order. *)
Theorem log_append_only evs s rc :
  server_ok s → feasible evs s →
  moves_of (db s) rc `prefix_of` moves_of (db (next_all evs s)) rc.
Proof.
  intros Hs Hevs. apply moves_of_prefix, effects_moves. by apply next_all_effects.
Qed.

End handlers.

Lemma board_is_replay_witness :
  board_list (board (played (played (joined pending_game 2) 1 4) 2 0)) =
    replay 1 (moves_of (db (next_all two_moves quiet_server)) room) ∧
  (∀ p2, player2 (played (played (joined pending_game 2) 1 4) 2 0) = Some p2 →
         alternates 1 p2 (moves_of (db (next_all two_moves quiet_server)) room)) ∧
  NoDup (move_position <$> moves_of (db (next_all two_moves quiet_server)) room) ∧
  Forall (λ m, 0 ≤ move_position m ≤ 8)
         (moves_of (db (next_all two_moves quiet_server)) room).
Proof.
  apply (board_is_replay two_moves quiet_server room
           (played (played (joined pending_game 2) 1 4) 2 0)); by_compute.
Defined.

Lemma log_append_only_witness :
  moves_of (db (next_all both_connected quiet_server)) room `prefix_of`
  moves_of (db (next_all [Receive "ch.alice" (move_text "4"); Receive "ch.bob" (move_text "0")]
                         (next_all both_connected quiet_server))) room.
Proof.
  apply (log_append_only [Receive "ch.alice" (move_text "4"); Receive "ch.bob" (move_text "0")]
           (next_all both_connected quiet_server) room); by_compute.
Defined.
