(* ===== verification/Workers.v ===== *)
(** * Several workers on one database

    The theorems on the database methods take a call to be one step.
    That holds in one server process, where
    [database_sync_to_async] runs the methods one at a time in one
    thread.  The methods themselves take no lock and open no
    transaction: each reads the row of the game, decides, and writes
    the row back from its own copy.  This file cuts
    [add_player_to_game] and [make_move] where they stop reading and
    start writing (the turn switch of [make_move] reads the second
    player once more; that read is taken with the writes), lets
    several workers advance their calls step by step on one database,
    and shows both sides: a schedule that lets every call run to its
    end before the next starts is the sequence of calls of
    [Preservation], and a schedule that does not can lose a move. *)

From stdpp Require Import base option list gmap strings.
From Stdlib Require Import Ascii.
From S2P Require Import Prelude Monad Json Board Models Wellformed Consumers Preservation.

#[local] Set Warnings "-clear-no-such-hyp,-register-all".

(** ** A method between two accesses to the database *)

(** What is left of a call: its result, or a step on the database that
    gives what is left after it. *)
Inductive Proc : Type :=
| Return (r : Result (option json))
| Query (step : M Proc).

(** The [except] clauses of a method around the statements [m] of its
    [try] block. *)
Definition within (tag : string) (m : M Proc) : M Proc :=
  try_except m (λ e, r ← handle_errors tag e; mret (Return (Ok r))).

(** A call run to its end with nothing in between. *)
Fixpoint finish (p : Proc) : M (option json) :=
  match p with
  | Return r => lift r
  | Query step =>
      MkST (λ w, match run step w with
                 | (Ok p', w') => run (finish p') w'
                 | (Raise e, w') => (Raise e, w')
                 end)
  end.

(** The number of steps of a call started on [w] with nothing in
    between. *)
Fixpoint queries (p : Proc) (w : World) : nat :=
  match p with
  | Return _ => 0
  | Query step =>
      match run step w with
      | (Ok p', w') => S (queries p' w')
      | (Raise _, _) => 1
      end
  end.

(** [get_game_state] only reads. *)
Definition get_game_state_proc (rc : string) : Proc :=
  Query (r ← get_game_state rc; mret (Return (Ok r))).

(** The statements of [add_player_to_game] that read: the rows are
    fetched and the test made; the result is the copy of the row to
    save with the two users, or nothing when the caller does not
    join. *)
Definition add_player_reads (rc : string) (uid : Z) : M (option (Game * User * User)) :=
  game ← Game_objects_get rc;
  user ← User_objects_get uid;
  p2 ← related_optional (player2 game);
  if p2 is None then
    p1 ← related (player1 game);
    if negb (model_eq p1 user) then
      let game := set_player2 game (Some (pk user)) in
      let game := set_status game IN_PROGRESS in
      let game := set_current_turn game (Some (pk p1)) in
      mret (Some (game, user, p1))
    else mret None
  else mret None.

(** The statements that write: the copy is saved. *)
Definition add_player_writes (locals : Game * User * User) : M (option json) :=
  let '(game, user, p1) := locals in
  save game;;
  mret (Some (game_message_event
                (player_joined_message (username user) (username p1) game))).

(** What is left of a method once it has read: its second step, inside
    the same [try], or its result. *)
Definition then_write {A : Type} (tag : string) (writes : A → M (option json))
    (locals : option A) : Proc :=
  match locals with
  | Some l => Query (within tag (r ← writes l; mret (Return (Ok r))))
  | None => Return (Ok None)
  end.

Definition add_player_to_game_proc (rc : string) (uid : Z) : Proc :=
  Query (within "Add Player Error"
    (locals ← add_player_reads rc uid;
     mret (then_write "Add Player Error" add_player_writes locals))).

(** The statements of [make_move] that read: the rows are fetched, the
    guard tested and the copy of the board updated. *)
Definition make_move_reads (rc : string) (uid : Z) (position : json) :
    M (option (Game * User * User * ascii * list ascii * Z)) :=
  game ← Game_objects_get rc;
  user ← User_objects_get uid;
  rejected ← move_rejected game user position;
  if rejected : bool then mret None else
  p1 ← related (player1 game);
  let symbol := symbol_of (model_eq user p1) in
  cells ← lift (subscript_assign (board_list (board game)) position symbol);
  let game := set_board game (join cells) in
  stored ← lift (as_index position);
  mret (Some (game, user, p1, symbol, cells, stored)).

(** The statements that write: the move is recorded and the copy of
    the row saved. *)
Definition make_move_writes (position : json)
    (locals : Game * User * User * ascii * list ascii * Z) : M (option json) :=
  let '(game, user, p1, symbol, cells, stored) := locals in
  GameMove_objects_create game user stored;;
  conclude_move game user p1 position symbol cells.

Definition make_move_proc (rc : string) (uid : Z) (position : json) : Proc :=
  Query (within "Make Move Error"
    (locals ← make_move_reads rc uid position;
     mret (then_write "Make Move Error" (make_move_writes position) locals))).

Definition proc_of (c : call) : Proc :=
  match c with
  | GetGameState rc => get_game_state_proc rc
  | AddPlayerToGame rc uid => add_player_to_game_proc rc uid
  | MakeMove rc uid position => make_move_proc rc uid position
  end.

(** ** Workers *)

(** The database and what is left of the call of each worker. *)
Record Cluster : Type := mkCluster {
  shared : World;
  workers : list Proc;
}.

(** The workers at the start of their calls. *)
Definition start (cs : list call) (w : World) : Cluster := mkCluster w (proc_of <$> cs).

(** Worker [i] makes its next step; [None] when it has none. *)
Definition advance (i : nat) (k : Cluster) : option Cluster :=
  match workers k !! i with
  | Some (Query step) =>
      let (r, w') := run step (shared k) in
      Some (mkCluster w' (<[i := match r with Ok p' => p' | Raise e => Return (Raise e) end]>
                            (workers k)))
  | Some (Return _) | None => None
  end.

(** A schedule: the workers that step, in order. *)
Fixpoint advance_all (schedule : list nat) (k : Cluster) : option Cluster :=
  match schedule with
  | [] => Some k
  | i :: schedule' => k' ← advance i k; advance_all schedule' k'
  end.

(** The schedule that runs the calls one after the other, each to its
    end: worker [i] steps as often as its call has steps on the
    database the workers before it left. *)
Fixpoint serial_from (i : nat) (cs : list call) (w : World) : list nat :=
  match cs with
  | [] => []
  | c :: cs' => replicate (queries (proc_of c) w) i ++ serial_from (S i) cs' (after c w)
  end.

Definition serial (cs : list call) (w : World) : list nat := serial_from 0 cs w.

(** What the calls answer when each runs to its end before the next
    starts. *)
Fixpoint answers (cs : list call) (w : World) : list (Result (option json)) :=
  match cs with
  | [] => []
  | c :: cs' => (run (perform c) w).1 :: answers cs' (after c w)
  end.

(** The schedule of two workers that both read before either writes. *)
Definition racing : list nat := [0; 1; 0; 1].

(** ** A call run to its end is the method *)

Section finish.
Implicit Types (w : World) (p : Proc) (tag rc : string) (uid : Z) (c : call).

Lemma run_finish_query (step : M Proc) w :
  run (finish (Query step)) w =
    match run step w with
    | (Ok p', w') => run (finish p') w'
    | (Raise e, w') => (Raise e, w')
    end.
Proof. done. Qed.

(** A step inside a [try] and what follows it in the same [try] make
    up the [try]. *)
Lemma finish_within {A} tag (m : M A) (k : A → Proc) (body : A → M (option json))
    (whole : M (option json)) w :
  (∀ x w', run (finish (k x)) w' = run (try_except (body x) (handle_errors tag)) w') →
  run whole w = run (x ← m; body x) w →
  run (finish (Query (within tag (x ← m; mret (k x))))) w =
    run (try_except whole (handle_errors tag)) w.
Proof.
  intros Hk Hwhole. rewrite (run_try_ext whole _ _ _ Hwhole).
  rewrite run_finish_query. unfold within. rewrite !run_try, !run_bind.
  destruct (run m w) as [[e|x] w'].
  - rewrite run_bind. by destruct (run (handle_errors tag e) w') as [[e'|r] w''].
  - rewrite run_ret, Hk. by rewrite run_try.
Qed.

(** The writes of a method are the end of its [try]. *)
Lemma finish_then_write {A} tag (writes : A → M (option json)) (locals : option A) w :
  run (finish (then_write tag writes locals)) w =
    run (try_except (match locals with Some l => writes l | None => mret None end)
                    (handle_errors tag)) w.
Proof.
  destruct locals as [l|]; [|done]. apply (finish_within _ _ _ (λ r, mret r)); [done|].
  by rewrite run_bind_ret.
Qed.

Lemma finish_add_player rc uid w :
  run (finish (add_player_to_game_proc rc uid)) w = run (add_player_to_game rc uid) w.
Proof.
  unfold add_player_to_game_proc, add_player_to_game.
  eapply finish_within; [intros; apply finish_then_write|].
  unfold add_player_to_game_body, add_player_reads. rewrite run_bind_assoc.
  apply run_bind_ext. intros game w1. rewrite run_bind_assoc.
  apply run_bind_ext. intros user w2. rewrite run_bind_assoc.
  apply run_bind_ext. intros [p2|] w3; [by rewrite run_ret_bind|].
  rewrite run_bind_assoc. apply run_bind_ext. intros p1 w4.
  destruct (negb (model_eq p1 user)); by rewrite run_ret_bind.
Qed.

Lemma finish_make_move rc uid position w :
  run (finish (make_move_proc rc uid position)) w = run (make_move rc uid position) w.
Proof.
  unfold make_move_proc, make_move.
  eapply finish_within; [intros; apply finish_then_write|].
  unfold make_move_body, make_move_reads. rewrite run_bind_assoc.
  apply run_bind_ext. intros game w1. rewrite run_bind_assoc.
  apply run_bind_ext. intros user w2. rewrite run_bind_assoc.
  apply run_bind_ext. intros [|] w3; [by rewrite run_ret_bind|].
  rewrite run_bind_assoc. apply run_bind_ext. intros p1 w4. rewrite run_bind_assoc.
  apply run_bind_ext. intros cells w5. rewrite run_bind_assoc.
  apply run_bind_ext. intros stored w6. by rewrite run_ret_bind.
Qed.

Lemma finish_proc_of c w : run (finish (proc_of c)) w = run (perform c) w.
Proof.
  destruct c as [rc|rc uid|rc uid position];
    [|apply finish_add_player|apply finish_make_move].
  cbn [proc_of perform]. unfold get_game_state_proc. rewrite run_finish_query, run_bind.
  by destruct (run (get_game_state rc) w) as [[e|r] w'].
Qed.

End finish.

(** ** Schedules *)

Section schedules.
Implicit Types (w : World) (p : Proc) (k : Cluster) (ws : list Proc) (n : nat)
  (cs : list call) (schedule : list nat).

Lemma advance_all_app schedule schedule' k :
  advance_all (schedule ++ schedule') k = advance_all schedule k ≫= advance_all schedule'.
Proof.
  revert k. induction schedule as [|i schedule IH]; intros k; [done|].
  simpl. destruct (advance i k) as [k'|]; [apply IH|done].
Qed.

Lemma advance_query n w ws step :
  ws !! n = Some (Query step) →
  advance n (mkCluster w ws) =
    Some (mkCluster (run step w).2
            (<[n := match (run step w).1 with
                    | Ok p' => p'
                    | Raise e => Return (Raise e)
                    end]> ws)).
Proof. intros Hn. unfold advance. cbn [workers shared]. rewrite Hn. by destruct (run step w). Qed.

(** A step inside a [try] that does not raise. *)
Lemma advance_within n w ws tag (m : M Proc) p' w' :
  ws !! n = Some (Query (within tag m)) → run m w = (Ok p', w') →
  advance n (mkCluster w ws) = Some (mkCluster w' (<[n := p']> ws)).
Proof.
  intros Hn Hm. erewrite advance_query by done. unfold within.
  by erewrite run_try_ok by done.
Qed.

Lemma advance_reads {A} n w ws tag (reads : M (option A)) writes locals w' :
  ws !! n = Some (Query (within tag (l ← reads; mret (then_write tag writes l)))) →
  run reads w = (Ok locals, w') →
  advance n (mkCluster w ws) = Some (mkCluster w' (<[n := then_write tag writes locals]> ws)).
Proof.
  intros Hn Hm. eapply advance_within; [done|]. by erewrite run_bind_ok, run_ret by done.
Qed.

Lemma advance_writes {A} n w ws tag (writes : A → M (option json)) l r w' :
  ws !! n = Some (then_write tag writes (Some l)) →
  run (writes l) w = (Ok r, w') →
  advance n (mkCluster w ws) = Some (mkCluster w' (<[n := Return (Ok r)]> ws)).
Proof.
  intros Hn Hm. eapply advance_within; [done|]. by erewrite run_bind_ok, run_ret by done.
Qed.

(** A worker that steps as often as its call has steps ends the call
    as [finish] does. *)
Lemma advance_to_the_end p : ∀ n w ws,
  ws !! n = Some p →
  advance_all (replicate (queries p w) n) (mkCluster w ws) =
    Some (mkCluster (run (finish p) w).2 (<[n := Return (run (finish p) w).1]> ws)).
Proof.
  intros n w. remember (queries p w) as q eqn:Hq.
  revert p w Hq. induction q as [|q IH]; intros p w Hq ws Hn.
  - destruct p as [r|step]; [|simpl in Hq; by destruct (run step w) as [[?|?] ?]].
    simpl. by rewrite list_insert_id.
  - destruct p as [r|step]; [done|]. simpl in Hq. rewrite run_finish_query.
    cbn [replicate advance_all]. rewrite (advance_query _ _ _ step) by done.
    assert (n < length ws) as Hlt by by eapply lookup_lt_Some.
    destruct (run step w) as [[e|p'] w']; cbn [fst snd mbind option_bind].
    + by injection Hq as ->.
    + injection Hq as Hq. rewrite (IH p' w' Hq) by by apply list_lookup_insert_eq.
      by rewrite list_insert_insert_eq.
Qed.

(** The calls from worker [length ended] on, one after the other. *)
Lemma serial_from_sequence cs : ∀ w (ended : list Proc),
  advance_all (serial_from (length ended) cs w) (mkCluster w (ended ++ (proc_of <$> cs))) =
    Some (mkCluster (after_all cs w) (ended ++ (Return <$> answers cs w))).
Proof.
  induction cs as [|c cs IH]; intros w ended; [done|].
  cbn [serial_from fmap list_fmap answers]. rewrite advance_all_app.
  rewrite (advance_to_the_end (proc_of c)) by by apply list_lookup_middle.
  rewrite finish_proc_of. cbn [mbind option_bind].
  rewrite insert_app_r_alt, Nat.sub_diag by done. cbn [insert list_insert].
  specialize (IH (after c w) (ended ++ [Return (run (perform c) w).1])).
  rewrite length_app, Nat.add_1_r, <-!(assoc_L (++)) in IH. apply IH.
Qed.

End schedules.

(** ** Two calls that read before either writes *)

Section race.
Context (w : World) (rc : string) (g : Game) (p1 : User).
Context (Hw : world_ok w) (Hg : games w !! rc = Some g).
Context (Hp1 : users w !! player1 g = Some p1).
Implicit Types (uid : Z) (u : User) (position : json) (i : nat).

Lemma run_add_player_reads uid u :
  users w !! uid = Some u → joins g uid = true →
  run (add_player_reads rc uid) w = (Ok (Some (joined g uid, u, p1)), w).
Proof.
  intros Hu [Hp2 Hne]%joins_true. pose proof (world_ok_pk _ _ _ Hw Hu) as Hpk.
  pose proof (world_ok_pk _ _ _ Hw Hp1) as Hk1.
  unfold add_player_reads. run_rows. rewrite Hp2.
  erewrite run_bind_ok by apply run_related_optional_None. cbv beta iota.
  erewrite run_bind_ok by (by apply run_related).
  unfold model_eq, joined. rewrite Hk1, Hpk.
  by rewrite (bool_decide_eq_false_2 (player1 g = uid)) by done.
Qed.

(** The copy is saved over whatever the row holds by then. *)
Lemma run_add_player_writes uid u w' :
  run (add_player_writes (joined g uid, u, p1)) w' =
    (Ok (Some (game_message_event (player_joined_message None None (joined g uid)))),
     set_games w' (<[room_code g := joined g uid]> (games w'))).
Proof. unfold add_player_writes. by rewrite run_bind, run_save, run_ret. Qed.

Lemma run_make_move_reads uid u position i :
  users w !! uid = Some u → accepts g uid position = Some i →
  run (make_move_reads rc uid position) w =
    (Ok (Some (set_board g (join (cells_after g uid i)), u, p1, symbol_for g uid,
               cells_after g uid i, Z.of_nat i)), w).
Proof.
  intros Hu Hacc. pose proof (world_ok_pk _ _ _ Hw Hu) as Hpk.
  pose proof (world_ok_pk _ _ _ Hw Hp1) as Hk1.
  pose proof Hacc as (Hs & Ht & Hpi & Hcell)%accepts_Some.
  unfold make_move_reads. run_rows.
  erewrite run_bind_ok by (by eapply run_move_passes). cbv beta iota.
  erewrite run_bind_ok by (by apply run_related).
  unfold model_eq. rewrite Hpk, Hk1. fold (symbol_for g uid).
  rewrite run_bind, run_lift, (subscript_assign_position _ _ i), setitem_lt
    by (done || by eapply lookup_lt_Some).
  fold (cells_after g uid i).
  by rewrite run_bind, run_lift, (position_index_as_index _ i), run_ret by done.
Qed.

(** The move is recorded in the table as it is by then, and the copy
    is saved over whatever the row holds by then. *)
Lemma run_make_move_writes uid u position i w' :
  users w !! uid = Some u → accepts g uid position = Some i → users w' = users w →
  run (make_move_writes position
         (set_board g (join (cells_after g uid i)), u, p1, symbol_for g uid,
          cells_after g uid i, Z.of_nat i)) w' =
    (Ok (Some (game_message_event (move_message g uid position i))),
     record_move w' g uid i).
Proof.
  intros Hu Hacc Hus. pose proof (world_ok_pk _ _ _ Hw Hu) as Hpk.
  pose proof (world_ok_pk _ _ _ Hw Hp1) as Hk1.
  pose proof Hacc as (Hs & Ht & _)%accepts_Some.
  destruct (in_progress_turn g uid) as (p2 & Hp2 & _);
    [eapply game_ok_in_progress, Hs; by eapply world_ok_game|done|].
  destruct (world_ok_player2 _ _ _ _ Hw Hg Hp2) as (u2 & Hu2 & Hk2).
  unfold make_move_writes. rewrite run_bind, run_GameMove_create, Hpk.
  cbn [room_code set_board].
  erewrite run_conclude_move; [done|by simpl; rewrite Hus|done|done| |].
  - exists p2, u2. simpl. by rewrite Hus.
  - eapply game_ok_length. by eapply world_ok_game.
Qed.

(** Two moves recorded against one row leave the table one move ahead
    of the board. *)
Lemma record_twice_not_ok uid position position' i j :
  accepts g uid position = Some i → accepts g uid position' = Some j →
  ¬ world_ok (record_move (record_move w g uid i) g uid j).
Proof.
  intros Hi Hj Hw'. pose proof (world_ok_room_code _ _ _ Hw Hg) as Hrc.
  pose proof (world_ok_moves _ _ _ Hw Hg) as Hlen.
  pose proof (world_ok_moves _ rc (played g uid j) Hw') as Hlen'.
  unfold record_move in Hlen'. rewrite Hrc in Hlen'. cbn [games set_games] in Hlen'.
  rewrite lookup_insert_eq, moves_of_set_games, moves_of_app in Hlen'.
  rewrite moves_of_set_games, moves_of_app in Hlen'.
  rewrite !filter_cons_True, !filter_nil, !length_app in Hlen' by done.
  rewrite board_played, (marks_after g uid position' j) in Hlen'
    by (done || by eapply world_ok_game).
  specialize (Hlen' eq_refl). simpl in Hlen'. lia.
Qed.

End race.

(** ** Theorems *)

(** The two models of the database methods agree on the schedules in
    which the workers take their turns one after the other: [serial]
    runs to its end, the database it leaves is the one the calls leave
    when each is one step ([after_all]), every worker has the answer
    its call gives in that sequence, and the database is well formed
    when it was. *)
Lemma serial_schedule_is_sequence (cs : list call) (w : World) :
  advance_all (serial cs w) (start cs w) =
    Some (mkCluster (after_all cs w) (Return <$> answers cs w)) ∧
  (world_ok w → world_ok (after_all cs w)).
Proof. split; [apply (serial_from_sequence cs w [])|apply after_all_ok]. Qed.

(** C9: nothing in [make_move] keeps two workers apart.  When two
    moves of the player whose turn it is are both read before either
    is written, both are accepted and both are broadcast; both are
    recorded, the row holds the mark of the one written last only, and
    the database is no longer well formed: the table of moves is one
    move ahead of the board. *)
Theorem unserialized_moves_both_accepted (w : World) (rc : string) (g : Game)
    (uid : Z) (u : User) (position position' : json) (i j : nat) :
  world_ok w → games w !! rc = Some g → users w !! uid = Some u →
  accepts g uid position = Some i → accepts g uid position' = Some j →
  advance_all racing (start [MakeMove rc uid position; MakeMove rc uid position'] w) =
    Some (mkCluster (record_move (record_move w g uid i) g uid j)
            [Return (Ok (Some (game_message_event (move_message g uid position i))));
             Return (Ok (Some (game_message_event (move_message g uid position' j))))]) ∧
  ¬ world_ok (record_move (record_move w g uid i) g uid j).
Proof.
  intros Hw Hg Hu Hi Hj. destruct (world_ok_player1 _ _ _ Hw Hg) as (p1 & Hp1 & _).
  split; [|by eapply record_twice_not_ok].
  unfold racing, start, advance_all. cbn [fmap list_fmap proc_of]. unfold make_move_proc.
  do 2 (erewrite advance_reads; [|done|by eapply run_make_move_reads];
        cbn [mbind option_bind insert list_insert]).
  do 2 (erewrite advance_writes; [|done|by eapply run_make_move_writes];
        cbn [mbind option_bind insert list_insert]).
  done.
Qed.

(** C10: nothing in [add_player_to_game] keeps two workers apart
    either.  When two users join a pending room and both calls read
    before either writes, both are answered [player_joined]; the row
    names the one written last as the second player, and the other,
    who was told the same, is not in the game. *)
Theorem unserialized_joins_both_answered (w : World) (rc : string) (g : Game)
    (uid uid' : Z) (u u' : User) :
  world_ok w → games w !! rc = Some g →
  users w !! uid = Some u → users w !! uid' = Some u' →
  joins g uid = true → joins g uid' = true →
  advance_all racing (start [AddPlayerToGame rc uid; AddPlayerToGame rc uid'] w) =
    Some (mkCluster (set_games w (<[rc := joined g uid']> (games w)))
            [Return (Ok (Some (game_message_event
                                 (player_joined_message None None (joined g uid)))));
             Return (Ok (Some (game_message_event
                                 (player_joined_message None None (joined g uid')))))]).
Proof.
  intros Hw Hg Hu Hu' Hj Hj'. destruct (world_ok_player1 _ _ _ Hw Hg) as (p1 & Hp1 & _).
  unfold racing, start, advance_all. cbn [fmap list_fmap proc_of].
  unfold add_player_to_game_proc.
  do 2 (erewrite advance_reads; [|done|by eapply run_add_player_reads];
        cbn [mbind option_bind insert list_insert]).
  do 2 (erewrite advance_writes; [|done|by eapply run_add_player_writes];
        cbn [mbind option_bind insert list_insert]).
  rewrite (world_ok_room_code _ _ _ Hw Hg). cbn [games set_games].
  by rewrite insert_insert_eq.
Qed.

(** ** Witnesses *)

Lemma unserialized_moves_both_accepted_witness :
  advance_all racing (start [MakeMove room 1 (JInt 4); MakeMove room 1 (JInt 0)] open_world) =
    Some (mkCluster (record_move (record_move open_world open_game 1 4) open_game 1 0)
            [Return (Ok (Some (game_message_event (move_message open_game 1 (JInt 4) 4))));
             Return (Ok (Some (game_message_event (move_message open_game 1 (JInt 0) 0))))]) ∧
  ¬ world_ok (record_move (record_move open_world open_game 1 4) open_game 1 0).
Proof.
  apply (unserialized_moves_both_accepted open_world room open_game 1 alice); by_compute.
Defined.

Lemma unserialized_joins_both_answered_witness :
  advance_all racing (start [AddPlayerToGame room 2; AddPlayerToGame room 3] pending_world) =
    Some (mkCluster (set_games pending_world (<[room := joined pending_game 3]> (games pending_world)))
            [Return (Ok (Some (game_message_event
                                 (player_joined_message None None (joined pending_game 2)))));
             Return (Ok (Some (game_message_event
                                 (player_joined_message None None (joined pending_game 3)))))]).
Proof.
  apply (unserialized_joins_both_answered pending_world room pending_game 2 3 bob carol);
    by_compute.
Defined.
