(* ===== verification/Rooms.v ===== *)
(** * Rooms do not contend

    A database method of the consumer names one room.  It reads the
    table of users and the row of that room, and it writes that row,
    rows of [GameMove] of that room and lines of the log; nothing else.
    This file makes that a judgement on computations, [local], closed
    under the constructs of the monad and proved for the ORM calls and
    from them for the methods, and draws the consequences for the
    workers of [Workers]: calls on different rooms commute, and any
    schedule of workers whose calls are on different rooms leaves what
    the calls leave when they run one after the other.

    The order in which rows of different rooms were inserted and the
    order of the lines of the log depend on the schedule; the
    equivalence [≡] on databases forgets them and nothing else. *)

From stdpp Require Import base option list gmap strings sorting.
From Stdlib Require Import Ascii.
From S2P Require Import Prelude Monad Json Board Models Wellformed Consumers Preservation Workers.

#[local] Set Warnings "-clear-no-such-hyp,-register-all".

(** ** Databases up to the order of independent insertions *)

(** The same users, the same games, for every room the same moves in
    the same order, and the same lines in the log. *)
#[export] Instance world_equiv : Equiv World := λ w w',
  users w = users w' ∧ games w = games w' ∧
  (∀ rc, moves_of w rc = moves_of w' rc) ∧ log w ≡ₚ log w'.

(** Every row of the game table is stored under its room code. *)
Definition keyed (w : World) : Prop :=
  map_Forall (λ rc g, room_code g = rc) (games w).

(** ** What a computation does to a room *)

(** The row written last if any, the moves recorded, the lines
    logged. *)
Record Change : Type := mkChange {
  put : option Game;
  rows : list GameMove;
  lines : list (string * exn);
}.

Definition no_change : Change := mkChange None [] [].

(** One change after another. *)
Definition followed_by (c1 c2 : Change) : Change :=
  mkChange (match put c2 with Some g => Some g | None => put c1 end)
           (rows c1 ++ rows c2) (lines c1 ++ lines c2).

(** The change made to room [rc] of a database. *)
Definition write (rc : string) (c : Change) (w : World) : World :=
  mkWorld (match put c with Some g => <[rc := g]> (games w) | None => games w end)
          (users w) (moves w ++ rows c) (log w ++ lines c).

(** The change is one of room [rc]. *)
Definition change_ok (rc : string) (c : Change) : Prop :=
  from_option (λ g, room_code g = rc) True (put c) ∧
  Forall (λ m, move_game m = rc) (rows c).

(** Two databases that look the same from room [rc]. *)
Definition agree (rc : string) (w w' : World) : Prop :=
  users w = users w' ∧ games w !! rc = games w' !! rc ∧ keyed w ∧ keyed w'.

(** [m] is local to room [rc]: on databases that look the same from
    the room it returns the same and makes the same change, which is
    one of that room; what it returns satisfies [Q]. *)
Definition local {A : Type} (rc : string) (m : M A) (Q : A → Prop) : Prop :=
  ∀ w w', agree rc w w' →
    ∃ c, change_ok rc c ∧
         (run m w).2 = write rc c w ∧ (run m w').2 = write rc c w' ∧
         (run m w').1 = (run m w).1 ∧
         ∀ x, (run m w).1 = Ok x → Q x.

(** What is left of a call after a step. *)
Definition next_proc (r : Result Proc) : Proc :=
  match r with Ok p => p | Raise e => Return (Raise e) end.

(** A call of at most [n] steps, each local to room [rc]. *)
Fixpoint local_proc (n : nat) (rc : string) (p : Proc) : Prop :=
  match p, n with
  | Return _, _ => True
  | Query step, S n' => local rc step (local_proc n' rc)
  | Query _, 0 => False
  end.

(** Workers whose calls are local to the rooms [rcs], one each. *)
Definition local_procs (rcs : list string) (ps : list Proc) : Prop :=
  Forall2 (λ rc p, ∃ n, local_proc n rc p) rcs ps.

(** The result of a call that runs to its end on [w]. *)
Definition outcome (w : World) (p : Proc) : Proc := Return (run (finish p) w).1.

(** The room of a call. *)
Definition call_room (c : call) : string :=
  match c with
  | GetGameState rc | AddPlayerToGame rc _ | MakeMove rc _ _ => rc
  end.

(** The database after each of the calls has run to its end, in the
    order of the list. *)
Definition one_by_one (ps : list Proc) (w : World) : World :=
  foldl (λ w p, (run (finish p) w).2) w ps.

(** Every worker has its result. *)
Definition ended (k : Cluster) : Prop :=
  Forall (λ p, match p with Return _ => True | Query _ => False end) (workers k).

(** ** An example: two rooms

    Alice and bob play in one room; carol waits in another, which bob
    joins as well. *)
Definition other_room : string := "PLM4X9".

Definition waiting_game : Game := mkGame other_room 3 None None None PENDING "---------".

Definition two_rooms : World :=
  mkWorld {[ room := open_game; other_room := waiting_game ]} example_users [] [].

Definition two_calls : list call := [MakeMove room 1 (JInt 4); AddPlayerToGame other_room 2].

(** The second worker reads first, and each writes after the other
    has read. *)
Definition crossing : list nat := [1; 0; 1; 0].

Definition two_rooms_after : Cluster :=
  mkCluster
    (record_move
       (set_games two_rooms (<[other_room := joined waiting_game 2]> (games two_rooms)))
       open_game 1 4)
    [Return (Ok (Some (game_message_event (move_message open_game 1 (JInt 4) 4))));
     Return (Ok (Some (game_message_event
                         (player_joined_message None None (joined waiting_game 2)))))].

(** ** The equivalence *)

Section equiv.
Implicit Types (w : World) (rc : string) (c : Change).

#[export] Instance world_equivalence : Equivalence (≡@{World}).
Proof.
  split.
  - by intros w.
  - intros w w' (? & ? & ? & ?). by split_and!.
  - intros w1 w2 w3 (? & ? & Hm & ?) (? & ? & Hm' & ?).
    split_and!; [congruence..| |by etrans]. intros rc. by rewrite Hm.
Qed.

#[export] Instance users_proper : Proper ((≡) ==> (=)) users.
Proof. by intros w w' (? & _). Qed.

#[export] Instance games_proper : Proper ((≡) ==> (=)) games.
Proof. by intros w w' (_ & ? & _). Qed.

#[export] Instance moves_of_proper : Proper ((≡) ==> (=) ==> (=)) moves_of.
Proof. intros w w' (_ & _ & Hm & _) rc _ <-. apply Hm. Qed.

#[export] Instance keyed_proper : Proper ((≡) ==> iff) keyed.
Proof. intros w w' Hw. unfold keyed. by rewrite Hw. Qed.

(** A recorded move is among the moves of its game. *)
Lemma elem_of_moves w m : m ∈ moves w ↔ m ∈ moves_of w (move_game m).
Proof. unfold moves_of. rewrite list_elem_of_filter. naive_solver. Qed.

Lemma Forall_moves_proper (P : GameMove → Prop) w w' :
  w ≡ w' → Forall P (moves w) → Forall P (moves w').
Proof.
  intros Hw. rewrite !Forall_forall. intros HP m Hm. apply HP.
  apply elem_of_moves. rewrite Hw. by apply elem_of_moves.
Qed.

(** The invariant of the database does not see the difference. *)
#[export] Instance world_ok_proper : Proper ((≡) ==> iff) world_ok.
Proof.
  assert (∀ w w', w ≡ w' → world_ok w → world_ok w') as Himp.
  { intros w w' Hw (Hus & Hgs & Hmv). pose proof Hw as (Hu & Hg & Hm & _).
    unfold world_ok, row_ok, fks_ok, move_ok. rewrite <-Hu, <-Hg. split_and!; [done| |].
    - intros rc g Hgl. rewrite <-Hm. apply (Hgs rc g Hgl).
    - by apply (Forall_moves_proper _ w w' Hw). }
  intros w w' Hw. split; apply Himp; [done|by symmetry].
Qed.

Lemma moves_of_write rc rc' c w :
  moves_of (write rc c w) rc' = moves_of w rc' ++ filter (λ m, move_game m = rc') (rows c).
Proof. unfold moves_of. simpl. apply filter_app. Qed.

#[export] Instance write_proper rc c : Proper ((≡) ==> (≡)) (write rc c).
Proof.
  intros w w' Hw. pose proof Hw as (Hu & Hg & Hm & Hl). split_and!; simpl.
  - done.
  - by rewrite Hg.
  - intros rc'. by rewrite !moves_of_write, Hm.
  - by rewrite Hl.
Qed.

End equiv.

(** ** Changes *)

Section changes.
Implicit Types (w : World) (rc : string) (c : Change) (g : Game).

Lemma write_no_change rc w : write rc no_change w = w.
Proof. destruct w. unfold write. simpl. by rewrite !app_nil_r. Qed.

Lemma write_followed_by rc c1 c2 w :
  write rc c2 (write rc c1 w) = write rc (followed_by c1 c2) w.
Proof.
  unfold write, followed_by. simpl. rewrite <-!(assoc_L (++)). f_equal.
  destruct (put c2), (put c1); by rewrite ?insert_insert_eq.
Qed.

Lemma change_ok_no_change rc : change_ok rc no_change.
Proof. by split. Qed.

Lemma change_ok_followed_by rc c1 c2 :
  change_ok rc c1 → change_ok rc c2 → change_ok rc (followed_by c1 c2).
Proof.
  intros [? ?] [? ?]. split; simpl; [by destruct (put c2)|by apply Forall_app].
Qed.

Lemma keyed_write rc c w : change_ok rc c → keyed w → keyed (write rc c w).
Proof.
  intros [Hput _] Hk. unfold keyed, write. simpl.
  destruct (put c) as [g|]; [|done]. by apply map_Forall_insert_2.
Qed.

(** The same change keeps two databases the same from the room. *)
Lemma agree_write rc c w w' :
  change_ok rc c → agree rc w w' → agree rc (write rc c w) (write rc c w').
Proof.
  intros Hc (Hu & Hg & Hk & Hk'). split_and!; [done| |by apply keyed_write..].
  simpl. destruct (put c); by rewrite ?lookup_insert_eq.
Qed.

(** A change of another room is not seen from the room. *)
Lemma agree_write_other rc rc' c w :
  rc ≠ rc' → change_ok rc' c → keyed w → agree rc w (write rc' c w).
Proof.
  intros Hne Hc Hk. split_and!; [done| |done|by apply keyed_write].
  simpl. destruct (put c); by rewrite ?lookup_insert_ne.
Qed.

Lemma agree_refl rc w : keyed w → agree rc w w.
Proof. by intros Hk. Qed.

Lemma agree_sym rc w w' : agree rc w w' → agree rc w' w.
Proof. by intros (? & ? & ? & ?). Qed.

Lemma agree_equiv rc w w' : w ≡ w' → keyed w → agree rc w w'.
Proof. intros Hw Hk. split_and!; [by rewrite Hw..|done|by rewrite <-Hw]. Qed.

(** Changes of different rooms commute. *)
Lemma write_commute rc rc' c c' w :
  rc ≠ rc' → change_ok rc c → change_ok rc' c' →
  write rc c (write rc' c' w) ≡ write rc' c' (write rc c w).
Proof.
  intros Hne [_ Hrows] [_ Hrows']. split_and!; simpl.
  - done.
  - destruct (put c), (put c'); by rewrite ?(insert_insert_ne _ rc rc').
  - intros rc0. rewrite !moves_of_write, <-!(assoc_L (++)). f_equal.
    destruct (decide (rc0 = rc)) as [->|Hne0].
    + rewrite (filter_none _ (rows c')), app_nil_r; [done|].
      eapply Forall_impl; [exact Hrows'|]. simpl. congruence.
    + rewrite (filter_none _ (rows c)); [by rewrite app_nil_r|].
      eapply Forall_impl; [exact Hrows|]. simpl. congruence.
  - rewrite <-!(assoc_L (++)). f_equiv. apply Permutation_app_comm.
Qed.

End changes.

(** ** The rules of [local] *)

Section rules.
Context (rc : string).
Implicit Types (w : World) (c : Change) (g : Game) (u : User).

Lemma local_weaken {A} (m : M A) (P Q : A → Prop) :
  (∀ x, P x → Q x) → local rc m P → local rc m Q.
Proof.
  intros HPQ Hm w w' Hag. destruct (Hm w w' Hag) as (c & ? & ? & ? & ? & ?).
  exists c. naive_solver.
Qed.

(** Locality is a property of what the computation does, not of how
    it is written. *)
Lemma local_ext {A} (m m' : M A) (Q : A → Prop) :
  (∀ w, run m' w = run m w) → local rc m Q → local rc m' Q.
Proof. intros Heq Hm w w' Hag. rewrite !Heq. by apply Hm. Qed.

Lemma local_lift {A} (r : Result A) (Q : A → Prop) :
  (∀ x, r = Ok x → Q x) → local rc (lift r) Q.
Proof.
  intros HQ w w' Hag. exists no_change.
  split_and!; [apply change_ok_no_change|by rewrite run_lift, write_no_change..|done|done].
Qed.

Lemma local_ret {A} (x : A) (Q : A → Prop) : Q x → local rc (mret x) Q.
Proof. intros HQ. apply (local_lift (Ok x)). by intros ? [= <-]. Qed.

Lemma local_bind {A B} (m : M A) (f : A → M B) (P : A → Prop) (Q : B → Prop) :
  local rc m P → (∀ x, P x → local rc (f x) Q) → local rc (m ≫= f) Q.
Proof.
  intros Hm Hf w w' Hag. destruct (Hm w w' Hag) as (c & Hc & Hw & Hw' & Hr & HP).
  rewrite !run_bind.
  destruct (run m w) as [[e|x] w1], (run m w') as [[e'|x'] w1']; simplify_eq/=.
  { by exists c. }
  destruct (Hf x (HP x eq_refl) (write rc c w) (write rc c w')) as (c' & ? & Hw2 & Hw2' & ? & ?);
    [by apply agree_write|].
  exists (followed_by c c'). rewrite <-!write_followed_by.
  split_and!; [by apply change_ok_followed_by|done..].
Qed.

Lemma local_try {A} (m : M A) (h : exn → M A) (Q : A → Prop) :
  local rc m Q → (∀ e, local rc (h e) Q) → local rc (try_except m h) Q.
Proof.
  intros Hm Hh w w' Hag. destruct (Hm w w' Hag) as (c & Hc & Hw & Hw' & Hr & HQ).
  rewrite !run_try.
  destruct (run m w) as [[e|x] w1], (run m w') as [[e'|x'] w1']; simplify_eq/=;
    [|by exists c].
  destruct (Hh e (write rc c w) (write rc c w')) as (c' & ? & Hw2 & Hw2' & ? & ?);
    [by apply agree_write|].
  exists (followed_by c c'). rewrite <-!write_followed_by.
  split_and!; [by apply change_ok_followed_by|done..].
Qed.

(** The ORM calls. *)
Lemma local_Game_objects_get : local rc (Game_objects_get rc) (λ g, room_code g = rc).
Proof.
  intros w w' (Hu & Hg & Hk & Hk'). exists no_change. unfold Game_objects_get. simpl.
  rewrite <-Hg. destruct (games w !! rc) as [g|] eqn:Hl; simpl;
    (split_and!; [apply change_ok_no_change|by rewrite write_no_change..|done|]);
    [|done].
  intros ? [= <-]. by apply (Hk rc g).
Qed.

Lemma local_User_objects_get uid : local rc (User_objects_get uid) (λ _, True).
Proof.
  intros w w' (Hu & Hg & Hk & Hk'). exists no_change. unfold User_objects_get. simpl.
  rewrite <-Hu. destruct (users w !! uid); simpl;
    by (split_and!; [apply change_ok_no_change|by rewrite write_no_change..|done|]).
Qed.

Lemma local_related fk : local rc (related fk) (λ _, True).
Proof. apply local_User_objects_get. Qed.

Lemma local_related_optional fk : local rc (related_optional fk) (λ _, True).
Proof.
  destruct fk as [k|]; simpl; [|by apply local_ret].
  eapply local_bind; [apply local_related|]. intros u _. by apply local_ret.
Qed.

Lemma local_save g (Q : unit → Prop) : room_code g = rc → Q tt → local rc (save g) Q.
Proof.
  intros Hrc HQ w w' Hag. exists (mkChange (Some g) [] []). unfold save, write. simpl.
  rewrite Hrc, !app_nil_r. split_and!; [by split|by destruct w|by destruct w'|done|].
  by intros [] _.
Qed.

Lemma local_GameMove_objects_create g u p (Q : unit → Prop) :
  room_code g = rc → Q tt → local rc (GameMove_objects_create g u p) Q.
Proof.
  intros Hrc HQ w w' Hag. exists (mkChange None [mkGameMove (room_code g) (pk u) p] []).
  unfold GameMove_objects_create, write. simpl. rewrite !app_nil_r.
  split_and!; [split; [done|by apply Forall_singleton]|done..|].
  by intros [] _.
Qed.

Lemma local_logger_error tag e (Q : unit → Prop) : Q tt → local rc (logger_error tag e) Q.
Proof.
  intros HQ w w' Hag. exists (mkChange None [] [(tag, e)]).
  unfold logger_error, write, set_log. simpl. rewrite !app_nil_r.
  split_and!; [by split|done..|]. by intros [] _.
Qed.

End rules.

Create HintDb local.
#[export] Hint Resolve local_Game_objects_get local_User_objects_get local_related
  local_related_optional : local.

(** One step of a proof that a computation is local: the rule of its
    head construct, a case distinction on what it tests. *)
Ltac local_step :=
  first
    [ apply local_ret
    | apply local_lift; intros
    | eapply local_bind; [solve [eauto with local]|intros ? ?]
    | apply local_try; [|intros ?]
    | lazymatch goal with
      | |- local _ (if ?b then _ else _) _ => destruct b
      | |- local _ (match ?x with _ => _ end) _ => destruct x
      end
    | solve [eauto with local] ].

Ltac local_auto := repeat (local_step || done || (simpl; done)).

(** ** The methods are local to their room *)

Section methods.
Context (rc : string).
Implicit Types (game : Game) (user : User) (uid : Z) (position : json) (tag : string).

Lemma local_lift_any {A} (r : Result A) : local rc (lift r) (λ _, True).
Proof. by apply local_lift. Qed.

Lemma local_save_any game : room_code game = rc → local rc (save game) (λ _, True).
Proof. intros. by apply local_save. Qed.

Lemma local_create_any game user p :
  room_code game = rc → local rc (GameMove_objects_create game user p) (λ _, True).
Proof. intros. by apply local_GameMove_objects_create. Qed.

Lemma local_logger_error_any tag e : local rc (logger_error tag e) (λ _, True).
Proof. by apply local_logger_error. Qed.

#[local] Hint Resolve local_lift_any local_save_any local_create_any local_logger_error_any : local.

Lemma local_handle_errors tag e : local rc (handle_errors tag e) (λ _, True).
Proof. unfold handle_errors. local_auto. Qed.

Lemma local_optional_username fk : local rc (optional_username fk) (λ _, True).
Proof. unfold optional_username. local_auto. Qed.

Lemma local_move_rejected game user position :
  local rc (move_rejected game user position) (λ _, True).
Proof. unfold move_rejected. local_auto. Qed.

Lemma local_other_player game user p1 : local rc (other_player game user p1) (λ _, True).
Proof. unfold other_player. local_auto. Qed.

#[local] Hint Resolve local_handle_errors local_optional_username local_move_rejected
  local_other_player : local.

Lemma local_conclude_move game user p1 position symbol cells :
  room_code game = rc →
  local rc (conclude_move game user p1 position symbol cells) (λ _, True).
Proof. intros Hrc. unfold conclude_move. local_auto. Qed.

Lemma local_get_game_state : local rc (get_game_state rc) (λ _, True).
Proof. unfold get_game_state, get_game_state_body. local_auto. Qed.

Lemma local_add_player_reads uid :
  local rc (add_player_reads rc uid)
    (λ l, ∀ game user p1, l = Some (game, user, p1) → room_code game = rc).
Proof. unfold add_player_reads. local_auto; by intros ??? [= <- _ _]. Qed.

Lemma local_add_player_writes game user p1 :
  room_code game = rc → local rc (add_player_writes (game, user, p1)) (λ _, True).
Proof. intros Hrc. unfold add_player_writes. local_auto. Qed.

Lemma local_make_move_reads uid position :
  local rc (make_move_reads rc uid position)
    (λ l, ∀ game user p1 symbol cells stored,
       l = Some (game, user, p1, symbol, cells, stored) → room_code game = rc).
Proof. unfold make_move_reads. local_auto; by intros ?????? [= <- _ _ _ _ _]. Qed.

Lemma local_make_move_writes position game user p1 symbol cells stored :
  room_code game = rc →
  local rc (make_move_writes position (game, user, p1, symbol, cells, stored)) (λ _, True).
Proof.
  intros Hrc. unfold make_move_writes. local_auto.
Qed.

End methods.

(** ** What locality gives *)

Section consequences.
Context {A : Type} (rc : string) (m : M A) (Q : A → Prop) (Hm : local rc m Q).
Implicit Types (w : World).

Lemma local_keyed w : keyed w → keyed (run m w).2.
Proof.
  intros Hk. destruct (Hm w w (agree_refl rc w Hk)) as (c & Hc & -> & _).
  by apply keyed_write.
Qed.

Lemma local_post w x : keyed w → (run m w).1 = Ok x → Q x.
Proof. intros Hk. destruct (Hm w w (agree_refl rc w Hk)) as (c & _ & _ & _ & _ & HQ). apply HQ. Qed.

Lemma local_result w w' : agree rc w w' → (run m w').1 = (run m w).1.
Proof. intros Hag. by destruct (Hm w w' Hag) as (c & _ & _ & _ & ? & _). Qed.

(** Another room looks the same before and after. *)
Lemma local_agree_other rc' w : rc' ≠ rc → keyed w → agree rc' w (run m w).2.
Proof.
  intros Hne Hk. destruct (Hm w w (agree_refl rc w Hk)) as (c & Hc & -> & _).
  by apply agree_write_other.
Qed.

(** Equivalent databases stay equivalent. *)
Lemma local_equiv w w' : keyed w → w ≡ w' → (run m w).2 ≡ (run m w').2.
Proof.
  intros Hk Hw. destruct (Hm w w' (agree_equiv rc w w' Hw Hk)) as (c & _ & -> & -> & _).
  by rewrite Hw.
Qed.

End consequences.

(** Computations local to different rooms commute. *)
Lemma local_commute {A B} rc rc' (m : M A) (m' : M B) Q Q' w :
  rc ≠ rc' → local rc m Q → local rc' m' Q' → keyed w →
  (run m' (run m w).2).2 ≡ (run m (run m' w).2).2.
Proof.
  intros Hne Hm Hm' Hk.
  pose proof (local_agree_other rc' m' Q' Hm' rc w Hne Hk) as Hag.
  destruct (Hm w _ Hag) as (c & Hc & Hw & Hw' & _).
  assert (agree rc' w (run m w).2) as Hag' by by eapply local_agree_other.
  destruct (Hm' w _ Hag') as (c' & Hc' & Hv & Hv' & _).
  rewrite Hv', Hw', Hw, Hv. symmetry. by apply write_commute.
Qed.

Lemma agree_trans rc w1 w2 w3 : agree rc w1 w2 → agree rc w2 w3 → agree rc w1 w3.
Proof. intros (? & ? & ? & ?) (? & ? & ? & ?). split_and!; [congruence..|done|done]. Qed.

(** ** Calls as sequences of local steps *)

Section procs.
Context (rc : string).
Implicit Types (w : World) (p : Proc) (n : nat) (tag : string).

Lemma local_proc_Return n r : local_proc n rc (Return r).
Proof. by destruct n. Qed.

Lemma local_proc_next n (step : M Proc) w :
  local rc step (local_proc n rc) → keyed w → local_proc n rc (next_proc (run step w).1).
Proof.
  intros Hs Hk. destruct (run step w).1 as [e|p] eqn:Hr; [apply local_proc_Return|].
  by eapply local_post.
Qed.

Lemma finish_next (step : M Proc) w :
  run (finish (Query step)) w = run (finish (next_proc (run step w).1)) (run step w).2.
Proof. rewrite run_finish_query. by destruct (run step w) as [[e|p] w']. Qed.

(** A call of local steps is local when it runs to its end. *)
Lemma local_finish n : ∀ p, local_proc n rc p → local rc (finish p) (λ _, True).
Proof.
  induction n as [|n IH]; intros [r|step] Hp; try done; try by apply local_lift.
  eapply (local_ext _ (step ≫= finish)); [done|].
  eapply local_bind; [exact Hp|]. intros p' Hp'. by apply IH.
Qed.

Lemma local_within tag (m : M Proc) n :
  local rc m (local_proc n rc) → local rc (within tag m) (local_proc n rc).
Proof.
  intros Hm. apply local_try; [done|]. intros e.
  eapply local_bind; [apply local_handle_errors|]. intros r _.
  apply local_ret, local_proc_Return.
Qed.

Lemma local_then_write {B} tag (writes : B → M (option json)) (l : option B) n :
  (∀ x, l = Some x → local rc (writes x) (λ _, True)) →
  local_proc (S n) rc (then_write tag writes l).
Proof.
  intros Hw. destruct l as [x|]; [|done]. apply local_within.
  eapply local_bind; [by apply Hw|]. intros r _. apply local_ret, local_proc_Return.
Qed.

End procs.

(** The calls of the consumer are made of two local steps at most. *)
Lemma local_proc_of (c : call) : local_proc 2 (call_room c) (proc_of c).
Proof.
  destruct c as [rc|rc uid|rc uid position]; cbn [call_room proc_of].
  - eapply local_bind; [apply local_get_game_state|]. intros r _. by apply local_ret.
  - apply local_within. eapply local_bind; [apply local_add_player_reads|].
    intros l Hl. apply local_ret, local_then_write. intros [[game user] p1] ->.
    apply local_add_player_writes. eauto.
  - apply local_within. eapply local_bind; [apply local_make_move_reads|].
    intros l Hl. apply local_ret, local_then_write.
    intros [[[[[game user] p1] symbol] cells] stored] ->.
    apply local_make_move_writes. eauto.
Qed.

Lemma local_perform (c : call) : local (call_room c) (perform c) (λ _, True).
Proof.
  eapply local_ext; [intros w; symmetry; apply finish_proc_of|].
  eapply local_finish, local_proc_of.
Qed.

(** ** Workers on different rooms *)

Section workers.
Implicit Types (w : World) (p : Proc) (ps : list Proc) (rc : string) (rcs : list string)
  (i : nat) (k : Cluster).

Lemma one_by_one_app ps ps' w :
  one_by_one (ps ++ ps') w = one_by_one ps' (one_by_one ps w).
Proof. apply foldl_app. Qed.

Lemma local_procs_finish rcs ps i rc p :
  local_procs rcs ps → rcs !! i = Some rc → ps !! i = Some p →
  local rc (finish p) (λ _, True).
Proof.
  intros Hps Hrc Hp. destruct (Forall2_lookup_lr _ _ _ _ _ _ Hps Hrc Hp) as [n Hn].
  by eapply local_finish.
Qed.

Lemma one_by_one_keyed rcs ps : ∀ w, local_procs rcs ps → keyed w → keyed (one_by_one ps w).
Proof.
  intros w Hps. revert w. induction Hps as [|rc p rcs ps [n Hp] _ IH]; intros w Hk; [done|].
  apply IH. eapply local_keyed; [by eapply local_finish|done].
Qed.

Lemma one_by_one_equiv rcs ps : ∀ w w',
  local_procs rcs ps → keyed w → w ≡ w' → one_by_one ps w ≡ one_by_one ps w'.
Proof.
  intros w w' Hps. revert w w'.
  induction Hps as [|rc p rcs ps [n Hp] _ IH]; intros w w' Hk Hw; [done|].
  pose proof (local_finish rc n p Hp) as Hfin.
  apply IH; [by eapply local_keyed|by eapply local_equiv].
Qed.

(** A room none of the calls is on looks the same afterwards. *)
Lemma one_by_one_agree rc rcs ps : ∀ w,
  rc ∉ rcs → local_procs rcs ps → keyed w → agree rc w (one_by_one ps w).
Proof.
  intros w Hrc Hps. revert w.
  induction Hps as [|rc' p rcs ps [n Hp] _ IH]; intros w Hk; [done|].
  apply not_elem_of_cons in Hrc as [Hne Hrc].
  pose proof (local_finish rc' n p Hp) as Hfin.
  eapply agree_trans; [by eapply local_agree_other|].
  apply IH; [done|by eapply local_keyed].
Qed.

(** A step on a room none of the calls is on can be made before them
    or after them. *)
Lemma step_past {A} rc (step : M A) Q rcs ps : ∀ w,
  rc ∉ rcs → local_procs rcs ps → local rc step Q → keyed w →
  (run step (one_by_one ps w)).2 ≡ one_by_one ps (run step w).2.
Proof.
  intros w Hrc Hps Hs. revert w.
  induction Hps as [|rc' p rcs ps [n Hp] Hps IH]; intros w Hk; [done|].
  apply not_elem_of_cons in Hrc as [Hne Hrc].
  pose proof (local_finish rc' n p Hp) as Hfin. cbn [one_by_one foldl].
  fold (one_by_one ps (run (finish p) w).2). rewrite IH by (done || by eapply local_keyed).
  fold (one_by_one ps (run (finish p) (run step w).2).2).
  eapply one_by_one_equiv; [done|eapply local_keyed; [done|by eapply local_keyed]|].
  by eapply (local_commute rc' rc).
Qed.

(** Workers that have ended are their outcomes. *)
Lemma ended_outcomes ps w :
  ended (mkCluster w ps) → outcome w <$> ps = ps ∧ one_by_one ps w = w.
Proof.
  unfold ended. simpl. induction 1 as [|[r|step] ps Hp _ [IH1 IH2]]; [done| |done].
  split; [by rewrite fmap_cons, IH1|done].
Qed.

End workers.

(** ** One step of one worker *)

Section step.
Context (rcs : list string) (ps : list Proc) (w : World) (i : nat) (rc : string)
  (step : M Proc).
Context (Hnd : NoDup rcs) (Hps : local_procs rcs ps) (Hk : keyed w).
Context (Hrc : rcs !! i = Some rc) (Hp : ps !! i = Some (Query step)).

Lemma step_local : ∃ n, local rc step (local_proc n rc).
Proof.
  destruct (Forall2_lookup_lr _ _ _ _ _ _ Hps Hrc Hp) as [[|n] Hn]; [done|]. by exists n.
Qed.

Lemma local_procs_step : local_procs rcs (<[i := next_proc (run step w).1]> ps).
Proof.
  destruct step_local as [n Hn]. rewrite <-(list_insert_id rcs i rc) by done.
  apply Forall2_insert; [done|]. exists n. by apply local_proc_next.
Qed.

Lemma not_before : rc ∉ take i rcs.
Proof.
  intros (j & Hj)%list_elem_of_lookup_1. apply lookup_take_Some in Hj as [Hj Hlt].
  pose proof (NoDup_lookup _ _ _ _ Hnd Hj Hrc). lia.
Qed.

(** The step changes no outcome: the one of the worker is the outcome
    of what is left of its call, the others do not see the step. *)
Lemma outcomes_step :
  outcome (run step w).2 <$> <[i := next_proc (run step w).1]> ps = outcome w <$> ps.
Proof.
  destruct step_local as [n Hn]. apply list_eq. intros j. rewrite !list_lookup_fmap.
  destruct (decide (j = i)) as [->|Hne].
  - rewrite list_lookup_insert_eq by by eapply lookup_lt_Some.
    rewrite Hp. unfold outcome. cbn -[finish]. by rewrite <-finish_next.
  - rewrite list_lookup_insert_ne by done. destruct (ps !! j) as [p|] eqn:Hj; [|done].
    destruct (Forall2_lookup_r _ _ _ _ _ Hps Hj) as (rc' & Hrc' & _).
    unfold outcome. simpl. do 2 f_equal.
    eapply local_result; [by eapply local_procs_finish|].
    eapply local_agree_other; [done| |done].
    intros ->. apply Hne. by eapply NoDup_lookup.
Qed.

(** The step changes nothing of what the calls leave when they run
    one after the other. *)
Lemma one_by_one_step :
  one_by_one (<[i := next_proc (run step w).1]> ps) (run step w).2 ≡ one_by_one ps w.
Proof.
  destruct step_local as [n Hn]. pose proof not_before as Hnb.
  assert (i < length ps) as Hlt by by eapply lookup_lt_Some.
  assert (local_procs (take i rcs) (take i ps)) as Hpre by by apply Forall2_take.
  assert (local_procs (drop (S i) rcs) (drop (S i) ps)) as Hpost by by apply Forall2_drop.
  rewrite insert_take_drop by done.
  rewrite <-(take_drop_middle ps i (Query step)) at 3 by done.
  rewrite !one_by_one_app. cbn [one_by_one foldl].
  fold (one_by_one (drop (S i) ps)). rewrite (finish_next step).
  rewrite (local_result rc step _ Hn w (one_by_one (take i ps) w))
    by by eapply one_by_one_agree.
  pose proof (local_finish rc n _ (local_proc_next rc n step w Hn Hk)) as Hfin.
  assert (keyed (one_by_one (take i ps) (run step w).2)) as Hk'.
  { eapply one_by_one_keyed; [done|by eapply local_keyed]. }
  eapply one_by_one_equiv; [done|by eapply local_keyed|].
  eapply local_equiv; [done..|]. symmetry. by eapply step_past.
Qed.

End step.

(** ** Schedules *)

Section schedules.
Implicit Types (w : World) (ps : list Proc) (rcs : list string) (k : Cluster)
  (cs : list call) (schedule : list nat).

(** Whatever the schedule, workers on different rooms that all come
    to their end have the outcomes of their calls and leave what the
    calls leave one after the other. *)
Lemma schedule_one_by_one rcs schedule : ∀ ps w k,
  NoDup rcs → local_procs rcs ps → keyed w →
  advance_all schedule (mkCluster w ps) = Some k → ended k →
  workers k = outcome w <$> ps ∧ shared k ≡ one_by_one ps w.
Proof.
  induction schedule as [|i schedule IH]; intros ps w k Hnd Hps Hk Hrun Hend.
  { injection Hrun as <-. by destruct (ended_outcomes ps w Hend) as [-> ->]. }
  cbn [advance_all] in Hrun.
  destruct (ps !! i) as [[r|step]|] eqn:Hp;
    [by unfold advance in Hrun; cbn [workers] in Hrun; rewrite Hp in Hrun| |
     by unfold advance in Hrun; cbn [workers] in Hrun; rewrite Hp in Hrun].
  rewrite (advance_query i w ps step Hp) in Hrun. cbn [mbind option_bind] in Hrun.
  destruct (Forall2_lookup_r _ _ _ _ _ Hps Hp) as (rc & Hrc & _).
  destruct (step_local rcs ps i rc step Hps Hrc Hp) as [n Hn].
  destruct (IH _ _ _ Hnd (local_procs_step rcs ps w i rc step Hps Hk Hrc Hp)
              (local_keyed rc step _ Hn w Hk) Hrun Hend) as [-> ->].
  split; [by eapply outcomes_step|by eapply one_by_one_step].
Qed.

Lemma world_ok_keyed w : world_ok w → keyed w.
Proof. intros Hw rc g Hg. by eapply world_ok_room_code. Qed.

Lemma local_procs_calls cs : local_procs (call_room <$> cs) (proc_of <$> cs).
Proof.
  induction cs as [|c cs IH]; [by constructor|].
  constructor; [|done]. exists 2. apply local_proc_of.
Qed.

Lemma one_by_one_after_all cs : ∀ w, one_by_one (proc_of <$> cs) w = after_all cs w.
Proof.
  induction cs as [|c cs IH]; intros w; [done|].
  cbn [fmap list_fmap one_by_one foldl]. rewrite finish_proc_of. apply IH.
Qed.

(** The answer of a call does not depend on the calls on other rooms
    that ran before it. *)
Lemma answers_outcomes cs : ∀ w,
  NoDup (call_room <$> cs) → keyed w →
  Return <$> answers cs w = outcome w <$> (proc_of <$> cs).
Proof.
  induction cs as [|c cs IH]; intros w Hnd Hk; [done|].
  apply NoDup_cons in Hnd as [Hc Hnd]. cbn [answers fmap list_fmap].
  unfold outcome at 1. rewrite finish_proc_of. f_equal.
  rewrite IH by (done || by eapply local_keyed, Hk; apply local_perform).
  rewrite <-!list_fmap_compose. apply list_fmap_ext. intros j c' Hj.
  apply (f_equal Return).
  eapply local_result; [eapply local_finish, local_proc_of|].
  eapply local_agree_other; [apply local_perform| |done].
  intros Heq. apply Hc. rewrite <-Heq. by eapply list_elem_of_fmap_2, list_elem_of_lookup_2.
Qed.

End schedules.

(** ** Theorems *)

(** C11: calls on different rooms do not contend.  Whatever the number
    of workers and whatever the schedule, if no two calls are on the
    same room and every call comes to its end, every worker has the
    answer its call gives when the calls run one after the other, the
    database is the one they leave then, up to the order of rows of
    different rooms and of the lines of the log, and it is well
    formed. *)
Theorem different_rooms_serializable (cs : list call) (w : World)
    (schedule : list nat) (k : Cluster) :
  world_ok w → NoDup (call_room <$> cs) →
  advance_all schedule (start cs w) = Some k → ended k →
  workers k = Return <$> answers cs w ∧
  shared k ≡ after_all cs w ∧
  world_ok (shared k).
Proof.
  intros Hw Hnd Hrun Hend. pose proof (world_ok_keyed w Hw) as Hk.
  destruct (schedule_one_by_one _ _ _ _ _ Hnd (local_procs_calls cs) Hk Hrun Hend)
    as [Hws Hsh].
  rewrite one_by_one_after_all in Hsh. split_and!; [|done|].
  - by rewrite Hws, answers_outcomes.
  - rewrite Hsh. by apply after_all_ok.
Qed.

(** Two calls on different rooms commute: in either order each
    gives the answer it gives alone, and the databases they leave
    differ at most in the order of rows of the two rooms and of lines
    of the log. *)
Theorem calls_commute (c c' : call) (w : World) :
  world_ok w → call_room c ≠ call_room c' →
  (run (perform c') (after c w)).1 = (run (perform c') w).1 ∧
  (run (perform c) (after c' w)).1 = (run (perform c) w).1 ∧
  after c' (after c w) ≡ after c (after c' w).
Proof.
  intros Hw%world_ok_keyed Hne. split_and!.
  - apply (local_result _ _ _ (local_perform c')).
    apply (local_agree_other _ _ _ (local_perform c)); [congruence|done].
  - apply (local_result _ _ _ (local_perform c)).
    by apply (local_agree_other _ _ _ (local_perform c')).
  - by apply (local_commute _ _ _ _ _ _ _ Hne (local_perform c) (local_perform c')).
Qed.

(** ** Witnesses *)

Lemma different_rooms_serializable_witness :
  workers two_rooms_after = Return <$> answers two_calls two_rooms ∧
  shared two_rooms_after ≡ after_all two_calls two_rooms ∧
  world_ok (shared two_rooms_after).
Proof.
  apply (different_rooms_serializable two_calls two_rooms crossing two_rooms_after);
    [by_compute|by_compute|by_compute|].
  repeat constructor.
Defined.

Lemma calls_commute_witness :
  (run (perform (AddPlayerToGame other_room 2)) (after (MakeMove room 1 (JInt 4)) two_rooms)).1 =
    (run (perform (AddPlayerToGame other_room 2)) two_rooms).1 ∧
  (run (perform (MakeMove room 1 (JInt 4))) (after (AddPlayerToGame other_room 2) two_rooms)).1 =
    (run (perform (MakeMove room 1 (JInt 4))) two_rooms).1 ∧
  after (AddPlayerToGame other_room 2) (after (MakeMove room 1 (JInt 4)) two_rooms) ≡
    after (MakeMove room 1 (JInt 4)) (after (AddPlayerToGame other_room 2) two_rooms).
Proof.
  apply (calls_commute (MakeMove room 1 (JInt 4)) (AddPlayerToGame other_room 2) two_rooms);
    by_compute.
Defined.
