(* ===== verification/Faults.v ===== *)
(** * The database fails

    Every database method of the consumer ends with
    [except Exception as e: logger.error(...); return None]: an ORM
    call that raises, because the database is unreachable or refuses
    the statement, is caught there.  The methods open no transaction,
    so what was written before the failure stays.  This file lets the
    two writes of [make_move] fail, [GameMove.objects.create] and
    [game.save()], and shows what the method then answers and what it
    leaves in the database. *)

From stdpp Require Import base option list gmap strings.
From Stdlib Require Import Ascii.
From S2P Require Import Prelude Monad Json Board Models Wellformed Consumers Preservation Workers Rooms.

#[local] Set Warnings "-clear-no-such-hyp,-register-all".
#[local] Open Scope char_scope.

(** An ORM call that raises [e] when the database fails, and runs
    otherwise. *)
Definition or_raise {A : Type} (fault : option exn) (m : M A) : M A :=
  match fault with
  | Some e => raise e
  | None => m
  end.

(** The second half of [make_move] with a database that fails at
    [game.save()] when [save_fault] says so. *)
Definition conclude_move_under (save_fault : option exn) (game : Game) (user p1 : User)
    (position : json) (symbol : ascii) (cells : list ascii) : M (option json) :=
  hit ← lift (first_win cells symbol winning_combinations);
  match hit with
  | Some combo =>
      let game := set_status game COMPLETED in
      let game := set_winner game (Some (pk user)) in
      or_raise save_fault (save game);;
      mret (Some (game_message_event
                    (game_over_win_message (username user) game combo)))
  | None =>
      if no_empty_cell (board game) then
        let game := set_status game COMPLETED in
        or_raise save_fault (save game);;
        mret (Some (game_message_event (game_over_draw_message game)))
      else
        next ← other_player game user p1;
        let game := set_current_turn game (pk <$> next) in
        or_raise save_fault (save game);;
        name ← lift (username_attr next);
        mret (Some (game_message_event (move_made_message position symbol name game)))
  end.

(** The writes of [make_move]: the move is recorded, unless the
    database fails there, and the row saved, unless it fails there. *)
Definition make_move_writes_under (create_fault save_fault : option exn) (position : json)
    (locals : Game * User * User * ascii * list ascii * Z) : M (option json) :=
  let '(game, user, p1, symbol, cells, stored) := locals in
  or_raise create_fault (GameMove_objects_create game user stored);;
  conclude_move_under save_fault game user p1 position symbol cells.

(** [make_move] with a database that may fail at its writes. *)
Definition make_move_under (create_fault save_fault : option exn)
    (rc : string) (uid : Z) (position : json) : M (option json) :=
  try_except
    (locals ← make_move_reads rc uid position;
     match locals with
     | Some l => make_move_writes_under create_fault save_fault position l
     | None => mret None
     end)
    (handle_errors "Make Move Error").

(** The row of the move in the history. *)
Definition move_row (rc : string) (uid : Z) (i : nat) : GameMove :=
  mkGameMove rc uid (Z.of_nat i).

(** The database after the failure of [GameMove.objects.create]: a
    line in the log. *)
Definition dropped (w : World) (e : exn) : World :=
  set_log w (log w ++ [("Make Move Error"%string, e)]).

(** The database after the failure of [game.save()]: the move in the
    history and a line in the log. *)
Definition half_written (w : World) (rc : string) (uid : Z) (i : nat) (e : exn) : World :=
  set_log (set_moves w (moves w ++ [move_row rc uid i]))
          (log w ++ [("Make Move Error"%string, e)]).

(** ** The method under faults *)

Section faults.
Context (w : World) (rc : string) (g : Game) (uid : Z) (u : User) (position : json) (i : nat).
Context (Hw : world_ok w) (Hg : games w !! rc = Some g) (Hu : users w !! uid = Some u).
Context (Hacc : accepts g uid position = Some i).
Implicit Types (e : exn) (fault : option exn).

(** Without faults the method is [make_move]. *)
Lemma make_move_under_no_fault rc' uid' position' w' :
  run (make_move_under None None rc' uid' position') w' =
    run (make_move rc' uid' position') w'.
Proof.
  apply run_try_ext. unfold make_move_body, make_move_reads. rewrite run_bind_assoc.
  apply run_bind_ext. intros game w1. rewrite run_bind_assoc.
  apply run_bind_ext. intros user w2. rewrite run_bind_assoc.
  apply run_bind_ext. intros [|] w3; [by rewrite run_ret_bind|].
  rewrite run_bind_assoc. apply run_bind_ext. intros p1 w4. rewrite run_bind_assoc.
  apply run_bind_ext. intros cells w5. rewrite run_bind_assoc.
  apply run_bind_ext. intros stored w6. by rewrite run_ret_bind.
Qed.

Lemma run_reads_then (k : option (Game * User * User * ascii * list ascii * Z) →
                          M (option json)) :
  ∃ p1, users w !! player1 g = Some p1 ∧
    run (make_move_reads rc uid position ≫= k) w =
      run (k (Some (set_board g (join (cells_after g uid i)), u, p1, symbol_for g uid,
                    cells_after g uid i, Z.of_nat i))) w.
Proof.
  destruct (world_ok_player1 _ _ _ Hw Hg) as (p1 & Hp1 & _). exists p1. split; [done|].
  by erewrite run_bind_ok by by eapply run_make_move_reads.
Qed.

(** With a failing [save] the second half raises without a write,
    whatever the outcome of the move. *)
Lemma run_conclude_move_fault e p1 w' :
  users w !! player1 g = Some p1 → users w' = users w →
  run (conclude_move_under (Some e) (set_board g (join (cells_after g uid i))) u p1
         position (symbol_for g uid) (cells_after g uid i)) w' = (Raise e, w').
Proof.
  intros Hp1 Hus. pose proof (world_ok_pk _ _ _ Hw Hu) as Hpk.
  pose proof (world_ok_pk _ _ _ Hw Hp1) as Hk1.
  pose proof Hacc as (Hs & Ht & _)%accepts_Some.
  pose proof (world_ok_game _ _ _ Hw Hg) as Hok.
  destruct (in_progress_turn g uid) as (p2 & Hp2 & _);
    [by apply game_ok_in_progress|done|].
  destruct (world_ok_player2 _ _ _ _ Hw Hg Hp2) as (u2 & Hu2 & Hk2).
  unfold conclude_move_under.
  rewrite run_bind, run_lift, first_win_find
    by (apply winning_combinations_lt; rewrite length_cells_after, (game_ok_length g Hok); lia).
  destruct (list_find _ _) as [[k combo]|]; simpl fmap; [done|].
  destruct (no_empty_cell _); [done|].
  destruct (run_other_player w' g uid u p1) as (next & Hrun & _);
    [by rewrite Hus|done|done|exists p2, u2; by rewrite Hus|].
  by erewrite run_bind_ok by done.
Qed.

Lemma moves_of_half_written e :
  moves_of (half_written w rc uid i e) rc = moves_of w rc ++ [move_row rc uid i].
Proof.
  unfold half_written. rewrite moves_of_set_log, moves_of_app. by rewrite filter_cons_True.
Qed.

(** A database with the move in the history and not on the board is
    not well formed. *)
Lemma half_written_not_ok e : ¬ world_ok (half_written w rc uid i e).
Proof.
  intros Hw'. pose proof (world_ok_moves _ _ _ Hw Hg) as Hlen.
  pose proof (world_ok_moves _ rc g Hw' Hg) as Hlen'.
  rewrite moves_of_half_written, length_app in Hlen'. simpl in Hlen'. lia.
Qed.

(** The submission sent again finds the row as it was: it is accepted
    like the first time, and recorded once more. *)
Lemma retry_after_half_written e :
  (run (make_move rc uid position) (half_written w rc uid i e)).1 =
    Ok (Some (game_message_event (move_message g uid position i))) ∧
  moves_of (run (make_move rc uid position) (half_written w rc uid i e)).2 rc =
    moves_of w rc ++ [move_row rc uid i; move_row rc uid i].
Proof.
  pose proof (world_ok_keyed w Hw) as Hk.
  destruct (local_perform (MakeMove rc uid position) w (half_written w rc uid i e))
    as (c & _ & Hc & Hc' & Hr & _); [by split_and!|].
  cbn [perform call_room] in *. rewrite Hr, Hc'.
  rewrite run_make_move in Hc |- * by done. unfold make_move_outcome in *.
  rewrite Hg, Hu, Hacc in *. split; [done|].
  rewrite moves_of_write, moves_of_half_written, <-(assoc_L (++)). do 2 f_equal.
  apply (f_equal moves) in Hc. cbn [snd record_move moves set_games set_moves write] in Hc.
  apply app_inv_head in Hc as <-.
  rewrite (world_ok_room_code _ _ _ Hw Hg). by rewrite filter_cons_True.
Qed.

End faults.

(** ** Theorems *)

(** C13: [make_move] fails a legal move when the history cannot be
    written.  When [GameMove.objects.create] raises, the move, which
    the guard has accepted, is dropped: the method returns [None], so
    nothing is sent to anyone, and the database is as it was but for
    the line `Make Move Error` in the log; the failure of the history
    is the failure of the move. *)
Theorem history_failure_drops_move (w : World) (rc : string) (g : Game) (uid : Z)
    (u : User) (position : json) (i : nat) (e : exn) (save_fault : option exn) :
  world_ok w → games w !! rc = Some g → users w !! uid = Some u →
  accepts g uid position = Some i → isinstance e ObjectDoesNotExist = false →
  run (make_move_under (Some e) save_fault rc uid position) w = (Ok None, dropped w e).
Proof.
  intros Hw Hg Hu Hacc He. unfold make_move_under. rewrite run_try.
  destruct (run_reads_then w rc g uid u position i Hw Hg Hu Hacc
              (λ locals, match locals with
                         | Some l => make_move_writes_under (Some e) save_fault position l
                         | None => mret None
                         end)) as (p1 & _ & ->).
  unfold make_move_writes_under, or_raise. rewrite run_bind, run_raise.
  unfold handle_errors. rewrite He. by rewrite run_bind, run_logger_error, run_ret.
Qed.

(** C12: the two writes of [make_move] are not one.  When the move has
    been recorded and [game.save()] raises, the method returns [None]
    and the recorded move stays: the history holds a move the board
    does not, the database is no longer well formed, and the same
    submission sent again is accepted and recorded a second time. *)
Theorem save_failure_leaves_move_recorded (w : World) (rc : string) (g : Game) (uid : Z)
    (u : User) (position : json) (i : nat) (e : exn) :
  world_ok w → games w !! rc = Some g → users w !! uid = Some u →
  accepts g uid position = Some i → isinstance e ObjectDoesNotExist = false →
  run (make_move_under None (Some e) rc uid position) w =
    (Ok None, half_written w rc uid i e) ∧
  ¬ world_ok (half_written w rc uid i e) ∧
  (run (make_move rc uid position) (half_written w rc uid i e)).1 =
    Ok (Some (game_message_event (move_message g uid position i))) ∧
  moves_of (run (make_move rc uid position) (half_written w rc uid i e)).2 rc =
    moves_of w rc ++ [move_row rc uid i; move_row rc uid i].
Proof.
  intros Hw Hg Hu Hacc He.
  split; [|split; [by eapply half_written_not_ok|by eapply retry_after_half_written]].
  unfold make_move_under. rewrite run_try.
  destruct (run_reads_then w rc g uid u position i Hw Hg Hu Hacc
              (λ locals, match locals with
                         | Some l => make_move_writes_under None (Some e) position l
                         | None => mret None
                         end)) as (p1 & Hp1 & ->).
  unfold make_move_writes_under, or_raise. rewrite run_bind, run_GameMove_create.
  erewrite run_conclude_move_fault by done.
  unfold handle_errors. rewrite He, run_bind, run_logger_error, run_ret.
  cbn [room_code set_board]. unfold half_written, move_row.
  by rewrite (world_ok_room_code _ _ _ Hw Hg), (world_ok_pk _ _ _ Hw Hu).
Qed.

(** ** Witnesses *)

Lemma history_failure_drops_move_witness :
  run (make_move_under (Some OperationalError) None room 1 (JInt 4)) open_world =
    (Ok None, dropped open_world OperationalError).
Proof.
  apply (history_failure_drops_move open_world room open_game 1 alice (JInt 4) 4); by_compute.
Defined.

Lemma save_failure_leaves_move_recorded_witness :
  run (make_move_under None (Some OperationalError) room 1 (JInt 4)) open_world =
    (Ok None, half_written open_world room 1 4 OperationalError) ∧
  ¬ world_ok (half_written open_world room 1 4 OperationalError) ∧
  (run (make_move room 1 (JInt 4)) (half_written open_world room 1 4 OperationalError)).1 =
    Ok (Some (game_message_event (move_message open_game 1 (JInt 4) 4))) ∧
  moves_of (run (make_move room 1 (JInt 4))
              (half_written open_world room 1 4 OperationalError)).2 room =
    moves_of open_world room ++ [move_row room 1 4; move_row room 1 4].
Proof.
  apply (save_failure_leaves_move_recorded open_world room open_game 1 alice (JInt 4) 4);
    by_compute.
Defined.
