(* ===== verification/Tasks.v ===== *)
(** * The handlers as coroutines

    The handlers of [TicTacToeConsumer] (src/game/consumers.py) are
    coroutines: at an [await] a handler gives way, and the handlers of
    other sockets may run before it goes on.  A [Task] is a handler cut
    at its [await]s: a step runs what the handler does up to and
    including the operation it awaits, and yields the rest of the
    handler.  An exception ends the step it is raised in; the [except]
    clause of the [try] the step is in is the next step of the handler,
    which ends with the [await] of the clause, and the handler ends
    with it.

    [complete] runs a task to its end without giving way; the lemmas
    show that this is what the handlers of [Gateway] do, so that
    [Gateway] describes the schedules in which no handler is
    interrupted, and [Async] all of them. *)

From stdpp Require Import base option list gmap strings.
From Stdlib Require Import Ascii.
From S2P Require Import Prelude Monad Json Board Models Wellformed Consumers Preservation Gateway.

#[local] Set Warnings "-clear-no-such-hyp,-register-all".

(** What is left of a handler: nothing, or a step and what follows
    it. *)
Inductive Task : Type :=
| Finished
| Await (step : G Task).

(** A step inside a [try] with the [except] clauses [handler]: the
    statements [m] up to an [await], then [k].  When [m] raises, the
    clause is what is left of the handler: its statements and the
    [close] or [send] it awaits are a step of their own. *)
Definition guarded {A : Type} (handler : exn → G unit) (m : G A) (k : A → Task) : G Task :=
  try_except (x ← m; mret (k x)) (λ e, mret (Await (handler e;; mret Finished))).

(** A handler run to its end without giving way. *)
Fixpoint complete (t : Task) : G unit :=
  match t with
  | Finished => mret tt
  | Await step =>
      MkST (λ s, match run step s with
                 | (Ok t', s') => run (complete t') s'
                 | (Raise e, s') => (Raise e, s')
                 end)
  end.

(** The number of steps of a handler started in [s] when nothing
    happens in between. *)
Fixpoint steps (t : Task) (s : Server) : nat :=
  match t with
  | Finished => 0
  | Await step =>
      match run step s with
      | (Ok t', s') => S (steps t' s')
      | (Raise _, _) => 1
      end
  end.

Section tasks.
Context `{Libraries}.

(** [connect], from [initial_state = await self.get_game_state()]. *)
Definition greet_task (self : string) : Task :=
  Await (guarded (connect_errors self) (bound_get_game_state self) (λ initial_state,
    match initial_state with
    | Some state =>
        Await (guarded (connect_errors self) (send self state) (λ _, Finished))
    | None => Finished
    end)).

(** [connect], from [game_state = await self.add_player_to_game()]. *)
Definition join_task (self group : string) : Task :=
  Await (guarded (connect_errors self)
           (bound self "Add Player Error" add_player_to_game) (λ game_state,
    match game_state with
    | Some event =>
        Await (guarded (connect_errors self) (group_send group event)
                 (λ _, greet_task self))
    | None => greet_task self
    end)).

(** [connect]: the first step ends with [group_add], the second with
    [accept]. *)
Definition connect_task (self room_code query_string : string) : Task :=
  let room_group_name := ("game_" +:+ room_code)%string in
  Await (
    modify (λ s, set_consumers s
                   (<[self := mkConsumer room_code room_group_name None false false []]>
                      (consumers s)));;
    token ← lift (token_of query_string);
    guarded (connect_errors self)
      (payload ← lift (jwt_decode token);
       user_id ← lift (match payload with
                       | Some uid => Ok uid
                       | None => Raise KeyError
                       end);
       update_self self (λ c, set_user_id c (Some user_id));;
       group_add room_group_name self)
      (λ _, Await (guarded (connect_errors self) (accept self)
                     (λ _, join_task self room_group_name)))).

(** [receive]: the first step ends with [make_move], when the frame
    asks for a move, and the second is [group_send]. *)
Definition receive_task (self text_data : string) : Task :=
  Await (guarded (receive_errors self)
           (data ← lift (json_loads text_data);
            action ← lift (dict_get data "action");
            if eq_str action "make_move" then
              position ← lift (dict_get data "position");
              bound self "Make Move Error" (λ rc uid, make_move rc uid position)
            else mret None)
           (λ game_state,
              match game_state with
              | Some event =>
                  Await (guarded (receive_errors self)
                           (c ← instance self;
                            group_send (self_room_group_name c) event)
                           (λ _, Finished))
              | None => Finished
              end)).

(** [disconnect] has one [await]; the framework drops the socket when
    the handler has returned. *)
Definition disconnect_task (self : string) : Task :=
  Await (disconnect self;; close self;; mret Finished).

(** The handler of an event of the channel layer: [game_message] for
    the events of that type. *)
Definition game_message_task (self : string) (event : json) : Task :=
  Await (deliver self event;; mret Finished).

(** The handler of an event of the socket. *)
Definition task_of (ev : event) : Task :=
  match ev with
  | Connect self room_code query_string => connect_task self room_code query_string
  | Receive self text_data => receive_task self text_data
  | Disconnect self => disconnect_task self
  end.

(** The handler of an event of the socket in [Gateway], before the
    events it sent are handled. *)
Definition handler_of (ev : event) : G unit :=
  match ev with
  | Connect self room_code query_string => connect self room_code query_string
  | Receive self text_data => receive self text_data
  | Disconnect self => disconnect self;; close self
  end.

End tasks.

(** ** Running a task to its end *)

Section complete.
Implicit Types (s : Server) (t : Task) (handler : exn → G unit).

Lemma run_complete_await (step : G Task) s :
  run (complete (Await step)) s =
    match run step s with
    | (Ok t', s') => run (complete t') s'
    | (Raise e, s') => (Raise e, s')
    end.
Proof. done. Qed.

(** A step inside a [try] and the steps that follow it in the same
    [try] make up the [try]. *)
Lemma complete_guarded {A} handler (m : G A) (k : A → Task) (body : A → G unit)
    (whole : G unit) s :
  (∀ x s', run (complete (k x)) s' = run (try_except (body x) handler) s') →
  run whole s = run (x ← m; body x) s →
  run (complete (Await (guarded handler m k))) s = run (try_except whole handler) s.
Proof.
  intros Hk Hwhole. rewrite (run_try_ext whole _ _ _ Hwhole).
  rewrite run_complete_await. unfold guarded. rewrite !run_try, !run_bind.
  destruct (run m s) as [[e|x] s'].
  - rewrite run_ret, run_complete_await, run_bind.
    by destruct (run (handler e) s') as [[e'|[]] s''].
  - rewrite run_ret, Hk. by rewrite run_try.
Qed.

(** The last step of a [try]. *)
Lemma complete_guarded_last {A} handler (m : G A) (k : A → Task) (whole : G unit) s :
  (∀ x, k x = Finished) →
  run whole s = run (m;; mret tt) s →
  run (complete (Await (guarded handler m k))) s = run (try_except whole handler) s.
Proof.
  intros Hk Hwhole. apply (complete_guarded _ _ _ (λ _, mret tt)); [|done].
  intros x s'. by rewrite Hk.
Qed.

End complete.

(** ** The tasks are the handlers *)

Section handlers.
Context `{Libraries}.
Implicit Types (s : Server) (self group rc : string).

Lemma run_then_ret (m : G unit) s : run (m;; mret tt) s = run m s.
Proof. rewrite run_bind. by destruct (run m s) as [[e|[]] s']. Qed.

Lemma run_ret_then (m : G unit) s : run (mret tt;; m) s = run m s.
Proof. by rewrite run_bind, run_ret. Qed.

(** The end of [connect]. *)
Lemma complete_greet self s :
  run (complete (greet_task self)) s =
    run (try_except
           (initial_state ← bound_get_game_state self;
            match initial_state with
            | Some state => send self state
            | None => mret tt
            end)
           (connect_errors self)) s.
Proof.
  apply (complete_guarded _ _ _ (λ initial_state,
           match initial_state with Some state => send self state | None => mret tt end));
    [|done].
  intros [state|] s'; [|done].
  apply complete_guarded_last; [done|]. by rewrite run_then_ret.
Qed.

Lemma complete_join self group s :
  run (complete (join_task self group)) s =
    run (try_except
           (game_state ← bound self "Add Player Error" add_player_to_game;
            send_if_any group game_state;;
            initial_state ← bound_get_game_state self;
            match initial_state with
            | Some state => send self state
            | None => mret tt
            end)
           (connect_errors self)) s.
Proof.
  eapply complete_guarded; [|done]. intros [event|] s'.
  - eapply complete_guarded; [|done]. intros ? s''. apply complete_greet.
  - rewrite complete_greet. apply run_try_ext. by rewrite run_ret_then.
Qed.

(** [connect] is its steps run one after the other. *)
Lemma complete_connect self rc query_string s :
  run (complete (connect_task self rc query_string)) s =
    run (connect self rc query_string) s.
Proof.
  unfold connect_task, connect. rewrite run_complete_await, !run_bind, run_modify.
  cbv beta iota. rewrite !run_bind, run_lift.
  destruct (token_of query_string) as [e|token]; [done|]. cbv beta iota.
  rewrite <- run_complete_await. eapply complete_guarded.
  - intros ? s'. eapply complete_guarded; [|done]. intros ? s''. apply complete_join.
  - unfold connect_body. rewrite run_bind_assoc.
    apply run_bind_ext. intros payload s1. rewrite run_bind_assoc.
    apply run_bind_ext. intros user_id s2. by rewrite run_bind_assoc.
Qed.

(** [receive] is its steps run one after the other. *)
Lemma complete_receive self text_data s :
  run (complete (receive_task self text_data)) s = run (receive self text_data) s.
Proof.
  unfold receive_task, receive.
  apply (complete_guarded _ _ _ (λ game_state,
           match game_state with
           | Some event => c ← instance self; group_send (self_room_group_name c) event
           | None => mret tt
           end)).
  - intros [event|] s'; [|done]. apply complete_guarded_last; [done|].
    by rewrite run_then_ret.
  - unfold receive_body. rewrite run_bind_assoc.
    apply run_bind_ext. intros data s1. rewrite run_bind_assoc.
    apply run_bind_ext. intros action s2.
    destruct (eq_str action "make_move"); [|by rewrite run_bind, run_ret].
    by rewrite run_bind_assoc.
Qed.

Lemma complete_disconnect self s :
  run (complete (disconnect_task self)) s = run (disconnect self;; close self) s.
Proof.
  unfold disconnect_task. rewrite run_complete_await, <- run_bind_assoc, run_bind.
  by destruct (run (disconnect self;; close self) s) as [[e|[]] s'].
Qed.

Lemma complete_game_message self event s :
  run (complete (game_message_task self event)) s = run (deliver self event) s.
Proof.
  unfold game_message_task. rewrite run_complete_await, run_bind.
  by destruct (run (deliver self event) s) as [[e|[]] s'].
Qed.

(** The handler of every event of the socket is its task run without
    giving way. *)
Lemma complete_task_of ev s : run (complete (task_of ev)) s = run (handler_of ev) s.
Proof.
  destruct ev; [apply complete_connect|apply complete_receive|apply complete_disconnect].
Qed.

End handlers.
