(* ===== verification/Async.v ===== *)
(** * The handlers interleaved

    Every socket has its consumer, and the consumers run side by side:
    while the handler of one waits at an [await], the handlers of the
    others go on.  A consumer handles one message at a time, be it an
    event of its socket or an event the channel layer holds for its
    channel.

    The [System] is the server together with what is left of the
    handler each consumer is running.  An [action] starts the handler
    of an event of a socket on an idle consumer, lets an idle consumer
    take the oldest event of its channel, or lets a running handler go
    on to its next [await].  A schedule is a list of actions; the
    theorems hold for every schedule, and so for every way the event
    loop may order the handlers.

    Every operation a handler awaits is one step: the database methods
    run one at a time in the thread of [database_sync_to_async], and
    the operations of the channel layer and of the socket are taken to
    be atomic.  A step is what a handler does up to and including the
    operation it awaits, and any handler may be resumed next: the event
    loop of asyncio resumes the handlers in the order in which what
    they wait for is done, so the schedules of the code are among the
    schedules of [fire_all], and not every schedule of [fire_all] is
    one of the code.  What is proved of every schedule holds of the
    code; nothing here states that a schedule can happen. *)

From stdpp Require Import base option list gmap strings relations.
From Stdlib Require Import Ascii.
From S2P Require Import Prelude Monad Json Board Models Wellformed Consumers Preservation Gateway Sessions Replay Tasks.

#[local] Set Warnings "-clear-no-such-hyp,-register-all".

(** The server and, for every consumer that is running a handler, the
    next step of the handler. *)
Record System : Type := mkSystem {
  server : Server;
  running : gmap string (G Task);
}.

(** What the event loop may do next. *)
Inductive action : Type :=
| Start (ev : event)
| Take (channel : string)
| Resume (channel : string).

(** The oldest event the layer holds for a channel, and the queue
    without it. *)
Fixpoint take (channel : string) (q : list (string * json)) :
    option (json * list (string * json)) :=
  match q with
  | [] => None
  | item :: q' =>
      if decide (item.1 = channel) then Some (item.2, q')
      else '(event, rest) ← take channel q'; Some (event, item :: rest)
  end.

(** The next step of a task; a task that is over has none. *)
Definition first_step (t : Task) : G Task :=
  match t with
  | Await step => step
  | Finished => mret Finished
  end.

(** The handlers that run once a step has returned [r]. *)
Definition settle (channel : string) (r : Result Task) (tasks : gmap string (G Task)) :
    gmap string (G Task) :=
  match r with
  | Ok (Await step) => <[channel := step]> tasks
  | Ok Finished | Raise _ => delete channel tasks
  end.

Section system.
Context `{Libraries}.

(** One action of the event loop; [None] when it cannot happen: a
    consumer handles one message at a time, an event of a socket must
    be possible on the server, and a consumer whose socket is gone
    takes no more events. *)
Definition fire (a : action) (σ : System) : option System :=
  match a with
  | Start ev =>
      if decide (enabled ev (server σ) ∧ running σ !! socket_of ev = None)
      then Some (mkSystem (server σ)
                          (<[socket_of ev := first_step (task_of ev)]> (running σ)))
      else None
  | Take channel =>
      match running σ !! channel, consumers (server σ) !! channel,
            take channel (pending (server σ)) with
      | None, Some c, Some (event, rest) =>
          if closed c then None
          else Some (mkSystem (set_pending (server σ) rest)
                              (<[channel := first_step (game_message_task channel event)]>
                                 (running σ)))
      | _, _, _ => None
      end
  | Resume channel =>
      step ← running σ !! channel;
      Some (mkSystem (run step (server σ)).2
                     (settle channel (run step (server σ)).1 (running σ)))
  end.

(** A schedule, action by action. *)
Fixpoint fire_all (schedule : list action) (σ : System) : option System :=
  match schedule with
  | [] => Some σ
  | a :: schedule' => σ' ← fire a σ; fire_all schedule' σ'
  end.

(** The schedule that handles an event of a socket without giving
    way: the handler is started and goes on to its end, and then each
    event it sent is taken and handled by its consumer. *)
Definition uninterrupted (ev : event) (s : Server) : list action :=
  Start ev ::
  replicate (steps (task_of ev) s) (Resume (socket_of ev)) ++
  flat_map (λ item, [Take item.1; Resume item.1])
           (pending (run (complete (task_of ev)) s).2).

End system.

(** A server with no handler running. *)
Definition idle (s : Server) : System := mkSystem s ∅.

(** Every step of the task keeps the database well formed, by the
    effects of the database methods, whatever the server it runs
    on. *)
Fixpoint safe (t : Task) : Prop :=
  match t with
  | Finished => True
  | Await step =>
      ∀ s, world_ok (db s) →
        match run step s with
        | (Ok t', s') => effects (db s) (db s') ∧ safe t'
        | (Raise _, s') => effects (db s) (db s')
        end
  end.

(** The database is well formed and so is what is left of every
    handler. *)
Definition system_ok (σ : System) : Prop :=
  world_ok (db (server σ)) ∧
  map_Forall (λ _ step, safe (Await step)) (running σ).

(** A computation that changes the database, if at all, by the effects
    of the database methods. *)
Definition calm {A : Type} (m : G A) : Prop :=
  ∀ s, world_ok (db s) → effects (db s) (db (run m s).2).

(** A schedule of the handlers of two frames: alice's move and bob's
    are accepted in that order, and the handler of bob's frame is
    resumed before that of alice's.  The schedules of [fire_all] are
    all the orders of the steps; which of them an event loop takes is
    not part of the model. *)
Definition overtaking : list action :=
  [ Start (Receive "ch.alice" (move_text "4")); Resume "ch.alice";
    Start (Receive "ch.bob" (move_text "0")); Resume "ch.bob";
    Resume "ch.bob"; Resume "ch.alice";
    Take "ch.alice"; Resume "ch.alice"; Take "ch.alice"; Resume "ch.alice";
    Take "ch.bob"; Resume "ch.bob"; Take "ch.bob"; Resume "ch.bob" ].

(** The events the layer holds are one message for open sockets. *)
Definition deliverable (s : Server) : Prop :=
  ∃ l message,
    pending s = (λ channel, (channel, game_message_event message)) <$> l ∧
    ∀ channel, channel ∈ l → ∃ c, consumers s !! channel = Some c ∧ open c = true.

(** ** The effects of a step on the database *)

Section calm.
Context `{Libraries}.
Implicit Types (s : Server) (w : World) (self group channel tag rc : string)
  (frame event : json) (e : exn).

Lemma effects_ok w w' : world_ok w → effects w w' → world_ok w'.
Proof. intros Hw. induction 1; eauto using effect_ok. Qed.

Lemma calm_same {A} (m : G A) : (∀ s, db (run m s).2 = db s) → calm m.
Proof. intros Hm s _. rewrite Hm. apply rtc_refl. Qed.

Lemma calm_bind {A B} (m : G A) (f : A → G B) :
  calm m → (∀ x, calm (f x)) → calm (m ≫= f).
Proof.
  intros Hm Hf s Hw. rewrite run_bind. specialize (Hm s Hw).
  destruct (run m s) as [[e|x] s']; [done|]. etrans; [exact Hm|].
  apply Hf. by eapply effects_ok.
Qed.

Lemma calm_try {A} (m : G A) (h : exn → G A) :
  calm m → (∀ e, calm (h e)) → calm (try_except m h).
Proof.
  intros Hm Hh s Hw. rewrite run_try. specialize (Hm s Hw).
  destruct (run m s) as [[e|x] s']; [|done]. etrans; [exact Hm|].
  apply Hh. by eapply effects_ok.
Qed.

Lemma calm_lift {A} (r : Result A) : calm (lift r).
Proof. by apply calm_same. Qed.

Lemma calm_ret {A} (x : A) : calm (mret x).
Proof. by apply calm_same. Qed.

Lemma calm_modify (f : Server → Server) : (∀ s, db (f s) = db s) → calm (modify f).
Proof. intros Hf. by apply calm_same. Qed.

Lemma calm_instance self : calm (instance self).
Proof. apply calm_same. intros s. simpl. by destruct (consumers s !! self). Qed.

Lemma calm_update_self self f : calm (update_self self f).
Proof. by apply calm_modify. Qed.

Lemma calm_group_send group event : calm (group_send group event).
Proof. by apply calm_modify. Qed.

Lemma calm_log_error tag e : calm (log_error tag e).
Proof. intros s _. apply rtc_once, effect_log. Qed.

Lemma calm_send self frame : calm (send self frame).
Proof.
  apply calm_bind; [apply calm_instance|]. intros c.
  destruct (open c); [apply calm_update_self|apply calm_lift].
Qed.

(** A database method behind [database_sync_to_async]. *)
Lemma calm_database {A} (m : M A) :
  (∀ w, world_ok w → effects w (run m w).2) → calm (database_sync_to_async m).
Proof. intros Hm s Hw. rewrite run_database. by apply Hm. Qed.

Lemma effects_add_player w rc uid :
  world_ok w → effects w (run (add_player_to_game rc uid) w).2.
Proof.
  intros Hw. rewrite run_add_player_to_game by done.
  apply rtc_once, add_player_outcome_effect.
Qed.

Lemma effects_make_move w rc uid position :
  world_ok w → effects w (run (make_move rc uid position) w).2.
Proof.
  intros Hw. rewrite run_make_move by done. apply rtc_once, make_move_outcome_effect.
Qed.

Lemma effects_get_game_state w rc : world_ok w → effects w (run (get_game_state rc) w).2.
Proof.
  intros Hw. destruct (games w !! rc) as [g|] eqn:Hg.
  - erewrite run_get_game_state_Some by done. apply rtc_refl.
  - rewrite run_get_game_state_None by done. apply rtc_refl.
Qed.

(** A method called on an instance that has no [user_id] fails inside
    its [try]. *)
Lemma effects_unbound w rc tag :
  effects w (run (try_except (Game_objects_get rc;; raise AttributeError)
                             (handle_errors tag)) w).2.
Proof.
  rewrite run_try, run_bind. simpl. destruct (games w !! rc); simpl.
  - apply rtc_once, effect_log.
  - apply rtc_refl.
Qed.

Lemma calm_bound self tag (method : string → Z → M (option json)) :
  (∀ rc uid w, world_ok w → effects w (run (method rc uid) w).2) →
  calm (bound self tag method).
Proof.
  intros Hm. apply calm_bind; [apply calm_instance|]. intros c.
  apply calm_database. intros w Hw. destruct (self_user_id c); [by apply Hm|].
  apply effects_unbound.
Qed.

Lemma calm_bound_get_game_state self : calm (bound_get_game_state self).
Proof.
  apply calm_bind; [apply calm_instance|]. intros c.
  apply calm_database. intros w Hw. by apply effects_get_game_state.
Qed.

Lemma calm_close self : calm (close self).
Proof. apply calm_update_self. Qed.

Lemma calm_connect_errors self e : calm (connect_errors self e).
Proof.
  unfold connect_errors. destruct (isinstance e InvalidTokenError);
    (apply calm_bind; [apply calm_log_error|intros; apply calm_close]).
Qed.

Lemma calm_receive_errors self e : calm (receive_errors self e).
Proof.
  unfold receive_errors. destruct (isinstance e JSONDecodeError);
    (apply calm_bind; [apply calm_log_error|intros; apply calm_send]).
Qed.

Lemma calm_deliver channel event : calm (deliver channel event).
Proof.
  unfold deliver. repeat case_match; try apply calm_close.
  apply calm_try; [|intros; apply calm_log_error].
  apply calm_bind; [apply calm_lift|intros; apply calm_send].
Qed.

Lemma calm_disconnect self : calm (disconnect self).
Proof.
  apply calm_try; [|intros; apply calm_log_error].
  apply calm_bind; [apply calm_instance|]. intros c. by apply calm_modify.
Qed.

End calm.

(** ** What is left of a handler is safe *)

Section safe.
Context `{Libraries}.
Implicit Types (s : Server) (σ : System) (self group channel : string) (t : Task)
  (a : action) (schedule : list action).

Lemma safe_guarded {A} handler (m : G A) (k : A → Task) :
  calm m → (∀ e, calm (handler e)) → (∀ x, safe (k x)) →
  safe (Await (guarded handler m k)).
Proof.
  intros Hm Hh Hk s Hw. unfold guarded. rewrite run_try, run_bind.
  specialize (Hm s Hw). destruct (run m s) as [[e|x] s']; cbn [snd] in Hm.
  - rewrite run_ret. split; [done|]. intros s1 Hw1. rewrite run_bind.
    pose proof (Hh e s1 Hw1) as He.
    by destruct (run (handler e) s1) as [[e'|[]] s'']; cbn [snd] in He; rewrite ?run_ret.
  - rewrite run_ret. by split.
Qed.

Lemma safe_bind {A} (m : G A) (f : A → G Task) :
  calm m → (∀ x, safe (Await (f x))) → safe (Await (m ≫= f)).
Proof.
  intros Hm Hf s Hw. rewrite run_bind. specialize (Hm s Hw).
  destruct (run m s) as [[e|x] s']; cbn [snd] in Hm; [done|].
  specialize (Hf x s' (effects_ok _ _ Hw Hm)).
  destruct (run (f x) s') as [[e|t'] s'']; [by etrans|].
  destruct Hf. split; [by etrans|done].
Qed.

Lemma safe_ret t : safe t → safe (Await (mret t)).
Proof. intros Ht s Hw. rewrite run_ret. split; [apply rtc_refl|done]. Qed.

Lemma safe_first_step t : safe t → safe (Await (first_step t)).
Proof. destruct t; [apply safe_ret|done]. Qed.

Lemma safe_greet_task self : safe (greet_task self).
Proof.
  apply safe_guarded; [apply calm_bound_get_game_state|apply calm_connect_errors|].
  intros [state|]; [|done].
  by apply safe_guarded; [apply calm_send|apply calm_connect_errors|].
Qed.

Lemma safe_join_task self group : safe (join_task self group).
Proof.
  apply safe_guarded; [|apply calm_connect_errors|].
  { apply calm_bound. intros. by apply effects_add_player. }
  intros [event|]; [|apply safe_greet_task].
  apply safe_guarded; [apply calm_group_send|apply calm_connect_errors|].
  intros _. apply safe_greet_task.
Qed.

Lemma safe_connect_task self rc query_string : safe (connect_task self rc query_string).
Proof.
  apply safe_bind; [by apply calm_modify|]. intros _.
  apply safe_bind; [apply calm_lift|]. intros token.
  apply safe_guarded; [|apply calm_connect_errors|].
  { apply calm_bind; [apply calm_lift|]. intros payload.
    apply calm_bind; [apply calm_lift|]. intros user_id.
    apply calm_bind; [apply calm_update_self|]. intros _. by apply calm_modify. }
  intros _. apply safe_guarded; [apply calm_update_self|apply calm_connect_errors|].
  intros _. apply safe_join_task.
Qed.

Lemma safe_receive_task self text_data : safe (receive_task self text_data).
Proof.
  apply safe_guarded; [|apply calm_receive_errors|].
  { apply calm_bind; [apply calm_lift|]. intros data.
    apply calm_bind; [apply calm_lift|]. intros action.
    destruct (eq_str action "make_move"); [|apply calm_ret].
    apply calm_bind; [apply calm_lift|]. intros position.
    apply calm_bound. intros. by apply effects_make_move. }
  intros [event|]; [|done].
  apply safe_guarded; [|apply calm_receive_errors|done].
  apply calm_bind; [apply calm_instance|]. intros c. apply calm_group_send.
Qed.

Lemma safe_disconnect_task self : safe (disconnect_task self).
Proof.
  apply safe_bind; [apply calm_disconnect|]. intros _.
  apply safe_bind; [apply calm_close|]. intros _. by apply safe_ret.
Qed.

Lemma safe_game_message_task self event : safe (game_message_task self event).
Proof. apply safe_bind; [apply calm_deliver|]. intros _. by apply safe_ret. Qed.

Lemma safe_task_of ev : safe (task_of ev).
Proof.
  destruct ev; [apply safe_connect_task|apply safe_receive_task|apply safe_disconnect_task].
Qed.

(** An action keeps the system safe and changes the database by
    effects of the database methods. *)
Lemma fire_ok a σ σ' :
  system_ok σ → fire a σ = Some σ' →
  system_ok σ' ∧ effects (db (server σ)) (db (server σ')).
Proof.
  intros [Hw Hrun] Hfire. destruct a as [ev|channel|channel]; cbn [fire] in Hfire.
  - case_decide; [|done]. injection Hfire as <-. split; [|apply rtc_refl].
    split; [done|]. apply map_Forall_insert_2; [|done].
    apply safe_first_step, safe_task_of.
  - repeat case_match; try done. injection Hfire as <-. split; [|apply rtc_refl].
    split; [done|]. apply map_Forall_insert_2; [|done].
    apply (safe_game_message_task channel).
  - destruct (running σ !! channel) as [step|] eqn:Hstep; [|done].
    injection Hfire as <-. cbn [server running].
    pose proof (Hrun channel step Hstep (server σ) Hw) as Hsafe.
    destruct (run step (server σ)) as [[e|t'] s'] eqn:Hr; cbn [fst snd settle].
    + split; [|done]. split; [by eapply effects_ok|]. by apply map_Forall_delete.
    + destruct Hsafe as [Heff Ht']. split; [|done]. split; [by eapply effects_ok|].
      destruct t'; [by apply map_Forall_delete|by apply map_Forall_insert_2].
Qed.

Lemma fire_all_ok schedule σ σ' :
  system_ok σ → fire_all schedule σ = Some σ' →
  system_ok σ' ∧ effects (db (server σ)) (db (server σ')).
Proof.
  revert σ. induction schedule as [|a schedule IH]; intros σ Hσ Hfire; simpl in Hfire.
  - injection Hfire as <-. split; [done|apply rtc_refl].
  - destruct (fire a σ) as [σ1|] eqn:Ha; [|done]. simpl in Hfire.
    destruct (fire_ok a σ σ1 Hσ Ha) as [Hσ1 He1].
    destruct (IH σ1 Hσ1 Hfire) as [Hσ' He']. split; [done|by etrans].
Qed.

Lemma system_ok_idle s : world_ok (db s) → system_ok (idle s).
Proof. intros Hw. split; [done|]. apply map_Forall_empty. Qed.

End safe.

(** ** The schedule without interruption *)

Section uninterrupted.
Context `{Libraries}.
Implicit Types (s : Server) (σ : System) (self group channel : string) (t : Task)
  (tasks : gmap string (G Task)) (step : G Task) (l : list string) (message : json).

Lemma steps_Await step s : 0 < steps (Await step) s.
Proof. cbn [steps]. destruct (run step s) as [[e|t'] s']; lia. Qed.

(** A handler that is resumed until it ends does what [complete]
    does. *)
Lemma fire_resumes n step s tasks channel :
  steps (Await step) s = S n →
  fire_all (replicate (S n) (Resume channel)) (mkSystem s (<[channel := step]> tasks)) =
    Some (mkSystem (run (complete (Await step)) s).2 (delete channel tasks)).
Proof.
  revert step s tasks. induction n as [|n IH]; intros step s tasks Hn;
    cbn [replicate fire_all fire running server]; rewrite lookup_insert_eq;
    cbn [mbind option_bind]; rewrite run_complete_await; cbn [steps] in Hn;
    destruct (run step s) as [[e|[|step']] s'] eqn:Hr; cbn [fst snd settle];
    rewrite ?delete_insert_eq, ?insert_insert_eq; try done.
  - pose proof (steps_Await step' s'). lia.
  - apply IH. lia.
Qed.

(** The events of one [group_send], each taken and handled by its
    consumer. *)
Lemma fire_deliveries l message s :
  pending s = (λ channel, (channel, game_message_event message)) <$> l →
  (∀ channel, channel ∈ l → ∃ c, consumers s !! channel = Some c ∧ open c = true) →
  fire_all (flat_map (λ item, [Take item.1; Resume item.1]) (pending s)) (idle s) =
    Some (idle (foldl (λ s channel, reply channel message s) (set_pending s []) l)).
Proof.
  revert s. induction l as [|x l IH]; intros s Hq Hl; rewrite Hq.
  { cbn. destruct s. simpl in *. by subst. }
  destruct (Hl x) as (c & Hc & Ho); [set_solver|].
  assert (closed c = false) as Hcl by (by apply andb_prop in Ho as [_ ?%negb_true_iff]).
  cbn [fmap list_fmap flat_map app fire_all fire idle running server fst snd].
  rewrite lookup_empty, Hc, Hq. cbn [fmap list_fmap take fst snd].
  rewrite decide_True, Hcl by done. cbn [mbind option_bind fire running server].
  rewrite lookup_insert_eq. cbn [mbind option_bind first_step game_message_task].
  rewrite run_bind, (run_deliver _ x c message), run_ret by done.
  cbn [fst snd settle]. rewrite delete_insert_eq, delete_empty.
  set (s' := reply x message (set_pending s _)).
  assert (pending s' = (λ channel, (channel, game_message_event message)) <$> l) as Hq'
    by done.
  fold (idle s'). rewrite <- Hq'. rewrite IH; [done|done|].
  intros channel Hin. destruct (Hl channel) as (c' & Hc' & Ho'); [set_solver|].
  unfold s', reply. cbn [consumers set_consumers set_pending].
  destruct (decide (channel = x)) as [->|Hne].
  - rewrite lookup_alter_eq, Hc. by exists (push message c).
  - rewrite lookup_alter_ne by done. eauto.
Qed.

(** So the events a handler leaves are handled as [drain] does. *)
Lemma fire_drain s :
  deliverable s →
  fire_all (flat_map (λ item, [Take item.1; Resume item.1]) (pending s)) (idle s) =
    Some (idle (run drain s).2).
Proof.
  intros (l & message & Hq & Hl). rewrite (fire_deliveries l message) by done.
  unfold drain. rewrite run_bind, run_get_store. cbv beta iota.
  rewrite run_bind, run_modify. cbv beta iota. rewrite Hq, for_each_fmap.
  cbn [fst snd]. by rewrite run_for_each_deliver.
Qed.

Lemma fire_all_app schedule1 schedule2 σ :
  fire_all (schedule1 ++ schedule2) σ = fire_all schedule1 σ ≫= fire_all schedule2.
Proof.
  revert σ. induction schedule1 as [|a schedule1 IH]; intros σ; [done|].
  cbn [app fire_all]. destruct (fire a σ) as [σ'|]; [apply IH|done].
Qed.

Lemma deliverable_quiet s : pending s = [] → deliverable s.
Proof. intros Hq. exists [], JNull. split; [done|]. by intros channel ?%elem_of_nil. Qed.

Lemma deliverable_submitted s group outcome :
  server_ok (set_db s outcome.2) → method_ok outcome →
  deliverable (submitted group outcome s).
Proof.
  intros Hs [(game_state & Hr & Hev) _]. unfold submitted, returned. rewrite Hr.
  destruct Hev as [->|[message ->]]; [by apply deliverable_quiet, server_ok_quiet|].
  exists (elements (members s group)), message. unfold queued_any, queued.
  pose proof (server_ok_quiet _ Hs) as Hq. cbn [pending set_pending set_db] in *.
  rewrite Hq. split; [done|].
  intros channel Hin%elem_of_elements.
  destruct (server_ok_member _ group channel Hs Hin) as (c & ? & ? & _). eauto.
Qed.

(** What a handler of [Gateway] leaves with the layer can be handled. *)
Lemma deliverable_handler ev s :
  server_ok s → enabled ev s → deliverable (run (handler_of ev) s).2.
Proof.
  intros Hs Hen. pose proof (server_ok_quiet s Hs) as Hq. pose proof (server_ok_world s Hs).
  destruct ev as [self rc q|self text_data|self]; cbn [enabled handler_of] in *.
  - rewrite run_connect by done. unfold connect_result.
    repeat case_match; cbn [snd]; try by apply deliverable_quiet.
    apply deliverable_submitted; [|by apply method_ok_add_player].
    apply server_ok_set_db; [by apply server_ok_greeting|].
    by apply world_ok_add_player_outcome.
  - destruct (consumers s !! self) as [c|] eqn:Hc; [|done].
    erewrite run_receive by done. cbn [snd]. unfold received_by.
    repeat case_match; try by apply deliverable_quiet.
    + by apply deliverable_quiet, server_ok_quiet, server_ok_complained.
    + apply deliverable_submitted; [|by apply method_ok_make_move].
      apply server_ok_set_db; [done|]. by apply world_ok_make_move_outcome.
  - destruct Hen as [c Hc]. erewrite run_disconnect by done.
    by apply deliverable_quiet, server_ok_quiet, server_ok_departed.
Qed.

Lemma next_handler_of ev s : next ev s = (run drain (run (handler_of ev) s).2).2.
Proof.
  unfold next, handle, dispatch. change (match ev with
    | Connect self room_code query_string => connect self room_code query_string
    | Receive self text_data => receive self text_data
    | Disconnect self => disconnect self;; close self
    end) with (handler_of ev). cbn [run]. by destruct (run (handler_of ev) s).
Qed.

(** The two models of the handlers agree: the handling of an event in
    [Gateway] is one schedule of the interleaved system.  Starting the
    handler of the event, letting it go on to its end and then letting
    every consumer handle the event it was sent leads from the server
    before the event to the server [Gateway.next] gives, with no
    handler left running. *)
Lemma uninterrupted_is_next ev s :
  server_ok s → enabled ev s →
  fire_all (uninterrupted ev s) (idle s) = Some (idle (next ev s)).
Proof.
  intros Hs Hen. unfold uninterrupted. cbn [fire_all fire idle server running].
  rewrite decide_True by (split; [done|apply lookup_empty]). cbn [mbind option_bind].
  rewrite fire_all_app. assert (∃ step, task_of ev = Await step) as [step Hstep]
    by (destruct ev; eauto).
  rewrite Hstep. destruct (steps (Await step) s) as [|n] eqn:Hn;
    [pose proof (steps_Await step s); lia|].
  cbn [first_step]. rewrite (fire_resumes n) by done. rewrite delete_empty.
  cbn [mbind option_bind]. rewrite <- Hstep, complete_task_of.
  fold (idle (run (handler_of ev) s).2). rewrite fire_drain by by apply deliverable_handler.
  by rewrite next_handler_of.
Qed.

End uninterrupted.

(** ** Every schedule *)

Section schedules.
Context `{Libraries}.
Implicit Types (s : Server) (σ : System) (schedule : list action) (w : World).

Lemma effects_later w w' : world_ok w → effects w w' → world_later w w'.
Proof.
  intros Hw Heff. induction Heff as [|w1 w2 w3 H12 _ IH]; [done|].
  etrans; [by apply effect_later|]. apply IH. by eapply effect_ok.
Qed.

(** C5: however the handlers of the sockets are interleaved at their
    [await]s, the database stays well formed, every board stays the
    replay of the recorded moves of its game, a game only moves forward
    (players, status and marks are kept, a completed game is not
    touched), and the recorded moves are only appended to. *)
Theorem interleaving_keeps_matches schedule s σ' :
  history_ok (db s) → fire_all schedule (idle s) = Some σ' →
  history_ok (db (server σ')) ∧
  world_later (db s) (db (server σ')) ∧
  ∀ rc, moves_of (db s) rc `prefix_of` moves_of (db (server σ')) rc.
Proof.
  intros Hh Hfire. pose proof Hh as [Hw _].
  destruct (fire_all_ok schedule (idle s) σ' (system_ok_idle s Hw) Hfire) as [_ Heff].
  split_and!.
  - by eapply effects_history.
  - by apply effects_later.
  - intros rc. by apply moves_of_prefix, effects_moves.
Qed.

End schedules.

Lemma interleaving_keeps_matches_witness :
  history_ok (db (server (default (idle playing) (fire_all overtaking (idle playing))))) ∧
  world_later (db playing)
    (db (server (default (idle playing) (fire_all overtaking (idle playing))))) ∧
  ∀ rc, moves_of (db playing) rc `prefix_of`
        moves_of (db (server (default (idle playing)
                                (fire_all overtaking (idle playing))))) rc.
Proof.
  assert (is_Some (fire_all overtaking (idle playing))) as [σ' Hσ'] by by_compute.
  rewrite Hσ'. apply (interleaving_keeps_matches overtaking playing σ'); [by_compute|done].
Defined.
