(* ===== verification/Progress.v ===== *)
(** * Progress

    Two statements that something good can always happen.  A game in
    progress is never stuck: the player to move has a move that
    [make_move] accepts, and playing such moves one after the other
    completes the game within the cells that are left.  And the event
    loop of [Async] can always come to rest: from any state of the
    system the handlers that run can be resumed to their end and the
    events the channel layer holds for open sockets can be handled,
    after which nothing is left to do until a socket speaks again. *)

From stdpp Require Import base option list gmap strings.
From Stdlib Require Import Ascii.
From S2P Require Import Prelude Monad Json Board Models Wellformed Consumers Preservation Protocol Gateway Sessions Tasks Async.

#[local] Set Warnings "-clear-no-such-hyp,-register-all".

(** ** Playing a game to its end *)

(** The first empty cell of the board. *)
Definition first_empty (g : Game) : option nat :=
  fst <$> list_find (λ x, x = "-"%char) (board_list (board g)).

(** The call of [make_move] by the player to move on the first empty
    cell. *)
Definition next_call (rc : string) (g : Game) : option call :=
  uid ← current_turn g;
  i ← first_empty g;
  Some (MakeMove rc uid (JInt (Z.of_nat i))).

(** The calls that play the game of a room on, first empty cell by
    first empty cell, while it is in progress; at most [fuel] of
    them. *)
Fixpoint play_out (fuel : nat) (rc : string) (w : World) : list call :=
  match fuel with
  | 0 => []
  | S fuel' =>
      match games w !! rc with
      | Some g =>
          if decide (status g = IN_PROGRESS) then
            match next_call rc g with
            | Some c => c :: play_out fuel' rc (after c w)
            | None => []
            end
          else []
      | None => []
      end
  end.

(** ** Coming to rest *)

(** Nothing is left to do for the consumer of a channel: it runs no
    handler and can take no event. *)
Definition at_rest `{Libraries} (σ : System) : Prop :=
  ∀ channel, fire (Take channel) σ = None ∧ fire (Resume channel) σ = None.

(** The consumer of the channel of an event can take it. *)
Definition takeable (s : Server) (item : string * json) : Prop :=
  ∃ c, consumers s !! item.1 = Some c ∧ closed c = false.

#[export] Instance takeable_dec s item : Decision (takeable s item).
Proof.
  unfold takeable. destruct (consumers s !! item.1) as [c|].
  - destruct (closed c) eqn:Hc; [right|left]; [intros (? & [= <-] & ?); congruence|eauto].
  - right. by intros (? & ? & _).
Defined.

(** ** A game in progress is never stuck *)

Section play.
Implicit Types (w : World) (g : Game) (rc : string) (uid : Z) (i fuel : nat) (c : call).

(** The player to move is accepted on the first empty cell. *)
Lemma next_call_accepted w rc g :
  world_ok w → games w !! rc = Some g → status g = IN_PROGRESS →
  ∃ uid i, next_call rc g = Some (MakeMove rc uid (JInt (Z.of_nat i))) ∧
    accepts g uid (JInt (Z.of_nat i)) = Some i ∧ is_Some (users w !! uid).
Proof.
  intros Hw Hg Hs. pose proof (world_ok_game _ _ _ Hw Hg) as Hok.
  pose proof (game_ok_in_progress g Hok Hs) as Hin. unfold in_progress_ok in Hin.
  destruct (player2 g) as [p2|] eqn:Hp2; [|done].
  destruct Hin as (_ & _ & _ & Hfull & Hturn).
  assert (∃ uid, current_turn g = Some uid) as [uid Hu] by (destruct Hturn as [[? _]|[? _]]; eauto).
  apply bool_decide_eq_false, dec_stable, list_elem_of_lookup in Hfull as [j Hj].
  destruct (list_find (λ x, x = "-"%char) (board_list (board g))) as [[i x]|] eqn:Hfind;
    last first.
  { apply list_find_None in Hfind. rewrite Forall_forall in Hfind.
    destruct (Hfind "-"%char); [by eapply list_elem_of_lookup_2|done]. }
  pose proof Hfind as (Hi & -> & _)%list_find_Some.
  assert (i < 9) as Hlt.
  { rewrite <- (game_ok_length g Hok). by eapply lookup_lt_Some. }
  exists uid, i. unfold next_call, first_empty. rewrite Hu, Hfind. split; [done|]. split.
  - apply accepts_Some. split_and!; try done. rewrite position_index_int.
    rewrite bool_decide_true by lia. by rewrite Nat2Z.id.
  - destruct (world_ok_fk w rc g uid Hw Hg) as (u & -> & _); eauto.
Qed.

(** What an accepted call leaves. *)
Lemma after_accepted w rc g uid position i :
  world_ok w → games w !! rc = Some g → is_Some (users w !! uid) →
  accepts g uid position = Some i →
  after (MakeMove rc uid position) w = record_move w g uid i.
Proof.
  intros Hw Hg [u Hu] Hacc. unfold after, perform. rewrite run_make_move by done.
  unfold make_move_outcome. by rewrite Hg, Hu, Hacc.
Qed.

(** A game in progress has an empty cell. *)
Lemma in_progress_marks g : game_ok g → status g = IN_PROGRESS → marks (board g) < 9.
Proof.
  intros Hok Hs. pose proof (game_ok_in_progress g Hok Hs) as Hin.
  unfold in_progress_ok in Hin. destruct (player2 g); [|done].
  destruct Hin as (_ & _ & _ & Hfull & _).
  pose proof (count_by_le filled (board_list (board g))) as Hle.
  rewrite (game_ok_length g Hok) in Hle. fold (marks (board g)) in Hle.
  destruct (decide (marks (board g) = 9)) as [Heq|]; [|lia].
  rewrite <- (game_ok_length g Hok) in Heq. apply no_empty_cell_marks in Heq. congruence.
Qed.

(** The row after an accepted call. *)
Lemma after_accepted_row w rc g uid position i :
  world_ok w → games w !! rc = Some g → is_Some (users w !! uid) →
  accepts g uid position = Some i →
  world_ok (after (MakeMove rc uid position) w) ∧
  games (after (MakeMove rc uid position) w) !! rc = Some (played g uid i) ∧
  marks (board (played g uid i)) = S (marks (board g)) ∧
  (status (played g uid i) = COMPLETED ∨ status (played g uid i) = IN_PROGRESS).
Proof.
  intros Hw Hg Hu Hacc. rewrite (after_accepted w rc g uid position i) by done.
  pose proof (world_ok_game _ _ _ Hw Hg) as Hok. split_and!.
  - by eapply world_ok_record_move.
  - unfold record_move. cbn [games set_games].
    by rewrite (world_ok_room_code _ _ _ Hw Hg), lookup_insert_eq.
  - rewrite board_played. by eapply marks_after.
  - rewrite (played_status g uid position i Hacc). repeat case_match; auto.
Qed.

(** Enough fuel plays the game to its end. *)
Lemma play_out_completes fuel w rc g :
  world_ok w → games w !! rc = Some g → status g = IN_PROGRESS →
  9 - marks (board g) ≤ fuel →
  0 < length (play_out fuel rc w) ≤ 9 - marks (board g) ∧
  world_ok (after_all (play_out fuel rc w) w) ∧
  ∃ g', games (after_all (play_out fuel rc w) w) !! rc = Some g' ∧ status g' = COMPLETED.
Proof.
  revert w g. induction fuel as [|fuel IH]; intros w g Hw Hg Hs Hfuel;
    pose proof (in_progress_marks g (world_ok_game _ _ _ Hw Hg) Hs) as Hm; [lia|].
  destruct (next_call_accepted w rc g Hw Hg Hs) as (uid & i & Hc & Hacc & Hu).
  destruct (after_accepted_row w rc g uid _ i Hw Hg Hu Hacc) as (Hw' & Hg' & Hm' & Hs').
  cbn [play_out]. rewrite Hg, decide_True, Hc by done. cbn [length after_all foldl].
  fold (after_all (play_out fuel rc (after (MakeMove rc uid (JInt (Z.of_nat i))) w))
                  (after (MakeMove rc uid (JInt (Z.of_nat i))) w)).
  destruct Hs' as [Hdone|Hgo].
  - assert (play_out fuel rc (after (MakeMove rc uid (JInt (Z.of_nat i))) w) = []) as ->.
    { destruct fuel; [done|]. cbn [play_out]. rewrite Hg'. by rewrite decide_False by congruence. }
    cbn [length after_all foldl]. split; [lia|]. eauto.
  - destruct (IH _ _ Hw' Hg' Hgo) as (Hlen & Hok & Hend); [lia|].
    split; [lia|]. by split.
Qed.

End play.

(** ** The event loop can always come to rest *)

Section rest.
Context `{Libraries}.
Implicit Types (s : Server) (σ : System) (channel : string) (event : json)
  (q rest : list (string * json)) (tasks : gmap string (G Task)).

(** The queue without the event taken. *)
Lemma take_Some channel q event rest :
  take channel q = Some (event, rest) →
  (channel, event) ∈ q ∧ length q = S (length rest).
Proof.
  revert rest. induction q as [|[ch ev] q IH]; intros rest; simpl; [done|].
  case_decide as Hch; simpl in Hch.
  - intros [= <- <-]. subst. split; [left|done].
  - destruct (take channel q) as [[ev' rest']|]; simplify_eq/=; [|done]. intros [= <- <-].
    destruct (IH _ eq_refl) as [Hin Hlen]. split; [by right|]. simpl. by rewrite Hlen.
Qed.

(** An event of the channel in the queue can be taken. *)
Lemma take_is_Some channel q event :
  (channel, event) ∈ q → is_Some (take channel q).
Proof.
  induction q as [|[ch ev] q IH]; [by intros ?%elem_of_nil|]. simpl.
  case_decide as Hch; [done|]. simpl in Hch.
  intros [[= ? ?]|Hin]%elem_of_cons; [done|]. by destruct (IH Hin) as [[??] ->].
Qed.

(** Handling an event of the layer sends no event. *)
Lemma pending_deliver channel event s :
  pending (run (deliver channel event) s).2 = pending s.
Proof.
  unfold deliver, game_message, send, close, log_error, update_self, instance.
  repeat case_match; simpl; repeat case_match; simplify_eq/=; done.
Qed.

(** A consumer takes an event of its channel and handles it. *)
Lemma fire_take channel event rest s c :
  take channel (pending s) = Some (event, rest) →
  consumers s !! channel = Some c → closed c = false →
  ∃ s', fire_all [Take channel; Resume channel] (idle s) = Some (idle s') ∧ pending s' = rest.
Proof.
  intros Htake Hc Hcl. exists (run (deliver channel event) (set_pending s rest)).2.
  split; [|by rewrite pending_deliver].
  cbn [fire_all fire idle running server]. rewrite lookup_empty, Hc, Htake, Hcl.
  cbn [mbind option_bind fire running server]. rewrite lookup_insert_eq.
  cbn [mbind option_bind first_step game_message_task].
  rewrite run_bind. destruct (run (deliver channel event) (set_pending s rest)) as [[e|[]] s'];
    rewrite ?run_ret; cbn [fst snd settle]; by rewrite delete_insert_eq, delete_empty.
Qed.

(** The handlers that run can be resumed to their end. *)
Lemma finish_running tasks s :
  ∃ schedule s', fire_all schedule (mkSystem s tasks) = Some (idle s').
Proof.
  revert s. induction tasks as [|channel step tasks Hnone IH] using map_ind; intros s.
  { by exists [], s. }
  pose proof (steps_Await step s) as Hn.
  destruct (steps (Await step) s) as [|n] eqn:Hsteps; [lia|].
  destruct (IH (run (complete (Await step)) s).2) as (schedule & s' & Hrest).
  exists (replicate (S n) (Resume channel) ++ schedule), s'.
  rewrite fire_all_app, (fire_resumes n) by done. cbn [mbind option_bind].
  by rewrite delete_id.
Qed.

(** The events open sockets can take are taken one by one. *)
Lemma deliver_pending n s :
  length (pending s) ≤ n →
  ∃ schedule s', fire_all schedule (idle s) = Some (idle s') ∧
    Forall (λ item, ¬ takeable s' item) (pending s').
Proof.
  revert s. induction n as [|n IH]; intros s Hlen.
  { exists [], s. split; [done|]. destruct (pending s); [constructor|simpl in Hlen; lia]. }
  destruct (decide (Exists (takeable s) (pending s))) as [Hex|Hno]; last first.
  { exists [], s. split; [done|]. by apply not_Exists_Forall; [apply _|]. }
  apply Exists_exists in Hex as ([channel event] & Hin & c & Hc & Hcl). simpl in Hc.
  destruct (take_is_Some _ _ _ Hin) as [[event' rest] Htake].
  destruct (fire_take _ _ _ _ _ Htake Hc Hcl) as (s1 & Hfire & Hq).
  destruct (IH s1) as (schedule & s' & Hrest & Hquiet).
  { apply take_Some in Htake as [_ Hl]. rewrite Hq. lia. }
  exists ([Take channel; Resume channel] ++ schedule), s'.
  by rewrite fire_all_app, Hfire.
Qed.

(** A server with no handler running and no event an open socket can
    take is at rest. *)
Lemma at_rest_idle s :
  Forall (λ item, ¬ takeable s item) (pending s) → at_rest (idle s).
Proof.
  intros Hq channel. split; [|done]. cbn [fire idle running server]. rewrite lookup_empty.
  destruct (consumers s !! channel) as [c|] eqn:Hc; [|done].
  destruct (take channel (pending s)) as [[event rest]|] eqn:Htake; [|done].
  destruct (closed c) eqn:Hcl; [done|]. apply take_Some in Htake as [Hin _].
  rewrite Forall_forall in Hq. destruct (Hq _ Hin). by exists c.
Qed.

End rest.

(** C17: a game in progress is never stuck and can always be finished:
    in a well-formed database the player to move has a move that
    [make_move] accepts, and the calls of [play_out], each by the
    player to move on the first empty cell, are at least one and at
    most as many as the empty cells, keep the database well formed and
    leave the game completed; nine calls of fuel are enough for every
    game. *)
Theorem game_can_be_finished w rc g :
  world_ok w → games w !! rc = Some g → status g = IN_PROGRESS →
  (∃ uid position i, current_turn g = Some uid ∧ accepts g uid position = Some i) ∧
  0 < length (play_out 9 rc w) ≤ 9 - marks (board g) ∧
  world_ok (after_all (play_out 9 rc w) w) ∧
  ∃ g', games (after_all (play_out 9 rc w) w) !! rc = Some g' ∧ status g' = COMPLETED.
Proof.
  intros Hw Hg Hs. split; [|apply play_out_completes; [done..|lia]].
  destruct (next_call_accepted w rc g Hw Hg Hs) as (uid & i & _ & Hacc & _).
  exists uid, (JInt (Z.of_nat i)), i. split; [|done].
  by apply accepts_Some in Hacc as (_ & ? & _).
Qed.

(** C23: the event loop can always come to rest: from every state of
    the system, whatever handlers are running and whatever events the
    channel layer holds, there is a schedule that resumes every handler
    to its end and lets every consumer with an open socket handle the
    events of its channel, after which no consumer has anything left
    to do; and the database is well formed at rest if it was before. *)
Theorem event_loop_comes_to_rest `{Libraries} (σ : System) :
  ∃ schedule σ', fire_all schedule σ = Some σ' ∧ at_rest σ' ∧ (system_ok σ → system_ok σ').
Proof.
  destruct σ as [s tasks]. destruct (finish_running tasks s) as (schedule1 & s1 & H1).
  destruct (deliver_pending (length (pending s1)) s1) as (schedule2 & s2 & H2 & Hq); [done|].
  exists (schedule1 ++ schedule2), (idle s2).
  assert (fire_all (schedule1 ++ schedule2) (mkSystem s tasks) = Some (idle s2)) as Hfire
    by by rewrite fire_all_app, H1.
  split; [done|]. split; [by apply at_rest_idle|].
  intros Hok. by eapply fire_all_ok.
Qed.

(** ** The theorems at work *)

Lemma game_can_be_finished_witness :
  (∃ uid position i, current_turn open_game = Some uid ∧
                     accepts open_game uid position = Some i) ∧
  0 < length (play_out 9 room open_world) ≤ 9 - marks (board open_game) ∧
  world_ok (after_all (play_out 9 room open_world) open_world) ∧
  ∃ g', games (after_all (play_out 9 room open_world) open_world) !! room = Some g' ∧
        status g' = COMPLETED.
Proof. apply game_can_be_finished; by_compute. Defined.
