(* ===== verification/Frames.v ===== *)
(** * The frames under interleaving

    [Schema] types the frames a consumer sends when every handler runs
    to its end before the next starts.  Here the handlers give way at
    their [await]s as in [Async], and the claim is the same: every
    frame on every socket is one of the dictionaries of the code.  A
    handler that waits holds what it will send later, and the channel
    layer holds the events the consumers have not taken yet; so the
    invariant speaks of the sockets, of the events of the layer and of
    what is left of every handler.  It is proved the way [Async.safe]
    is: a judgement on computations ([keeps]) with a rule for each
    construct, and from it the handlers step by step. *)

From stdpp Require Import base option list gmap strings.
From Stdlib Require Import Ascii.
From S2P Require Import Prelude Monad Json Board Models Wellformed Consumers Preservation Gateway Sessions Schema Tasks Async.

#[local] Set Warnings "-clear-no-such-hyp,-register-all".

(** An event of the channel layer whose message, if the consumer finds
    one, is a dictionary of the code. *)
Definition event_ok (event : json) : Prop :=
  ∀ message, entry event "message" = Some message → frame_ok message = true.

(** The database is well formed, the frames sent so far are typed and
    so are the events the layer holds. *)
Definition sound (s : Server) : Prop :=
  world_ok (db s) ∧ typed s ∧ Forall (λ item, event_ok item.2) (pending s).

(** [m] keeps the server sound, and what it returns satisfies [Q]. *)
Definition keeps {A : Type} (m : G A) (Q : A → Prop) : Prop :=
  ∀ s, sound s → sound (run m s).2 ∧ ∀ x, (run m s).1 = Ok x → Q x.

(** Every step of the task keeps the server sound, whatever the server
    it runs on. *)
Fixpoint sound_task (t : Task) : Prop :=
  match t with
  | Finished => True
  | Await step =>
      ∀ s, sound s →
        match run step s with
        | (Ok t', s') => sound s' ∧ sound_task t'
        | (Raise _, s') => sound s'
        end
  end.

(** The server is sound and so is what is left of every handler. *)
Definition system_sound (σ : System) : Prop :=
  sound (server σ) ∧ map_Forall (λ _ step, sound_task (Await step)) (running σ).

(** What a method may hand to [group_send]. *)
Definition event_or_none (game_state : option json) : Prop :=
  ∀ event, game_state = Some event → event_ok event.

(** What a method may hand to [send]. *)
Definition frame_or_none (state : option json) : Prop :=
  ∀ frame, state = Some frame → frame_ok frame = true.

(** ** The rules of [keeps] *)

Section rules.
Context `{Libraries}.
Implicit Types (s : Server) (w : World) (self group channel tag rc : string)
  (frame event : json) (e : exn).

Lemma sound_consumers s cs :
  sound s → typed (set_consumers s cs) → sound (set_consumers s cs).
Proof. by intros (? & _ & ?) ?. Qed.

Lemma sound_db s w : sound s → world_ok w → sound (set_db s w).
Proof. by intros (_ & ? & ?) ?. Qed.

Lemma sound_groups s gs : sound s → sound (set_groups s gs).
Proof. by intros (? & ? & ?). Qed.

Lemma sound_pending s q :
  sound s → Forall (λ item, event_ok item.2) q → sound (set_pending s q).
Proof. by intros (? & ? & _) ?. Qed.

Lemma keeps_weaken {A} (m : G A) (P Q : A → Prop) :
  (∀ x, P x → Q x) → keeps m P → keeps m Q.
Proof. intros HPQ Hm s Hs. destruct (Hm s Hs). naive_solver. Qed.

Lemma keeps_lift {A} (r : Result A) (Q : A → Prop) :
  (∀ x, r = Ok x → Q x) → keeps (lift r) Q.
Proof. intros HQ s Hs. by rewrite run_lift. Qed.

Lemma keeps_lift_any {A} (r : Result A) : keeps (lift r) (λ _, True).
Proof. by apply keeps_lift. Qed.

Lemma keeps_ret {A} (x : A) (Q : A → Prop) : Q x → keeps (mret x) Q.
Proof. intros HQ. apply (keeps_lift (Ok x)). by intros ? [= <-]. Qed.

Lemma keeps_bind {A B} (m : G A) (f : A → G B) (P : A → Prop) (Q : B → Prop) :
  keeps m P → (∀ x, P x → keeps (f x) Q) → keeps (m ≫= f) Q.
Proof.
  intros Hm Hf s Hs. rewrite run_bind. destruct (Hm s Hs) as [Hs' HP].
  destruct (run m s) as [[e|x] s']; [done|]. by apply Hf; [apply HP|].
Qed.

Lemma keeps_try {A} (m : G A) (h : exn → G A) (Q : A → Prop) :
  keeps m Q → (∀ e, keeps (h e) Q) → keeps (try_except m h) Q.
Proof.
  intros Hm Hh s Hs. rewrite run_try. destruct (Hm s Hs) as [Hs' HQ].
  destruct (run m s) as [[e|x] s']; [by apply Hh|done].
Qed.

Lemma keeps_modify (f : Server → Server) (Q : unit → Prop) :
  (∀ s, sound s → sound (f s)) → Q tt → keeps (modify f) Q.
Proof. intros Hf HQ s Hs. rewrite run_modify. split; [by apply Hf|]. by intros []. Qed.

Lemma keeps_instance self : keeps (instance self) (λ _, True).
Proof. intros s Hs. simpl. by destruct (consumers s !! self). Qed.

(** An assignment to an attribute of the instance that is not the
    frames of its socket. *)
Lemma keeps_update_self self (f : Consumer → Consumer) :
  (∀ c, sent (f c) = sent c) → keeps (update_self self f) (λ _, True).
Proof.
  intros Hf. apply keeps_modify; [|done]. intros s Hs.
  apply sound_consumers; [done|]. apply typed_alter; [|by destruct Hs as (_ & ? & _)].
  intros c. by rewrite Hf.
Qed.

Lemma keeps_send self frame : frame_ok frame = true → keeps (send self frame) (λ _, True).
Proof.
  intros Hf. eapply keeps_bind; [apply keeps_instance|]. intros c _.
  destruct (open c); [|by apply keeps_lift].
  apply keeps_modify; [|done]. intros s Hs. apply sound_consumers; [done|].
  apply (typed_reply s self frame Hf). by destruct Hs as (_ & ? & _).
Qed.

Lemma keeps_group_send group event : event_ok event → keeps (group_send group event) (λ _, True).
Proof.
  intros He. apply keeps_modify; [|done]. intros s Hs. apply sound_pending; [done|].
  apply Forall_app. split; [by destruct Hs as (_ & _ & ?)|].
  apply Forall_fmap, Forall_true. by intros channel.
Qed.

Lemma keeps_group_add group channel : keeps (group_add group channel) (λ _, True).
Proof. apply keeps_modify; [|done]. intros s. apply sound_groups. Qed.

Lemma keeps_group_discard group channel : keeps (group_discard group channel) (λ _, True).
Proof. apply keeps_modify; [|done]. intros s. apply sound_groups. Qed.

(** A database method behind [database_sync_to_async]. *)
Lemma keeps_database {A} (m : M A) (Q : A → Prop) :
  (∀ w, world_ok w → world_ok (run m w).2 ∧ ∀ x, (run m w).1 = Ok x → Q x) →
  keeps (database_sync_to_async m) Q.
Proof.
  intros Hm s Hs. rewrite run_database. destruct (Hm (db s)) as [Hw HQ]; [by destruct Hs|].
  split; [by apply sound_db|done].
Qed.

Lemma keeps_log_error tag e : keeps (log_error tag e) (λ _, True).
Proof. apply keeps_database. intros w Hw. split; [by apply world_ok_set_log|done]. Qed.

Lemma keeps_close self : keeps (close self) (λ _, True).
Proof. by apply keeps_update_self. Qed.

Lemma keeps_accept self : keeps (accept self) (λ _, True).
Proof. by apply keeps_update_self. Qed.

Lemma keeps_connect_errors self e : keeps (connect_errors self e) (λ _, True).
Proof.
  unfold connect_errors. destruct (isinstance e InvalidTokenError);
    (eapply keeps_bind; [apply keeps_log_error|intros; apply keeps_close]).
Qed.

Lemma keeps_receive_errors self e : keeps (receive_errors self e) (λ _, True).
Proof.
  unfold receive_errors. destruct (isinstance e JSONDecodeError);
    (eapply keeps_bind; [apply keeps_log_error|intros; by apply keeps_send]).
Qed.

Lemma keeps_disconnect self : keeps (disconnect self) (λ _, True).
Proof.
  apply keeps_try; [|intros; apply keeps_log_error].
  eapply keeps_bind; [apply keeps_instance|]. intros c _. apply keeps_group_discard.
Qed.

(** The handler of an event the layer held. *)
Lemma keeps_deliver channel event : event_ok event → keeps (deliver channel event) (λ _, True).
Proof.
  intros He. unfold deliver. repeat case_match; try apply keeps_close.
  apply keeps_try; [|intros; apply keeps_log_error].
  eapply (keeps_bind _ _ (λ message, frame_ok message = true)).
  - apply keeps_lift. intros message Hm. apply He. unfold dict_getitem in Hm.
    by destruct (entry event "message"); simplify_eq.
  - intros message Hm. by apply keeps_send.
Qed.

End rules.

(** ** The database methods behind the handlers *)

Section methods.
Context `{Libraries}.
Implicit Types (s : Server) (w : World) (self group tag rc : string) (uid : Z).

(** A method called on an instance: [Q] holds of what it returns, and
    of [None], which is what it returns on an instance that has no
    [user_id]. *)
Lemma keeps_bound self tag (method : string → Z → M (option json)) (Q : option json → Prop) :
  (∀ rc uid w, world_ok w →
     world_ok (run (method rc uid) w).2 ∧ ∀ x, (run (method rc uid) w).1 = Ok x → Q x) →
  Q None → keeps (bound self tag method) Q.
Proof.
  intros Hm HQ. eapply keeps_bind; [apply keeps_instance|]. intros c _.
  apply keeps_database. intros w Hw. destruct (self_user_id c); [by apply Hm|].
  rewrite run_try, run_bind. simpl. destruct (games w !! self_room_code c); simpl.
  - split; [by apply world_ok_set_log|]. by intros ? [= <-].
  - split; [done|]. by intros ? [= <-].
Qed.

Lemma keeps_bound_get_game_state self : keeps (bound_get_game_state self) frame_or_none.
Proof.
  eapply keeps_bind; [apply keeps_instance|]. intros c _.
  apply keeps_database. intros w Hw.
  destruct (games w !! self_room_code c) as [g|] eqn:Hg.
  - erewrite run_get_game_state_Some by done. split; [done|].
    intros ? [= <-] frame [= <-]. apply frame_ok_game_state.
    by destruct (world_ok_game _ _ _ Hw Hg).
  - rewrite run_get_game_state_None by done. split; [done|]. by intros ? [= <-].
Qed.

Lemma keeps_bound_add_player self :
  keeps (bound self "Add Player Error" add_player_to_game) event_or_none.
Proof.
  apply keeps_bound; [|done]. intros rc uid w Hw.
  rewrite run_add_player_to_game by done.
  split; [by apply world_ok_add_player_outcome|].
  intros x Hx event -> message Hm. apply (frame_ok_add_player w rc uid message Hw).
  by rewrite Hx.
Qed.

Lemma keeps_bound_make_move self position :
  keeps (bound self "Make Move Error" (λ rc uid, make_move rc uid position)) event_or_none.
Proof.
  apply keeps_bound; [|done]. intros rc uid w Hw.
  rewrite run_make_move by done.
  split; [by apply world_ok_make_move_outcome|].
  intros x Hx event -> message Hm. apply (frame_ok_make_move w rc uid position message Hw).
  by rewrite Hx.
Qed.

End methods.

(** ** What is left of a handler is sound *)

Section tasks.
Context `{Libraries}.
Implicit Types (s : Server) (σ : System) (self group channel : string) (t : Task)
  (a : action) (schedule : list action).

Lemma sound_guarded {A} handler (m : G A) (k : A → Task) (Q : A → Prop) :
  keeps m Q → (∀ e, keeps (handler e) (λ _, True)) → (∀ x, Q x → sound_task (k x)) →
  sound_task (Await (guarded handler m k)).
Proof.
  intros Hm Hh Hk s Hs. unfold guarded. rewrite run_try, run_bind.
  destruct (Hm s Hs) as [Hs' HQ]. destruct (run m s) as [[e|x] s']; cbn [snd] in Hs'.
  - rewrite run_ret. split; [done|]. intros s1 Hs1. rewrite run_bind.
    destruct (Hh e s1 Hs1) as [He _].
    by destruct (run (handler e) s1) as [[e'|[]] s'']; rewrite ?run_ret.
  - rewrite run_ret. split; [done|]. by apply Hk, HQ.
Qed.

Lemma sound_bind {A} (m : G A) (f : A → G Task) (Q : A → Prop) :
  keeps m Q → (∀ x, Q x → sound_task (Await (f x))) → sound_task (Await (m ≫= f)).
Proof.
  intros Hm Hf s Hs. rewrite run_bind. destruct (Hm s Hs) as [Hs' HQ].
  destruct (run m s) as [[e|x] s']; [done|]. by apply Hf; [apply HQ|].
Qed.

Lemma sound_ret t : sound_task t → sound_task (Await (mret t)).
Proof. intros Ht s Hs. by rewrite run_ret. Qed.

Lemma sound_first_step t : sound_task t → sound_task (Await (first_step t)).
Proof. destruct t; [apply sound_ret|done]. Qed.

Lemma sound_greet_task self : sound_task (greet_task self).
Proof.
  eapply sound_guarded; [apply keeps_bound_get_game_state|apply keeps_connect_errors|].
  intros [state|] Hstate; [|done].
  eapply sound_guarded; [by apply keeps_send, Hstate|apply keeps_connect_errors|done].
Qed.

Lemma sound_join_task self group : sound_task (join_task self group).
Proof.
  eapply sound_guarded; [apply keeps_bound_add_player|apply keeps_connect_errors|].
  intros [event|] Hevent; [|apply sound_greet_task].
  eapply sound_guarded; [by apply keeps_group_send, Hevent|apply keeps_connect_errors|].
  intros _ _. apply sound_greet_task.
Qed.

Lemma sound_connect_task self rc query_string :
  sound_task (connect_task self rc query_string).
Proof.
  eapply sound_bind.
  { apply (keeps_modify _ (λ _, True)); [|done]. intros s Hs.
    apply sound_consumers; [done|]. apply typed_insert; [done|by destruct Hs as (_ & ? & _)]. }
  intros _ _. eapply sound_bind; [apply keeps_lift_any|]. intros token _.
  eapply sound_guarded; [|apply keeps_connect_errors|].
  { eapply keeps_bind; [apply keeps_lift_any|]. intros payload _.
    eapply keeps_bind; [apply keeps_lift_any|]. intros user_id _.
    eapply keeps_bind; [by apply keeps_update_self|]. intros _ _. apply keeps_group_add. }
  intros _ _. eapply sound_guarded; [apply keeps_accept|apply keeps_connect_errors|].
  intros _ _. apply sound_join_task.
Qed.

Lemma sound_receive_task self text_data : sound_task (receive_task self text_data).
Proof.
  eapply (sound_guarded _ _ _ event_or_none); [|apply keeps_receive_errors|].
  { eapply keeps_bind; [apply keeps_lift_any|]. intros data _.
    eapply keeps_bind; [apply keeps_lift_any|]. intros action _.
    destruct (eq_str action "make_move"); [|by apply keeps_ret].
    eapply keeps_bind; [apply keeps_lift_any|]. intros position _.
    apply keeps_bound_make_move. }
  intros [event|] Hevent; [|done].
  eapply sound_guarded; [|apply keeps_receive_errors|done].
  eapply keeps_bind; [apply keeps_instance|]. intros c _. by apply keeps_group_send, Hevent.
Qed.

Lemma sound_disconnect_task self : sound_task (disconnect_task self).
Proof.
  eapply sound_bind; [apply keeps_disconnect|]. intros _ _.
  eapply sound_bind; [apply keeps_close|]. intros _ _. by apply sound_ret.
Qed.

Lemma sound_game_message_task self event :
  event_ok event → sound_task (game_message_task self event).
Proof.
  intros He. eapply sound_bind; [by apply keeps_deliver|]. intros _ _. by apply sound_ret.
Qed.

Lemma sound_task_of ev : sound_task (task_of ev).
Proof.
  destruct ev;
    [apply sound_connect_task|apply sound_receive_task|apply sound_disconnect_task].
Qed.

(** The event a consumer takes is one the layer held, and so are
    those it leaves. *)
Lemma take_Forall (P : string * json → Prop) channel q event rest :
  Forall P q → take channel q = Some (event, rest) → P (channel, event) ∧ Forall P rest.
Proof.
  intros Hq. revert rest. induction Hq as [|[ch ev] q Hitem Hq IH]; intros rest; [done|].
  simpl. case_decide as Hch; simpl in Hch.
  - intros [= <- <-]. by subst.
  - destruct (take channel q) as [[ev' rest']|]; simplify_eq/=; [|done]. intros [= <- <-].
    destruct (IH _ eq_refl). split; [done|by constructor].
Qed.

(** An action keeps the system sound. *)
Lemma fire_sound a σ σ' : system_sound σ → fire a σ = Some σ' → system_sound σ'.
Proof.
  intros [Hs Hrun] Hfire. destruct a as [ev|channel|channel]; cbn [fire] in Hfire.
  - case_decide; [|done]. injection Hfire as <-. split; [done|].
    apply map_Forall_insert_2; [|done]. apply sound_first_step, sound_task_of.
  - repeat case_match; try done. injection Hfire as <-.
    destruct Hs as (Hw & Ht & Hp).
    destruct (take_Forall _ _ _ _ _ Hp ltac:(eassumption)) as [Hev Hrest].
    split; [by split_and!|]. apply map_Forall_insert_2; [|done].
    by apply (sound_game_message_task channel).
  - destruct (running σ !! channel) as [step|] eqn:Hstep; [|done].
    injection Hfire as <-. cbn [server running].
    pose proof (Hrun channel step Hstep (server σ) Hs) as Hstep'.
    destruct (run step (server σ)) as [[e|t'] s'] eqn:Hr; cbn [fst snd settle].
    + split; [done|]. by apply map_Forall_delete.
    + destruct Hstep' as [Hs' Ht']. split; [done|].
      destruct t'; [by apply map_Forall_delete|by apply map_Forall_insert_2].
Qed.

Lemma fire_all_sound schedule σ σ' :
  system_sound σ → fire_all schedule σ = Some σ' → system_sound σ'.
Proof.
  revert σ. induction schedule as [|a schedule IH]; intros σ Hσ Hfire; simpl in Hfire.
  - by injection Hfire as <-.
  - destruct (fire a σ) as [σ1|] eqn:Ha; [|done]. simpl in Hfire.
    eapply IH; [|done]. by eapply fire_sound.
Qed.

(** C16: every frame is a message of the code, however the handlers
    are interleaved.  From a server at rest whose sockets hold typed
    frames, whatever handlers start, give way at their [await]s and
    resume, and in whatever order the consumers take the events of
    the channel layer, every frame on every socket is a dictionary of
    one of the six types of [sent_types], and so is the message of
    every event the layer still holds. *)
Theorem frames_typed_under_interleaving schedule s σ' :
  server_ok s → typed s → fire_all schedule (idle s) = Some σ' →
  typed (server σ') ∧ Forall (λ item, event_ok item.2) (pending (server σ')).
Proof.
  intros (Hw & _ & _ & Hp) Ht Hfire.
  assert (system_sound (idle s)) as Hσ.
  { split; [|apply map_Forall_empty]. split_and!; [done..|]. simpl. rewrite Hp. constructor. }
  by destruct (fire_all_sound schedule _ _ Hσ Hfire) as [(_ & ? & ?) _].
Qed.

End tasks.

Lemma frames_typed_under_interleaving_witness :
  typed (server (default (idle playing) (fire_all overtaking (idle playing)))) ∧
  Forall (λ item, event_ok item.2)
    (pending (server (default (idle playing) (fire_all overtaking (idle playing))))).
Proof.
  assert (is_Some (fire_all overtaking (idle playing))) as [σ' Hσ'] by by_compute.
  rewrite Hσ'. apply (frames_typed_under_interleaving overtaking playing σ');
    [by_compute|by_compute|done].
Defined.
